(* ===== verification/_CoqProject ===== *)
-Q . S2P
Prelude.v
Prog.v
GoErr.v
GoStr.v
Json.v
Types.v
Kube.v
ApiServer.v
Regex.v
Crd.v
EnvTag.v
Sed.v
Authz.v
GoSource.v
PermissionList.v
WorkerCluster.v
Namespaces.v
AppNamespaces.v
ServiceClaimCtrl.v
ClaimProtocol.v
ClaimRace.v
ClaimLiveness.v
RegisteredServiceCtrl.v
CatalogRace.v
ServiceClassCtrl.v
ServiceCatalogCtrl.v
Informers.v
Webhook.v
ClusterEnvCtrl.v
Workload.v
ServiceBindingCtrl.v
AppAgent.v
ClaimRouting.v
SvcAgent.v
Watches.v
Access.v
CrdTyping.v
Commands.v
GoHeap.v
DeepCopy.v
