(* ===== verification/Prelude.v ===== *)
(** * Primaza: a verification library

    Primaza is a Kubernetes operator that lets applications claim services across
    clusters.  A control plane (src/controllers, src/pkg, src/api/v1alpha1) keeps, in
    the namespace of a tenant, cluster environments (a worker cluster with its
    application and service namespaces), registered services, service claims, service
    classes and one service catalog per environment; agents (src/controllers/agents)
    run in the namespaces of the worker clusters: the service agent discovers services
    and registers them in the control plane, the application agent forwards claims to
    it and injects the bindings it gets back into workloads.  This library models the
    control plane, the packages it is made of, both agents and the commands.

    ** How the program is modelled

    A reconciler is a function from the request to a program of type [M] ([Prog.v]):
    a tree of the calls it makes to its surroundings, each followed by what the
    function does with every possible answer.  [Kube.v] lists the calls (API requests
    through the manager's client or a client made from a worker cluster's
    configuration, access reviews, the clock, UUIDs, the order in which a Go map is
    ranged over, files, informers, the set-up of a manager).  Nothing is assumed of the answers but [legal]:
    an object that is read, created or updated is answered under its own key, a list
    in a namespace answers objects of that namespace, and a map is ranged over once
    per key.  In particular other clients may change the cluster between any two
    calls, and every call may fail.  A property is stated over all executions of a
    program with [wp legal p Q] ([kwp]): for each trace of calls and answers and each
    outcome (a return, or a panic), [Q] holds.  Programs are finite trees, so every
    reconciler returns or panics after finitely many calls; no fuel is needed, all
    recursion being structural on the slices the source ranges over.  [run] executes a
    program against a given environment, for examples.

    Go pointers are options; a nil dereference, a write to a nil map and an index out
    of range are panics ([Halt]) where the source has them.  A [*T] that a function
    mutates is passed and returned.  A [map[string]string] is a [gmap], or an optional
    one where nil matters.  Go errors ([GoErr.v]) keep what the program looks at:
    status reasons, wrapping, joining.

    ** Files

    - [Prelude], [Prog], [GoErr], [GoStr], [Json]: lists, options, programs and their
      logic, Go errors, Go string functions, unstructured JSON objects.
    - [Types]: api/v1alpha1 (the types of the custom resources) and the Kubernetes
      types the program uses.  [Kube]: calls, legality, finalizers, owner references,
      CreateOrUpdate and status conditions (vendored controller-runtime and
      apimachinery helpers), loops that collect errors.
    - [Regex], [Crd]: the schemas of the custom resources, generated from the validation
      markers of api/v1alpha1, with the regular expressions they use, and what it means
      for a program to send only objects that satisfy them.
    - [EnvTag]: pkg/envtag and pkg/slices.  [Sed]: pkg/primaza/sed.  [Authz]:
      pkg/authz, pkg/primaza/workercluster/authz and the permission checker.
      [GoSource]: the fragment of Go in which hack/permissionlist writes its output, with
      the program itself in [PermissionList].
    - [WorkerCluster]: pkg/primaza/clustercontext, workercluster and constants.
      [Namespaces]: the binder, unbinder and reconciler of namespaces of
      pkg/primaza/controlplane.  [AppNamespaces]: application_namespaces.go and
      serviceclasses.go of that package.
    - [ServiceClaimCtrl], [RegisteredServiceCtrl], [ServiceClassCtrl],
      [ServiceCatalogCtrl], [ClusterEnvCtrl]: the controllers of the control plane,
      one file each, with the same function names.  [Informers]: the informers of the
      cluster environment controller and their event handlers.
    - [ClaimProtocol]: the abstract protocol of a claim, a state machine, which the
      service claim controller is proved to implement.  [ClaimLiveness]: surroundings
      that cooperate, in which a claim is resolved.
    - [ApiServer]: the API server's optimistic concurrency, for the objects of a kind, as
      a relation on a log in which any number of runs are interleaved.  [ClaimRace] and
      [CatalogRace]: what it gives the controllers of service claims and of registered
      services.  [ClaimRouting] puts the application agent, the API server and the
      service claim controller together and follows a claim from one to the other.
    - [Webhook]: the validating webhook of service classes.
    - [Workload]: servicebinding_controller.go of controllers/agents/app, as far as it
      rewrites the volumes and containers of a workload.  [ServiceBindingCtrl]: the
      rest of that controller and its informers.  [AppAgent]: the application agent's
      claim, catalog and deployment controllers, a Module each.
    - [SvcAgent]: controllers/agents/svc.
    - [Watches]: the SetupWithManager functions, as data: what a controller watches, and
      the part of controller-runtime (vendored) that turns the events of an object into
      requests.
    - [Access]: the accesses to the API server that each call needs, the roles of the
      control plane (the markers of the controllers) and of the agents, and that they
      suffice for what the programs do and watch.
    - [CrdTyping]: what the controllers, the health monitor and the handlers of informers
      of the files above send satisfies the schemas, and where it does not.
    - [Commands]: cmd/primaza and cmd/agents, a Module each.
    - [GoHeap]: Go values that refer to cells of a heap, and what a deep copy is.
      [DeepCopy]: zz_generated.deepcopy.go of api/v1alpha1 on such values, and the
      registration of the types.

    ** What the theorems show

    - Claims: a claim touches one registered service, the first available one with its
      identity (as a multiset) that accepts the environment; a run implements the
      protocol (take one service, publish while holding it, then resolve the claim with
      it or give it back), and it ends without an error while a service is left claimed
      and the claim pending only when the push failed with "not found";
      when every call succeeds, a claim that can be served is resolved, also in the
      application namespace it was made in;
      whatever the interleaving and however stale the lists, a run takes a service that
      was marked as claimed only after it was freed, or for a claim that was answered as
      resolved with it; the roll back of a failed push is always refused; a claim made in an
      application namespace is delivered to that namespace of that environment and
      nowhere else; what the pushed
      secret and binding hold and where they go; the claim's finalizer goes only after
      its bindings.
    - Registered services: the published state is the one the health check gives; a
      catalog lists a service exactly when it is available and accepted; runs that share
      a catalog never undo each other's work in it, nor list a service twice.
    - Service classes and catalogs: they are written only in the namespaces of the
      environments that accept them, and a run without error has left them in all of
      them.
    - Cluster environments: which states are published and on what evidence; the
      permission test fails exactly the namespaces denied an access; nothing is
      created or updated in a namespace that failed; orphan namespaces and only they
      are unbound, one namespace's failure never stops the others and is reported;
      when the catalog of an environment is created, with what, and when deleted.
    - Application agent: what binding and unbinding do to a container, that binding
      twice is binding once and unbinding undoes it; a binding is published as bound
      only with workloads that were updated; a claim's copy goes to the control plane
      under the target of this environment and namespace, and nothing else is written.
    - Service agent: what is registered for a resource, and that nothing else is
      written.
    - Commands: a manager is made for the namespace the environment names; the bounds
      of the health check interval.
    - Watches: an event of an object that a controller has made its own requests the
      object the run reconciled; which claims a change of a registered service requests,
      and that the run for a claim whose service is gone changes nothing after it has
      failed to read it; a status update requests no claim; an agent is told of its own
      deployment only.
    - Roles: every access that the control plane and the agents make to the kinds modelled
      is granted by the role they run under; the generated permission lists say what the
      roles do.
    - Packages: the meaning of constraints, of permission reports and excess lists, of
      status conditions, of service endpoint mappings.
    - Schemas: what the controllers create, update and publish is accepted by the API
      server's validation, but for three cases: the status of a failed binding, whose
      reason is not a legal one and which is therefore never published; the copy of a claim
      over one of the same name with another identity or other keys, which are immutable;
      and a service registered for a class without mappings, whose definition is null.
    - Deep copies: a copy of an object reads as the original and shares no memory with it,
      for every type of the API group.  The other files, in which a Go value is what it
      contains, rely on this for the copies that the source makes.
    - Several theorems establish behaviour that falls short of what the code or its
      documentation intends: role bindings that survive unbinding, informers of other
      environments being cancelled, an unreachable environment becoming Partial, the
      nil dereference on claims without a service, classes without constraints never
      being removed, the stale object used to free a service, variables that binding
      removes from a container, an application agent that watches every namespace.

    ** What is not modelled

    - Of the accesses: workloads and the resources of service classes, which an
      administrator grants, events, and the namespace of an access.
    - Of the schemas: the bound on the length of a condition's message (the messages
      carry texts of errors, which nothing bounds).
    - Logging, contexts and their cancellation, command line flags, mutexes (each
      informer map of the control plane is changed under its mutex, hence by one pass
      at a time; the agents' maps have none, and a run is given the names of the
      informers that are running), the work queue of a controller and its retries.
    - client-go's informers: their handlers are programs run on an event's object; that
      a workload taken from an informer's cache is changed in place is not.
    - The difference between a nil and an empty slice, except in the fields that the
      schemas require to be arrays ([slice] of [Types]), in the conditions of a cluster
      environment, and where the source tests for nil a pointer or a map.
    - Libraries that are only called: the YAML decoder, the kubeconfig loader, JSONPath,
      label requirements, the unstructured converter and the decoder of roles are parameters (type classes),
      about which the theorems assume nothing, but for the round trip of a container
      through the converter ([ContainerLaws] of [Workload], with an instance). *)

From stdpp Require Export base gmap strings list pretty sorting.

(** ** Scopes and notations *)

Declare Scope primaza_scope.
Delimit Scope primaza_scope with primaza.

(** String concatenation, as Go's [+] and [fmt.Sprintf] on strings. *)
Infix "+++" := String.append (at level 60, right associativity) : primaza_scope.
#[global] Open Scope primaza_scope.

(** Boolean tests of the source: [b ? x : y] on decidable propositions. *)
Notation "⟪ P ⟫" := (bool_decide P) (at level 0, P at level 200) : primaza_scope.

(** ** Tactics *)

(** Splits every [match]/[if] on which the goal or a hypothesis is stuck. *)
Ltac split_matches :=
  repeat match goal with
         | |- context [match ?x with _ => _ end] => destruct x eqn:?; simplify_eq/=
         end.

(** Reads boolean tests back as propositions. *)
Ltac bools :=
  repeat match goal with
         | H : bool_decide _ = true |- _ => apply bool_decide_eq_true_1 in H
         | H : bool_decide _ = false |- _ => apply bool_decide_eq_false_1 in H
         | H : negb _ = true |- _ => apply negb_true_iff in H
         | H : negb _ = false |- _ => apply negb_false_iff in H
         | H : _ && _ = true |- _ => apply andb_true_iff in H as [? ?]
         | H : _ || _ = false |- _ => apply orb_false_iff in H as [? ?]
         end.

Create HintDb primaza.

(** ** Lists *)

(** The first element that satisfies a test: the [for ... { if p { x = e; break } }]
    loops of the source. *)
Fixpoint find_first {A} (p : A → bool) (l : list A) : option A :=
  match l with
  | [] => None
  | x :: l' => if p x then Some x else find_first p l'
  end.

Lemma find_first_Some {A} (p : A → bool) l x :
  find_first p l = Some x ↔
  ∃ l1 l2, l = l1 ++ x :: l2 ∧ p x = true ∧ Forall (λ y, p y = false) l1.
Proof.
  split.
  - induction l as [|y l IH]; simpl; [done|].
    destruct (p y) eqn:Hp; intros Heq; simplify_eq.
    + exists [], l. eauto.
    + destruct (IH Heq) as (l1 & l2 & -> & ? & ?).
      exists (y :: l1), l2. repeat split; auto.
  - intros (l1 & l2 & -> & Hx & Hl). revert Hl.
    induction l1 as [|y l1 IH]; simpl; [by rewrite Hx|].
    intros [-> Hl]%Forall_cons. by apply IH.
Qed.

Lemma find_first_None {A} (p : A → bool) l :
  find_first p l = None ↔ Forall (λ y, p y = false) l.
Proof.
  induction l as [|y l IH]; simpl; [by split; auto|].
  rewrite Forall_cons, <- IH.
  destruct (p y); [split; [done|by intros [? _]]|split; [by split|by intros [_ ?]]].
Qed.

Lemma find_first_elem {A} (p : A → bool) l x :
  find_first p l = Some x → x ∈ l ∧ p x = true.
Proof.
  intros (l1 & l2 & -> & Hx & _)%find_first_Some. split; [set_solver|done].
Qed.

(** Every element satisfies a property: monotonicity in the shape the trace
    lemmas use it. *)
Lemma Forall_app_cons {A} (P : A → Prop) l1 x l2 :
  Forall P l1 → P x → Forall P l2 → Forall P (l1 ++ x :: l2).
Proof. intros. apply Forall_app; split; [done|]. by constructor. Qed.

Lemma filter_all {A} (P : A → Prop) `{∀ x, Decision (P x)} (l : list A) :
  Forall P l → filter P l = l.
Proof. induction 1 as [|x l Hx _ IH]; [done|]. rewrite filter_cons, decide_True by done. by rewrite IH. Qed.

#[export] Hint Resolve Forall_app_cons : primaza.
#[export] Hint Constructors Forall Exists : primaza.

(** ** Options *)

(** Go's [*string] dereference with an explicit nil case. *)
Definition is_nil {A} (o : option A) : bool :=
  match o with None => true | Some _ => false end.

Lemma is_nil_true {A} (o : option A) : is_nil o = true ↔ o = None.
Proof. by destruct o. Qed.
Lemma is_nil_false {A} (o : option A) : is_nil o = false ↔ is_Some o.
Proof. destruct o; simpl; [split; eauto|]. split; [done|]. by intros [? ?]. Qed.

