(* ===== verification/Prog.v ===== *)
(** * Effectful programs

    A Go function that talks to its environment is a tree of the calls it makes:
    [Ret] is its return value, [Halt] a panic or [os.Exit], and [Vis a k] the call
    [a] followed by what the function does with each possible answer.  The
    environment is never defined: a property of a program is stated over all its
    executions, that is over all (legal) answers to its calls, by [wp]; [run] is
    an execution against a given environment, and is what examples compute. *)

From S2P Require Import Prelude.

(** How a program may stop without returning. *)
Inductive halt :=
| GoPanic (msg : string)
| OsExit (code : Z).

Inductive outcome (A : Type) :=
| Done (a : A)
| Halted (h : halt).
Arguments Done {A} a.
Arguments Halted {A} h.

Section Prog.
Context {Call : Type} {Answer : Call → Type}.

Inductive Prog (A : Type) : Type :=
| Ret (a : A)
| Halt (h : halt)
| Vis (c : Call) (k : Answer c → Prog A).
Arguments Ret {A} a.
Arguments Halt {A} h.
Arguments Vis {A} c k.

Fixpoint prog_bind {A B} (p : Prog A) (f : A → Prog B) : Prog B :=
  match p with
  | Ret a => f a
  | Halt h => Halt h
  | Vis c k => Vis c (λ r, prog_bind (k r) f)
  end.

#[export] Instance prog_ret_inst : MRet Prog := @Ret.
#[export] Instance prog_bind_inst : MBind Prog := λ A B f p, prog_bind p f.

Definition call (c : Call) : Prog (Answer c) := Vis c Ret.

(** One call of an execution and its answer. *)
Definition event : Type := { c : Call & Answer c }.
Definition Ev (c : Call) (r : Answer c) : event := existT c r.

(** Which answers the environment may give. *)
Context (legal : ∀ c, Answer c → Prop).

(** [exec p t o]: the program makes the calls of [t], gets the answers of [t],
    and ends with [o]. *)
Fixpoint exec {A} (p : Prog A) (t : list event) (o : outcome A) : Prop :=
  match p with
  | Ret a => t = [] ∧ o = Done a
  | Halt h => t = [] ∧ o = Halted h
  | Vis c k =>
      match t with
      | [] => False
      | ev :: t' => ∃ r, ev = Ev c r ∧ legal c r ∧ exec (k r) t' o
      end
  end.

(** Every execution satisfies [Q]. *)
Definition wp {A} (p : Prog A) (Q : list event → outcome A → Prop) : Prop :=
  ∀ t o, exec p t o → Q t o.

Lemma wp_ret {A} (a : A) (Q : list event → outcome A → Prop) :
  Q [] (Done a) → wp (Ret a) Q.
Proof. by intros HQ t o [-> ->]. Qed.

Lemma wp_halt {A} h (Q : list event → outcome A → Prop) :
  Q [] (Halted h) → wp (Halt h) Q.
Proof. by intros HQ t o [-> ->]. Qed.

Lemma wp_vis {A} c k (Q : list event → outcome A → Prop) :
  (∀ r, legal c r → wp (k r) (λ t o, Q (Ev c r :: t) o)) → wp (Vis c k) Q.
Proof. intros HQ [|ev t] o; simpl; [done|]. intros (r & -> & Hr & He). by apply HQ. Qed.

Lemma wp_mono {A} (p : Prog A) (Q Q' : list event → outcome A → Prop) :
  wp p Q → (∀ t o, Q t o → Q' t o) → wp p Q'.
Proof. intros Hp HQ t o He. by apply HQ, Hp. Qed.

Lemma wp_and {A} (p : Prog A) (Q Q' : list event → outcome A → Prop) :
  wp p Q → wp p Q' → wp p (λ t o, Q t o ∧ Q' t o).
Proof. intros H H' t o He. split; [by apply H|by apply H']. Qed.

(** The answers of an execution are legal ones. *)
Lemma wp_legal {A} (p : Prog A) : wp p (λ t _, Forall (λ ev, legal (projT1 ev) (projT2 ev)) t).
Proof.
  intros t o. revert t. induction p as [a|h|c k IH]; simpl; intros t He.
  1,2: by destruct He as [-> _].
  destruct t as [|ev t]; [done|]. destruct He as (r & -> & Hr & He). constructor; [done|by eapply IH].
Qed.

(** An execution of one call. *)
Lemma exec_call_inv c t r : exec (call c) t (Done r) → t = [Ev c r] ∧ legal c r.
Proof.
  unfold call. simpl. destruct t as [|ev t]; [done|]. by intros (r' & -> & Hr & -> & [= ->]).
Qed.

(** A program that makes no call is its result. *)
Lemma wp_silent {A} (p : Prog A) :
  wp p (λ t _, t = []) → wp p (λ t o, t = [] ∧ ∀ a, o = Done a → p = Ret a).
Proof.
  intros Hp t o He. assert (Ht := Hp t o He). split; [done|]. intros a ->. subst t.
  destruct p as [a'|h|c k]; simpl in He; [|by destruct He..].
  by destruct He as [_ [= ->]].
Qed.

Lemma exec_bind_inv {A B} (p : Prog A) (f : A → Prog B) t o :
  exec (prog_bind p f) t o →
  (∃ t1 t2 a, t = t1 ++ t2 ∧ exec p t1 (Done a) ∧ exec (f a) t2 o) ∨
  (∃ h, exec p t (Halted h) ∧ o = Halted h).
Proof.
  revert t. induction p as [a|h|c k IH]; simpl; intros t He.
  - left. exists [], t, a. done.
  - right. destruct He as [-> ->]. by exists h.
  - destruct t as [|ev t]; [done|]. destruct He as (r & -> & Hr & He).
    destruct (IH r t He) as [(t1 & t2 & a & -> & ? & ?)|(h & ? & ->)].
    + left. exists (Ev c r :: t1), t2, a. naive_solver.
    + right. exists h. naive_solver.
Qed.

Lemma exec_bind {A B} (p : Prog A) (f : A → Prog B) t1 t2 a o :
  exec p t1 (Done a) → exec (f a) t2 o → exec (prog_bind p f) (t1 ++ t2) o.
Proof.
  revert t1. induction p as [a'|h|c k IH]; simpl; intros t1 H1 H2.
  - destruct H1 as [-> [= ->]]. done.
  - by destruct H1.
  - destruct t1 as [|ev t1]; [done|]. destruct H1 as (r & -> & Hr & He).
    exists r. auto.
Qed.

Lemma wp_bind {A B} (p : Prog A) (f : A → Prog B) Q :
  wp p (λ t o, match o with
               | Done a => wp (f a) (λ t' o', Q (t ++ t') o')
               | Halted h => Q t (Halted h)
               end) →
  wp (p ≫= f) Q.
Proof.
  intros Hp t o [(t1 & t2 & a & -> & H1 & H2)|(h & H1 & ->)]%exec_bind_inv.
  - by apply (Hp t1 (Done a) H1).
  - by apply (Hp t (Halted h) H1).
Qed.

Lemma wp_call_bind {A} c (f : Answer c → Prog A) Q :
  (∀ r, legal c r → wp (f r) (λ t o, Q (Ev c r :: t) o)) → wp (call c ≫= f) Q.
Proof. intros H. apply wp_vis. intros r Hr. by apply H. Qed.

Lemma wp_call c Q : (∀ r, legal c r → Q [Ev c r] (Done r)) → wp (call c) Q.
Proof. intros H. apply wp_vis. intros r Hr. by apply wp_ret, H. Qed.

Lemma wp_ret_bind {A B} (a : A) (f : A → Prog B) Q : wp (f a) Q → wp (Ret a ≫= f) Q.
Proof. done. Qed.

Lemma wp_halt_bind {A B} h (f : A → Prog B) Q : Q [] (Halted h) → wp (Halt h ≫= f) Q.
Proof. apply wp_halt. Qed.

Lemma exec_bind_assoc {A B C} (p : Prog A) (f : A → Prog B) (g : B → Prog C) t o :
  exec ((p ≫= f) ≫= g) t o ↔ exec (p ≫= λ a, f a ≫= g) t o.
Proof.
  revert t. induction p as [a|h|c k IH]; intros t; [done..|].
  cbn. destruct t as [|ev t]; [done|].
  split; intros (r & -> & Hr & He); exists r; (do 2 (split; [done|])); by apply IH.
Qed.

Lemma wp_bind_assoc {A B C} (p : Prog A) (f : A → Prog B) (g : B → Prog C) Q :
  wp (p ≫= λ a, f a ≫= g) Q → wp ((p ≫= f) ≫= g) Q.
Proof. intros H t o He%exec_bind_assoc. by apply H. Qed.

(** A program run for a specification it already has. *)
Lemma wp_bind_spec {A B} (P : list event → outcome A → Prop) (p : Prog A) (f : A → Prog B) Q :
  wp p P →
  (∀ t a, P t (Done a) → wp (f a) (λ t' o', Q (t ++ t') o')) →
  (∀ t h, P t (Halted h) → Q t (Halted h)) →
  wp (p ≫= f) Q.
Proof.
  intros Hp Hf Hh. apply wp_bind. eapply wp_mono; [exact Hp|]. intros t [a|h] HP; auto.
Qed.

(** Monad laws that need no extensionality. *)
Lemma prog_bind_ret_l {A B} (a : A) (f : A → Prog B) : prog_bind (Ret a) f = f a.
Proof. done. Qed.

(** ** Running against an environment *)

(** An environment: a state, and an answer to each call. *)
Fixpoint run {A W} (h : ∀ c, W → Answer c * W) (p : Prog A) (w : W)
    : list event * outcome A * W :=
  match p with
  | Ret a => ([], Done a, w)
  | Halt e => ([], Halted e, w)
  | Vis c k =>
      let '(r, w') := h c w in
      let '(t, o, w'') := run h (k r) w' in
      (Ev c r :: t, o, w'')
  end.

Definition run_trace {A W} (h : ∀ c, W → Answer c * W) (p : Prog A) (w : W) : list event :=
  (run h p w).1.1.
Definition run_outcome {A W} (h : ∀ c, W → Answer c * W) (p : Prog A) (w : W) : outcome A :=
  (run h p w).1.2.

Lemma run_exec {A W} (h : ∀ c, W → Answer c * W) (p : Prog A) (w : W) :
  (∀ c w, legal c (h c w).1) →
  exec p (run_trace h p w) (run_outcome h p w).
Proof.
  intros Hh. unfold run_trace, run_outcome. revert w.
  induction p as [a|e|c k IH]; simpl; intros w; [done..|].
  destruct (h c w) as [r w'] eqn:Hc. specialize (IH r w').
  destruct (run h (k r) w') as [[t o] w'']; simpl in *.
  exists r. split; [done|]. split; [|done].
  specialize (Hh c w). by rewrite Hc in Hh.
Qed.

(** ** Trace properties *)

(** Every call of every execution satisfies [P]. *)
Definition only_calls {A} (P : Call → Prop) (p : Prog A) : Prop :=
  wp p (λ t _, Forall (λ ev : event, P (projT1 ev)) t).

Lemma only_calls_ret {A} P (a : A) : only_calls P (Ret a).
Proof. apply wp_ret. constructor. Qed.
Lemma only_calls_halt {A} P h : only_calls P (@Halt A h).
Proof. apply wp_halt. constructor. Qed.
Lemma only_calls_call P c : P c → only_calls P (call c).
Proof. intros HP. apply wp_vis. intros r _. apply wp_ret. by repeat constructor. Qed.
Lemma only_calls_bind {A B} P (p : Prog A) (f : A → Prog B) :
  only_calls P p → (∀ a, only_calls P (f a)) → only_calls P (p ≫= f).
Proof.
  intros Hp Hf. apply wp_bind. eapply wp_mono; [apply Hp|].
  intros t [a|h] Ht; [|done]. eapply wp_mono; [apply (Hf a)|].
  intros t' o' Ht'. by apply Forall_app.
Qed.
Lemma only_calls_mono {A} (P P' : Call → Prop) (p : Prog A) :
  only_calls P p → (∀ c, P c → P' c) → only_calls P' p.
Proof. intros Hp HP. eapply wp_mono; [apply Hp|]. intros t o Ht.
  eapply Forall_impl; [exact Ht|]. simpl. auto.
Qed.

(** In the trace, each event satisfying [P] has an earlier one satisfying [P0]. *)
Definition preceded (P0 P : event → Prop) (t : list event) : Prop :=
  ∀ t1 ev t2, t = t1 ++ ev :: t2 → P ev → Exists P0 t1.

Lemma preceded_none P0 P t : Forall (λ ev, ¬ P ev) t → preceded P0 P t.
Proof.
  intros Hf t1 ev t2 -> HP. apply Forall_app in Hf as [_ Hf].
  by apply Forall_cons in Hf as [? _].
Qed.
Lemma preceded_app P0 P t1 t2 :
  preceded P0 P t1 → (Exists P0 t1 ∨ preceded P0 P t2) → preceded P0 P (t1 ++ t2).
Proof.
  intros H1 H2 u ev v Heq HP.
  apply app_eq_inv in Heq as [(k & -> & Hk)|(k & -> & ->)].
  - destruct k as [|ev' k]; simplify_eq/=.
    + destruct H2 as [H2|H2]; [by rewrite app_nil_r in H2|].
      specialize (H2 [] ev v eq_refl HP). by apply Exists_nil in H2.
    + by eapply H1.
  - apply Exists_app. destruct H2 as [H2|H2]; [by left|]. right. by eapply H2.
Qed.

(** Nothing is [P] before an event that does [P0]. *)
Lemma preceded_by P0 P t ev t' :
  Forall (λ ev, ¬ P ev) t → P0 ev → ¬ P ev → preceded P0 P (t ++ ev :: t').
Proof.
  intros Ht H0 HP. replace (t ++ ev :: t') with ((t ++ [ev]) ++ t') by by rewrite <- app_assoc.
  apply preceded_app.
  - apply preceded_none, Forall_app. by repeat constructor.
  - left. apply Exists_app. right. by repeat constructor.
Qed.

(** A part that never does [P], and what comes after it. *)
Lemma wp_preceded_bind {A B} P0 P (p : Prog A) (f : A → Prog B) :
  wp p (λ t _, Forall (λ ev, ¬ P ev) t) →
  (∀ a, wp (f a) (λ t _, preceded P0 P t)) →
  wp (p ≫= f) (λ t _, preceded P0 P t).
Proof.
  intros Hp Hf. eapply wp_bind_spec; [exact Hp| |].
  - intros t a Ht. eapply wp_mono; [apply Hf|]. intros t' o Ht'.
    apply preceded_app; [by apply preceded_none|by right].
  - intros t h Ht. by apply preceded_none.
Qed.

(** A call that is not [P]: either it does [P0], or the rest has to. *)
Lemma wp_preceded_call {B} P0 P c (f : Answer c → Prog B) :
  (∀ r, ¬ P (Ev c r)) →
  (∀ r, legal c r → P0 (Ev c r) ∨ wp (f r) (λ t _, preceded P0 P t)) →
  wp (call c ≫= f) (λ t _, preceded P0 P t).
Proof.
  intros HP Hf. apply wp_call_bind. intros r Hr t o Ho.
  change (preceded P0 P ([Ev c r] ++ t)). apply preceded_app.
  - apply preceded_none. by repeat constructor.
  - destruct (Hf r Hr) as [H0|Hw]; [left; by repeat constructor|right; by eapply Hw].
Qed.

Lemma wp_preceded_none {A} P0 P (p : Prog A) :
  wp p (λ t _, Forall (λ ev, ¬ P ev) t) → wp p (λ t _, preceded P0 P t).
Proof. intros Hp. eapply wp_mono; [exact Hp|]. intros t o. apply preceded_none. Qed.

(** ** Loops *)

(** [for _, x := range l { ... }] with accumulated state. *)
Fixpoint for_each {A S} (l : list A) (s : S) (body : A → S → Prog S) : Prog S :=
  match l with
  | [] => Ret s
  | x :: l' => s' ← body x s; for_each l' s' body
  end.

(** Loop rule: an invariant on the remaining list, the trace and the state. *)
Lemma wp_for_each {A S} (l : list A) (s : S) body (I : list A → list event → S → Prop) Q :
  I l [] s →
  (∀ x l' t s, I (x :: l') t s →
     wp (body x s) (λ t' o, match o with
                            | Done s' => I l' (t ++ t') s'
                            | Halted h => Q (t ++ t') (Halted h)
                            end)) →
  (∀ t s, I [] t s → Q t (Done s)) →
  wp (for_each l s body) Q.
Proof.
  intros HI Hbody HQ.
  cut (∀ t, I l t s → wp (for_each l s body) (λ t' o, Q (t ++ t') o)).
  { intros Hc. by apply (Hc []). }
  clear HI. revert s. induction l as [|x l IH]; intros s t HI; simpl.
  - apply wp_ret. rewrite app_nil_r. by apply HQ.
  - apply wp_bind. eapply wp_mono; [by apply Hbody|].
    intros t' [s'|h] H'; [|done].
    eapply wp_mono; [by apply (IH s')|]. intros t'' o. by rewrite app_assoc.
Qed.

Lemma only_calls_for_each {A S} P (l : list A) (s : S) body :
  (∀ x s, x ∈ l → only_calls P (body x s)) → only_calls P (for_each l s body).
Proof.
  revert s. induction l as [|x l IH]; intros s Hb; simpl; [apply only_calls_ret|].
  apply only_calls_bind; [apply Hb; set_solver|].
  intros s'. apply IH. intros. apply Hb. set_solver.
Qed.

(** ** Properties of the calls that refer to the trace *)

(** Each event stands in [R] to the whole trace: what it does is justified by
    something that was read. *)
Definition traced (R : list event → event → Prop) (t : list event) : Prop := Forall (R t) t.

(** [R] survives a longer trace. *)
Definition grows (R : list event → event → Prop) : Prop :=
  ∀ t t' ev, (∀ e, e ∈ t → e ∈ t') → R t ev → R t' ev.

Lemma traced_app R t t' : grows R → traced R t → traced R t' → traced R (t ++ t').
Proof.
  intros HR Ht Ht'. apply Forall_app. split.
  - eapply Forall_impl; [exact Ht|]. intros ev. apply HR. set_solver.
  - eapply Forall_impl; [exact Ht'|]. intros ev. apply HR. set_solver.
Qed.

Lemma traced_nil R : traced R [].
Proof. constructor. Qed.

Lemma traced_all (R : list event → event → Prop) t :
  (∀ ev, ev ∈ t → R t ev) → traced R t.
Proof. intros Ht. by apply Forall_forall. Qed.

Lemma wp_traced_bind {A B} R (p : Prog A) (f : A → Prog B) :
  grows R → wp p (λ t _, traced R t) → (∀ a, wp (f a) (λ t _, traced R t)) →
  wp (p ≫= f) (λ t _, traced R t).
Proof.
  intros HR Hp Hf. eapply wp_bind_spec; [exact Hp| |done].
  intros t a Ht. eapply wp_mono; [apply Hf|]. intros t' o Ht'. by apply traced_app.
Qed.

Lemma wp_traced_for_each {A S} R (l : list A) (s : S) body :
  grows R → (∀ x s, x ∈ l → wp (body x s) (λ t _, traced R t)) →
  wp (for_each l s body) (λ t _, traced R t).
Proof.
  intros HR. revert s. induction l as [|x l IH]; intros s Hb; simpl.
  { apply wp_ret, traced_nil. }
  apply wp_traced_bind; [done|apply Hb; set_solver|].
  intros s'. apply IH. intros. apply Hb. set_solver.
Qed.

(** Calls of a kind that need no justification. *)
Lemma wp_traced_calls {A} (P : Call → Prop) (R : list event → event → Prop) (p : Prog A) :
  (∀ t ev, P (projT1 ev) → R t ev) → only_calls P p → wp p (λ t _, traced R t).
Proof.
  intros HR Hp. eapply wp_mono; [exact Hp|]. intros t o Ht.
  eapply Forall_impl; [exact Ht|]. intros ev. apply HR.
Qed.

(** Each event stands in [R] to what was called before it. *)
Definition justified (R : list event → event → Prop) (t : list event) : Prop :=
  ∀ t1 ev t2, t = t1 ++ ev :: t2 → R t1 ev.

Lemma justified_nil R : justified R [].
Proof. intros t1 ev t2 Ht. by destruct t1. Qed.

(** What comes second may rely on what came first. *)
Lemma justified_app R t t' :
  justified R t → justified (λ t1 ev, R (t ++ t1) ev) t' → justified R (t ++ t').
Proof.
  intros Ht Ht' u ev v Heq. apply app_eq_inv in Heq as [(k & -> & Hk)|(k & -> & Hk)].
  - destruct k as [|e k]; simplify_eq/=; [|by eapply Ht].
    assert (Hr := Ht' [] ev v eq_refl). cbv beta in Hr. by rewrite !app_nil_r in Hr.
  - by eapply Ht'.
Qed.

Lemma justified_mono (R R' : list event → event → Prop) t :
  (∀ t1 ev, R t1 ev → R' t1 ev) → justified R t → justified R' t.
Proof. intros HR Ht t1 ev t2 Heq. by eapply HR, Ht. Qed.

Lemma justified_all (R : list event → event → Prop) t :
  Forall (λ ev, ∀ t1, R t1 ev) t → justified R t.
Proof. intros Ht t1 ev t2 ->. by apply Forall_app in Ht as [_ [? _]%Forall_cons]. Qed.

Lemma justified_one (R : list event → event → Prop) ev : R [] ev → justified R [ev].
Proof. intros HR t1 ev' t2 Ht. destruct t1 as [|e t1]; simplify_eq/=; [done|by destruct t1]. Qed.

(** What was called first justifies every call of what comes next. *)
Lemma justified_after (W : list event → Call → Prop) t t' :
  (∀ u u' c, W u c → W (u ++ u') c) →
  Forall (λ ev : event, W t (projT1 ev)) t' →
  justified (λ t1 ev, W (t ++ t1) (projT1 ev)) t'.
Proof.
  intros HW Ht'. apply justified_all. eapply Forall_impl; [exact Ht'|].
  intros ev Hev t1. by apply HW.
Qed.

(** Parts that need no justification in front of one that has it. *)
Lemma wp_justified_bind {A B} R (P : event → Prop) (p : Prog A) (f : A → Prog B) :
  (∀ t t' ev, R t ev → R (t' ++ t) ev) → (∀ t ev, P ev → R t ev) →
  wp p (λ t _, Forall P t) → (∀ a, wp (f a) (λ t _, justified R t)) →
  wp (p ≫= f) (λ t _, justified R t).
Proof.
  intros HR HP Hp Hf. eapply wp_bind_spec; [exact Hp| |].
  - intros t a Ht. eapply wp_mono; [apply Hf|]. intros t' o Ht'.
    apply justified_app; [apply justified_all|].
    + eapply Forall_impl; [exact Ht|]. auto.
    + eapply justified_mono; [|exact Ht']. auto.
  - intros t h Ht. apply justified_all. eapply Forall_impl; [exact Ht|]. auto.
Qed.

(** After the calls [t0], each call of the program stands in [R] to what was called
    before it. *)
Definition after {A} (R : list event → event → Prop) (t0 : list event) (p : Prog A) : Prop :=
  wp p (λ t _, justified (λ t1 ev, R (t0 ++ t1) ev) t).

Lemma after_ret {A} R t0 (a : A) : after R t0 (Ret a).
Proof. apply wp_ret, justified_nil. Qed.

Lemma after_halt {A} R t0 h : after R t0 (@Halt A h).
Proof. apply wp_halt, justified_nil. Qed.

Lemma after_assoc {A B C} R t0 (p : Prog A) (f : A → Prog B) (g : B → Prog C) :
  after R t0 (p ≫= (λ a, f a ≫= g)) → after R t0 ((p ≫= f) ≫= g).
Proof. apply wp_bind_assoc. Qed.

Lemma after_ret_bind {A B} R t0 (a : A) (f : A → Prog B) : after R t0 (f a) → after R t0 (Ret a ≫= f).
Proof. apply wp_ret_bind. Qed.

(** Calls that need no justification, or one that is there already. *)
Lemma after_calls {A} (R : list event → event → Prop) (P : event → Prop) t0 (p : Prog A) :
  wp p (λ t _, Forall P t) → (∀ t ev, P ev → R (t0 ++ t) ev) → after R t0 p.
Proof.
  intros Hp HR. eapply wp_mono; [exact Hp|]. intros t o Ht. apply justified_all.
  eapply Forall_impl; [exact Ht|]. auto.
Qed.

(** The rest comes after what the first part has called. *)
Lemma after_bind {A B} R t0 (p : Prog A) (f : A → Prog B) (Q : list event → outcome A → Prop) :
  wp p Q → after R t0 p → (∀ t a, Q t (Done a) → after R (t0 ++ t) (f a)) → after R t0 (p ≫= f).
Proof.
  intros HQ Hp Hf. eapply wp_bind_spec; [exact (wp_and _ _ _ HQ Hp)| |].
  - intros t a [Ht Hj]. eapply wp_mono; [by apply Hf|]. intros t' o Ht'.
    apply justified_app; [done|]. eapply justified_mono; [|exact Ht'].
    intros t1 ev. cbv beta. by rewrite <- app_assoc.
  - by intros t h [_ Hj].
Qed.

Lemma after_call {B} R t0 c (f : Answer c → Prog B) :
  (∀ r, legal c r → R t0 (Ev c r)) → (∀ r, legal c r → after R (t0 ++ [Ev c r]) (f r)) →
  after R t0 (call c ≫= f).
Proof.
  intros HR Hf. apply wp_call_bind. intros r Hr. eapply wp_mono; [by apply Hf|].
  intros t o Ht. apply (justified_app _ [_]).
  - apply justified_one. rewrite app_nil_r. by apply HR.
  - eapply justified_mono; [|exact Ht]. intros t1 ev. cbv beta. by rewrite <- app_assoc.
Qed.

(** A stretch of the trace. *)
Definition part (P : list event → Prop) (t : list event) : Prop :=
  ∃ t1 t' t2, t = t1 ++ t' ++ t2 ∧ P t'.

Lemma part_here (P : list event → Prop) t : P t → part P t.
Proof. intros HP. exists [], t, []. by rewrite app_nil_r. Qed.
Lemma part_part (P : list event → Prop) t : part (part P) t → part P t.
Proof.
  intros (t1 & u & t2 & -> & (u1 & v & u2 & -> & HP)). exists (t1 ++ u1), v, (u2 ++ t2).
  by rewrite <- !app_assoc.
Qed.
Lemma part_app_l P t t' : part P t → part P (t ++ t').
Proof.
  intros (t1 & u & t2 & -> & HP). exists t1, u, (t2 ++ t'). by rewrite <- !app_assoc.
Qed.
Lemma part_app_r P t t' : part P t' → part P (t ++ t').
Proof.
  intros (t1 & u & t2 & -> & HP). exists (t ++ t1), u, t2. by rewrite <- !app_assoc.
Qed.
Lemma part_cons P ev t : part P t → part P (ev :: t).
Proof. apply (part_app_r P [ev]). Qed.
Lemma part_mono (P P' : list event → Prop) t : (∀ u, P u → P' u) → part P t → part P' t.
Proof. intros HP (t1 & u & t2 & -> & Hu). exists t1, u, t2. auto. Qed.
End Prog.

Arguments Prog {Call} Answer A.
Arguments Ret {Call Answer A} a.
Arguments Halt {Call Answer A} h.
Arguments Vis {Call Answer A} c k.
Arguments event {Call} Answer.
(** Programs are unfolded call by call by lemmas, not by [simpl]. *)
Arguments call {Call Answer} c : simpl never.
Arguments prog_bind {Call Answer A B} p f : simpl never.
