(* ===== verification/GoErr.v ===== *)
(** * Go errors

    Error values as the program builds and inspects them: API status errors,
    plain errors, [fmt.Errorf] with [%w], [errors.Join] and package-level
    sentinels, with the traversal of [errors.As]/[errors.Is] on which
    [apierrors.IsNotFound], [apierrors.IsAlreadyExists] and
    [client.IgnoreNotFound] (src/vendor) rest.  A Go [error] is an
    [option gerr], [None] being nil. *)

From S2P Require Import Prelude.

Inductive gerr :=
| EStatus (reason : string) (code : Z) (msg : string)
| ENew (msg : string)
| ESentinel (msg : string)
| EWrap (pre : string) (e : gerr)
| EJoin (es : list gerr).

(** A function result of Go type [(T, error)] whose value is used only when
    the error is nil. *)
Inductive result (A : Type) :=
| Ok (a : A)
| Err (e : gerr).
Arguments Ok {A} a.
Arguments Err {A} e.

Definition result_err {A} (r : result A) : option gerr :=
  match r with Ok _ => None | Err e => Some e end.

(** [Error()]. *)
Fixpoint err_msg (e : gerr) : string :=
  match e with
  | EStatus _ _ m => m
  | ENew m => m
  | ESentinel m => m
  | EWrap pre e => pre +++ err_msg e
  | EJoin es => String.concat (String (Ascii.ascii_of_nat 10) "") (err_msg <$> es)
  end.

(** [errors.Join]: nil errors are dropped, and joining only nils is nil. *)
Definition errors_join (es : list (option gerr)) : option gerr :=
  match omap id es with
  | [] => None
  | es' => Some (EJoin es')
  end.

(** The first [*StatusError] that [errors.As] meets, depth first. *)
Fixpoint as_status (e : gerr) : option (string * Z) :=
  match e with
  | EStatus r c _ => Some (r, c)
  | ENew _ | ESentinel _ => None
  | EWrap _ e => as_status e
  | EJoin es =>
      (fix go (es : list gerr) : option (string * Z) :=
         match es with
         | [] => None
         | e :: es => match as_status e with Some s => Some s | None => go es end
         end) es
  end.

(** [errors.Is] against a package-level error variable. *)
Fixpoint errors_is (e : gerr) (target : string) : bool :=
  match e with
  | ESentinel m => ⟪ m = target ⟫
  | EStatus _ _ _ | ENew _ => false
  | EWrap _ e => errors_is e target
  | EJoin es =>
      (fix go (es : list gerr) : bool :=
         match es with
         | [] => false
         | e :: es => errors_is e target || go es
         end) es
  end.

Definition StatusReasonNotFound : string := "NotFound".
Definition StatusReasonAlreadyExists : string := "AlreadyExists".

Definition knownReasons : list string :=
  ["Unauthorized"; "Forbidden"; "NotFound"; "AlreadyExists"; "Conflict"; "Gone";
   "Invalid"; "ServerTimeout"; "Timeout"; "TooManyRequests"; "BadRequest";
   "MethodNotAllowed"; "NotAcceptable"; "RequestEntityTooLarge";
   "UnsupportedMediaType"; "InternalError"; "Expired"; "ServiceUnavailable"]%string.

Definition reasonAndCodeForError (e : option gerr) : string * Z :=
  match e with
  | Some e => default (""%string, 0%Z) (as_status e)
  | None => (""%string, 0%Z)
  end.

Definition IsNotFound (e : option gerr) : bool :=
  let '(reason, code) := reasonAndCodeForError e in
  ⟪ reason = StatusReasonNotFound ⟫ || (⟪ reason ∉ knownReasons ⟫ && ⟪ code = 404%Z ⟫).

Definition IsAlreadyExists (e : option gerr) : bool :=
  ⟪ (reasonAndCodeForError e).1 = StatusReasonAlreadyExists ⟫.

Definition IgnoreNotFound (e : option gerr) : option gerr :=
  if IsNotFound e then None else e.

(** The API server's 404. *)
Definition NotFound (msg : string) : gerr := EStatus StatusReasonNotFound 404 msg.
Definition AlreadyExists (msg : string) : gerr := EStatus StatusReasonAlreadyExists 409 msg.
Definition Conflict (msg : string) : gerr := EStatus "Conflict" 409 msg.

(** ** Lemmas *)

Lemma errors_join_None es : errors_join es = None ↔ Forall (λ e, e = None) es.
Proof.
  unfold errors_join. induction es as [|[e|] es IH]; simpl; [by split; auto|..].
  - split; [done|]. by intros [? _]%Forall_cons.
  - rewrite IH, Forall_cons. naive_solver.
Qed.

Lemma errors_join_Some es : is_Some (errors_join es) ↔ ∃ e, Some e ∈ es.
Proof.
  unfold errors_join. induction es as [|[e|] es IH]; simpl.
  - split; [by intros [? ?]|]. intros [e He]. set_solver.
  - split; [|eauto]. intros _. exists e. set_solver.
  - rewrite IH. split; intros [e He]; exists e; set_solver.
Qed.

Lemma errors_join_somes es : errors_join (Some <$> es) = match es with [] => None | _ => Some (EJoin es) end.
Proof.
  unfold errors_join. assert (omap id (Some <$> es) = es) as ->; [|by destruct es].
  induction es as [|e es IH]; simpl; [done|by f_equal].
Qed.

Lemma IsNotFound_nil : IsNotFound None = false.
Proof. reflexivity. Qed.
Lemma IsAlreadyExists_nil : IsAlreadyExists None = false.
Proof. reflexivity. Qed.

Lemma IsNotFound_NotFound m : IsNotFound (Some (NotFound m)) = true.
Proof. reflexivity. Qed.

Lemma IgnoreNotFound_nil : IgnoreNotFound None = None.
Proof. reflexivity. Qed.

Lemma IgnoreNotFound_Some e e' : IgnoreNotFound e = Some e' → e = Some e'.
Proof. unfold IgnoreNotFound. by destruct (IsNotFound e). Qed.

(** Wrapping with [%w] is transparent to the reason of an error. *)
Lemma IsNotFound_wrap pre e : IsNotFound (Some (EWrap pre e)) = IsNotFound (Some e).
Proof. reflexivity. Qed.

#[export] Hint Resolve IsNotFound_NotFound IgnoreNotFound_nil : primaza.
