(* ===== verification/GoStr.v ===== *)
(** * Strings and paths of the Go standard library

    The functions of [strings], [path], [fmt] and [strconv] the program uses, on
    [String.string] (a Go string is a sequence of bytes), and 64-bit integers. *)

From Stdlib Require Import Ascii.
From S2P Require Import Prelude.

#[local] Open Scope string_scope.
#[local] Open Scope list_scope.
#[local] Open Scope primaza_scope.

#[local] Arguments String.append !_ _ / : simpl nomatch.

(** [strings.HasPrefix(s, p)]. *)
Definition HasPrefix (s p : string) : bool := String.prefix p s.

Fixpoint string_drop (n : nat) (s : string) : string :=
  match n, s with
  | S n', String _ s' => string_drop n' s'
  | _, _ => s
  end.

(** [strings.TrimPrefix(s, p)] and the string result of [strings.CutPrefix(s, p)]. *)
Definition TrimPrefix (s p : string) : string :=
  if HasPrefix s p then string_drop (String.length p) s else s.

(** [strings.Contains(s, sub)]. *)
Definition Contains (s sub : string) : bool :=
  match String.index 0 sub s with Some _ => true | None => false end.

(** [strings.Split(s, sep)] for a one-byte separator. *)
Fixpoint split_on (c : Ascii.ascii) (s : string) : list string :=
  match s with
  | EmptyString => [EmptyString]
  | String a s' =>
      match split_on c s' with
      | [] => [EmptyString]
      | w :: ws => if ⟪ a = c ⟫ then EmptyString :: w :: ws else String a w :: ws
      end
  end.

(** [fmt.Sprintf("%v", []string)]. *)
Definition sprint_strings (l : list string) : string := "[" +++ String.concat " " l +++ "]".

(** [fmt.Sprintf("%d", n)]. *)
Definition sprint_Z (z : Z) : string := pretty z.

(** A 64-bit [int]: what a value becomes on overflow, and whether it fits. *)
Definition to_int64 (z : Z) : Z := ((z + 2 ^ 63) `mod` 2 ^ 64 - 2 ^ 63)%Z.
Definition is_int64 (z : Z) : bool := ⟪ (- 2 ^ 63 ≤ z)%Z ⟫ && ⟪ (z < 2 ^ 63)%Z ⟫.

(** The value of a string of decimal digits, after those that gave [n]. *)
Fixpoint digits_value (s : string) (n : Z) : option Z :=
  match s with
  | EmptyString => Some n
  | String c s' =>
      let d := (Z.of_nat (nat_of_ascii c) - 48)%Z in
      if ⟪ (0 ≤ d)%Z ⟫ && ⟪ (d ≤ 9)%Z ⟫ then digits_value s' (n * 10 + d)%Z else None
  end.

(** [strconv.Atoi]: [None] is a syntax or a range error. *)
Definition Atoi (s : string) : option Z :=
  let unsigned := λ s, if ⟪ s = "" ⟫ then None else digits_value s 0 in
  n ← match s with
      | String c s' =>
          if ⟪ c = "-"%char ⟫ then Z.opp <$> unsigned s'
          else if ⟪ c = "+"%char ⟫ then unsigned s'
          else unsigned s
      | EmptyString => None
      end;
  if is_int64 n then Some n else None.

(** [path.Clean]'s work on the components of a path: [out] is the stack of
    components kept so far, last first. *)
Fixpoint clean_comps (rooted : bool) (out comps : list string) : list string :=
  match comps with
  | [] => reverse out
  | c :: comps' =>
      if ⟪ c = "" ⟫ || ⟪ c = "." ⟫ then clean_comps rooted out comps'
      else if ⟪ c = ".." ⟫ then
        match out with
        | o :: out' =>
            if ⟪ o = ".." ⟫ then clean_comps rooted (c :: out) comps'
            else clean_comps rooted out' comps'
        | [] => if rooted then clean_comps rooted [] comps'
                else clean_comps rooted [c] comps'
        end
      else clean_comps rooted (c :: out) comps'
  end.

(** [path.Clean]. *)
Definition path_Clean (p : string) : string :=
  let rooted := HasPrefix p "/" in
  let cs := clean_comps rooted [] (split_on "/"%char p) in
  let body := String.concat "/" cs in
  if rooted then "/" +++ body else if ⟪ body = "" ⟫ then "." else body.

(** [path.Join]: empty elements are ignored, the rest is joined and cleaned; the
    result is empty when there is nothing to join. *)
Definition path_Join (elems : list string) : string :=
  match filter (λ e, e ≠ "") elems with
  | [] => ""
  | es => path_Clean (String.concat "/" es)
  end.

(** ** Lemmas *)

Lemma string_drop_append p s : string_drop (String.length p) (p +++ s) = s.
Proof. by induction p. Qed.

Lemma HasPrefix_spec s p  : HasPrefix s p = true ↔ (∃ s', s = p +++ s').
Proof.
  unfold HasPrefix. revert s. induction p as [|a p IH]; intros s; simpl.
  - split; [by exists s|by destruct s].
  - destruct s as [|b s]; simpl; [split; [done|by intros [? ?]]|].
    destruct (ascii_dec a b) as [->|Hne].
    + rewrite IH. split; intros [s' Hs]; exists s'; [by rewrite Hs|].
      by injection Hs as ->.
    + split; [done|]. intros [s' Hs]. by injection Hs as -> _.
Qed.

Lemma TrimPrefix_append s p : TrimPrefix (p +++ s) p = s.
Proof.
  unfold TrimPrefix. assert (HasPrefix (p +++ s) p = true) as ->.
  { apply HasPrefix_spec. by exists s. }
  apply string_drop_append.
Qed.

Lemma append_inj_l p s s' : p +++ s = p +++ s' → s = s'.
Proof. induction p; simpl; naive_solver. Qed.

Lemma append_assoc a b c : (a +++ b) +++ c = a +++ (b +++ c).
Proof. induction a as [|x a IH]; simpl; [done|by rewrite IH]. Qed.

Lemma append_length a b : String.length (a +++ b) = String.length a + String.length b.
Proof. induction a as [|x a IH]; simpl; [done|by rewrite IH]. Qed.

Example path_Join_bindings : path_Join ["/bindings"; "sb"] = "/bindings/sb".
Proof. reflexivity. Qed.
Example path_Join_empty_root : path_Join [""; "sb"] = "sb".
Proof. reflexivity. Qed.
Example path_Join_dots : path_Join ["/a/../b/"; "./c"] = "/b/c".
Proof. reflexivity. Qed.

Lemma path_Clean_nonempty p : path_Clean p ≠ "".
Proof. unfold path_Clean. destruct (HasPrefix p "/"); [done|]. by case_bool_decide. Qed.

(** A path with a non-empty last element is not empty. *)
Lemma path_Join_nonempty es e : e ≠ "" → path_Join (es ++ [e]) ≠ "".
Proof.
  intros He. unfold path_Join. rewrite filter_app.
  assert (filter (λ e, e ≠ "") [e] = [e]) as -> by by rewrite filter_cons_True by done.
  destruct (filter _ es ++ [e]) eqn:Hf; [by destruct (filter _ es)|]. apply path_Clean_nonempty.
Qed.

(** ** Decimal numbers *)

Lemma digits_value_pretty x s :
  digits_value (pretty_N_go x s) 0 = digits_value s (Z.of_N x).
Proof.
  revert s. induction (N.lt_wf_0 x) as [x _ IH]; intros s.
  destruct (decide (x = 0%N)) as [->|Hx]; [by rewrite pretty_N_go_0|].
  rewrite pretty_N_go_step by lia. rewrite IH by (apply N.div_lt; lia). simpl.
  assert (Hd : (x `mod` 10 < 10)%N) by (apply N.mod_lt; lia).
  assert (Hc : Z.of_nat (nat_of_ascii (pretty_N_char (x `mod` 10))) = (48 + Z.of_N (x `mod` 10))%Z).
  { revert Hd. generalize (x `mod` 10)%N as d. intros d Hd.
    assert (d ∈ [0;1;2;3;4;5;6;7;8;9]%N) as Hin.
    { rewrite !elem_of_cons, elem_of_nil. lia. }
    rewrite !elem_of_cons, elem_of_nil in Hin. by destruct_or! Hin; subst. }
  rewrite Hc. assert (Hr : (0 ≤ Z.of_N (x `mod` 10) ≤ 9)%Z) by (revert Hd; generalize (x `mod` 10)%N; lia).
  revert Hr. rewrite N2Z.inj_div, N2Z.inj_mod.
  change (Z.of_N 10) with 10%Z. intros Hr. do 2 (rewrite bool_decide_true by lia). cbn [andb]. f_equal.
  pose proof (Z.div_mod (Z.of_N x) 10). lia.
Qed.

Lemma pretty_N_digits (n : N) : pretty n ≠ "" ∧ digits_value (pretty n) 0 = Some (Z.of_N n).
Proof.
  unfold pretty, pretty_N. destruct (decide (n = 0%N)) as [->|Hn]; [done|].
  split; [|by rewrite digits_value_pretty].
  intros He. assert (Hd := digits_value_pretty n ""). rewrite He in Hd. simpl in Hd.
  injection Hd. lia.
Qed.

Lemma Atoi_unsigned s n :
  s ≠ "" → digits_value s 0 = Some n → is_int64 n = true → Atoi s = Some n.
Proof.
  intros Hs Hn Hi. unfold Atoi. destruct s as [|c s]; [done|].
  case_bool_decide; [by subst|]. case_bool_decide; [by subst|].
  cbn [bool_decide]. rewrite bool_decide_false by done. rewrite Hn. simpl. by rewrite Hi.
Qed.

(** [strconv.Atoi] reads back what [fmt.Sprintf("%d", n)] writes. *)
Lemma Atoi_sprint_Z z : is_int64 z = true → Atoi (sprint_Z z) = Some z.
Proof.
  intros Hz. unfold sprint_Z, pretty, pretty_Z. destruct z as [|p|p]; [done|..].
  - destruct (pretty_N_digits (N.pos p)). by apply Atoi_unsigned.
  - destruct (pretty_N_digits (N.pos p)) as [Hp Hd]. unfold Atoi.
    change (pretty p) with (pretty (N.pos p)). simpl.
    rewrite bool_decide_false by done. rewrite Hd. cbn -[is_int64].
    change (- Z.pos p)%Z with (Z.neg p). by rewrite Hz.
Qed.

Lemma is_int64_spec z : is_int64 z = true ↔ (- 2 ^ 63 ≤ z < 2 ^ 63)%Z.
Proof. unfold is_int64. by rewrite andb_true_iff, !bool_decide_eq_true. Qed.

Lemma Atoi_int64 s n : Atoi s = Some n → is_int64 n = true.
Proof.
  unfold Atoi. intros (m & _ & Hm)%bind_Some. destruct (is_int64 m) eqn:Hi; by simplify_eq.
Qed.

Lemma to_int64_small z : is_int64 z = true → to_int64 z = z.
Proof. intros Hz%is_int64_spec. unfold to_int64. rewrite Z.mod_small; lia. Qed.
