(* ===== verification/Json.v ===== *)
(** * Unstructured objects

    The JSON values behind [unstructured.Unstructured], with the accessors
    [NestedSlice] and [SetNestedSlice] (src/vendor/k8s.io/apimachinery) and the
    ["%v"] formatting of a value.  A Go [map[string]interface{}] is an association
    list read by its first entry; writing replaces that entry or adds one. *)

From S2P Require Import Prelude GoErr GoStr.

#[local] Open Scope string_scope.
#[local] Open Scope list_scope.
#[local] Open Scope primaza_scope.

Inductive json :=
| JNull
| JBool (b : bool)
| JInt (z : Z)
| JStr (s : string)
| JArr (l : list json)
| JObj (fs : list (string * json)).

Fixpoint json_eq_dec (x y : json) {struct x} : {x = y} + {x ≠ y}.
Proof.
  refine
    (match x, y with
     | JNull, JNull => left eq_refl
     | JBool a, JBool b => cast_if (decide (a = b))
     | JInt a, JInt b => cast_if (decide (a = b))
     | JStr a, JStr b => cast_if (decide (a = b))
     | JArr a, JArr b => cast_if (@list_eq_dec json json_eq_dec a b)
     | JObj a, JObj b =>
         cast_if (@list_eq_dec (string * json) (@prod_eq_dec string _ json json_eq_dec) a b)
     | _, _ => right _
     end); congruence.
Defined.
#[export] Instance json_eq_decision : EqDecision json := json_eq_dec.

(** Go's lookup [m[k]] with its [ok]. *)
Fixpoint obj_get (fs : list (string * json)) (k : string) : option json :=
  match fs with
  | [] => None
  | (k', v) :: fs' => if ⟪ k' = k ⟫ then Some v else obj_get fs' k
  end.

(** Go's [m[k] = v]. *)
Fixpoint obj_set (fs : list (string * json)) (k : string) (v : json) : list (string * json) :=
  match fs with
  | [] => [(k, v)]
  | (k', v') :: fs' => if ⟪ k' = k ⟫ then (k, v) :: fs' else (k', v') :: obj_set fs' k v
  end.

(** [NestedFieldNoCopy] on the remaining path: [Ok None] is "not found". *)
Fixpoint NestedField (v : json) (fields : list string) : result (option json) :=
  match fields with
  | [] => Ok (Some v)
  | f :: fields' =>
      match v with
      | JNull => Ok None
      | JObj fs =>
          match obj_get fs f with
          | None => Ok None
          | Some v' => NestedField v' fields'
          end
      | _ => Err (ENew ("accessor error: value is not map[string]interface{} at " +++ f))
      end
  end.

(** [NestedSlice]: the value and whether it was found. *)
Definition NestedSlice (obj : json) (fields : list string) : result (list json * bool) :=
  match NestedField obj fields with
  | Err e => Err e
  | Ok None => Ok ([], false)
  | Ok (Some (JArr l)) => Ok (l, true)
  | Ok (Some _) => Err (ENew "accessor error: value is not []interface{}")
  end.

(** [SetNestedSlice] on the remaining path; it writes into the object. *)
Fixpoint SetNestedField (fs : list (string * json)) (value : json) (fields : list string)
    : result (list (string * json)) :=
  match fields with
  | [] => Ok fs
  | [f] => Ok (obj_set fs f value)
  | f :: fields' =>
      match obj_get fs f with
      | Some (JObj m) =>
          match SetNestedField m value fields' with
          | Ok m' => Ok (obj_set fs f (JObj m'))
          | Err e => Err e
          end
      | Some _ => Err (ENew ("value cannot be set because " +++ f +++ " is not a map[string]interface{}"))
      | None =>
          match SetNestedField [] value fields' with
          | Ok m' => Ok (obj_set fs f (JObj m'))
          | Err e => Err e
          end
      end
  end.

Definition SetNestedSlice (obj : json) (l : list json) (fields : list string) : result json :=
  match obj with
  | JObj fs => match SetNestedField fs (JArr l) fields with
               | Ok fs' => Ok (JObj fs')
               | Err e => Err e
               end
  | _ => Err (ENew "object is not a map[string]interface{}")
  end.

(** The string field of an object at a path, [""] when absent: [GetName],
    [GetNamespace], [GetUID]. *)
Definition NestedStringOrEmpty (obj : json) (fields : list string) : string :=
  match NestedField obj fields with
  | Ok (Some (JStr s)) => s
  | _ => ""
  end.

(** [GetLabels]: nil unless every value is a string. *)
Definition GetLabels (obj : json) : list (string * string) :=
  match NestedField obj ["metadata"; "labels"] with
  | Ok (Some (JObj fs)) =>
      default [] (mapM (λ kv, match kv.2 with JStr s => Some (kv.1, s) | _ => None end) fs)
  | _ => []
  end.

Definition GetName (obj : json) : string := NestedStringOrEmpty obj ["metadata"; "name"].
Definition GetNamespace (obj : json) : string := NestedStringOrEmpty obj ["metadata"; "namespace"].
Definition GetUID (obj : json) : string := NestedStringOrEmpty obj ["metadata"; "uid"].

(** The order in which [fmt] prints the keys of a map. *)
Definition key_le (a b : string * string) : Prop := String.leb a.1 b.1 = true.
#[export] Instance key_le_dec (a b : string * string) : Decision (key_le a b) :=
  decide (String.leb a.1 b.1 = true).

(** ["%v"] of a value; the keys of a map are printed in sorted order. *)
Fixpoint sprint_json (v : json) : string :=
  match v with
  | JNull => "<nil>"
  | JBool b => if b then "true" else "false"
  | JInt z => sprint_Z z
  | JStr s => s
  | JArr l => "[" +++ String.concat " " (sprint_json <$> l) +++ "]"
  | JObj fs =>
      "map[" +++ String.concat " "
        (snd <$> merge_sort key_le
           ((λ kv, (kv.1, kv.1 +++ ":" +++ sprint_json kv.2)) <$> fs)) +++ "]"
  end.

(** ** Lemmas *)

Lemma obj_get_set fs k v : obj_get (obj_set fs k v) k = Some v.
Proof.
  induction fs as [|[k' v'] fs IH]; simpl.
  - by rewrite bool_decide_true.
  - case_bool_decide; simpl; [by rewrite bool_decide_true|by rewrite bool_decide_false].
Qed.

Lemma obj_get_set_ne fs k k' v : k ≠ k' → obj_get (obj_set fs k v) k' = obj_get fs k'.
Proof.
  intros Hne. induction fs as [|[k1 v1] fs IH]; simpl.
  - by rewrite bool_decide_false.
  - destruct (decide (k1 = k)) as [->|Hk]; simpl.
    + rewrite bool_decide_true by done. simpl. by rewrite !bool_decide_false.
    + rewrite (bool_decide_false (k1 = k)) by done. simpl. by rewrite IH.
Qed.

Lemma obj_set_same fs k v : obj_get fs k = Some v → obj_set fs k v = fs.
Proof.
  induction fs as [|[k' v'] fs IH]; simpl; [done|].
  case_bool_decide as Hk; intros; simplify_eq; [done|]. by rewrite IH.
Qed.

Lemma obj_set_set fs k v v' : obj_set (obj_set fs k v) k v' = obj_set fs k v'.
Proof.
  induction fs as [|[k' w] fs IH]; simpl.
  - by rewrite bool_decide_true.
  - case_bool_decide; simpl; [by rewrite bool_decide_true|].
    rewrite bool_decide_false by done. by rewrite IH.
Qed.

Lemma SetNestedField_cons fs v f fields :
  fields ≠ [] →
  SetNestedField fs v (f :: fields) =
  match obj_get fs f with
  | Some (JObj m) => match SetNestedField m v fields with
                     | Ok m' => Ok (obj_set fs f (JObj m'))
                     | Err e => Err e
                     end
  | Some _ => Err (ENew ("value cannot be set because " +++ f +++ " is not a map[string]interface{}"))
  | None => match SetNestedField [] v fields with
            | Ok m' => Ok (obj_set fs f (JObj m'))
            | Err e => Err e
            end
  end.
Proof. by destruct fields. Qed.

(** What [SetNestedField] writes, [NestedField] reads back. *)
Lemma SetNestedField_get fields fs v fs' :
  fields ≠ [] → SetNestedField fs v fields = Ok fs' →
  NestedField (JObj fs') fields = Ok (Some v).
Proof.
  revert fs fs'. induction fields as [|f [|g fields] IH]; intros fs fs' Hne Hset; [done|..].
  - simplify_eq/=. by rewrite obj_get_set.
  - rewrite SetNestedField_cons in Hset by done. remember (g :: fields) as gs eqn:Hgs.
    destruct (obj_get fs f) as [[| | | | |m]|]; try done.
    + destruct (SetNestedField m v gs) as [m'|] eqn:Hm; simplify_eq.
      simpl. rewrite obj_get_set. by eapply IH.
    + destruct (SetNestedField [] v gs) as [m'|] eqn:Hm; simplify_eq.
      simpl. rewrite obj_get_set. by eapply IH.
Qed.

(** Two paths that part. *)
Definition parts_from (p q : list string) : Prop :=
  ∃ pre f p' g q', p = pre ++ f :: p' ∧ q = pre ++ g :: q' ∧ f ≠ g.

(** [SetNestedField] leaves a field that its path parts from. *)
Lemma SetNestedField_other p q fs v fs' :
  parts_from p q → SetNestedField fs v p = Ok fs' →
  NestedField (JObj fs') q = NestedField (JObj fs) q.
Proof.
  intros (pre & f & p' & g & q' & -> & -> & Hfg). revert fs fs'.
  induction pre as [|h pre IH]; intros fs fs' Hset.
  - assert (∃ w, fs' = obj_set fs f w) as [w ->].
    { destruct p' as [|f' p']; [by simplify_eq/=; eauto|].
      cbn [app] in Hset. rewrite SetNestedField_cons in Hset by done.
      destruct (obj_get fs f) as [[]|]; try done;
      match goal with Hs : context [SetNestedField ?m v (f' :: p')] |- _ =>
        destruct (SetNestedField m v (f' :: p')) as [m'|]; simplify_eq; eauto end. }
    simpl. by rewrite obj_get_set_ne.
  - assert (pre ++ f :: p' ≠ []) as Hne by by destruct pre.
    cbn [app] in *. rewrite SetNestedField_cons in Hset by done.
    destruct (obj_get fs h) as [[| | | | |m]|] eqn:Hh; try done.
    + destruct (SetNestedField m v (pre ++ f :: p')) as [m'|] eqn:Hm; simplify_eq.
      cbn [NestedField]. rewrite obj_get_set, Hh. by apply IH.
    + destruct (SetNestedField [] v (pre ++ f :: p')) as [m'|] eqn:Hm; simplify_eq.
      cbn [NestedField]. rewrite obj_get_set, Hh, (IH _ _ Hm).
      destruct pre; reflexivity.
Qed.

Lemma SetNestedSlice_get o l p o' :
  p ≠ [] → SetNestedSlice o l p = Ok o' → NestedSlice o' p = Ok (l, true).
Proof.
  unfold SetNestedSlice, NestedSlice. intros Hp Hset. destruct o as [| | | | |fs]; try done.
  destruct (SetNestedField fs (JArr l) p) as [fs'|] eqn:Hs; simplify_eq.
  by rewrite (SetNestedField_get _ _ _ _ Hp Hs).
Qed.

Lemma SetNestedSlice_field o l p q o' :
  parts_from p q → SetNestedSlice o l p = Ok o' → NestedField o' q = NestedField o q.
Proof.
  unfold SetNestedSlice. intros Hp Hset. destruct o as [| | | | |fs]; try done.
  destruct (SetNestedField fs (JArr l) p) as [fs'|] eqn:Hs; simplify_eq.
  by eapply SetNestedField_other.
Qed.

Lemma SetNestedSlice_other o l p q o' :
  parts_from p q → SetNestedSlice o l p = Ok o' → NestedSlice o' q = NestedSlice o q.
Proof. intros Hp Hset. unfold NestedSlice. by rewrite (SetNestedSlice_field _ _ _ _ _ Hp Hset). Qed.

Lemma GetName_field o o' :
  NestedField o' ["metadata"; "name"] = NestedField o ["metadata"; "name"] → GetName o' = GetName o.
Proof. unfold GetName, NestedStringOrEmpty. by intros ->. Qed.
Lemma GetNamespace_field o o' :
  NestedField o' ["metadata"; "namespace"] = NestedField o ["metadata"; "namespace"] →
  GetNamespace o' = GetNamespace o.
Proof. unfold GetNamespace, NestedStringOrEmpty. by intros ->. Qed.
