(* ===== verification/Types.v ===== *)
(** * API types

    The custom resources of api/v1alpha1 with their spec and status, and of the
    Kubernetes API the types and fields the program reads or writes.  A Go
    pointer is an [option]; a Go map is a [gmap] where the source always makes
    it before writing, and a [gomap] (nil or a map) where a write to a nil map
    would panic; a Go slice is a list, and a [slice] (nil or a list) in the fields whose
    JSON is [null] for a nil slice, where the schemas ask for an array; string-typed
    enumerations keep their strings. *)

From S2P Require Import Prelude Json.

#[local] Open Scope string_scope.
#[local] Open Scope list_scope.

(** ** apimachinery: metadata, conditions, selectors *)

(** A Go [map[string]string]: [None] is the nil map. *)
Abbreviation gomap := (option (gmap string string)).

(** [m[k]] of a possibly nil map: [""] when absent. *)
Definition gomap_get (m : gomap) (k : string) : string := default "" (m ≫= (.!! k)).
Definition gomap_lookup (m : gomap) (k : string) : option string := m ≫= (.!! k).
(** [m[k] = v]: [None] is the panic of a write to a nil map. *)
Definition gomap_set (m : gomap) (k v : string) : option gomap :=
  match m with Some m => Some (Some (<[k := v]> m)) | None => None end.

(** A Go slice whose nil value is told apart from an empty one. *)
Inductive slice (A : Type) :=
| NilSlice
| Slice (l : list A).
Arguments NilSlice {A}.
Arguments Slice {A} l.

(** What is ranged over; a nil slice has no elements. *)
Definition elems {A} (s : slice A) : list A :=
  match s with NilSlice => [] | Slice l => l end.
Coercion elems : slice >-> list.

(** [append(s, x)] *)
Definition slice_append {A} (s : slice A) (x : A) : slice A := Slice (elems s ++ [x]).

(** What appending the elements of a list to a nil slice gives. *)
Definition appended {A} (l : list A) : slice A :=
  match l with [] => NilSlice | _ => Slice l end.

Lemma elems_appended {A} (l : list A) : elems (appended l) = l.
Proof. by destruct l. Qed.

Lemma slice_append_appended {A} (l : list A) x : slice_append (appended l) x = appended (l ++ [x]).
Proof. unfold slice_append. rewrite elems_appended. by destruct l. Qed.

(** Up to the difference between a nil and an empty slice. *)
Definition norm_slice {A} (s : slice A) : slice A := Slice (elems s).

#[export] Instance slice_eq_dec {A} `{EqDecision A} : EqDecision (slice A).
Proof. solve_decision. Defined.

Record OwnerReference := {
  or_APIVersion : string; or_Kind : string; or_Name : string; or_UID : string;
  or_Controller : option bool; or_BlockOwnerDeletion : option bool }.

Record ObjectMeta := {
  om_Name : string; om_Namespace : string; om_UID : string; om_ResourceVersion : string;
  om_Labels : gomap; om_Annotations : gomap;
  om_Finalizers : list string; om_OwnerReferences : list OwnerReference;
  om_DeletionTimestamp : option Z }.

Record Condition := {
  c_Type : string; c_Status : string; c_ObservedGeneration : Z;
  c_LastTransitionTime : Z; c_Reason : string; c_Message : string }.

Record LabelSelectorRequirement := { lsr_Key : string; lsr_Operator : string; lsr_Values : list string }.
Record LabelSelector := {
  ls_MatchLabels : gmap string string; ls_MatchExpressions : list LabelSelectorRequirement }.

Record ObjectReference := { ref_Name : string; ref_UID : string }.

Definition ConditionTrue : string := "True".
Definition ConditionFalse : string := "False".
Definition ConditionUnknown : string := "Unknown".

(** ** api/v1alpha1/types.go *)

Record ServiceClassIdentityItem := { sci_Name : string; sci_Value : string }.

Record ApplicationSelector := {
  as_APIVersion : string; as_Kind : string; as_Name : string; as_Selector : option LabelSelector }.

Record EnvironmentConstraints := { ec_Environments : list string }.

Record Environment := { env_Name : string; env_Key : string }.

(** [Minutes] is a uint32. *)
Record HealthCheckContainer := { hcc_Image : string; hcc_Command : slice string; hcc_Minutes : N }.
Record HealthCheck := { hc_Container : HealthCheckContainer }.

(** ** api/v1alpha1/clusterenvironment_types.go *)

Definition SynchronizationStrategyPull : string := "Pull".
Definition SynchronizationStrategyPush : string := "Push".

Record ClusterEnvironmentSpec := {
  ces_EnvironmentName : string; ces_ClusterContextSecret : string; ces_Description : string;
  ces_Labels : list string; ces_ApplicationNamespaces : list string;
  ces_ServiceNamespaces : list string; ces_ContactInfo : string;
  ces_SynchronizationStrategy : string }.

Definition ClusterEnvironmentStateOnline : string := "Online".
Definition ClusterEnvironmentStatePartial : string := "Partial".
Definition ClusterEnvironmentStateOffline : string := "Offline".

Record ClusterEnvironmentStatus := { cest_State : string; cest_Conditions : list Condition }.

Record ClusterEnvironment := {
  ce_meta : ObjectMeta; ce_Spec : ClusterEnvironmentSpec; ce_Status : ClusterEnvironmentStatus }.

(** ** api/v1alpha1/registeredservice_types.go *)

Definition RegisteredServiceStateAvailable : string := "Available".
Definition RegisteredServiceStateClaimed : string := "Claimed".
Definition RegisteredServiceStateUnknown : string := "Unknown".
Definition RegisteredServiceStateUnreachable : string := "Unreachable".

Record RegisteredServiceConstraints := { rsc_Environments : list string }.

Record ServiceEndpointDefinitionSecretRef := { sedr_Name : string; sedr_Key : string }.

Record ServiceEndpointDefinitionItem := {
  sedi_Name : string; sedi_Value : string;
  sedi_ValueFromSecret : option ServiceEndpointDefinitionSecretRef }.

Record RegisteredServiceSpec := {
  rss_Constraints : option RegisteredServiceConstraints;
  rss_HealthCheck : option HealthCheck; rss_SLA : string;
  rss_ServiceClassIdentity : slice ServiceClassIdentityItem;
  rss_ServiceEndpointDefinition : slice ServiceEndpointDefinitionItem }.

Definition rss_GetEnvironmentConstraints (s : RegisteredServiceSpec) : list string :=
  match rss_Constraints s with Some c => rsc_Environments c | None => [] end.

Record RegisteredServiceStatus := { rsst_State : string }.

Record RegisteredService := {
  rs_meta : ObjectMeta; rs_Spec : RegisteredServiceSpec; rs_Status : RegisteredServiceStatus }.

(** ** api/v1alpha1/serviceclass_types.go *)

Record ServiceClassResourceFieldMapping := {
  rfm_Name : string; rfm_JsonPath : string; rfm_Secret : bool }.

Record FieldMapping := { fm_Constant : option string; fm_JsonPathExpr : option string }.

Record ServiceClassSecretRefFieldMapping := {
  sfm_Name : string; sfm_SecretName : FieldMapping; sfm_SecretKey : FieldMapping }.

Record ServiceEndpointDefinitionMappings := {
  sedm_ResourceFields : list ServiceClassResourceFieldMapping;
  sedm_SecretRefFields : list ServiceClassSecretRefFieldMapping }.

Record ServiceClassResource := {
  scr_APIVersion : string; scr_Kind : string;
  scr_ServiceEndpointDefinitionMappings : ServiceEndpointDefinitionMappings }.

Record ServiceClassSpec := {
  scls_Constraints : option EnvironmentConstraints; scls_HealthCheck : option HealthCheck;
  scls_Resource : ServiceClassResource;
  scls_ServiceClassIdentity : slice ServiceClassIdentityItem }.

Definition scls_GetEnvironmentConstraints (s : ServiceClassSpec) : list string :=
  match scls_Constraints s with Some c => ec_Environments c | None => [] end.

Record ServiceClassStatus := { sclst_Conditions : list Condition }.

Record ServiceClass := {
  scl_meta : ObjectMeta; scl_Spec : ServiceClassSpec; scl_Status : ServiceClassStatus }.

(** ** api/v1alpha1/serviceclaim_types.go *)

Definition ServiceClaimConditionReady : string := "Ready".
Definition ServiceClaimStatePending : string := "Pending".
Definition ServiceClaimStateResolved : string := "Resolved".
Definition ServiceClaimStateInvalid : string := "Invalid".

Record ServiceClaimApplicationClusterContext := {
  acc_ClusterEnvironmentName : string; acc_Namespace : string }.

Record ServiceClaimTarget := {
  tgt_EnvironmentTag : string;
  tgt_ApplicationClusterContext : option ServiceClaimApplicationClusterContext }.

Record ServiceClaimSpec := {
  scs_ServiceClassIdentity : slice ServiceClassIdentityItem;
  scs_ServiceEndpointDefinitionKeys : slice string;
  scs_Application : ApplicationSelector;
  scs_Target : option ServiceClaimTarget;
  scs_Envs : list Environment }.

Record ServiceClaimStatus := {
  scst_State : string; scst_ClaimID : string;
  scst_RegisteredService : option ObjectReference; scst_Conditions : list Condition }.

Record ServiceClaim := {
  sc_meta : ObjectMeta; sc_Spec : ServiceClaimSpec; sc_Status : ServiceClaimStatus }.

(** ** api/v1alpha1/servicebinding_types.go *)

Definition ServiceBindingBoundCondition : string := "Bound".
Definition ServiceBindingStateReady : string := "Ready".
Definition ServiceBindingStateMalformed : string := "Malformed".

Record ServiceBindingSpec := {
  sbs_ServiceEndpointDefinitionSecret : string;
  sbs_Application : ApplicationSelector; sbs_Envs : list Environment }.

Record BoundWorkload := { bw_Name : string }.

Record ServiceBindingStatus := {
  sbst_Conditions : list Condition; sbst_State : string; sbst_Connections : list BoundWorkload }.

Record ServiceBinding := {
  sb_meta : ObjectMeta; sb_Spec : ServiceBindingSpec; sb_Status : ServiceBindingStatus }.

(** ** api/v1alpha1/servicecatalog_types.go *)

Record ServiceCatalogService := {
  scsv_Name : string; scsv_ServiceClassIdentity : slice ServiceClassIdentityItem;
  scsv_ServiceEndpointDefinitionKeys : slice string }.

Record ServiceCatalogServiceByLabel := {
  scbl_ServiceCatalogService : ServiceCatalogService; scbl_Labels : option LabelSelector }.

Record ServiceCatalogSpec := {
  scats_Services : list ServiceCatalogService;
  scats_ClaimedByLabels : list ServiceCatalogServiceByLabel }.

Record ServiceCatalog := { scat_meta : ObjectMeta; scat_Spec : ServiceCatalogSpec }.

(** ** Kubernetes types *)

(** corev1.Secret; [Data] holds the bytes as strings. *)
Record Secret := {
  sec_meta : ObjectMeta; sec_Data : gmap string string; sec_StringData : gmap string string }.

(** rbacv1.RoleBinding *)
Record RoleRef := { rr_APIGroup : string; rr_Kind : string; rr_Name : string }.
Record Subject := { subj_APIGroup : string; subj_Kind : string; subj_Name : string }.
Record RoleBinding := { rb_meta : ObjectMeta; rb_RoleRef : RoleRef; rb_Subjects : list Subject }.

(** batchv1.CronJob: the fields [registerHealthcheck] sets. *)
Record JobContainer := {
  jc_Name : string; jc_Command : list string; jc_Image : string; jc_ImagePullPolicy : string;
  jc_DropCapabilities : list string; jc_Privileged : option bool; jc_RunAsNonRoot : option bool;
  jc_AllowPrivilegeEscalation : option bool }.
Record CronJobSpec := {
  cjs_Schedule : string; cjs_ConcurrencyPolicy : string;
  cjs_SuccessfulJobsHistoryLimit : option Z; cjs_FailedJobsHistoryLimit : option Z;
  cjs_ActiveDeadlineSeconds : option Z; cjs_BackoffLimit : option Z; cjs_Parallelism : option Z;
  cjs_Containers : list JobContainer; cjs_RestartPolicy : string;
  cjs_RunAsUser : option Z; cjs_RunAsGroup : option Z; cjs_RunAsNonRoot : option bool;
  cjs_SeccompProfile : string }.
Record CronJob := { cj_meta : ObjectMeta; cj_Spec : option CronJobSpec }.

(** batchv1.Job *)
Record JobCondition := { jcond_Type : string; jcond_Status : string }.
Record Job := { job_meta : ObjectMeta; job_Conditions : list JobCondition }.

(** appsv1.Deployment: its metadata, the labels of its pod template and the images
    of its containers. *)
Record Deployment := {
  dep_meta : ObjectMeta; dep_TemplateLabels : gomap; dep_Images : list string }.

(** corev1.ConfigMap *)
Record ConfigMap := { cm_meta : ObjectMeta; cm_Data : gomap }.

(** ** Decidable equality *)

#[export] Instance OwnerReference_eq_dec : EqDecision OwnerReference.
Proof. solve_decision. Defined.
#[export] Instance ObjectMeta_eq_dec : EqDecision ObjectMeta.
Proof. solve_decision. Defined.
#[export] Instance Condition_eq_dec : EqDecision Condition.
Proof. solve_decision. Defined.
#[export] Instance LabelSelectorRequirement_eq_dec : EqDecision LabelSelectorRequirement.
Proof. solve_decision. Defined.
#[export] Instance LabelSelector_eq_dec : EqDecision LabelSelector.
Proof. solve_decision. Defined.
#[export] Instance ObjectReference_eq_dec : EqDecision ObjectReference.
Proof. solve_decision. Defined.
#[export] Instance ServiceClassIdentityItem_eq_dec : EqDecision ServiceClassIdentityItem.
Proof. solve_decision. Defined.
#[export] Instance ApplicationSelector_eq_dec : EqDecision ApplicationSelector.
Proof. solve_decision. Defined.
#[export] Instance EnvironmentConstraints_eq_dec : EqDecision EnvironmentConstraints.
Proof. solve_decision. Defined.
#[export] Instance Environment_eq_dec : EqDecision Environment.
Proof. solve_decision. Defined.
#[export] Instance HealthCheckContainer_eq_dec : EqDecision HealthCheckContainer.
Proof. solve_decision. Defined.
#[export] Instance HealthCheck_eq_dec : EqDecision HealthCheck.
Proof. solve_decision. Defined.
#[export] Instance ClusterEnvironmentSpec_eq_dec : EqDecision ClusterEnvironmentSpec.
Proof. solve_decision. Defined.
#[export] Instance ClusterEnvironmentStatus_eq_dec : EqDecision ClusterEnvironmentStatus.
Proof. solve_decision. Defined.
#[export] Instance ClusterEnvironment_eq_dec : EqDecision ClusterEnvironment.
Proof. solve_decision. Defined.
#[export] Instance RegisteredServiceConstraints_eq_dec : EqDecision RegisteredServiceConstraints.
Proof. solve_decision. Defined.
#[export] Instance ServiceEndpointDefinitionSecretRef_eq_dec :
  EqDecision ServiceEndpointDefinitionSecretRef.
Proof. solve_decision. Defined.
#[export] Instance ServiceEndpointDefinitionItem_eq_dec : EqDecision ServiceEndpointDefinitionItem.
Proof. solve_decision. Defined.
#[export] Instance RegisteredServiceSpec_eq_dec : EqDecision RegisteredServiceSpec.
Proof. solve_decision. Defined.
#[export] Instance RegisteredServiceStatus_eq_dec : EqDecision RegisteredServiceStatus.
Proof. solve_decision. Defined.
#[export] Instance RegisteredService_eq_dec : EqDecision RegisteredService.
Proof. solve_decision. Defined.
#[export] Instance ServiceClassResourceFieldMapping_eq_dec :
  EqDecision ServiceClassResourceFieldMapping.
Proof. solve_decision. Defined.
#[export] Instance FieldMapping_eq_dec : EqDecision FieldMapping.
Proof. solve_decision. Defined.
#[export] Instance ServiceClassSecretRefFieldMapping_eq_dec :
  EqDecision ServiceClassSecretRefFieldMapping.
Proof. solve_decision. Defined.
#[export] Instance ServiceEndpointDefinitionMappings_eq_dec :
  EqDecision ServiceEndpointDefinitionMappings.
Proof. solve_decision. Defined.
#[export] Instance ServiceClassResource_eq_dec : EqDecision ServiceClassResource.
Proof. solve_decision. Defined.
#[export] Instance ServiceClassSpec_eq_dec : EqDecision ServiceClassSpec.
Proof. solve_decision. Defined.
#[export] Instance ServiceClassStatus_eq_dec : EqDecision ServiceClassStatus.
Proof. solve_decision. Defined.
#[export] Instance ServiceClass_eq_dec : EqDecision ServiceClass.
Proof. solve_decision. Defined.
#[export] Instance ServiceClaimApplicationClusterContext_eq_dec :
  EqDecision ServiceClaimApplicationClusterContext.
Proof. solve_decision. Defined.
#[export] Instance ServiceClaimTarget_eq_dec : EqDecision ServiceClaimTarget.
Proof. solve_decision. Defined.
#[export] Instance ServiceClaimSpec_eq_dec : EqDecision ServiceClaimSpec.
Proof. solve_decision. Defined.
#[export] Instance ServiceClaimStatus_eq_dec : EqDecision ServiceClaimStatus.
Proof. solve_decision. Defined.
#[export] Instance ServiceClaim_eq_dec : EqDecision ServiceClaim.
Proof. solve_decision. Defined.
#[export] Instance ServiceBindingSpec_eq_dec : EqDecision ServiceBindingSpec.
Proof. solve_decision. Defined.
#[export] Instance BoundWorkload_eq_dec : EqDecision BoundWorkload.
Proof. solve_decision. Defined.
#[export] Instance ServiceBindingStatus_eq_dec : EqDecision ServiceBindingStatus.
Proof. solve_decision. Defined.
#[export] Instance ServiceBinding_eq_dec : EqDecision ServiceBinding.
Proof. solve_decision. Defined.
#[export] Instance ServiceCatalogService_eq_dec : EqDecision ServiceCatalogService.
Proof. solve_decision. Defined.
#[export] Instance ServiceCatalogServiceByLabel_eq_dec : EqDecision ServiceCatalogServiceByLabel.
Proof. solve_decision. Defined.
#[export] Instance ServiceCatalogSpec_eq_dec : EqDecision ServiceCatalogSpec.
Proof. solve_decision. Defined.
#[export] Instance ServiceCatalog_eq_dec : EqDecision ServiceCatalog.
Proof. solve_decision. Defined.
#[export] Instance Secret_eq_dec : EqDecision Secret.
Proof. solve_decision. Defined.
#[export] Instance RoleRef_eq_dec : EqDecision RoleRef.
Proof. solve_decision. Defined.
#[export] Instance Subject_eq_dec : EqDecision Subject.
Proof. solve_decision. Defined.
#[export] Instance RoleBinding_eq_dec : EqDecision RoleBinding.
Proof. solve_decision. Defined.
#[export] Instance JobContainer_eq_dec : EqDecision JobContainer.
Proof. solve_decision. Defined.
#[export] Instance CronJobSpec_eq_dec : EqDecision CronJobSpec.
Proof. solve_decision. Defined.
#[export] Instance CronJob_eq_dec : EqDecision CronJob.
Proof. solve_decision. Defined.
#[export] Instance JobCondition_eq_dec : EqDecision JobCondition.
Proof. solve_decision. Defined.
#[export] Instance Job_eq_dec : EqDecision Job.
Proof. solve_decision. Defined.
#[export] Instance Deployment_eq_dec : EqDecision Deployment.
Proof. solve_decision. Defined.
#[export] Instance ConfigMap_eq_dec : EqDecision ConfigMap.
Proof. solve_decision. Defined.

(** ** Countable keys *)

#[export] Instance ServiceClassIdentityItem_countable : Countable ServiceClassIdentityItem.
Proof.
  refine (inj_countable' (λ x, (sci_Name x, sci_Value x))
            (λ p, {| sci_Name := p.1; sci_Value := p.2 |}) _).
  by intros [].
Defined.
#[export] Instance ServiceClassResourceFieldMapping_countable :
  Countable ServiceClassResourceFieldMapping.
Proof.
  refine (inj_countable' (λ x, (rfm_Name x, rfm_JsonPath x, rfm_Secret x))
            (λ p, {| rfm_Name := p.1.1; rfm_JsonPath := p.1.2; rfm_Secret := p.2 |}) _).
  by intros [].
Defined.

(** ** Field updates *)

Definition om_set_Finalizers (m : ObjectMeta) (fs : list string) : ObjectMeta :=
  {| om_Name := om_Name m; om_Namespace := om_Namespace m; om_UID := om_UID m;
     om_ResourceVersion := om_ResourceVersion m; om_Labels := om_Labels m;
     om_Annotations := om_Annotations m; om_Finalizers := fs;
     om_OwnerReferences := om_OwnerReferences m; om_DeletionTimestamp := om_DeletionTimestamp m |}.
Definition om_set_OwnerReferences (m : ObjectMeta) (rs : list OwnerReference) : ObjectMeta :=
  {| om_Name := om_Name m; om_Namespace := om_Namespace m; om_UID := om_UID m;
     om_ResourceVersion := om_ResourceVersion m; om_Labels := om_Labels m;
     om_Annotations := om_Annotations m; om_Finalizers := om_Finalizers m;
     om_OwnerReferences := rs; om_DeletionTimestamp := om_DeletionTimestamp m |}.
Definition om_set_Namespace (m : ObjectMeta) (ns : string) : ObjectMeta :=
  {| om_Name := om_Name m; om_Namespace := ns; om_UID := om_UID m;
     om_ResourceVersion := om_ResourceVersion m; om_Labels := om_Labels m;
     om_Annotations := om_Annotations m; om_Finalizers := om_Finalizers m;
     om_OwnerReferences := om_OwnerReferences m; om_DeletionTimestamp := om_DeletionTimestamp m |}.
Definition om_set_ResourceVersion (m : ObjectMeta) (v : string) : ObjectMeta :=
  {| om_Name := om_Name m; om_Namespace := om_Namespace m; om_UID := om_UID m;
     om_ResourceVersion := v; om_Labels := om_Labels m;
     om_Annotations := om_Annotations m; om_Finalizers := om_Finalizers m;
     om_OwnerReferences := om_OwnerReferences m; om_DeletionTimestamp := om_DeletionTimestamp m |}.
Definition om_set_Labels (m : ObjectMeta) (ls : gomap) : ObjectMeta :=
  {| om_Name := om_Name m; om_Namespace := om_Namespace m; om_UID := om_UID m;
     om_ResourceVersion := om_ResourceVersion m; om_Labels := ls;
     om_Annotations := om_Annotations m; om_Finalizers := om_Finalizers m;
     om_OwnerReferences := om_OwnerReferences m; om_DeletionTimestamp := om_DeletionTimestamp m |}.
Definition om_set_Annotations (m : ObjectMeta) (an : gomap) : ObjectMeta :=
  {| om_Name := om_Name m; om_Namespace := om_Namespace m; om_UID := om_UID m;
     om_ResourceVersion := om_ResourceVersion m; om_Labels := om_Labels m;
     om_Annotations := an; om_Finalizers := om_Finalizers m;
     om_OwnerReferences := om_OwnerReferences m; om_DeletionTimestamp := om_DeletionTimestamp m |}.

(** [metav1.ObjectMeta{Name: ..., Namespace: ...}] *)
Definition named (name namespace : string) : ObjectMeta :=
  {| om_Name := name; om_Namespace := namespace; om_UID := ""; om_ResourceVersion := "";
     om_Labels := None; om_Annotations := None; om_Finalizers := [];
     om_OwnerReferences := []; om_DeletionTimestamp := None |}.

(** [HasDeletionTimestamp] and [!GetDeletionTimestamp().IsZero()]. *)
Definition HasDeletionTimestamp (m : ObjectMeta) : bool := negb (is_nil (om_DeletionTimestamp m)).
