(* ===== verification/Kube.v ===== *)
(** * The Kubernetes API and the other surroundings of the program

    Every call the program makes outside itself is a constructor of [Call], with
    the type of its answer given by [Answer]: API server requests through a
    controller-runtime client or a clientset, the clock, UUIDs, the environment
    variables, files, the iteration order of a Go map, and the set-up of a manager.
    The answer of a [Get], [Create] or [Update] is the object as the Go variable holds
    it after the call; on an error the variable is unchanged.  [legal] records what
    the program may rely on: the API server answers about the object that was asked for, and a Go
    map is ranged over in some order.  The rest of the file models the helpers of
    controller-runtime and apimachinery (src/vendor) the reconcilers build on. *)

From S2P Require Import Prelude Prog GoErr Json Types.

#[local] Open Scope string_scope.
#[local] Open Scope list_scope.
#[local] Open Scope primaza_scope.

(** ** Kinds and objects *)

Inductive Kind :=
| KServiceClaim | KRegisteredService | KServiceClass | KServiceCatalog | KServiceBinding
| KClusterEnvironment | KSecret | KRoleBinding | KCronJob | KJob | KDeployment | KConfigMap.

#[export] Instance Kind_eq_dec : EqDecision Kind.
Proof. solve_decision. Defined.

Definition kobj (k : Kind) : Type :=
  match k with
  | KServiceClaim => ServiceClaim
  | KRegisteredService => RegisteredService
  | KServiceClass => ServiceClass
  | KServiceCatalog => ServiceCatalog
  | KServiceBinding => ServiceBinding
  | KClusterEnvironment => ClusterEnvironment
  | KSecret => Secret
  | KRoleBinding => RoleBinding
  | KCronJob => CronJob
  | KJob => Job
  | KDeployment => Deployment
  | KConfigMap => ConfigMap
  end.

#[export] Instance kobj_eq_dec k : EqDecision (kobj k).
Proof. destruct k; simpl; apply _. Defined.

Definition obj_meta {k : Kind} : kobj k → ObjectMeta :=
  match k with
  | KServiceClaim => sc_meta
  | KRegisteredService => rs_meta
  | KServiceClass => scl_meta
  | KServiceCatalog => scat_meta
  | KServiceBinding => sb_meta
  | KClusterEnvironment => ce_meta
  | KSecret => sec_meta
  | KRoleBinding => rb_meta
  | KCronJob => cj_meta
  | KJob => job_meta
  | KDeployment => dep_meta
  | KConfigMap => cm_meta
  end.

Definition set_meta {k : Kind} : kobj k → ObjectMeta → kobj k :=
  match k with
  | KServiceClaim => λ o m, {| sc_meta := m; sc_Spec := sc_Spec o; sc_Status := sc_Status o |}
  | KRegisteredService => λ o m, {| rs_meta := m; rs_Spec := rs_Spec o; rs_Status := rs_Status o |}
  | KServiceClass => λ o m, {| scl_meta := m; scl_Spec := scl_Spec o; scl_Status := scl_Status o |}
  | KServiceCatalog => λ o m, {| scat_meta := m; scat_Spec := scat_Spec o |}
  | KServiceBinding => λ o m, {| sb_meta := m; sb_Spec := sb_Spec o; sb_Status := sb_Status o |}
  | KClusterEnvironment => λ o m, {| ce_meta := m; ce_Spec := ce_Spec o; ce_Status := ce_Status o |}
  | KSecret => λ o m, {| sec_meta := m; sec_Data := sec_Data o; sec_StringData := sec_StringData o |}
  | KRoleBinding => λ o m, {| rb_meta := m; rb_RoleRef := rb_RoleRef o; rb_Subjects := rb_Subjects o |}
  | KCronJob => λ o m, {| cj_meta := m; cj_Spec := cj_Spec o |}
  | KJob => λ o m, {| job_meta := m; job_Conditions := job_Conditions o |}
  | KDeployment => λ o m,
      {| dep_meta := m; dep_TemplateLabels := dep_TemplateLabels o; dep_Images := dep_Images o |}
  | KConfigMap => λ o m, {| cm_meta := m; cm_Data := cm_Data o |}
  end.

Lemma obj_meta_set_meta {k} (o : kobj k) m : obj_meta (set_meta o m) = m.
Proof. by destruct k. Qed.

Definition obj_Name {k} (o : kobj k) : string := om_Name (obj_meta o).
Definition obj_Namespace {k} (o : kobj k) : string := om_Namespace (obj_meta o).

(** types.NamespacedName *)
Record NamespacedName := { nn_Namespace : string; nn_Name : string }.
#[export] Instance NamespacedName_eq_dec : EqDecision NamespacedName.
Proof. solve_decision. Defined.

(** [client.ObjectKeyFromObject] *)
Definition ObjectKeyFromObject {k} (o : kobj k) : NamespacedName :=
  {| nn_Namespace := obj_Namespace o; nn_Name := obj_Name o |}.

(** The registered API version and kind of a type ([apiutil.GVKForObject]). *)
Definition gvk_APIVersion (k : Kind) : string :=
  match k with
  | KServiceClaim | KRegisteredService | KServiceClass | KServiceCatalog | KServiceBinding
  | KClusterEnvironment => "primaza.io/v1alpha1"
  | KSecret | KConfigMap => "v1"
  | KRoleBinding => "rbac.authorization.k8s.io/v1"
  | KCronJob | KJob => "batch/v1"
  | KDeployment => "apps/v1"
  end.
Definition gvk_Kind (k : Kind) : string :=
  match k with
  | KServiceClaim => "ServiceClaim" | KRegisteredService => "RegisteredService"
  | KServiceClass => "ServiceClass" | KServiceCatalog => "ServiceCatalog"
  | KServiceBinding => "ServiceBinding" | KClusterEnvironment => "ClusterEnvironment"
  | KSecret => "Secret" | KRoleBinding => "RoleBinding" | KCronJob => "CronJob"
  | KJob => "Job" | KDeployment => "Deployment" | KConfigMap => "ConfigMap"
  end.

(** ** Calls *)

(** rest.Config: the host and everything else it carries. *)
Record RestConfig := { cfg_Host : string; cfg_Rest : string }.
#[export] Instance RestConfig_eq_dec : EqDecision RestConfig.
Proof. solve_decision. Defined.

(** A client: the manager's, or one made from a configuration. *)
Inductive Client := Manager | ForConfig (cfg : RestConfig).
#[export] Instance Client_eq_dec : EqDecision Client.
Proof. solve_decision. Defined.

(** client.ListOptions: a namespace ([""] is all) and equality requirements on
    labels. *)
Record ListOptions := { lo_Namespace : string; lo_Labels : list (string * string) }.
Definition InNamespace (ns : string) : ListOptions := {| lo_Namespace := ns; lo_Labels := [] |}.

Record GroupVersionKind := { gvk_G : string; gvk_V : string; gvk_K : string }.
#[export] Instance GroupVersionKind_eq_dec : EqDecision GroupVersionKind.
Proof. solve_decision. Defined.

(** authorizationv1.ResourceAttributes *)
Record ResourceAttributes := {
  ra_Namespace : string; ra_Verb : string; ra_Group : string; ra_Version : string;
  ra_Resource : string; ra_Name : string }.
(** authorizationv1.ResourceRule *)
Record ResourceRule := {
  rrl_Verbs : list string; rrl_APIGroups : list string;
  rrl_Resources : list string; rrl_ResourceNames : list string }.

Inductive Call :=
| CGet (cl : Client) (k : Kind) (key : NamespacedName)
| CList (cl : Client) (k : Kind) (opts : ListOptions)
| CCreate (cl : Client) (k : Kind) (o : kobj k)
| CUpdate (cl : Client) (k : Kind) (o : kobj k)
| CStatusUpdate (cl : Client) (k : Kind) (o : kobj k)
| CDelete (cl : Client) (k : Kind) (key : NamespacedName)
| CDeleteAllOf (cl : Client) (k : Kind) (ns : string)
| CNewClient (cfg : RestConfig)
| CNewClientset (cfg : RestConfig)
| CInClusterConfig
| CBuildConfigFromFlags (path : string)
| CReadFile (path : string)
| CServerVersion (cfg : RestConfig)
| CAccessReview (cfg : RestConfig) (attrs : ResourceAttributes)
| CRulesReview (cfg : RestConfig) (ns : string)
| CUuid
| CNow
| CMapKeys (ks : list string)
| CGetenv (name : string)
| CGetUnstructured (cl : Client) (gvk : GroupVersionKind) (key : NamespacedName)
| CListUnstructured (cl : Client) (gvk : GroupVersionKind) (ns : string) (sel : option LabelSelector)
| CUpdateUnstructured (cl : Client) (o : json)
| CAddEventHandler (what key : string)
| CStartInformer (what key : string)
| CCancelInformer (what key : string)
| CWaitForCacheSync (what key : string)
| CRESTMapping (gvk : GroupVersionKind)
| CSetup (what key : string).

Definition Answer (c : Call) : Type :=
  match c with
  | CGet _ k _ => result (kobj k)
  | CList _ k _ => result (list (kobj k))
  | CCreate _ k _ => result (kobj k)
  | CUpdate _ k _ => result (kobj k)
  | CStatusUpdate _ k _ => result (kobj k)
  | CDelete _ _ _ => option gerr
  | CDeleteAllOf _ _ _ => option gerr
  | CNewClient _ => option gerr
  | CNewClientset _ => option gerr
  | CInClusterConfig => result RestConfig
  | CBuildConfigFromFlags _ => result RestConfig
  | CReadFile _ => result string
  | CServerVersion _ => result string
  | CAccessReview _ _ => result bool
  | CRulesReview _ _ => result (list ResourceRule)
  | CUuid => string
  | CNow => Z
  | CMapKeys _ => list string
  | CGetenv _ => option string
  | CGetUnstructured _ _ _ => result json
  | CListUnstructured _ _ _ _ => result (list json)
  | CUpdateUnstructured _ _ => result json
  | CAddEventHandler _ _ => option gerr
  | CStartInformer _ _ => unit
  | CCancelInformer _ _ => unit
  | CWaitForCacheSync _ _ => bool
  | CRESTMapping _ => option gerr
  | CSetup _ _ => option gerr
  end.

Abbreviation M := (Prog Answer).
Abbreviation kevent := (event Answer).

(** An event of the program: a call and its answer. *)
Abbreviation KEv := (@Ev Call Answer).

(** One call of the program. *)
Abbreviation api := (@call Call Answer).

(** The API server answers about the object it was asked for; a Go map is ranged
    over once per key. *)
Definition same_key {k} (key : NamespacedName) (r : result (kobj k)) : Prop :=
  match r with Ok o => ObjectKeyFromObject o = key | Err _ => True end.

Definition legal (c : Call) : Answer c → Prop :=
  match c return Answer c → Prop with
  | CGet _ k key => same_key key
  | CList _ k opts => λ r,
      match r with
      | Ok os => Forall (λ o, lo_Namespace opts = "" ∨ obj_Namespace o = lo_Namespace opts) os
      | Err _ => True
      end
  | CCreate _ k o => same_key (ObjectKeyFromObject o)
  | CUpdate _ k o => same_key (ObjectKeyFromObject o)
  | CStatusUpdate _ k o => same_key (ObjectKeyFromObject o)
  | CMapKeys ks => λ ks', ks ≡ₚ ks'
  | CGetUnstructured _ _ key => λ r,
      match r with
      | Ok o => GetNamespace o = nn_Namespace key ∧ GetName o = nn_Name key
      | Err _ => True
      end
  | CListUnstructured _ _ ns _ => λ r,
      match r with
      | Ok os => Forall (λ o, ns = "" ∨ GetNamespace o = ns) os
      | Err _ => True
      end
  | _ => λ _, True
  end.

Abbreviation kexec := (exec legal).
Abbreviation kwp := (wp legal).

(** ** Views of a call or an event at a kind *)

Definition at_kind {F : Kind → Type} (k : Kind) (P : F k → Prop) (k' : Kind) : F k' → Prop :=
  match decide (k = k') with
  | left e => match e in _ = k' return F k' → Prop with eq_refl => P end
  | right _ => λ _, False
  end.

Lemma at_kind_same k (P : kobj k → Prop) (o : kobj k) : P o → at_kind k P k o.
Proof.
  unfold at_kind. destruct (decide (k = k)) as [e|]; [|done].
  by rewrite (proof_irrel e eq_refl).
Qed.

(** The calls that change what the API server stores. *)
Definition is_write (c : Call) : Prop :=
  match c with
  | CCreate _ _ _ | CUpdate _ _ _ | CStatusUpdate _ _ _ | CDelete _ _ _ | CDeleteAllOf _ _ _
  | CUpdateUnstructured _ _ => True
  | _ => False
  end.
#[export] Instance is_write_dec c : Decision (is_write c).
Proof. destruct c; simpl; apply _. Defined.

(** A status update of an object of kind [k], with its answer. *)
Definition on_StatusUpdate (k : Kind) (P : Client → kobj k → result (kobj k) → Prop)
    (ev : kevent) : Prop :=
  match ev with
  | existT c r =>
      match c return Answer c → Prop with
      | CStatusUpdate cl k' o => λ r,
          at_kind (F := λ k, (kobj k * result (kobj k))%type) k (λ p, P cl p.1 p.2) k' (o, r)
      | _ => λ _, False
      end r
  end.
Definition on_Update (k : Kind) (P : Client → kobj k → result (kobj k) → Prop)
    (ev : kevent) : Prop :=
  match ev with
  | existT c r =>
      match c return Answer c → Prop with
      | CUpdate cl k' o => λ r,
          at_kind (F := λ k, (kobj k * result (kobj k))%type) k (λ p, P cl p.1 p.2) k' (o, r)
      | _ => λ _, False
      end r
  end.
Definition on_Create (k : Kind) (P : Client → kobj k → result (kobj k) → Prop)
    (ev : kevent) : Prop :=
  match ev with
  | existT c r =>
      match c return Answer c → Prop with
      | CCreate cl k' o => λ r,
          at_kind (F := λ k, (kobj k * result (kobj k))%type) k (λ p, P cl p.1 p.2) k' (o, r)
      | _ => λ _, False
      end r
  end.
(** If the call is a status update, or an update, of an object of kind [k], the object
    satisfies [P]. *)
Definition when_kind {k k' : Kind} (P : kobj k → Prop) (o : kobj k') : Prop :=
  match decide (k = k') with
  | left e => match e in _ = k' return kobj k' → Prop with eq_refl => P end o
  | right _ => True
  end.
Definition when_StatusUpdate (k : Kind) (P : kobj k → Prop) (c : Call) : Prop :=
  match c with CStatusUpdate _ _ o => when_kind P o | _ => True end.
Definition when_Update (k : Kind) (P : kobj k → Prop) (c : Call) : Prop :=
  match c with CUpdate _ _ o => when_kind P o | _ => True end.

(** The call updates no object of kind [k]. *)
Definition no_Update (k : Kind) (c : Call) : Prop :=
  match c with CUpdate _ k' _ => k ≠ k' | _ => True end.

Lemma when_Update_none k (P : kobj k → Prop) c : no_Update k c → when_Update k P c.
Proof.
  destruct c; try done. simpl. unfold when_kind. by destruct (decide _).
Qed.

Lemma when_Update_same k (P : kobj k → Prop) cl (o : kobj k) : P o → when_Update k P (CUpdate cl k o).
Proof.
  simpl. unfold when_kind. destruct (decide (k = k)) as [e|]; [|done].
  by rewrite (proof_irrel e eq_refl).
Qed.

(** A deletion of an object of kind [k], with its answer. *)
Definition on_Delete (k : Kind) (P : Client → NamespacedName → option gerr → Prop)
    (ev : kevent) : Prop :=
  match ev with
  | existT c r =>
      match c return Answer c → Prop with
      | CDelete cl k' key => λ r, k = k' ∧ P cl key r
      | _ => λ _, False
      end r
  end.

(** ** Error handling of the source *)

(** What [return ..., err] builds in a function of each result type. *)
Class Fails (T : Type) := fail_with : gerr → T.
#[export] Instance fails_error : Fails (option gerr) := Some.
#[export] Instance fails_result A : Fails (result A) := Err.

(** [if err := p; err != nil { return err }; k] *)
Notation "'do!' p ;; k" :=
  (mbind (M := M) (λ e_, match e_ with Some e_ => mret (fail_with e_) | None => k end) p)
  (at level 60, p at level 55, k at level 60, right associativity,
   format "'[v' 'do!'  p  ;; '/' k ']'").
(** [x, err := p; if err != nil { return err }; k] *)
Notation "'let!' x ':=' p ';;' k" :=
  (mbind (M := M) (λ r_, match r_ with Ok x => k | Err e_ => mret (fail_with e_) end) p)
  (at level 60, x name, p at level 55, k at level 60, right associativity,
   format "'[v' 'let!'  x  ':='  p  ';;' '/' k ']'").

(** A run-time panic. *)
Definition panic {A} (msg : string) : M A := Halt (GoPanic msg).
Definition nil_dereference : string := "invalid memory address or nil pointer dereference".
Definition nil_map_write : string := "assignment to entry in nil map".
(** [*p], [p.f] *)
Definition deref {A} (p : option A) : M A :=
  match p with Some a => mret a | None => panic nil_dereference end.

(** ** controllerutil: finalizers *)

Definition ContainsFinalizer {k} (o : kobj k) (f : string) : bool :=
  ⟪ f ∈ om_Finalizers (obj_meta o) ⟫.
Definition AddFinalizer {k} (o : kobj k) (f : string) : kobj k * bool :=
  if ⟪ f ∈ om_Finalizers (obj_meta o) ⟫ then (o, false)
  else (set_meta o (om_set_Finalizers (obj_meta o) (om_Finalizers (obj_meta o) ++ [f])), true).
Definition RemoveFinalizer {k} (o : kobj k) (f : string) : kobj k * bool :=
  (set_meta o (om_set_Finalizers (obj_meta o) (filter (λ e, e ≠ f) (om_Finalizers (obj_meta o)))),
   ⟪ f ∈ om_Finalizers (obj_meta o) ⟫).

(** ** controllerutil: owner references *)

Definition validateOwner {ko k} (owner : kobj ko) (o : kobj k) : option gerr :=
  let ownerNs := obj_Namespace owner in
  if ⟪ ownerNs = "" ⟫ then None
  else
    let objNs := obj_Namespace o in
    if ⟪ objNs = "" ⟫ then
      Some (ENew ("cluster-scoped resource must not have a namespace-scoped owner, owner's namespace "
                  +++ ownerNs))
    else if ⟪ ownerNs ≠ objNs ⟫ then
      Some (ENew ("cross-namespace owner references are disallowed, owner's namespace " +++ ownerNs
                  +++ ", obj's namespace " +++ objNs))
    else None.

(** [schema.ParseGroupVersion]: the group of an API version, [None] on an error. *)
Definition group_of (apiVersion : string) : option string :=
  if ⟪ apiVersion = "" ⟫ || ⟪ apiVersion = "/" ⟫ then Some ""
  else match GoStr.split_on (Ascii.ascii_of_nat 47) apiVersion with
       | [_] => Some ""
       | [g; _] => Some g
       | _ => None
       end.

Definition referSameObject (a b : OwnerReference) : bool :=
  match group_of (or_APIVersion a), group_of (or_APIVersion b) with
  | Some ga, Some gb =>
      ⟪ ga = gb ⟫ && ⟪ or_Kind a = or_Kind b ⟫ && ⟪ or_Name a = or_Name b ⟫
  | _, _ => false
  end.

(** The references after [upsertOwnerRef]: the first reference to the same object
    is replaced, or the new one appended. *)
Fixpoint upsertOwnerRef (ref : OwnerReference) (owners : list OwnerReference)
    : list OwnerReference :=
  match owners with
  | [] => [ref]
  | r :: rs => if referSameObject r ref then ref :: rs else r :: upsertOwnerRef ref rs
  end.

(** [schema.FromAPIVersionAndKind], through [schema.ParseGroupVersion]. *)
Definition FromAPIVersionAndKind (apiVersion kind : string) : GroupVersionKind :=
  if ⟪ apiVersion = "" ⟫ || ⟪ apiVersion = "/" ⟫ then {| gvk_G := ""; gvk_V := ""; gvk_K := kind |}
  else match GoStr.split_on (Ascii.ascii_of_nat 47) apiVersion with
       | [v] => {| gvk_G := ""; gvk_V := v; gvk_K := kind |}
       | [g; v] => {| gvk_G := g; gvk_V := v; gvk_K := kind |}
       | _ => {| gvk_G := ""; gvk_V := ""; gvk_K := kind |}
       end.

(** [metav1.GetControllerOf] *)
Definition GetControllerOf (m : ObjectMeta) : option OwnerReference :=
  find_first (λ r, match or_Controller r with Some true => true | _ => false end)
    (om_OwnerReferences m).

Definition with_owner {k} (o : kobj k) (ref : OwnerReference) : kobj k :=
  set_meta o (om_set_OwnerReferences (obj_meta o)
                (upsertOwnerRef ref (om_OwnerReferences (obj_meta o)))).

Definition SetControllerReference {ko k} (owner : kobj ko) (o : kobj k) : kobj k * option gerr :=
  match validateOwner owner o with
  | Some e => (o, Some e)
  | None =>
      let ref := {| or_APIVersion := gvk_APIVersion ko; or_Kind := gvk_Kind ko;
                    or_Name := obj_Name owner; or_UID := om_UID (obj_meta owner);
                    or_Controller := Some true; or_BlockOwnerDeletion := Some true |} in
      match GetControllerOf (obj_meta o) with
      | Some existing =>
          if negb (referSameObject existing ref) then
            (o, Some (ENew ("Object " +++ obj_Namespace o +++ "/" +++ obj_Name o
                            +++ " is already owned by another " +++ or_Kind existing
                            +++ " controller " +++ or_Name existing)))
          else (with_owner o ref, None)
      | None => (with_owner o ref, None)
      end
  end.

Definition SetOwnerReference {ko k} (owner : kobj ko) (o : kobj k) : kobj k * option gerr :=
  match validateOwner owner o with
  | Some e => (o, Some e)
  | None =>
      (with_owner o {| or_APIVersion := gvk_APIVersion ko; or_Kind := gvk_Kind ko;
                       or_Name := obj_Name owner; or_UID := om_UID (obj_meta owner);
                       or_Controller := None; or_BlockOwnerDeletion := None |}, None)
  end.

(** ** controllerutil: CreateOrUpdate *)

Definition norm_map (m : gomap) : gomap :=
  match m with Some m => if ⟪ m = ∅ ⟫ then None else Some m | None => None end.

Definition norm_meta (m : ObjectMeta) : ObjectMeta :=
  om_set_Annotations (om_set_Labels m (norm_map (om_Labels m))) (norm_map (om_Annotations m)).

Definition norm_HealthCheck (hc : HealthCheck) : HealthCheck :=
  {| hc_Container := {| hcc_Image := hcc_Image (hc_Container hc);
       hcc_Command := norm_slice (hcc_Command (hc_Container hc));
       hcc_Minutes := hcc_Minutes (hc_Container hc) |} |}.
Definition norm_RegisteredServiceSpec (s : RegisteredServiceSpec) : RegisteredServiceSpec :=
  {| rss_Constraints := rss_Constraints s; rss_HealthCheck := norm_HealthCheck <$> rss_HealthCheck s;
     rss_SLA := rss_SLA s;
     rss_ServiceClassIdentity := norm_slice (rss_ServiceClassIdentity s);
     rss_ServiceEndpointDefinition := norm_slice (rss_ServiceEndpointDefinition s) |}.
Definition norm_ServiceClassSpec (s : ServiceClassSpec) : ServiceClassSpec :=
  {| scls_Constraints := scls_Constraints s; scls_HealthCheck := norm_HealthCheck <$> scls_HealthCheck s;
     scls_Resource := scls_Resource s;
     scls_ServiceClassIdentity := norm_slice (scls_ServiceClassIdentity s) |}.
Definition norm_ServiceClaimSpec (s : ServiceClaimSpec) : ServiceClaimSpec :=
  {| scs_ServiceClassIdentity := norm_slice (scs_ServiceClassIdentity s);
     scs_ServiceEndpointDefinitionKeys := norm_slice (scs_ServiceEndpointDefinitionKeys s);
     scs_Application := scs_Application s; scs_Target := scs_Target s; scs_Envs := scs_Envs s |}.
Definition norm_CatalogService (s : ServiceCatalogService) : ServiceCatalogService :=
  {| scsv_Name := scsv_Name s;
     scsv_ServiceClassIdentity := norm_slice (scsv_ServiceClassIdentity s);
     scsv_ServiceEndpointDefinitionKeys := norm_slice (scsv_ServiceEndpointDefinitionKeys s) |}.
Definition norm_ServiceCatalogSpec (s : ServiceCatalogSpec) : ServiceCatalogSpec :=
  {| scats_Services := norm_CatalogService <$> scats_Services s;
     scats_ClaimedByLabels := (λ x, {|
       scbl_ServiceCatalogService := norm_CatalogService (scbl_ServiceCatalogService x);
       scbl_Labels := scbl_Labels x |}) <$> scats_ClaimedByLabels s |}.

(** An object up to the difference between a nil and an empty map or slice. *)
Definition norm_obj {k : Kind} : kobj k → kobj k :=
  match k with
  | KRegisteredService => λ o, set_meta (k := KRegisteredService)
      {| rs_meta := rs_meta o; rs_Spec := norm_RegisteredServiceSpec (rs_Spec o);
         rs_Status := rs_Status o |} (norm_meta (rs_meta o))
  | KServiceClass => λ o, set_meta (k := KServiceClass)
      {| scl_meta := scl_meta o; scl_Spec := norm_ServiceClassSpec (scl_Spec o);
         scl_Status := scl_Status o |} (norm_meta (scl_meta o))
  | KServiceClaim => λ o, set_meta (k := KServiceClaim)
      {| sc_meta := sc_meta o; sc_Spec := norm_ServiceClaimSpec (sc_Spec o);
         sc_Status := sc_Status o |} (norm_meta (sc_meta o))
  | KServiceCatalog => λ o, set_meta (k := KServiceCatalog)
      {| scat_meta := scat_meta o; scat_Spec := norm_ServiceCatalogSpec (scat_Spec o) |}
      (norm_meta (scat_meta o))
  | KDeployment => λ o, set_meta (k := KDeployment)
      {| dep_meta := dep_meta o; dep_TemplateLabels := norm_map (dep_TemplateLabels o);
         dep_Images := dep_Images o |} (norm_meta (dep_meta o))
  | KConfigMap => λ o, set_meta (k := KConfigMap)
      {| cm_meta := cm_meta o; cm_Data := norm_map (cm_Data o) |} (norm_meta (cm_meta o))
  | _ => λ o, set_meta o (norm_meta (obj_meta o))
  end.

(** [equality.Semantic.DeepEqual] *)
Definition SemanticDeepEqual {k} (a b : kobj k) : bool := ⟪ norm_obj a = norm_obj b ⟫.

Definition OperationResultNone : string := "unchanged".
Definition OperationResultCreated : string := "created".
Definition OperationResultUpdated : string := "updated".

(** [mutate]: the object after the callback, and the error of the callback or of
    the check that the key is unchanged. *)
Definition mutate {k} (f : kobj k → M (kobj k * option gerr)) (key : NamespacedName) (o : kobj k)
    : M (kobj k * option gerr) :=
  '(o', err) ← f o;
  match err with
  | Some e => mret (o', Some e)
  | None =>
      if ⟪ key ≠ ObjectKeyFromObject o' ⟫ then
        mret (o', Some (ENew "MutateFn cannot mutate object name and/or object namespace"))
      else mret (o', None)
  end.

(** [CreateOrUpdate]: the object as the caller sees it afterwards, and the
    operation performed or an error. *)
Definition CreateOrUpdate (cl : Client) (k : Kind) (o : kobj k)
    (f : kobj k → M (kobj k * option gerr)) : M (kobj k * result string) :=
  let key := ObjectKeyFromObject o in
  got ← api (CGet cl k key);
  match got with
  | Err e =>
      if negb (IsNotFound (Some e)) then mret (o, Err e)
      else
        '(o', err) ← mutate f key o;
        match err with
        | Some e => mret (o', Err e)
        | None =>
            r ← api (CCreate cl k o');
            match r with
            | Err e => mret (o', Err e)
            | Ok o'' => mret (o'', Ok OperationResultCreated)
            end
        end
  | Ok existing =>
      '(o', err) ← mutate f key existing;
      match err with
      | Some e => mret (o', Err e)
      | None =>
          if SemanticDeepEqual existing o' then mret (o', Ok OperationResultNone)
          else
            r ← api (CUpdate cl k o');
            match r with
            | Err e => mret (o', Err e)
            | Ok o'' => mret (o'', Ok OperationResultUpdated)
            end
      end
  end.

(** ** Loops that collect errors *)

(** [errs := []error{}; for _, x := range l { if err := f(x); err != nil { errs =
    append(errs, err) } }; return errors.Join(errs...)] *)
Definition collect_errors {A} (l : list A) (f : A → M (option gerr)) : M (option gerr) :=
  errs ← for_each l [] (λ x errs,
    err ← f x;
    mret (match err with Some e => errs ++ [Some e] | None => errs end));
  mret (errors_join errs).

(** A callback that neither calls out nor fails. *)
Definition mutates {k} (f : kobj k → kobj k) : kobj k → M (kobj k * option gerr) :=
  λ o, mret (f o, None).
Arguments mutates {k} & f.

(** ** meta: conditions *)

Definition FindStatusCondition (cs : list Condition) (t : string) : option Condition :=
  find_first (λ c, ⟪ c_Type c = t ⟫) cs.

Definition c_set_time (c : Condition) (t : Z) : Condition :=
  {| c_Type := c_Type c; c_Status := c_Status c; c_ObservedGeneration := c_ObservedGeneration c;
     c_LastTransitionTime := t; c_Reason := c_Reason c; c_Message := c_Message c |}.

(** The existing condition of the type, updated in place; [time] is its new
    transition time when the status changes. *)
Definition update_condition (time : Z) (new c : Condition) : Condition :=
  {| c_Type := c_Type c; c_Status := c_Status new;
     c_ObservedGeneration := c_ObservedGeneration new;
     c_LastTransitionTime :=
       if ⟪ c_Status c ≠ c_Status new ⟫ then time else c_LastTransitionTime c;
     c_Reason := c_Reason new; c_Message := c_Message new |}.

Fixpoint update_first (time : Z) (new : Condition) (cs : list Condition) : list Condition :=
  match cs with
  | [] => []
  | c :: cs' =>
      if ⟪ c_Type c = c_Type new ⟫ then update_condition time new c :: cs'
      else c :: update_first time new cs'
  end.

(** [SetStatusCondition] on a non-nil slice; the clock is read only when a
    transition time is needed and the caller gave none. *)
Definition SetStatusCondition (cs : list Condition) (new : Condition) : M (list Condition) :=
  match FindStatusCondition cs (c_Type new) with
  | None =>
      if ⟪ c_LastTransitionTime new = 0%Z ⟫ then
        now ← api CNow; mret (cs ++ [c_set_time new now])
      else mret (cs ++ [new])
  | Some existing =>
      if ⟪ c_Status existing ≠ c_Status new ⟫ && ⟪ c_LastTransitionTime new = 0%Z ⟫ then
        now ← api CNow; mret (update_first now new cs)
      else mret (update_first (c_LastTransitionTime new) new cs)
  end.

(** ** Proof steps *)

(** The next call of a program, at the end or in front of a continuation. *)
Ltac wassoc :=
  repeat lazymatch goal with
  | |- wp _ ((?p ≫= ?f) ≫= ?g) _ => refine (wp_bind_assoc legal p f g _ _); cbv beta
  end.
Ltac wcall r Hr :=
  wassoc;
  lazymatch goal with
  | |- wp _ (call ?c) _ => refine (wp_call legal c _ _); intros r Hr
  | |- wp _ (call ?c ≫= ?f) _ => refine (wp_call_bind legal c f _ _); intros r Hr
  end.

(** A value returned into a continuation. *)
Ltac wret :=
  wassoc;
  lazymatch goal with
  | |- wp _ (Ret ?a ≫= ?f) _ => refine (wp_ret_bind legal a f _ _); cbv beta iota zeta
  | |- wp _ (mret ?a ≫= ?f) _ => refine (wp_ret_bind legal a f _ _); cbv beta iota zeta
  end.

(** The control flow between calls: returns, panics, binds of the two, and the
    branches of the source. *)
Ltac wflow :=
  repeat lazymatch goal with
  | |- wp _ (Ret _) _ => refine (wp_ret legal _ _ _)
  | |- wp _ (mret _) _ => refine (wp_ret legal _ _ _)
  | |- wp _ (Halt _) _ => refine (wp_halt legal _ _ _)
  | |- wp _ (panic _) _ => refine (wp_halt legal _ _ _)
  | |- wp _ (Ret ?a ≫= ?f) _ => refine (wp_ret_bind legal a f _ _); cbv beta iota
  | |- wp _ (mret ?a ≫= ?f) _ => refine (wp_ret_bind legal a f _ _); cbv beta iota
  | |- wp _ ((?p ≫= ?f) ≫= ?g) _ => refine (wp_bind_assoc legal p f g _ _); cbv beta
  | |- wp _ (Halt ?h ≫= ?f) _ => refine (wp_halt_bind legal h f _ _)
  | |- wp _ (panic ?h ≫= ?f) _ => refine (wp_halt_bind legal _ f _ _)
  | |- wp _ (match ?x with _ => _ end) _ => destruct x eqn:?; try discriminate
  | |- wp _ (match ?x with _ => _ end ≫= _) _ => destruct x eqn:?; try discriminate
  end.

(** The call's answer is kept, nothing is assumed of it. *)
Ltac wnext := let r := fresh "r" in let Hr := fresh "Hr" in wcall r Hr; cbv beta; wflow.

(** An event that is plainly not of the kind asked for. *)
Ltac not_event := let H := fresh in intro H; exact H.

(** A property of every event of a concrete trace, event by event. *)
Ltac each_event := repeat first [apply Forall_nil_2 | apply Forall_cons_2].

(** ** What the helpers promise *)

Lemma AddFinalizer_contains {k} (o : kobj k) f : ContainsFinalizer (AddFinalizer o f).1 f = true.
Proof.
  unfold ContainsFinalizer, AddFinalizer. apply bool_decide_eq_true.
  case_bool_decide; [done|]. cbn [fst]. rewrite obj_meta_set_meta. set_solver.
Qed.

Lemma AddFinalizer_changed {k} (o : kobj k) f :
  (AddFinalizer o f).2 = negb (ContainsFinalizer o f).
Proof. unfold ContainsFinalizer, AddFinalizer. by case_bool_decide. Qed.

Lemma AddFinalizer_same {k} (o : kobj k) f : (AddFinalizer o f).2 = false → (AddFinalizer o f).1 = o.
Proof. unfold AddFinalizer. by case_bool_decide. Qed.

Lemma RemoveFinalizer_contains {k} (o : kobj k) f :
  ContainsFinalizer (RemoveFinalizer o f).1 f = false.
Proof.
  unfold ContainsFinalizer, RemoveFinalizer. cbn [fst]. rewrite obj_meta_set_meta.
  apply bool_decide_eq_false. simpl. rewrite list_elem_of_filter. naive_solver.
Qed.

(** The other finalizers, their order included, are kept. *)
Lemma RemoveFinalizer_others {k} (o : kobj k) f :
  om_Finalizers (obj_meta (RemoveFinalizer o f).1) =
  filter (λ e, e ≠ f) (om_Finalizers (obj_meta o)).
Proof. unfold RemoveFinalizer. cbn [fst]. by rewrite obj_meta_set_meta. Qed.

Lemma RemoveFinalizer_changed {k} (o : kobj k) f :
  (RemoveFinalizer o f).2 = ContainsFinalizer o f.
Proof. reflexivity. Qed.

Lemma key_set_meta {k} (o : kobj k) m :
  ObjectKeyFromObject (set_meta o m) = {| nn_Namespace := om_Namespace m; nn_Name := om_Name m |}.
Proof. unfold ObjectKeyFromObject, obj_Namespace, obj_Name. by rewrite obj_meta_set_meta. Qed.

(** The finalizer helpers and the owner references leave the key alone. *)
Lemma key_AddFinalizer {k} (o : kobj k) f :
  ObjectKeyFromObject (AddFinalizer o f).1 = ObjectKeyFromObject o.
Proof. unfold AddFinalizer. case_bool_decide; [done|]. cbn [fst]. by rewrite key_set_meta. Qed.
Lemma key_RemoveFinalizer {k} (o : kobj k) f :
  ObjectKeyFromObject (RemoveFinalizer o f).1 = ObjectKeyFromObject o.
Proof. unfold RemoveFinalizer. cbn [fst]. by rewrite key_set_meta. Qed.

Lemma key_SetControllerReference {ko k} (owner : kobj ko) (o : kobj k) :
  ObjectKeyFromObject (SetControllerReference owner o).1 = ObjectKeyFromObject o.
Proof.
  unfold SetControllerReference, with_owner. destruct (validateOwner owner o); [done|].
  destruct (GetControllerOf _) as [r|]; [destruct (negb _)|]; cbn [fst]; try done; by rewrite key_set_meta.
Qed.

(** *** CreateOrUpdate *)

(** The executions of [CreateOrUpdate] with a callback that always succeeds. *)
Inductive CoU (cl : Client) (k : Kind) (o : kobj k) (f : kobj k → kobj k)
    : list kevent → kobj k * result string → Prop :=
| CoU_get_error e :
    IsNotFound (Some e) = false →
    CoU cl k o f [Ev (CGet cl k (ObjectKeyFromObject o)) (Err e)] (o, Err e)
| CoU_created e o' :
    IsNotFound (Some e) = true →
    CoU cl k o f
      [Ev (CGet cl k (ObjectKeyFromObject o)) (Err e); Ev (CCreate cl k (f o)) (Ok o')]
      (o', Ok OperationResultCreated)
| CoU_create_error e e' :
    IsNotFound (Some e) = true →
    CoU cl k o f
      [Ev (CGet cl k (ObjectKeyFromObject o)) (Err e); Ev (CCreate cl k (f o)) (Err e')]
      (f o, Err e')
| CoU_unchanged x :
    ObjectKeyFromObject x = ObjectKeyFromObject o →
    SemanticDeepEqual x (f x) = true →
    CoU cl k o f [Ev (CGet cl k (ObjectKeyFromObject o)) (Ok x)] (f x, Ok OperationResultNone)
| CoU_updated x o' :
    ObjectKeyFromObject x = ObjectKeyFromObject o →
    SemanticDeepEqual x (f x) = false →
    CoU cl k o f
      [Ev (CGet cl k (ObjectKeyFromObject o)) (Ok x); Ev (CUpdate cl k (f x)) (Ok o')]
      (o', Ok OperationResultUpdated)
| CoU_update_error x e :
    ObjectKeyFromObject x = ObjectKeyFromObject o →
    SemanticDeepEqual x (f x) = false →
    CoU cl k o f
      [Ev (CGet cl k (ObjectKeyFromObject o)) (Ok x); Ev (CUpdate cl k (f x)) (Err e)]
      (f x, Err e).

Lemma wp_CreateOrUpdate cl k (o : kobj k) f :
  (∀ x, ObjectKeyFromObject (f x) = ObjectKeyFromObject x) →
  kwp (CreateOrUpdate cl k o (mutates f)) (λ t out, ∃ p, out = Done p ∧ CoU cl k o f t p).
Proof.
  intros Hf. unfold CreateOrUpdate, mutate, mutates. wcall r Hr.
  destruct r as [x|e]; cbv beta iota.
  - wflow; simpl in Hr.
    { rewrite bool_decide_eq_true in Heqb. by rewrite Hf in Heqb. }
    + eexists. split; [done|]. by constructor.
    + wnext; eexists; (split; [done|]; by constructor).
  - wflow.
    + eexists. split; [done|]. constructor. by apply negb_true_iff.
    + rewrite bool_decide_eq_true in Heqb0. by rewrite Hf in Heqb0.
    + apply negb_false_iff in Heqb. wnext; eexists; (split; [done|]; by constructor).
Qed.

(** *** Conditions *)

Lemma find_condition_cons c cs t :
  FindStatusCondition (c :: cs) t = if ⟪ c_Type c = t ⟫ then Some c else FindStatusCondition cs t.
Proof. reflexivity. Qed.

Lemma update_first_types time new cs : c_Type <$> update_first time new cs = c_Type <$> cs.
Proof. induction cs as [|c cs IH]; simpl; [done|]. case_bool_decide; simpl; by f_equal. Qed.

Lemma update_first_find time new cs c :
  FindStatusCondition cs (c_Type new) = Some c →
  FindStatusCondition (update_first time new cs) (c_Type new) = Some (update_condition time new c).
Proof.
  induction cs as [|c' cs IH]; [done|]. cbn [update_first]. rewrite find_condition_cons.
  case_bool_decide as Ht; rewrite find_condition_cons.
  - intros [= ->]. by rewrite bool_decide_true.
  - by rewrite bool_decide_false.
Qed.

Lemma update_first_other time new cs t :
  t ≠ c_Type new →
  FindStatusCondition (update_first time new cs) t = FindStatusCondition cs t.
Proof.
  intros Hne. induction cs as [|c cs IH]; [done|]. cbn [update_first].
  case_bool_decide as Ht; rewrite !find_condition_cons; [|by rewrite IH].
  simpl. by rewrite !bool_decide_false by congruence.
Qed.

Lemma find_condition_app cs c t :
  FindStatusCondition cs (c_Type c) = None →
  FindStatusCondition (cs ++ [c]) t =
  if ⟪ c_Type c = t ⟫ then Some c else FindStatusCondition cs t.
Proof.
  induction cs as [|c' cs IH]; [done|]. cbn [app]. rewrite !find_condition_cons.
  intros Hn. repeat case_bool_decide; try congruence; rewrite IH by done; congruence.
Qed.

Lemma find_condition_None cs t : FindStatusCondition cs t = None ↔ t ∉ (c_Type <$> cs).
Proof.
  unfold FindStatusCondition. rewrite find_first_None, Forall_forall, list_elem_of_fmap.
  setoid_rewrite bool_decide_eq_false. naive_solver.
Qed.

(** The meaning of [SetStatusCondition] on the conditions of an object. *)
Record condition_set (cs : list Condition) (new : Condition) (cs' : list Condition) : Prop := {
  cset_found : ∃ c, FindStatusCondition cs' (c_Type new) = Some c ∧
    c_Status c = c_Status new ∧ c_Reason c = c_Reason new ∧ c_Message c = c_Message new;
  cset_others : ∀ t, t ≠ c_Type new → FindStatusCondition cs' t = FindStatusCondition cs t;
  cset_unique : NoDup (c_Type <$> cs) → NoDup (c_Type <$> cs');
  cset_time : ∀ c c', FindStatusCondition cs (c_Type new) = Some c →
    FindStatusCondition cs' (c_Type new) = Some c' → c_Status c = c_Status new →
    c_LastTransitionTime c' = c_LastTransitionTime c }.

Lemma condition_set_update time new cs c :
  FindStatusCondition cs (c_Type new) = Some c → condition_set cs new (update_first time new cs).
Proof.
  intros Hc. assert (Hf := update_first_find time new cs c Hc). split.
  - by eexists.
  - intros t. apply update_first_other.
  - by rewrite update_first_types.
  - intros c0 c' H0 H' Hs. simplify_eq. simpl. by rewrite Hs, bool_decide_false by auto.
Qed.

Lemma condition_set_append cs new time :
  FindStatusCondition cs (c_Type new) = None → condition_set cs new (cs ++ [c_set_time new time]).
Proof.
  intros Hc. assert (Hf := find_condition_app cs (c_set_time new time)). split.
  - exists (c_set_time new time). split; [|done]. by rewrite Hf, bool_decide_true.
  - intros t Ht. by rewrite Hf, bool_decide_false by (simpl in *; congruence).
  - intros Hnd. rewrite fmap_app. apply NoDup_app. split; [done|].
    split; [|apply NoDup_singleton]. intros x Hx Hin. simpl in Hin.
    apply list_elem_of_singleton in Hin as ->. by apply find_condition_None in Hc.
  - intros c c'. by rewrite Hc.
Qed.

Lemma wp_SetStatusCondition cs new :
  kwp (SetStatusCondition cs new)
    (λ t out, Forall (λ ev, projT1 ev = CNow) t ∧
              ∃ cs', out = Done cs' ∧ condition_set cs new cs').
Proof.
  unfold SetStatusCondition. destruct (FindStatusCondition _ _) as [c|] eqn:Hc; wflow.
  - wnext. split; [by repeat constructor|]. eexists. split; [done|].
    by eapply condition_set_update.
  - split; [by repeat constructor|]. eexists. split; [done|]. by eapply condition_set_update.
  - wnext. split; [by repeat constructor|]. eexists. split; [done|].
    by apply condition_set_append.
  - split; [by repeat constructor|]. eexists. split; [done|].
    replace new with (c_set_time new (c_LastTransitionTime new)) at 2 by by destruct new.
    by apply condition_set_append.
Qed.

(** [SetStatusCondition] leaves one condition of the given type with the given
    status, reason and message, touches no condition of another type, never
    duplicates a type, and keeps the transition time when the status is the same. *)
Theorem SetStatusCondition_spec cs new :
  kwp (SetStatusCondition cs new) (λ _ out, ∃ cs', out = Done cs' ∧ condition_set cs new cs').
Proof. eapply wp_mono; [apply wp_SetStatusCondition|]. by intros t out [_ ?]. Qed.

(** *** Owner references *)

Lemma upsertOwnerRef_elem ref rs : ref ∈ upsertOwnerRef ref rs.
Proof. induction rs as [|r rs IH]; simpl; [set_solver|]. destruct (referSameObject r ref); set_solver. Qed.

Lemma SetOwnerReference_ok {ko k} (owner : kobj ko) (o o' : kobj k) :
  SetOwnerReference owner o = (o', None) →
  ObjectKeyFromObject o' = ObjectKeyFromObject o ∧
  (obj_Namespace owner = "" ∨ obj_Namespace owner = obj_Namespace o) ∧
  ∃ r, r ∈ om_OwnerReferences (obj_meta o') ∧ or_Kind r = gvk_Kind ko ∧
       or_Name r = obj_Name owner ∧ or_UID r = om_UID (obj_meta owner).
Proof.
  unfold SetOwnerReference, with_owner, validateOwner. intros H.
  repeat case_bool_decide; simplify_eq; rewrite key_set_meta, obj_meta_set_meta; simpl.
  all: split; [done|]; split; [tauto || by right; apply dec_stable|].
  all: eexists; split; [apply upsertOwnerRef_elem|done].
Qed.

(** *** Loops *)

(** No error is returned only when every element was treated without one. *)
Lemma wp_collect_errors {A} (l : list A) f (P : A → list kevent → Prop) :
  (∀ x, x ∈ l → kwp (f x) (λ t out, out = Done None → P x t)) →
  kwp (collect_errors l f) (λ t out, out = Done None → ∀ x, x ∈ l → part (P x) t).
Proof.
  intros Hf. unfold collect_errors.
  set (I := λ (l' : list A) (t : list kevent) (errs : list (option gerr)),
    ∃ l0, l = l0 ++ l' ∧ (errs = [] → ∀ x, x ∈ l0 → part (P x) t) ∧ Forall is_Some errs).
  eapply (wp_bind_spec legal (λ t out, ∀ errs, out = Done errs → I [] t errs)).
  - apply (wp_for_each legal _ _ _ I).
    + exists []. split; [done|]. split; [|constructor]. set_solver.
    + intros x l' t errs (l0 & -> & Hl0 & He). eapply (wp_bind_spec legal); [apply Hf; set_solver| |done].
      intros t' [e|] Ht'; wflow; rewrite app_nil_r; exists (l0 ++ [x]); rewrite <- app_assoc; (split; [done|]).
      * split; [intros Hn; by apply app_nil in Hn as [_ ?]|]. apply Forall_app. split; [done|]. repeat constructor; eauto.
      * split; [|done]. intros Herrs y [Hy|Hy%list_elem_of_singleton]%elem_of_app.
        -- by apply part_app_l, Hl0.
        -- subst y. by apply part_app_r, part_here, Ht'.
    + intros t errs HI errs' [= <-]. done.
  - intros t errs HI. destruct (HI errs eq_refl) as (l0 & -> & Hl0 & He). wflow.
    rewrite !app_nil_r in *. intros [= Hj]. apply Hl0.
    apply errors_join_None in Hj. destruct errs as [|e errs]; [done|].
    apply Forall_cons in Hj as [-> _]. by apply Forall_cons in He as [[? [=]] _].
  - done.
Qed.

Lemma wp_traced_collect_errors {A} R (l : list A) f :
  grows R → (∀ x, x ∈ l → kwp (f x) (λ t _, traced R t)) →
  kwp (collect_errors l f) (λ t _, traced R t).
Proof.
  intros HR Hf. apply wp_traced_bind; [done| |intros errs; wflow; apply traced_nil].
  apply wp_traced_for_each; [done|]. intros x errs Hx.
  apply wp_traced_bind; [done|by apply Hf|]. intros err. wflow; apply traced_nil.
Qed.

(** ** Where a program writes *)

(** The client, namespace and name a write is about. *)
Definition write_target (c : Call) : option (Client * NamespacedName) :=
  match c with
  | CCreate cl k o | CUpdate cl k o | CStatusUpdate cl k o => Some (cl, ObjectKeyFromObject o)
  | CDelete cl k key => Some (cl, key)
  | CDeleteAllOf cl k ns => Some (cl, {| nn_Namespace := ns; nn_Name := "" |})
  | CUpdateUnstructured cl o =>
      Some (cl, {| nn_Namespace := GetNamespace o; nn_Name := GetName o |})
  | _ => None
  end.

(** The kind a write is about. *)
Definition write_kind (c : Call) : option Kind :=
  match c with
  | CCreate _ k _ | CUpdate _ k _ | CStatusUpdate _ k _ | CDelete _ k _ | CDeleteAllOf _ k _ => Some k
  | _ => None
  end.

(** A call is a read, or a write of an object of kind [k] under one of the keys. *)
Definition writes_at (k : Kind) (P : Client → NamespacedName → Prop) (c : Call) : Prop :=
  is_write c → write_kind c = Some k ∧ ∃ cl key, write_target c = Some (cl, key) ∧ P cl key.

Lemma writes_at_mono k (P P' : Client → NamespacedName → Prop) c :
  (∀ cl key, P cl key → P' cl key) → writes_at k P c → writes_at k P' c.
Proof. intros HP Hc Hw. destruct (Hc Hw) as (? & cl & key & ? & ?). naive_solver. Qed.

Lemma writes_at_read k P c : ¬ is_write c → writes_at k P c.
Proof. intros Hc Hw. done. Qed.

Definition writes (P : Client → NamespacedName → Prop) (c : Call) : Prop :=
  match write_target c with Some (cl, key) => P cl key | None => True end.

(** A call that only reads. *)
#[export] Hint Resolve writes_at_read : primaza.

(** [CreateOrUpdate] reads and writes under one key only, what the callback gives. *)
Lemma only_calls_CreateOrUpdate_post (P : Call → Prop) cl k (o : kobj k) f (Q : kobj k → Prop) :
  P (CGet cl k (ObjectKeyFromObject o)) →
  (∀ o' : kobj k, ObjectKeyFromObject o' = ObjectKeyFromObject o → Q o' →
     P (CCreate cl k o') ∧ P (CUpdate cl k o')) →
  (∀ x, ObjectKeyFromObject x = ObjectKeyFromObject o → kwp (f x) (λ t out,
     Forall (λ ev : kevent, P (projT1 ev)) t ∧ ∀ o', out = Done (o', None) → Q o')) →
  only_calls legal P (CreateOrUpdate cl k o f).
Proof.
  intros Hg Hw Hf.
  assert (Hm : ∀ x, ObjectKeyFromObject x = ObjectKeyFromObject o →
    kwp (mutate f (ObjectKeyFromObject o) x) (λ t out,
      Forall (λ ev : kevent, P (projT1 ev)) t ∧
      ∀ o', out = Done (o', None) → P (CCreate cl k o') ∧ P (CUpdate cl k o'))).
  { intros x Hx. unfold mutate. eapply (wp_bind_spec legal); [by apply Hf| |].
    - intros t [o' err] [Ht HQ]. wflow; rewrite app_nil_r; (split; [done|]); try done.
      intros o'' [= <-]. apply bool_decide_eq_false in Heqb. apply Hw; [symmetry; by apply dec_stable|by apply HQ].
    - by intros t h [Ht _]. }
  unfold only_calls, CreateOrUpdate. wcall r Hr. cbv beta. wflow.
  - eapply (wp_bind_spec legal); [by apply Hm| |].
    + intros t [o' err] [Ht Hk]. wflow; try by rewrite app_nil_r; constructor.
      destruct (Hk o' eq_refl) as [_ Hu].
      wnext; (apply Forall_cons_2; [done|]; apply Forall_app_cons; [done|done|constructor]).
    + intros t h [Ht _]. by constructor.
  - by repeat constructor.
  - eapply (wp_bind_spec legal); [by apply Hm| |].
    + intros t [o' err] [Ht Hk]. wflow; try by rewrite app_nil_r; constructor.
      destruct (Hk o' eq_refl) as [Hc _].
      wnext; (apply Forall_cons_2; [done|]; apply Forall_app_cons; [done|done|constructor]).
    + intros t h [Ht _]. by constructor.
Qed.

(** Whatever the callback. *)
Lemma only_calls_CreateOrUpdate (P : Call → Prop) cl k (o : kobj k) f :
  P (CGet cl k (ObjectKeyFromObject o)) →
  (∀ o' : kobj k, ObjectKeyFromObject o' = ObjectKeyFromObject o →
     P (CCreate cl k o') ∧ P (CUpdate cl k o')) →
  (∀ x, only_calls legal P (f x)) →
  only_calls legal P (CreateOrUpdate cl k o f).
Proof.
  intros Hg Hw Hf. apply (only_calls_CreateOrUpdate_post P cl k o f (λ _, True)); auto.
  intros x _. eapply wp_mono; [apply Hf|]. by intros t out Ht.
Qed.

Lemma only_calls_SetStatusCondition (P : Call → Prop) cs c :
  P CNow → only_calls legal P (SetStatusCondition cs c).
Proof.
  intros HP. eapply wp_mono; [apply wp_SetStatusCondition|]. intros t o [Ht _].
  eapply Forall_impl; [exact Ht|]. intros ev Hev. by rewrite Hev.
Qed.

(** A result that the rest of a program relies on. *)
Lemma only_calls_bind_post {A B} P (p : M A) (f : A → M B) (Q : A → Prop) :
  only_calls legal P p → kwp p (λ _ o, ∀ a, o = Done a → Q a) →
  (∀ a, Q a → only_calls legal P (f a)) → only_calls legal P (p ≫= f).
Proof.
  intros Hp HQ Hf. eapply (wp_bind_spec legal); [exact (wp_and _ _ _ _ Hp HQ)| |].
  - intros t a [Ht Ha]. eapply wp_mono; [by apply Hf, Ha|]. intros t' o' Ht'. by apply Forall_app.
  - by intros t h [Ht _].
Qed.

(** A read whose answer the rest relies on. *)
Lemma only_calls_read {A} P c (f : Answer c → M A) :
  P c → (∀ r, legal c r → only_calls legal P (f r)) → only_calls legal P (call c ≫= f).
Proof.
  intros Hc Hf. unfold only_calls. wcall r Hr. cbv beta.
  eapply wp_mono; [by apply Hf|]. intros t o Ht. by constructor.
Qed.

(** Walks a program for a property of its calls; what is left are the calls. *)
Ltac calls_step :=
  lazymatch goal with
  | |- only_calls _ _ (_ ≫= _) => apply only_calls_bind; [|intros ?]
  | |- only_calls _ _ (mret _) => apply only_calls_ret
  | |- only_calls _ _ (Ret _) => apply only_calls_ret
  | |- only_calls _ _ (Halt _) => apply only_calls_halt
  | |- only_calls _ _ (panic _) => apply only_calls_halt
  | |- only_calls _ ?P (call ?c) => refine (only_calls_call legal P c _)
  | |- only_calls _ ?P (for_each ?l ?s ?b) =>
      refine (only_calls_for_each legal P l s b _); let H := fresh "Hin" in intros ? ? H
  | |- only_calls _ ?P (CreateOrUpdate ?cl ?k ?o ?f) =>
      refine (only_calls_CreateOrUpdate P cl k o f _ _ _);
      [ | let o := fresh "o" in let Hk := fresh "Hkey" in intros o Hk | intros ?]
  | |- only_calls _ _ (collect_errors _ _) => unfold collect_errors
  | |- only_calls _ _ (SetStatusCondition _ _) => apply only_calls_SetStatusCondition
  | |- only_calls _ _ (mutates _ _) => apply only_calls_ret
  | |- only_calls _ _ (deref ?x) => unfold deref
  | |- only_calls _ _ (match ?x with _ => _ end) => destruct x eqn:?
  | |- only_calls _ _ (let '(_, _) := ?x in _) => destruct x eqn:?
  end.
Ltac calls := repeat (calls_step; cbv beta).

(** ** Answers for examples *)

(** The calls that can fail, fail with [e]: what an example's surroundings answer to what
    they do not care about. *)
Definition failing (e : gerr) (c : Call) : Answer c :=
  match c with
  | CGet _ _ _ | CList _ _ _ | CCreate _ _ _ | CUpdate _ _ _ | CStatusUpdate _ _ _ | CInClusterConfig
  | CBuildConfigFromFlags _ | CReadFile _ | CServerVersion _ | CAccessReview _ _ | CRulesReview _ _
  | CGetUnstructured _ _ _ | CListUnstructured _ _ _ _ | CUpdateUnstructured _ _ => Err e
  | CDelete _ _ _ | CDeleteAllOf _ _ _ | CNewClient _ | CNewClientset _ | CAddEventHandler _ _
  | CRESTMapping _ | CSetup _ _ => Some e
  | CMapKeys ks => ks
  | CUuid => "" | CNow => 0%Z | CGetenv _ => None
  | CStartInformer _ _ | CCancelInformer _ _ => tt
  | CWaitForCacheSync _ _ => false
  end.
