(* ===== verification/ApiServer.v ===== *)
(** * The API server's optimistic concurrency

    Several reconciliations may be under way at once, and what they read may be out of
    date (controller-runtime reads from a cache).  What keeps them from overwriting each
    other's work is that an update carrying the resource version of an older revision is
    refused.  This file states that behaviour of the API server, for the objects of one
    kind in one cluster, as a relation [served] on the objects it stores, over a log in
    which the calls of any number of runs are interleaved ([served_log], [made_by]). *)

From S2P Require Import Prelude Prog GoErr Types Kube.

#[local] Open Scope list_scope.
#[local] Open Scope primaza_scope.

#[export] Instance NamespacedName_countable : Countable NamespacedName.
Proof.
  refine (inj_countable' (λ x, (nn_Namespace x, nn_Name x))
            (λ p, {| nn_Namespace := p.1; nn_Name := p.2 |}) _).
  by intros [].
Defined.

(** ** Requests *)

(** The requests about the objects of kind [k], with their answers. *)
Inductive request (k : Kind) :=
| RGet (key : NamespacedName) (r : result (kobj k))
| RList (opts : ListOptions) (r : result (list (kobj k)))
| RCreate (o : kobj k) (r : result (kobj k))
| RUpdate (o : kobj k) (r : result (kobj k))
| RStatus (o : kobj k) (r : result (kobj k))
| RDelete (key : NamespacedName) (r : option gerr).
Arguments RGet {k} key r.
Arguments RList {k} opts r.
Arguments RCreate {k} o r.
Arguments RUpdate {k} o r.
Arguments RStatus {k} o r.
Arguments RDelete {k} key r.

(** The call, made through a client. *)
Definition event_at (cl : Client) {k} (q : request k) : kevent :=
  match q with
  | RGet key r => KEv (CGet cl k key) r
  | RList opts r => KEv (CList cl k opts) r
  | RCreate o r => KEv (CCreate cl k o) r
  | RUpdate o r => KEv (CUpdate cl k o) r
  | RStatus o r => KEv (CStatusUpdate cl k o) r
  | RDelete key r => KEv (CDelete cl k key) r
  end.

(** A request that reaches the API server of the cluster stands in the log as made by
    [Manager], whoever made it. *)
Abbreviation event_of := (event_at Manager).

(** The objects in an answer, and the object that an accepted request writes. *)
Definition answered {k} (q : request k) : list (kobj k) :=
  match q with
  | RGet _ (Ok o) | RCreate _ (Ok o) | RUpdate _ (Ok o) | RStatus _ (Ok o) => [o]
  | RList _ (Ok os) => os
  | _ => []
  end.
Definition accepted {k} (q : request k) : option (kobj k) :=
  match q with RCreate o (Ok _) | RUpdate o (Ok _) => Some o | _ => None end.

(** The calls about the objects of a kind. *)
Definition about (k : Kind) (c : Call) : Prop :=
  match c with
  | CGet Manager k' _ | CList Manager k' _ | CCreate Manager k' _ | CUpdate Manager k' _
  | CStatusUpdate Manager k' _ | CDelete Manager k' _ | CDeleteAllOf Manager k' _ => k' = k
  | _ => False
  end.

(** An event read back as a request about a kind. *)
Definition cast_request {k k'} (e : k = k') (q : request k) : request k' :=
  match e in _ = k' return request k' with eq_refl => q end.
Definition at_request (k : Kind) {k'} (q : request k') : option (request k) :=
  match decide (k' = k) with left e => Some (cast_request e q) | right _ => None end.
Definition request_of (k : Kind) (ev : kevent) : option (request k) :=
  match ev with
  | existT c r =>
      match c return Answer c → option (request k) with
      | CGet Manager k' key => λ r, at_request k (@RGet k' key r)
      | CList Manager k' opts => λ r, at_request k (@RList k' opts r)
      | CCreate Manager k' o => λ r, at_request k (@RCreate k' o r)
      | CUpdate Manager k' o => λ r, at_request k (@RUpdate k' o r)
      | CStatusUpdate Manager k' o => λ r, at_request k (@RStatus k' o r)
      | CDelete Manager k' key => λ r, at_request k (@RDelete k' key r)
      | _ => λ _, None
      end r
  end.

Lemma at_request_same {k} (q : request k) : at_request k q = Some q.
Proof.
  unfold at_request. destruct (decide (k = k)) as [e|]; [|done]. by rewrite (proof_irrel e eq_refl).
Qed.

Lemma request_of_event {k} (q : request k) : request_of k (event_of q) = Some q.
Proof. destruct q; apply at_request_same. Qed.

Lemma at_request_Some {k k'} (q : request k') q' : at_request k q = Some q' → event_of q = event_of q'.
Proof. unfold at_request. destruct (decide (k' = k)) as [e|]; [|done]. intros [= <-]. by destruct e. Qed.

Lemma request_of_Some {k} ev (q : request k) : request_of k ev = Some q → ev = event_of q.
Proof.
  destruct ev as [[] r]; try done; destruct cl; try done; by intros Hq%at_request_Some.
Qed.

#[export] Instance event_of_inj {k} : Inj (=) (=) (@event_at Manager k).
Proof. intros q q' Heq%(f_equal (request_of k)). rewrite !request_of_event in Heq. by injection Heq. Qed.

Lemma about_event {k} (q : request k) : about k (projT1 (event_of q)).
Proof. by destruct q. Qed.

(** ** What is stored *)

(** An update of an object leaves its status, and an update of the status the rest, where
    the kind has a status subresource. *)
Class Stored (k : Kind) := {
  same_spec : kobj k → kobj k → Prop;
  same_status : kobj k → kobj k → Prop }.

Section Server.
Context {k : Kind} `{Stored k}.
Implicit Types o c : kobj k.

Definition version o : string := om_ResourceVersion (obj_meta o).

(** The stored objects, and every revision there has been (a cache may still hold it). *)
Record server := {
  current : gmap NamespacedName (kobj k);
  revisions : list (kobj k) }.

Definition store (s : server) o : server :=
  {| current := <[ObjectKeyFromObject o := o]> (current s); revisions := o :: revisions s |}.
Definition remove (s : server) (key : NamespacedName) : server :=
  {| current := delete key (current s); revisions := revisions s |}.

Definition fresh (s : server) o : Prop :=
  version o ≠ ""%string ∧ Forall (λ o', version o' ≠ version o) (revisions s).

(** An update names the revision it changes (or none, for an unconditional one). *)
Definition up_to_date (s : server) o c : Prop :=
  current s !! ObjectKeyFromObject o = Some c ∧ (version o = ""%string ∨ version o = version c).

(** One request and its answer.  A read finds a revision, not always the last one; an
    accepted update makes a new revision unless it changes nothing; a deletion removes
    the object or, when it has finalizers, marks it.  Nothing deletes these objects in
    bulk. *)
Inductive served : server → request k → server → Prop :=
| served_list s opts os : Forall (.∈ revisions s) os → served s (RList opts (Ok os)) s
| served_list_error s opts e : served s (RList opts (Err e)) s
| served_get s key o : o ∈ revisions s → served s (RGet key (Ok o)) s
| served_get_error s key e : served s (RGet key (Err e)) s
| served_create s o o' :
    current s !! ObjectKeyFromObject o = None → fresh s o' →
    ObjectKeyFromObject o' = ObjectKeyFromObject o → same_spec o' o →
    served s (RCreate o (Ok o')) (store s o')
| served_create_error s o e : served s (RCreate o (Err e)) s
| served_update s o c o' :
    up_to_date s o c → fresh s o' → ObjectKeyFromObject o' = ObjectKeyFromObject o →
    same_spec o' o → same_status o' c →
    served s (RUpdate o (Ok o')) (store s o')
| served_update_same s o c :
    up_to_date s o c → same_spec o c → served s (RUpdate o (Ok c)) s
| served_update_gone s o c :
    up_to_date s o c → HasDeletionTimestamp (obj_meta c) = true → om_Finalizers (obj_meta o) = [] →
    served s (RUpdate o (Ok o)) (remove s (ObjectKeyFromObject o))
| served_update_error s o e : served s (RUpdate o (Err e)) s
| served_status s o c o' :
    up_to_date s o c → fresh s o' → ObjectKeyFromObject o' = ObjectKeyFromObject o →
    same_spec o' c → same_status o' o →
    served s (RStatus o (Ok o')) (store s o')
| served_status_same s o c :
    up_to_date s o c → same_status o c → served s (RStatus o (Ok c)) s
| served_status_error s o e : served s (RStatus o (Err e)) s
| served_delete s key : served s (RDelete key None) (remove s key)
| served_mark s key c o' :
    current s !! key = Some c → fresh s o' → ObjectKeyFromObject o' = key →
    same_spec o' c → same_status o' c →
    served s (RDelete key None) (store s o')
| served_delete_error s key e : served s (RDelete key (Some e)) s.

(** A call and its answer in the log. *)
Inductive served_event : server → kevent → server → Prop :=
| served_other s ev : ¬ about k (projT1 ev) → served_event s ev s
| served_request s q s' : served s q s' → served_event s (event_of q) s'.

Inductive served_log : server → list kevent → server → Prop :=
| log_nil s : served_log s [] s
| log_cons s ev s' L s'' : served_event s ev s' → served_log s' L s'' → served_log s (ev :: L) s''.

Lemma served_log_cons s ev L s' :
  served_log s (ev :: L) s' ↔ ∃ m, served_event s ev m ∧ served_log m L s'.
Proof.
  split; [inversion 1; subst; eauto|]. intros (m & ? & ?). by econstructor.
Qed.

Lemma served_log_app s L L' s' :
  served_log s (L ++ L') s' ↔ ∃ m, served_log s L m ∧ served_log m L' s'.
Proof.
  split.
  - revert s. induction L as [|ev L IH]; intros s Hs; [exists s; by split; [constructor|]|].
    apply served_log_cons in Hs as (m & Hev & HL). apply IH in HL as (m' & ? & ?).
    exists m'. split; [by econstructor|done].
  - intros (m & Hm & Hs). induction Hm; [done|]. econstructor; eauto.
Qed.

(** A request about the kind is served as such. *)
Lemma served_event_inv s q s' : served_event s (event_of q) s' → served s q s'.
Proof.
  remember (event_of q) as ev eqn:Heq. intros Hs. destruct Hs as [s ev Hno|s q' s' Hs].
  - subst ev. by destruct (Hno (about_event q)).
  - by apply (inj event_of) in Heq as ->.
Qed.

Lemma log_request s q m L s' : served s q m → served_log m L s' → served_log s (event_of q :: L) s'.
Proof. intros Hq HL. econstructor; [by constructor|done]. Qed.
Lemma log_other s ev L s' : ¬ about k (projT1 ev) → served_log s L s' → served_log s (ev :: L) s'.
Proof. intros Hev HL. econstructor; [by constructor|done]. Qed.

(** ** Invariants *)

(** What is stored is a revision under its key; a version names one revision. *)
Record wf (s : server) : Prop := {
  wf_current key c : current s !! key = Some c → c ∈ revisions s ∧ ObjectKeyFromObject c = key;
  wf_version o o' : o ∈ revisions s → o' ∈ revisions s → version o = version o' → o = o';
  wf_nonempty o : o ∈ revisions s → version o ≠ ""%string }.

Lemma wf_remove s key : wf s → wf (remove s key).
Proof.
  intros [Hc Hv Hn]. split; simpl; [|done..]. intros key' c [_ Hk]%lookup_delete_Some. by apply Hc.
Qed.

Lemma wf_store s o : wf s → fresh s o → wf (store s o).
Proof.
  intros [Hc Hv Hn] [Hne Hf]. rewrite Forall_forall in Hf. split; simpl.
  - intros key c [[<- <-]|[_ Hk]]%lookup_insert_Some; [by split; [left|]|].
    apply Hc in Hk as [? ?]. split; [by right|done].
  - intros o1 o2 [->|H1]%elem_of_cons [->|H2]%elem_of_cons Heq; [done|..|by apply Hv].
    + by destruct (Hf o2 H2).
    + by destruct (Hf o1 H1).
  - intros o1 [->|H1]%elem_of_cons; [done|by apply Hn].
Qed.

Lemma served_wf s q s' : served s q s' → wf s → wf s'.
Proof. destruct 1; auto using wf_remove, wf_store. Qed.

Lemma served_event_wf s ev s' : served_event s ev s' → wf s → wf s'.
Proof. destruct 1; eauto using served_wf. Qed.

Lemma served_log_wf s L s' : served_log s L s' → wf s → wf s'.
Proof. induction 1; eauto using served_event_wf. Qed.

(** Revisions are not forgotten. *)
Lemma served_revisions s ev s' o : served_event s ev s' → o ∈ revisions s → o ∈ revisions s'.
Proof. destruct 1 as [|? ? ? Hs]; [done|]. destruct Hs; simpl; auto; intros; by right. Qed.

Lemma served_log_revisions s L s' o : served_log s L s' → o ∈ revisions s → o ∈ revisions s'.
Proof. induction 1; eauto using served_revisions. Qed.

(** The revision that an accepted update of a revision names is the current one. *)
Lemma up_to_date_current s o c r :
  wf s → up_to_date s o c → r ∈ revisions s → version o = version r → c = r.
Proof.
  intros Hwf [Hc Hv] Hr Hor. destruct (wf_current s Hwf _ _ Hc) as [Hin _].
  apply (wf_version s Hwf); [done..|]. destruct Hv as [He|Hv]; [|congruence].
  destruct (wf_nonempty s Hwf r Hr). congruence.
Qed.

(** A property of the specification of what is stored, which every accepted write has,
    if what was answered before has it. *)
Section Kept.
Context (P : kobj k → Prop).
Hypothesis P_spec : ∀ o o', ObjectKeyFromObject o' = ObjectKeyFromObject o → same_spec o' o → P o → P o'.

Definition stores (s : server) : Prop := ∀ o, o ∈ revisions s → P o.
Definition answers (L : list kevent) : Prop := ∀ (q : request k) o, event_of q ∈ L → o ∈ answered q → P o.

Lemma stores_store s o : stores s → P o → stores (store s o).
Proof. intros Hs Ho o1 [->|Hin]%elem_of_cons; [done|by apply Hs]. Qed.

Lemma served_stores s q s' :
  wf s → served s q s' → stores s → (∀ o, accepted q = Some o → P o) →
  stores s' ∧ ∀ o, o ∈ answered q → P o.
Proof.
  intros Hwf Hq Hs Hw.
  assert (Hcur : ∀ key c, current s !! key = Some c → P c) by (intros key c Hc; by apply Hs, (wf_current s Hwf key)).
  assert (Hkey : ∀ key c, current s !! key = Some c → ObjectKeyFromObject c = key) by (intros key c Hc; by apply (wf_current s Hwf key)).
  assert (Hone : ∀ o, P o → ∀ o1, o1 ∈ [o] → P o1) by (by intros o Ho o1 ->%list_elem_of_singleton).
  destruct Hq as [s opts os Hos| | | |s o o' Hn Hf Hk Hsp| |s o c o' [Hc _] Hf Hk Hsp Hst|s o c [Hc _] Hsp
    |s o c [Hc _]| |s o c o' [Hc _] Hf Hk Hsp Hst|s o c [Hc _] Hst| | |s key c o' Hc Hf Hk Hsp Hst|];
    simpl in *; try (split; [exact Hs|]; set_solver).
  - split; [done|]. rewrite Forall_forall in Hos. intros o Ho. by apply Hs, Hos.
  - assert (P o') by (eapply P_spec; [done..|by apply Hw]). split; [by apply stores_store|by apply Hone].
  - assert (P o') by (eapply P_spec; [done..|by apply Hw]). split; [by apply stores_store|by apply Hone].
  - assert (P o') by (apply (P_spec c); [by rewrite (Hkey _ _ Hc)|done|by eapply Hcur]).
    split; [by apply stores_store|by apply Hone].
  - assert (P o') by (apply (P_spec c); [by rewrite (Hkey _ _ Hc)|done|by eapply Hcur]).
    split; [by apply stores_store|set_solver].
Qed.

Lemma log_stores s L s' :
  wf s → served_log s L s' → stores s →
  (∀ L1 (q : request k) L2 o, L = L1 ++ event_of q :: L2 → answers L1 → accepted q = Some o → P o) →
  stores s' ∧ answers L.
Proof.
  intros Hwf HL Hs. revert s' HL. induction L as [|ev L IH] using rev_ind; intros s' HL Hw.
  { inversion HL; subst. split; [done|]. by intros q o ?%elem_of_nil. }
  apply served_log_app in HL as (m & HL & (m' & Hev & Hnil)%served_log_cons).
  assert (m' = s') as -> by by inversion Hnil. clear Hnil.
  destruct (IH m HL) as [Hm Ha].
  { intros L1 q L2 o -> HL1. apply (Hw L1 q (L2 ++ [ev])); [by rewrite <- (assoc_L (++))|done]. }
  assert (Hlast : ∀ q, ev = event_of q → stores s' ∧ ∀ o, o ∈ answered q → P o).
  { intros q ->. apply served_event_inv in Hev. apply (served_stores m q); [by eapply served_log_wf|done..|].
    intros o. by apply (Hw L q [] o). }
  split.
  - destruct Hev as [|m q s' Hq]; [done|]. by apply (Hlast q).
  - intros q o [Hin|Hin%list_elem_of_singleton]%elem_of_app; [by apply Ha|]. by apply Hlast.
Qed.
End Kept.

(** A revision that was replaced never becomes the current one again. *)
Definition replaced (s : server) (v : string) : Prop :=
  v ≠ ""%string ∧ (∃ o, o ∈ revisions s ∧ version o = v) ∧ ∀ key c, current s !! key = Some c → version c ≠ v.

Lemma replaced_remove s key v : replaced s v → replaced (remove s key) v.
Proof.
  intros (Hv & Ho & Hc). do 2 (split; [done|]). simpl. intros key' c [_ Hk]%lookup_delete_Some. by eapply Hc.
Qed.

Lemma replaced_store s o v : replaced s v → fresh s o → replaced (store s o) v.
Proof.
  intros (Hv & (o1 & Ho1 & <-) & Hc) [_ Hf]. rewrite Forall_forall in Hf. split; [done|]. split.
  - exists o1. split; [by right|done].
  - simpl. intros key c [[_ <-]|[_ Hk]]%lookup_insert_Some; [apply not_eq_sym, Hf, Ho1|by eapply Hc].
Qed.

Lemma served_replaced s ev s' v : served_event s ev s' → replaced s v → replaced s' v.
Proof. destruct 1 as [|? ? ? Hs]; [done|]. destruct Hs; auto using replaced_remove, replaced_store. Qed.

Lemma served_log_replaced s L s' v : served_log s L s' → replaced s v → replaced s' v.
Proof. induction 1; eauto using served_replaced. Qed.

(** The new revision of an update replaces the one the update named. *)
Lemma store_replaces s o c o' :
  wf s → up_to_date s o c → version o ≠ ""%string → fresh s o' →
  ObjectKeyFromObject o' = ObjectKeyFromObject o → replaced (store s o') (version o).
Proof.
  intros Hwf [Hc [?|Hv]] Hne [_ Hf] Hk; [done|]. rewrite Forall_forall in Hf.
  destruct (wf_current s Hwf _ _ Hc) as [Hin Hkc].
  split; [done|]. split; [exists c; split; [by right|done]|].
  simpl. intros key c' [[_ <-]|[Hne' Hk']]%lookup_insert_Some.
  - rewrite Hv. apply not_eq_sym, Hf, Hin.
  - rewrite Hv. intros Heq. destruct (wf_current s Hwf _ _ Hk') as [Hin' Hkc'].
    apply Hne'. rewrite Hk, <- Hkc, <- Hkc'. f_equal. by apply (wf_version s Hwf).
Qed.

(** A server that stores one object, in its first revision. *)
Definition single o : server := {| current := {[ObjectKeyFromObject o := o]}; revisions := [o] |}.

Lemma single_wf o : version o ≠ ""%string → wf (single o).
Proof.
  intros Hv. split; simpl.
  - intros key c [<- <-]%lookup_singleton_Some. split; [by left|done].
  - by intros o1 o2 ->%list_elem_of_singleton ->%list_elem_of_singleton.
  - by intros o1 ->%list_elem_of_singleton.
Qed.

Definition empty_server : server := {| current := ∅; revisions := [] |}.

Lemma empty_wf : wf empty_server.
Proof. by split; [intros ? ?; simpl; rewrite lookup_empty|intros ? ? ?%elem_of_nil|intros ? ?%elem_of_nil]. Qed.

(** ** Reads and accepted updates *)

Lemma listed_revisions s L m opts os :
  served_log s L m → event_of (RList opts (Ok os)) ∈ L → Forall (.∈ revisions m) os.
Proof.
  intros HL (L1 & L2 & ->)%list_elem_of_split.
  apply served_log_app in HL as (m1 & _ & (m2 & H1%served_event_inv & H2)%served_log_cons).
  inversion H1; subst. eapply Forall_impl; [eassumption|]. intros o. by eapply served_log_revisions.
Qed.

(** An accepted status update, in the state where it was accepted. *)
Lemma served_status_inv s o o' s' :
  served_event s (event_of (RStatus o (Ok o'))) s' →
  ∃ c, up_to_date s o c ∧
    ((s' = store s o' ∧ fresh s o' ∧ ObjectKeyFromObject o' = ObjectKeyFromObject o ∧ same_status o' o) ∨
     (s' = s ∧ o' = c ∧ same_status o c)).
Proof. intros Hs%served_event_inv. inversion Hs; subst; eauto 10. Qed.

(** An accepted update. *)
Lemma served_update_inv s o o' s' :
  served_event s (event_of (RUpdate o (Ok o'))) s' → ∃ c, up_to_date s o c.
Proof. intros Hs%served_event_inv. inversion Hs; subst; eauto. Qed.
End Server.
Arguments server : clear implicits.

(** ** Runs in the log *)

(** The call is made by an execution of the program whose calls so far are in the log. *)
Definition made_by {A} (p : M A) (L : list kevent) (ev : kevent) : Prop :=
  ∃ a b out, kexec p (a ++ ev :: b) out ∧ a `sublist_of` L.

(** The same, with the calls [t] that the execution made before it. *)
Definition made_after {A} (p : M A) (t L : list kevent) (ev : kevent) : Prop :=
  ∃ b out, kexec p (t ++ ev :: b) out ∧ t `sublist_of` L.

Lemma made_after_justified {A} (p : M A) (R : list kevent → kevent → Prop) t L ev :
  kwp p (λ t _, justified R t) → made_after p t L ev → R t ev ∧ (∀ e, e ∈ t → e ∈ L).
Proof.
  intros Hp (b & out & Hex & Hsub). split; [by eapply (Hp _ _ Hex)|].
  intros e He. by eapply elem_of_submseteq, sublist_submseteq.
Qed.

(** What holds of each call of a program after the calls before it, and is not lost when
    calls of others come in between, holds of its calls in the log. *)
Lemma made_justified {A} (p : M A) (R : list kevent → kevent → Prop) L ev :
  kwp p (λ t _, justified R t) → (∀ t t' e, (∀ x, x ∈ t → x ∈ t') → R t e → R t' e) →
  made_by p L ev → R L ev.
Proof.
  intros Hp Hmono (a & b & out & Hex & Hsub). eapply Hmono; [|by eapply (Hp _ _ Hex)].
  intros e He. by eapply elem_of_submseteq, sublist_submseteq.
Qed.

(** The calls of a run against concrete surroundings. *)
Lemma run_made {A W} (h : ∀ c, W → Answer c * W) (p : M A) (w : W) L n ev :
  (∀ c w', legal c (h c w').1) →
  run_trace h p w !! n = Some ev → take n (run_trace h p w) `sublist_of` L → made_by p L ev.
Proof.
  intros Hh Hn Hsub.
  exists (take n (run_trace h p w)), (drop (S n) (run_trace h p w)), (run_outcome h p w).
  rewrite take_drop_middle by done. split; [by apply run_exec|done].
Qed.

Lemma run_made_after {A W} (h : ∀ c, W → Answer c * W) (p : M A) (w : W) L n ev :
  (∀ c w', legal c (h c w').1) →
  run_trace h p w !! n = Some ev → take n (run_trace h p w) `sublist_of` L →
  made_after p (take n (run_trace h p w)) L ev.
Proof.
  intros Hh Hn Hsub.
  exists (drop (S n) (run_trace h p w)), (run_outcome h p w).
  rewrite take_drop_middle by done. split; [by apply run_exec|done].
Qed.

(** Evaluates a concrete log. *)
Ltac eval_log l :=
  let L := eval vm_compute in l in
  let Heq := fresh in
  assert (l = L) as Heq by (vm_compute; reflexivity); rewrite Heq; clear Heq.

(** Serves the next event of a concrete log, about the objects of [k]. *)
Ltac serve k :=
  first
  [ apply log_other; [first [not_event|discriminate]|]
  | eapply (log_request _ (RList (k := k) _ (Ok _))); [apply served_list; repeat constructor|]
  | eapply (log_request _ (RGet (k := k) _ (Ok _))); [apply served_get; repeat constructor|]
  | eapply (log_request _ (RCreate (k := k) _ (Ok _)));
    [apply served_create; [reflexivity|split; [done|repeat constructor; done]|done..]|]
  | eapply (log_request _ (RStatus (k := k) _ (Err _))); [apply served_status_error|]
  | eapply (log_request _ (RUpdate (k := k) _ (Err _))); [apply served_update_error|]
  | eapply (log_request _ (RStatus (k := k) _ (Ok _)));
    [eapply served_status; [split; [first [apply lookup_insert_eq|reflexivity]|by right]|split; [done|repeat constructor; done]|done..]|]
  | eapply (log_request _ (RStatus (k := k) _ (Ok _)));
    [eapply served_status_same; [split; [first [apply lookup_insert_eq|reflexivity]|by right]|done]|]
  | eapply (log_request _ (RUpdate (k := k) _ (Ok _)));
    [eapply served_update; [split; [first [apply lookup_insert_eq|reflexivity]|by right]|split; [done|repeat constructor; done]|done..]|] ].
