(* ===== verification/Regex.v ===== *)
(** * Regular expressions

    The patterns of the schemas of the custom resources, as regular expressions over
    the bytes of a string: what they denote, a matcher by derivatives, and the proof
    that the two agree. *)

From Stdlib Require Import Ascii.
From S2P Require Import Prelude.

#[local] Open Scope string_scope.
#[local] Open Scope list_scope.

Inductive regex :=
| Nothing
| Epsilon
| Class (p : ascii → bool)
| Cat (r1 r2 : regex)
| Alt (r1 r2 : regex)
| Star (r : regex).

(** [r?] *)
Definition Opt (r : regex) : regex := Alt Epsilon r.

(** ** Classes *)

(** [[a-b]] *)
Definition between (a b c : ascii) : bool :=
  ⟪ (Ascii.N_of_ascii a <= Ascii.N_of_ascii c <= Ascii.N_of_ascii b)%N ⟫.
Definition lower : ascii → bool := between "a"%char "z"%char.
Definition upper : ascii → bool := between "A"%char "Z"%char.
Definition digit : ascii → bool := between "0"%char "9"%char.
Definition letter (c : ascii) : bool := lower c || upper c.
Definition alphanumeric (c : ascii) : bool := letter c || digit c.
(** One of the characters of [l]. *)
Definition one_of (l : list ascii) (c : ascii) : bool := ⟪ c ∈ l ⟫.
Definition either (p q : ascii → bool) (c : ascii) : bool := p c || q c.

(** ** Meaning *)

Inductive denotes : regex → string → Prop :=
| den_epsilon : denotes Epsilon ""
| den_class p c : p c = true → denotes (Class p) (String c "")
| den_cat r1 r2 s1 s2 : denotes r1 s1 → denotes r2 s2 → denotes (Cat r1 r2) (s1 +++ s2)
| den_alt_l r1 r2 s : denotes r1 s → denotes (Alt r1 r2) s
| den_alt_r r1 r2 s : denotes r2 s → denotes (Alt r1 r2) s
| den_star_nil r : denotes (Star r) ""
| den_star_cons r c s1 s2 :
    denotes r (String c s1) → denotes (Star r) s2 → denotes (Star r) (String c s1 +++ s2).

(** ** Matching *)

Fixpoint nullable (r : regex) : bool :=
  match r with
  | Nothing | Class _ => false
  | Epsilon | Star _ => true
  | Cat r1 r2 => nullable r1 && nullable r2
  | Alt r1 r2 => nullable r1 || nullable r2
  end.

(** Concatenation and alternative, without the parts that denote nothing. *)
Definition cat (r1 r2 : regex) : regex :=
  match r1 with Nothing => Nothing | Epsilon => r2 | _ => Cat r1 r2 end.
Definition alt (r1 r2 : regex) : regex :=
  match r1, r2 with Nothing, _ => r2 | _, Nothing => r1 | _, _ => Alt r1 r2 end.

Fixpoint derive (c : ascii) (r : regex) : regex :=
  match r with
  | Nothing | Epsilon => Nothing
  | Class p => if p c then Epsilon else Nothing
  | Cat r1 r2 =>
      if nullable r1 then alt (cat (derive c r1) r2) (derive c r2) else cat (derive c r1) r2
  | Alt r1 r2 => alt (derive c r1) (derive c r2)
  | Star r => cat (derive c r) (Star r)
  end.

Fixpoint matches (r : regex) (s : string) : bool :=
  match s with
  | "" => nullable r
  | String c s' => matches (derive c r) s'
  end.

(** ** The matcher decides the meaning *)

Lemma append_empty s1 s2 : s1 +++ s2 = "" → s1 = "" ∧ s2 = "".
Proof. destruct s1; simpl; [by split|done]. Qed.

(** A non-empty string of a concatenation starts in the first part, or in the second
    with the first empty. *)
Lemma append_cons s1 s2 c s :
  s1 +++ s2 = String c s → (s1 = "" ∧ s2 = String c s) ∨ ∃ s1', s1 = String c s1' ∧ s = s1' +++ s2.
Proof.
  destruct s1 as [|c' s1]; [by left|]. intros [= -> <-]. right. by exists s1.
Qed.

Lemma nullable_spec r : nullable r = true ↔ denotes r "".
Proof.
  split.
  - induction r as [| |p|r1 IH1 r2 IH2|r1 IH1 r2 IH2|r IH]; simpl; try done.
    + by constructor.
    + intros [H1 H2]%andb_true_iff. apply (den_cat r1 r2 "" ""); auto.
    + intros [H1|H2]%orb_true_iff; [by apply den_alt_l, IH1|by apply den_alt_r, IH2].
    + constructor.
  - remember "" as s eqn:Hs. intros Hd.
    induction Hd as [|p c Hc|r1 r2 s1 s2 _ IH1 _ IH2|r1 r2 s _ IH|r1 r2 s _ IH|r|r c s1 s2 _ _ _ _]; simpl; try done.
    + apply append_empty in Hs as [-> ->]. by rewrite IH1, IH2.
    + by rewrite IH.
    + rewrite IH by done. by rewrite orb_true_r.
Qed.

Lemma cat_spec r1 r2 s : denotes (cat r1 r2) s ↔ denotes (Cat r1 r2) s.
Proof.
  destruct r1; try done; simpl.
  - split; intros Hd; inversion Hd; subst. by match goal with H : denotes Nothing _ |- _ => inversion H end.
  - split; [intros Hd; apply (den_cat Epsilon r2 "" s); [constructor|done]|].
    intros Hd. inversion Hd; subst. by match goal with H : denotes Epsilon _ |- _ => inversion H end.
Qed.

Lemma alt_spec r1 r2 s : denotes (alt r1 r2) s ↔ denotes (Alt r1 r2) s.
Proof.
  destruct r1, r2; try done; simpl; (split; [intros; (by apply den_alt_l) || by apply den_alt_r|]);
    intros Hd; inversion Hd; subst; try done;
    match goal with H : denotes Nothing _ |- _ => inversion H end.
Qed.

Lemma derive_sound c r s : denotes (derive c r) s → denotes r (String c s).
Proof.
  revert s. induction r as [| |p|r1 IH1 r2 IH2|r1 IH1 r2 IH2|r IH]; simpl; intros s Hd.
  - inversion Hd.
  - inversion Hd.
  - destruct (p c) eqn:Hp; inversion Hd. by constructor.
  - assert (Hcat : ∀ s, denotes (cat (derive c r1) r2) s → denotes (Cat r1 r2) (String c s)).
    { intros u Hu%cat_spec. inversion Hu; subst. apply (den_cat r1 r2 (String c s1) s2); auto. }
    destruct (nullable r1) eqn:Hn; [|auto]. apply alt_spec in Hd. inversion Hd; subst; [auto|].
    apply (den_cat r1 r2 "" (String c s)); [by apply nullable_spec|auto].
  - apply alt_spec in Hd. inversion Hd; subst; [by apply den_alt_l, IH1|by apply den_alt_r, IH2].
  - apply cat_spec in Hd. inversion Hd; subst. apply (den_star_cons r c s1 s2); auto.
Qed.

Lemma derive_complete c r s : denotes r (String c s) → denotes (derive c r) s.
Proof.
  remember (String c s) as u eqn:Hu. intros Hd. revert s Hu.
  induction Hd as [|p c' Hc|r1 r2 s1 s2 H1 IH1 H2 IH2|r1 r2 u _ IH|r1 r2 u _ IH|r|r c' s1 s2 H1 IH1 H2 _];
    intros s Hu; simpl; simplify_eq/=.
  - rewrite Hc. constructor.
  - apply append_cons in Hu as [[-> ->]|(s1' & -> & ->)].
    + apply nullable_spec in H1. rewrite H1. apply alt_spec, den_alt_r. by apply IH2.
    + destruct (nullable r1); [apply alt_spec, den_alt_l|]; apply cat_spec; constructor; auto.
  - apply alt_spec, den_alt_l. by apply IH.
  - apply alt_spec, den_alt_r. by apply IH.
  - injection Hu as -> <-. apply cat_spec. constructor; [by apply IH1|done].
Qed.

(** The matcher accepts exactly the strings of the language. *)
Theorem matches_spec r s : matches r s = true ↔ denotes r s.
Proof.
  revert r. induction s as [|c s IH]; intros r; simpl; [apply nullable_spec|].
  rewrite IH. split; [apply derive_sound|apply derive_complete].
Qed.
