(* ===== verification/Crd.v ===== *)
(** * The schemas of the custom resources

    What the API server accepts for a custom resource: the validation markers of
    api/v1alpha1 (from which config/crd/bases is generated) and of
    [metav1.Condition], as decidable predicates on the objects of [Types.v].  The API
    server drops the status of what is created or updated and keeps the specification
    when a status is updated, so each call is checked for the part it changes.  All the
    rules on the types of api/v1alpha1 are there: enumerations, patterns, bounds, the
    number of properties, the rules on name and selector, the arrays and times that are
    required and hence refused when they are nil ([null] in JSON), and the two rules that
    make fields of a claim immutable.  What is left aside is the bound on the length of a
    condition's message, as the messages carry the texts of errors, which nothing bounds.

    A program is well typed ([well_typed]) when each object it sends satisfies its
    schema, as long as the objects it was answered satisfy theirs.  An update of a claim
    has to carry the identity and the keys of the stored one; that it does is shown by
    the claim's having been answered with them before.  The lemmas are proved for any
    predicate [KnownClaims] of which fields are known, the final theorems instantiate it
    with the answers of the run ([told]). *)

From Stdlib Require Import Ascii.
From S2P Require Import Prelude Prog GoErr GoStr Json Types Kube Regex.

#[local] Open Scope string_scope.
#[local] Open Scope list_scope.
#[local] Open Scope primaza_scope.

(** ** metav1.Condition *)

(** [^[A-Za-z]([A-Za-z0-9_,:]*[A-Za-z0-9_])?$] *)
Definition reason_pattern : regex :=
  Cat (Class letter)
    (Opt (Cat (Star (Class (either alphanumeric (one_of ["_"; ","; ":"]%char))))
              (Class (either alphanumeric (one_of ["_"]%char))))).

(** [[a-z0-9]([-a-z0-9]*[a-z0-9])?] *)
Definition dns_label : regex :=
  Cat (Class (either lower digit))
    (Opt (Cat (Star (Class (either (one_of ["-"]%char) (either lower digit))))
              (Class (either lower digit)))).

(** An optional prefix of labels separated by dots, and a slash, then a qualified name. *)
Definition type_pattern : regex :=
  Cat (Opt (Cat dns_label
              (Cat (Star (Cat (Class (one_of ["."]%char)) dns_label)) (Class (one_of ["/"]%char)))))
    (Cat (Opt (Cat (Class alphanumeric)
                (Star (Class (either alphanumeric (one_of ["-"; "_"; "."]%char))))))
       (Class alphanumeric)).

Definition valid_type (s : string) : Prop :=
  matches type_pattern s = true ∧ (String.length s <= 316)%nat.
Definition valid_reason (s : string) : Prop :=
  matches reason_pattern s = true ∧ (1 <= String.length s <= 1024)%nat.

(** All but the time, which [SetStatusCondition] fills in. *)
Record sound_condition (c : Condition) : Prop := {
  vc_type : valid_type (c_Type c);
  vc_status : c_Status c ∈ [ConditionTrue; ConditionFalse; ConditionUnknown];
  vc_generation : (0 <= c_ObservedGeneration c)%Z;
  vc_reason : valid_reason (c_Reason c) }.

(** The zero time is [null], where a date is required. *)
Definition valid_condition (c : Condition) : Prop :=
  sound_condition c ∧ c_LastTransitionTime c ≠ 0%Z.

#[export] Instance valid_type_dec s : Decision (valid_type s).
Proof. unfold valid_type. apply _. Defined.
#[export] Instance valid_reason_dec s : Decision (valid_reason s).
Proof. unfold valid_reason. apply _. Defined.
#[export] Instance sound_condition_dec c : Decision (sound_condition c).
Proof.
  refine (cast_if (decide (valid_type (c_Type c) ∧
    c_Status c ∈ [ConditionTrue; ConditionFalse; ConditionUnknown] ∧
    (0 <= c_ObservedGeneration c)%Z ∧ valid_reason (c_Reason c)))); [abstract by destruct_and!; constructor|].
  abstract by intros []; tauto.
Defined.
#[export] Instance valid_condition_dec c : Decision (valid_condition c).
Proof. unfold valid_condition. apply _. Defined.

(** ** api/v1alpha1: specifications *)

(** A required array: a nil slice is [null], which is no array. *)
Definition non_nil {A} (s : slice A) : Prop :=
  match s with NilSlice => False | Slice _ => True end.
#[export] Instance non_nil_dec {A} (s : slice A) : Decision (non_nil s).
Proof. destruct s; simpl; apply _. Defined.

(** [minimum: 1], and [format: int32] for a uint32. *)
Definition valid_HealthCheck (hc : HealthCheck) : Prop :=
  non_nil (hcc_Command (hc_Container hc)) ∧ (1 <= hcc_Minutes (hc_Container hc) < 2 ^ 31)%N.

Definition valid_optional {A} (P : A → Prop) (o : option A) : Prop :=
  match o with Some a => P a | None => True end.
#[export] Instance valid_optional_dec {A} (P : A → Prop) `{∀ a, Decision (P a)} o :
  Decision (valid_optional P o).
Proof. destruct o; simpl; apply _. Defined.

(** Exactly one of name and selector; [omitempty] drops an empty name. *)
Definition valid_ApplicationSelector (a : ApplicationSelector) : Prop :=
  ¬ (as_Name a ≠ "" ∧ is_Some (as_Selector a)) ∧ (as_Name a ≠ "" ∨ is_Some (as_Selector a)).

(** [minProperties] and [maxProperties] of 1 over two optional fields. *)
Definition valid_FieldMapping (m : FieldMapping) : Prop :=
  (is_Some (fm_Constant m) ∧ fm_JsonPathExpr m = None) ∨
  (fm_Constant m = None ∧ is_Some (fm_JsonPathExpr m)).
Definition valid_ServiceClaimTarget (t : ServiceClaimTarget) : Prop :=
  (tgt_EnvironmentTag t ≠ "" ∧ tgt_ApplicationClusterContext t = None) ∨
  (tgt_EnvironmentTag t = "" ∧ is_Some (tgt_ApplicationClusterContext t)).

Definition valid_SecretRefField (m : ServiceClassSecretRefFieldMapping) : Prop :=
  valid_FieldMapping (sfm_SecretName m) ∧ valid_FieldMapping (sfm_SecretKey m).

Definition valid_ClusterEnvironmentSpec (s : ClusterEnvironmentSpec) : Prop :=
  ces_SynchronizationStrategy s ∈ [SynchronizationStrategyPull; SynchronizationStrategyPush].
Definition valid_RegisteredServiceSpec (s : RegisteredServiceSpec) : Prop :=
  valid_optional valid_HealthCheck (rss_HealthCheck s) ∧
  non_nil (rss_ServiceClassIdentity s) ∧ non_nil (rss_ServiceEndpointDefinition s).
Definition valid_ServiceClassSpec (s : ServiceClassSpec) : Prop :=
  valid_optional valid_HealthCheck (scls_HealthCheck s) ∧ non_nil (scls_ServiceClassIdentity s) ∧
  Forall valid_SecretRefField
    (sedm_SecretRefFields (scr_ServiceEndpointDefinitionMappings (scls_Resource s))).
(** The rule that identity and keys are those of the stored claim is in [valid_call]. *)
Definition valid_ServiceClaimSpec (s : ServiceClaimSpec) : Prop :=
  non_nil (scs_ServiceClassIdentity s) ∧ non_nil (scs_ServiceEndpointDefinitionKeys s) ∧
  valid_ApplicationSelector (scs_Application s) ∧
  valid_optional valid_ServiceClaimTarget (scs_Target s).
Definition valid_ServiceBindingSpec (s : ServiceBindingSpec) : Prop :=
  valid_ApplicationSelector (sbs_Application s).

Definition valid_CatalogService (s : ServiceCatalogService) : Prop :=
  non_nil (scsv_ServiceClassIdentity s) ∧ non_nil (scsv_ServiceEndpointDefinitionKeys s).
(** [labels] is required, so the pointer to the selector is not nil. *)
Definition valid_CatalogServiceByLabel (s : ServiceCatalogServiceByLabel) : Prop :=
  valid_CatalogService (scbl_ServiceCatalogService s) ∧ is_Some (scbl_Labels s).
Definition valid_ServiceCatalogSpec (s : ServiceCatalogSpec) : Prop :=
  Forall valid_CatalogService (scats_Services s) ∧
  Forall valid_CatalogServiceByLabel (scats_ClaimedByLabels s).

(** ** api/v1alpha1: statuses *)

(** [conditions] of a cluster environment is required: an absent list is [null]. *)
Definition valid_ClusterEnvironmentStatus (s : ClusterEnvironmentStatus) : Prop :=
  cest_State s ∈ [ClusterEnvironmentStateOnline; ClusterEnvironmentStateOffline;
                  ClusterEnvironmentStatePartial] ∧
  cest_Conditions s ≠ [] ∧ Forall valid_condition (cest_Conditions s).
(** An empty state is omitted, and the default taken, where the field has [omitempty]. *)
Definition valid_RegisteredServiceStatus (s : RegisteredServiceStatus) : Prop :=
  rsst_State s ∈ [""; RegisteredServiceStateAvailable; RegisteredServiceStateClaimed;
                  RegisteredServiceStateUnknown; RegisteredServiceStateUnreachable].
Definition valid_ServiceBindingStatus (s : ServiceBindingStatus) : Prop :=
  sbst_State s ∈ [""; ServiceBindingStateReady; ServiceBindingStateMalformed] ∧
  Forall valid_condition (sbst_Conditions s).
Definition valid_ServiceClaimStatus (s : ServiceClaimStatus) : Prop :=
  scst_State s ∈ [ServiceClaimStatePending; ServiceClaimStateResolved; ServiceClaimStateInvalid] ∧
  Forall valid_condition (scst_Conditions s).
Definition valid_ServiceClassStatus (s : ServiceClassStatus) : Prop :=
  Forall valid_condition (sclst_Conditions s).

(** ** Objects *)

(** The specification of an object satisfies its schema. *)
Definition valid_spec {k : Kind} : kobj k → Prop :=
  match k with
  | KClusterEnvironment => λ o, valid_ClusterEnvironmentSpec (ce_Spec o)
  | KRegisteredService => λ o, valid_RegisteredServiceSpec (rs_Spec o)
  | KServiceClass => λ o, valid_ServiceClassSpec (scl_Spec o)
  | KServiceClaim => λ o, valid_ServiceClaimSpec (sc_Spec o)
  | KServiceBinding => λ o, valid_ServiceBindingSpec (sb_Spec o)
  | KServiceCatalog => λ o, valid_ServiceCatalogSpec (scat_Spec o)
  | _ => λ _, True
  end.

(** A status that is sent satisfies its schema. *)
Definition valid_status {k : Kind} : kobj k → Prop :=
  match k with
  | KClusterEnvironment => λ o, valid_ClusterEnvironmentStatus (ce_Status o)
  | KRegisteredService => λ o, valid_RegisteredServiceStatus (rs_Status o)
  | KServiceClass => λ o, valid_ServiceClassStatus (scl_Status o)
  | KServiceClaim => λ o, valid_ServiceClaimStatus (sc_Status o)
  | KServiceBinding => λ o, valid_ServiceBindingStatus (sb_Status o)
  | _ => λ _, True
  end.

#[export] Instance valid_HealthCheck_dec hc : Decision (valid_HealthCheck hc).
Proof. unfold valid_HealthCheck. apply _. Defined.
#[export] Instance valid_ApplicationSelector_dec a : Decision (valid_ApplicationSelector a).
Proof. unfold valid_ApplicationSelector. apply _. Defined.
#[export] Instance valid_FieldMapping_dec m : Decision (valid_FieldMapping m).
Proof. unfold valid_FieldMapping. apply _. Defined.
#[export] Instance valid_SecretRefField_dec m : Decision (valid_SecretRefField m).
Proof. unfold valid_SecretRefField. apply _. Defined.
#[export] Instance valid_ServiceClaimTarget_dec t : Decision (valid_ServiceClaimTarget t).
Proof. unfold valid_ServiceClaimTarget. apply _. Defined.
#[export] Instance valid_CatalogService_dec s : Decision (valid_CatalogService s).
Proof. unfold valid_CatalogService. apply _. Defined.
#[export] Instance valid_CatalogServiceByLabel_dec s : Decision (valid_CatalogServiceByLabel s).
Proof. unfold valid_CatalogServiceByLabel. apply _. Defined.
#[export] Instance valid_spec_dec {k} (o : kobj k) : Decision (valid_spec o).
Proof.
  destruct k; simpl; unfold valid_ServiceClaimSpec, valid_RegisteredServiceSpec, valid_ServiceClassSpec,
    valid_ServiceBindingSpec, valid_ServiceCatalogSpec, valid_ClusterEnvironmentSpec; apply _.
Defined.
#[export] Instance valid_status_dec {k} (o : kobj k) : Decision (valid_status o).
Proof.
  destruct k; simpl; unfold valid_ServiceClaimStatus, valid_RegisteredServiceStatus, valid_ServiceClassStatus,
    valid_ServiceBindingStatus, valid_ClusterEnvironmentStatus; apply _.
Defined.

(** The conditions of an object. *)
Definition conditions_of {k : Kind} : kobj k → list Condition :=
  match k with
  | KClusterEnvironment => λ o, cest_Conditions (ce_Status o)
  | KServiceClass => λ o, sclst_Conditions (scl_Status o)
  | KServiceClaim => λ o, scst_Conditions (sc_Status o)
  | KServiceBinding => λ o, sbst_Conditions (sb_Status o)
  | _ => λ _, []
  end.

(** An object as it is read: its status may still be absent, but its conditions were
    accepted once. *)
Definition valid_object {k : Kind} (o : kobj k) : Prop :=
  valid_spec o ∧ Forall valid_condition (conditions_of o).

Lemma valid_object_spec {k} (o : kobj k) : valid_object o → valid_spec o.
Proof. by intros []. Qed.

(** The schemas say nothing of the metadata. *)
Lemma valid_set_meta {k} (o : kobj k) m : valid_object o → valid_object (set_meta o m).
Proof. by destruct k. Qed.

Lemma valid_AddFinalizer {k} (o o' : kobj k) f b :
  AddFinalizer o f = (o', b) → valid_object o → valid_object o'.
Proof. unfold AddFinalizer. case_bool_decide; intros [= <- <-]; [done|apply valid_set_meta]. Qed.

Lemma valid_RemoveFinalizer {k} (o o' : kobj k) f b :
  RemoveFinalizer o f = (o', b) → valid_object o → valid_object o'.
Proof. intros [= <- <-]. apply valid_set_meta. Qed.

Lemma valid_SetControllerReference {ko k} (owner : kobj ko) (o o' : kobj k) err :
  SetControllerReference owner o = (o', err) → valid_object o → valid_object o'.
Proof.
  unfold SetControllerReference, with_owner. destruct (validateOwner owner o); [by intros [= <- <-]|].
  destruct (GetControllerOf _) as [r|]; [destruct (negb _)|]; intros [= <- <-]; auto using valid_set_meta.
Qed.

#[export] Hint Resolve valid_object_spec valid_set_meta valid_AddFinalizer valid_RemoveFinalizer
  valid_SetControllerReference : primaza.

(** ** Typing *)

(** What the API server answers satisfies the schemas, and the clock is not at zero. *)
Definition valid_answer (ev : kevent) : Prop :=
  match ev with
  | existT c r =>
      match c return Answer c → Prop with
      | CGet _ k _ | CCreate _ k _ | CUpdate _ k _ => λ r,
          match r with Ok o => valid_object o | Err _ => True end
      | CStatusUpdate _ k _ => λ r,
          match r with Ok o => valid_object o ∧ valid_status o | Err _ => True end
      | CList _ k _ => λ r, match r with Ok os => Forall valid_object os | Err _ => True end
      | CNow => λ r, r ≠ 0%Z
      | _ => λ _, True
      end r
  end.

(** The immutable fields of a claim: its identity and the keys it asks for. *)
Definition immutable_fields (sc : ServiceClaim) : slice ServiceClassIdentityItem * slice string :=
  (scs_ServiceClassIdentity (sc_Spec sc), scs_ServiceEndpointDefinitionKeys (sc_Spec sc)).

(** A class that maps nothing into the definitions of its services. *)
Definition mapless (sc : ServiceClass) : Prop :=
  sedm_ResourceFields (scr_ServiceEndpointDefinitionMappings (scls_Resource (scl_Spec sc))) = [] ∧
  sedm_SecretRefFields (scr_ServiceEndpointDefinitionMappings (scls_Resource (scl_Spec sc))) = [].

(** What a program was told: the immutable fields that the claims of a cluster have, and
    whether there is a class that maps nothing. *)
Class KnownClaims := {
  known : Client → NamespacedName → slice ServiceClassIdentityItem * slice string → Prop;
  unmapped : Prop }.

Section Known.
Context `{KnownClaims}.

Definition known_claim (cl : Client) {k : Kind} : kobj k → Prop :=
  match k with
  | KServiceClaim => λ o,
      known cl (ObjectKeyFromObject (k := KServiceClaim) o) (immutable_fields o)
  | _ => λ _, True
  end.

Definition known_object (cl : Client) {k : Kind} : kobj k → Prop :=
  match k with
  | KServiceClass => λ o, mapless o → unmapped
  | k => @known_claim cl k
  end.

(** What the API server answers of claims and classes is known. *)
Definition known_answer (ev : kevent) : Prop :=
  match ev with
  | existT c r =>
      match c return Answer c → Prop with
      | CGet cl k _ | CCreate cl k _ | CUpdate cl k _ | CStatusUpdate cl k _ => λ r,
          match r with Ok o => known_object cl o | Err _ => True end
      | CList cl k _ => λ r, match r with Ok os => Forall (known_object cl) os | Err _ => True end
      | _ => λ _, True
      end r
  end.

(** What a call sends satisfies its schema: the part that the call changes, and for an
    update of a claim the rule that its immutable fields are those of the stored one. *)
Definition valid_call (c : Call) : Prop :=
  match c with
  | CCreate _ _ o => valid_spec o
  | CUpdate cl _ o => valid_spec o ∧ known_claim cl o
  | CStatusUpdate _ _ o => valid_status o
  | _ => True
  end.

Lemma valid_call_update cl {k} (o : kobj k) :
  valid_object o → known_claim cl o → valid_call (CUpdate cl k o).
Proof. intros Ho Hk. split; [by apply valid_object_spec|done]. Qed.

Lemma valid_call_class cl (o : ServiceClass) :
  valid_object (k := KServiceClass) o → valid_call (CUpdate cl KServiceClass o).
Proof. intros Ho. by apply valid_call_update. Qed.

Lemma known_other cl {k} (o : kobj k) : k ≠ KServiceClaim → known_claim cl o.
Proof. by destruct k. Qed.

Lemma known_set_meta cl {k} (o : kobj k) m :
  om_Name m = obj_Name o → om_Namespace m = obj_Namespace o →
  known_claim cl o → known_claim cl (set_meta o m).
Proof.
  destruct k; try done. simpl. intros Hn Hns Hk. unfold known_claim, ObjectKeyFromObject, obj_Name, obj_Namespace in *.
  simpl in *. by rewrite Hn, Hns.
Qed.

Lemma known_AddFinalizer cl {k} (o o' : kobj k) f b :
  AddFinalizer o f = (o', b) → known_claim cl o → known_claim cl o'.
Proof. unfold AddFinalizer. case_bool_decide; intros [= <- <-]; [done|by apply known_set_meta]. Qed.

Lemma known_RemoveFinalizer cl {k} (o o' : kobj k) f b :
  RemoveFinalizer o f = (o', b) → known_claim cl o → known_claim cl o'.
Proof. intros [= <- <-]. by apply known_set_meta. Qed.

(** Each call is valid if all answers before it are valid and known. *)
Definition typed_call (V : Call → Prop) (t : list kevent) (ev : kevent) : Prop :=
  Forall (λ e, valid_answer e ∧ known_answer e) t → V (projT1 ev).

Definition typed {A} (V : Call → Prop) (p : M A) (Q : A → Prop) : Prop :=
  kwp p (λ t out, justified (typed_call V) t ∧
                  ∀ a, out = Done a → Forall (λ e, valid_answer e ∧ known_answer e) t → Q a).

Section Rules.
Context (V : Call → Prop).

Lemma typed_ret {A} (a : A) (Q : A → Prop) : Q a → typed V (mret a) Q.
Proof. intros HQ. apply wp_ret. split; [apply justified_nil|]. by intros ? [= <-]. Qed.

Lemma typed_halt {A} h (Q : A → Prop) : typed V (Halt h) Q.
Proof. apply wp_halt. split; [apply justified_nil|done]. Qed.

Lemma typed_mono {A} (p : M A) (Q Q' : A → Prop) :
  typed V p Q → (∀ a, Q a → Q' a) → typed V p Q'.
Proof.
  intros Hp HQ. eapply wp_mono; [exact Hp|]. intros t out [Ht Ha]. split; [done|]. eauto.
Qed.

Lemma typed_and {A} (p : M A) (Q : A → Prop) :
  typed V p (λ _, True) → kwp p (λ _ out, ∀ a, out = Done a → Q a) → typed V p Q.
Proof.
  intros Hp HQ. eapply wp_mono; [apply wp_and; [exact Hp|exact HQ]|].
  intros t out [[Ht _] Ha]. split; [done|]. intros a Hout _. by apply Ha.
Qed.

Lemma typed_bind {A B} (p : M A) (f : A → M B) (Q : A → Prop) (Q' : B → Prop) :
  typed V p Q → (∀ a, Q a → typed V (f a) Q') → typed V (p ≫= f) Q'.
Proof.
  intros Hp Hf. eapply (wp_bind_spec legal); [exact Hp| |].
  - intros t a [Ht Ha] t' out' He'.
    assert (Hf' : Forall (λ e, valid_answer e ∧ known_answer e) t → typed V (f a) Q') by (intros; by apply Hf, Ha). split.
    + apply justified_app; [done|]. intros t1 ev t2 -> Hok%Forall_app. destruct Hok as [Hok Hok1].
      destruct (Hf' Hok _ _ He') as [Hj _]. by apply (Hj t1 ev t2).
    + intros b -> [Hok Hok']%Forall_app. destruct (Hf' Hok _ _ He') as [_ Hb]. by apply Hb.
  - by intros t h [Ht _].
Qed.

Lemma typed_call_bind {A} c (f : Answer c → M A) (Q : A → Prop) :
  V c → (∀ r, legal c r → valid_answer (Ev c r) → known_answer (Ev c r) → typed V (f r) Q) →
  typed V (api c ≫= f) Q.
Proof.
  intros Hc Hf. apply (typed_bind _ _ (λ r, legal c r ∧ valid_answer (Ev c r) ∧ known_answer (Ev c r))).
  - apply wp_call. intros r Hr. split; [apply justified_one; by intros _|].
    intros ? [= <-] [? _]%Forall_cons. done.
  - intros r (Hr & Ha & Hk). by apply Hf.
Qed.

Lemma typed_api c (Q : Answer c → Prop) :
  V c → (∀ r, legal c r → valid_answer (Ev c r) → known_answer (Ev c r) → Q r) → typed V (api c) Q.
Proof.
  intros Hc HQ. apply wp_call. intros r Hr. split; [apply justified_one; by intros _|].
  intros ? [= <-] [[? ?] _]%Forall_cons. by apply HQ.
Qed.

Lemma typed_assoc {A B C} (p : M A) (f : A → M B) (g : B → M C) Q :
  typed V (p ≫= λ a, f a ≫= g) Q → typed V ((p ≫= f) ≫= g) Q.
Proof. apply wp_bind_assoc. Qed.

Lemma typed_for_each {A S} (l : list A) (s : S) body (I : S → Prop) :
  I s → (∀ x s, x ∈ l → I s → typed V (body x s) I) → typed V (for_each l s body) I.
Proof.
  revert s. induction l as [|x l IH]; intros s Hs Hb; simpl; [by apply typed_ret|].
  apply (typed_bind _ _ I); [apply Hb; [by left|done]|].
  intros s' Hs'. apply IH; [done|]. intros y s'' Hy. apply Hb. by right.
Qed.

Lemma typed_collect_errors {A} (l : list A) f :
  (∀ x, x ∈ l → typed V (f x) (λ _, True)) → typed V (collect_errors l f) (λ _, True).
Proof.
  intros Hf. unfold collect_errors. apply (typed_bind _ _ (λ _, True)).
  - apply typed_for_each; [done|]. intros x s Hx _.
    apply (typed_bind _ _ (λ _, True)); [by apply Hf|]. intros. by apply typed_ret.
  - intros. by apply typed_ret.
Qed.

Lemma typed_weaken {A} (V' : Call → Prop) (p : M A) (Q : A → Prop) :
  (∀ c, V' c → V c) → typed V' p Q → typed V p Q.
Proof.
  intros HV Hp. eapply wp_mono; [exact Hp|]. intros t out [Ht Ha]. split; [|done].
  intros t1 ev t2 Heq Hok. by apply HV, (Ht t1 ev t2).
Qed.

(** A program whose calls are valid whatever it was answered. *)
Lemma typed_calls {A} (p : M A) : only_calls legal V p → typed V p (λ _, True).
Proof.
  intros Hp. eapply wp_mono; [exact Hp|]. intros t out Ht. split; [|done].
  apply justified_all. eapply Forall_impl; [exact Ht|]. intros ev Hev t1 _. exact Hev.
Qed.

Lemma typed_halt_bind {A B} h (f : A → M B) (Q : B → Prop) : typed V (Halt h ≫= f) Q.
Proof. apply typed_halt. Qed.

Lemma typed_ret_bind {A B} (a : A) (f : A → M B) (Q : B → Prop) :
  typed V (f a) Q → typed V (mret a ≫= f) Q.
Proof. done. Qed.
End Rules.
End Known.

#[export] Hint Resolve valid_call_update valid_call_class known_AddFinalizer known_RemoveFinalizer : primaza.

(** Walks a program; what is left are the calls, and the loops and helpers that have a
    rule of their own. *)
Ltac typed_step :=
  lazymatch goal with
  | |- typed _ (mret _) _ => apply typed_ret
  | |- typed _ (Ret _) _ => apply typed_ret
  | |- typed _ (Halt _) _ => apply typed_halt
  | |- typed _ (panic _) _ => apply typed_halt
  | |- typed _ (deref ?x) _ => unfold deref
  | |- typed _ ((_ ≫= _) ≫= _) _ => apply typed_assoc; cbv beta
  | |- typed ?V (mret ?a ≫= ?f) ?Q => refine (typed_ret_bind V a f Q _); cbv beta iota
  | |- typed ?V (Ret ?a ≫= ?f) ?Q => refine (typed_ret_bind V a f Q _); cbv beta iota
  | |- typed _ (Halt _ ≫= _) _ => apply typed_halt_bind
  | |- typed _ (panic _ ≫= _) _ => apply typed_halt_bind
  | |- typed _ (deref ?x ≫= _) _ => unfold deref
  | |- typed _ (let _ := _ in _) _ => cbv zeta
  | |- typed ?V (call ?c) ?Q =>
      refine (typed_api V c Q _ _);
      [|let r := fresh "r" in let H := fresh "Hans" in let K := fresh "Hkn" in
        intros r _ H K; simpl in H, K]
  | |- typed ?V (call ?c ≫= ?f) ?Q =>
      refine (typed_call_bind V c f Q _ _);
      [|let r := fresh "r" in let H := fresh "Hans" in let K := fresh "Hkn" in
        intros r _ H K; simpl in H, K]; cbv beta
  | |- typed ?V (for_each _ _ _) (λ _, True) =>
      refine (typed_for_each V _ _ _ _ I _); intros ? ? ? _
  | |- typed ?V (collect_errors _ _) (λ _, True) => refine (typed_collect_errors V _ _ _); intros ? ?
  | |- typed ?V (for_each _ _ _ ≫= _) _ =>
      refine (typed_bind V _ _ (λ _, True) _ _ _); [|intros ? _]
  | |- typed ?V (collect_errors _ _ ≫= _) _ =>
      refine (typed_bind V _ _ (λ _, True) _ _ _); [|intros ? _]
  | |- typed _ (match ?x with _ => _ end) _ => destruct x eqn:?; try discriminate
  | |- typed _ (match ?x with _ => _ end ≫= _) _ => destruct x eqn:?; try discriminate
  end.
Ltac typed_walk := repeat typed_step.

(** ** The helpers *)

Section Helpers.
Context `{KnownClaims} (V : Call → Prop) (HV : ∀ c, valid_call c → V c).

(** A program that sends no custom resource. *)
Lemma typed_plain {A} (p : M A) : only_calls legal valid_call p → typed V p (λ _, True).
Proof. intros Hp. apply typed_calls. eapply only_calls_mono; [exact Hp|exact HV]. Qed.

Lemma valid_condition_set_time c t : sound_condition c → t ≠ 0%Z → valid_condition (c_set_time c t).
Proof. by intros []. Qed.

(** The time is used only when the status changes. *)
Lemma valid_update_first t new cs :
  sound_condition new →
  (∀ c, FindStatusCondition cs (c_Type new) = Some c → c_Status c = c_Status new ∨ t ≠ 0%Z) →
  Forall valid_condition cs → Forall valid_condition (update_first t new cs).
Proof.
  intros Hnew Hfind. induction 1 as [|c cs Hc Hcs IH]; simpl; [done|].
  rewrite find_condition_cons in Hfind.
  case_bool_decide; constructor; [|done..|by apply IH].
  destruct Hnew, Hc as [[] Hc]. split; [by split|]. simpl.
  destruct (Hfind c eq_refl); case_bool_decide; done.
Qed.

Lemma typed_SetStatusCondition cs new :
  Forall valid_condition cs → sound_condition new →
  typed V (SetStatusCondition cs new) (λ cs', Forall valid_condition cs' ∧ cs' ≠ []).
Proof.
  intros Hcs Hnew. unfold SetStatusCondition.
  assert (Hup : ∀ t c, FindStatusCondition cs (c_Type new) = Some c →
    c_Status c = c_Status new ∨ t ≠ 0%Z →
    Forall valid_condition (update_first t new cs) ∧ update_first t new cs ≠ []).
  { intros t c Hc Ht. split.
    - apply valid_update_first; [done| |done]. intros c' Hc'. rewrite Hc in Hc'. by injection Hc' as <-.
    - destruct cs; [done|]. simpl. by case_bool_decide. }
  assert (Happ : ∀ c, valid_condition c → Forall valid_condition (cs ++ [c]) ∧ cs ++ [c] ≠ []).
  { intros c Hc. split; [by apply Forall_app; rewrite Forall_singleton|]. by destruct cs. }
  destruct (FindStatusCondition cs (c_Type new)) as [c|] eqn:Hfind.
  - destruct (_ && _) eqn:Hb; typed_walk; [by apply HV| |]; (eapply Hup; [done|]); [by right|].
    apply andb_false_iff in Hb as [Hb|Hb]; apply bool_decide_eq_false_1 in Hb; [left|by right].
    by apply dec_stable.
  - case_bool_decide; typed_walk; [by apply HV| |]; apply Happ; [by apply valid_condition_set_time|by split].
Qed.

Lemma typed_CreateOrUpdate cl k (o : kobj k) f :
  (∀ x, x = o ∨ valid_object x →
     typed V (f x) (λ p, p.2 = None → V (CCreate cl k p.1) ∧ V (CUpdate cl k p.1))) →
  typed V (CreateOrUpdate cl k o f) (λ _, True).
Proof.
  intros Hf. unfold CreateOrUpdate, mutate.
  typed_walk; [by apply HV| |done|].
  all: eapply typed_bind; [apply Hf; auto|]; intros [o' err] Ho'; simpl in Ho'.
  all: typed_walk; try done; by apply Ho'.
Qed.

Lemma typed_CreateOrUpdate_mutates cl k (o : kobj k) f :
  (∀ x, x = o ∨ valid_object x → V (CCreate cl k (f x)) ∧ V (CUpdate cl k (f x))) →
  typed V (CreateOrUpdate cl k o (mutates f)) (λ _, True).
Proof. intros Hf. apply typed_CreateOrUpdate. intros x Hx. apply typed_ret. intros _. by apply Hf. Qed.
End Helpers.

(** The same in front of a continuation, [HV] being the reason why valid calls are sent. *)
Ltac typed_create HV :=
  lazymatch goal with
  | |- typed ?V (CreateOrUpdate ?cl ?k ?o (mutates ?f) ≫= ?g) ?Q =>
      refine (typed_bind V _ g (λ _, True) Q (typed_CreateOrUpdate_mutates V HV cl k o f _) _);
      [|intros ? _]
  | |- typed ?V (CreateOrUpdate ?cl ?k ?o ?f ≫= ?g) ?Q =>
      refine (typed_bind V _ g (λ _, True) Q (typed_CreateOrUpdate V HV cl k o f _) _);
      [|intros ? _]
  end.

(** ** Whole programs *)

Definition as_claim (k : Kind) : kobj k → list ServiceClaim :=
  match k with KServiceClaim => λ o, [o] | _ => λ _, [] end.
Definition as_class (k : Kind) : kobj k → list ServiceClass :=
  match k with KServiceClass => λ o, [o] | _ => λ _, [] end.

(** The objects that an event answers, of the kind that [view] selects, and where they are. *)
Definition answered {X} (view : ∀ k, kobj k → list X) (ev : kevent) : list (Client * X) :=
  match ev with
  | existT c r =>
      match c return Answer c → list (Client * X) with
      | CGet cl k _ | CCreate cl k _ | CUpdate cl k _ | CStatusUpdate cl k _ => λ r,
          match r with Ok o => pair cl <$> view k o | Err _ => [] end
      | CList cl k _ => λ r, match r with Ok os => pair cl <$> (os ≫= view k) | Err _ => [] end
      | _ => λ _, []
      end r
  end.

(** What the events tell of the claims and the classes. *)
Definition told (t : list kevent) : KnownClaims := {|
  known := λ cl key fields, ∃ ev old, ev ∈ t ∧ (cl, old) ∈ answered as_claim ev ∧
    ObjectKeyFromObject (k := KServiceClaim) old = key ∧ immutable_fields old = fields;
  unmapped := ∃ ev cl sc, ev ∈ t ∧ (cl, sc) ∈ answered as_class ev ∧ mapless sc |}.

Lemma known_views (K : KnownClaims) cl k (o : kobj k) :
  (∀ old, old ∈ as_claim k o → known cl (ObjectKeyFromObject (k := KServiceClaim) old) (immutable_fields old)) →
  (∀ sc, sc ∈ as_class k o → mapless sc → unmapped) → known_object cl o.
Proof.
  destruct k; try done; intros Hk Hc; [apply Hk, list_elem_of_here|intros Hm; eapply Hc; [apply list_elem_of_here|exact Hm]].
Qed.

Lemma told_known (t : list kevent) ev : ev ∈ t → known_answer (H := told t) ev.
Proof.
  intros Hin.
  assert (Hk : ∀ cl old, (cl, old) ∈ answered as_claim ev →
    known (KnownClaims := told t) cl (ObjectKeyFromObject (k := KServiceClaim) old) (immutable_fields old)).
  { intros cl old Hold. by exists ev, old. }
  assert (Hc : ∀ cl sc, (cl, sc) ∈ answered as_class ev → mapless sc → unmapped (KnownClaims := told t)).
  { intros cl sc Hsc Hm. by exists ev, cl, sc. }
  destruct ev as [[] r]; try done; simpl in *; destruct r as [x|e]; try done.
  all: try (apply known_views; [intros old Hold; apply Hk|intros sc Hsc; eapply Hc];
            by apply list_elem_of_fmap_2).
  apply Forall_forall. intros o' Ho'. apply known_views; [intros old Hold; apply Hk|intros sc Hsc; eapply Hc].
  all: apply list_elem_of_fmap_2, list_elem_of_bind; eauto.
Qed.

(** What the API server's validation accepts after these events. *)
Definition accepts (t : list kevent) (c : Call) : Prop := valid_call (H := told t) c.

(** In every execution, each call is as [W] says after what came before it, if the
    answers before it are valid. *)
Definition well_typed {A} (W : list kevent → Call → Prop) (p : M A) : Prop :=
  kwp p (λ t _, justified (λ t1 ev, Forall valid_answer t1 → W t1 (projT1 ev)) t).

Lemma typed_well_typed {A} (V : KnownClaims → Call → Prop) (p : M A) Q :
  (∀ K, typed (H := K) (V K) p Q) → well_typed (λ t, V (told t)) p.
Proof.
  intros Hp t out Hex t1 ev t2 Heq Hval.
  destruct (Hp (told t1) t out Hex) as [Hj _]. apply (Hj t1 ev t2 Heq).
  apply Forall_forall. intros e He. split; [|by apply told_known].
  rewrite Forall_forall in Hval. by apply Hval.
Qed.
