(* ===== verification/EnvTag.v ===== *)
(** * Environment constraints, and set difference on slices

    pkg/envtag/envtag.go decides whether an environment satisfies the constraints
    of a service or service class; pkg/slices/slices.go subtracts one slice from
    another through a map.  The theorems give [Match] its declarative meaning (an
    exclusion wins over everything, otherwise one constraint must accept), its
    independence of the order of the constraints, and [Subtract] its set meaning. *)

From S2P Require Import Prelude Prog GoErr GoStr Types Kube.

#[local] Open Scope string_scope.
#[local] Open Scope list_scope.
#[local] Open Scope primaza_scope.

(** ** pkg/envtag *)

Definition NegativeConstraintSymbol : string := "!".

Inductive matchResult := matched | unmatched | forbidden.

Definition match_ (environment constraint : string) : matchResult :=
  if HasPrefix constraint NegativeConstraintSymbol then
    let pc := TrimPrefix constraint NegativeConstraintSymbol in
    if ⟪ environment = pc ⟫ then forbidden else matched
  else if ⟪ environment = constraint ⟫ then matched
  else unmatched.

(** The loop of [Match] on the constraints left, [v] the value so far. *)
Fixpoint Match_loop (environment : string) (constraints : list string) (v : bool) : bool :=
  match constraints with
  | [] => v
  | m :: constraints' =>
      match match_ environment m with
      | matched => Match_loop environment constraints' true
      | forbidden => false
      | unmatched => Match_loop environment constraints' v
      end
  end.

Definition Match (environment : string) (constraints : list string) : bool :=
  if ⟪ length constraints = 0 ⟫ then true
  else Match_loop environment constraints false.

(** ** What a constraint means *)

(** "!e" excludes the environment e. *)
Definition excludes (constraint environment : string) : Prop := constraint = "!" +++ environment.

(** A constraint accepts the environment it names, and a negative one every
    environment but the one it names. *)
Definition accepts (constraint environment : string) : Prop :=
  (HasPrefix constraint "!" = false ∧ constraint = environment) ∨
  (HasPrefix constraint "!" = true ∧ ¬ excludes constraint environment).

#[export] Instance excludes_dec c e : Decision (excludes c e).
Proof. unfold excludes. apply _. Defined.
#[export] Instance accepts_dec c e : Decision (accepts c e).
Proof. unfold accepts. apply _. Defined.

Lemma match_forbidden e c : match_ e c = forbidden ↔ excludes c e.
Proof.
  unfold match_, excludes, NegativeConstraintSymbol. split.
  - destruct (HasPrefix c "!") eqn:Hp; [|by case_bool_decide].
    apply HasPrefix_spec in Hp as [s ->]. rewrite TrimPrefix_append.
    case_bool_decide; [by subst|done].
  - intros ->. rewrite (proj2 (HasPrefix_spec ("!" +++ e) "!")) by eauto.
    rewrite TrimPrefix_append. by rewrite bool_decide_true.
Qed.

Lemma match_matched e c : match_ e c = matched ↔ accepts c e.
Proof.
  assert (Hx := match_forbidden e c). unfold accepts. revert Hx.
  unfold match_, NegativeConstraintSymbol. intros Hx.
  destruct (HasPrefix c "!"); [|case_bool_decide; naive_solver].
  destruct (bool_decide _); [|naive_solver].
  assert (excludes c e) by by apply Hx. naive_solver.
Qed.

Lemma match_unmatched e c : match_ e c = unmatched ↔ ¬ excludes c e ∧ ¬ accepts c e.
Proof.
  rewrite <- match_forbidden, <- match_matched. destruct (match_ e c); naive_solver.
Qed.

Lemma Match_loop_spec e cs v :
  Match_loop e cs v = true ↔
  Forall (λ c, ¬ excludes c e) cs ∧ (v = true ∨ Exists (λ c, accepts c e) cs).
Proof.
  revert v. induction cs as [|c cs IH]; intros v; simpl.
  { rewrite Exists_nil. naive_solver. }
  rewrite Forall_cons, Exists_cons. destruct (match_ e c) eqn:Hm.
  - rewrite IH. assert (¬ excludes c e) by (rewrite <- match_forbidden; congruence).
    apply match_matched in Hm. naive_solver.
  - apply match_unmatched in Hm. rewrite IH. naive_solver.
  - apply match_forbidden in Hm. naive_solver.
Qed.

Lemma Match_nil e : Match e [] = true.
Proof. reflexivity. Qed.

Lemma Match_loop_of_Match e cs : cs ≠ [] → Match e cs = Match_loop e cs false.
Proof. by destruct cs. Qed.

(** An environment that is forbidden by some constraint is rejected. *)
Lemma Match_excluded e cs : "!" +++ e ∈ cs → Match e cs = false.
Proof.
  intros Hin. assert (cs ≠ []) by (intros ->; set_solver).
  rewrite Match_loop_of_Match by done. apply not_true_iff_false.
  rewrite Match_loop_spec, Forall_forall. intros [Hf _]. by apply (Hf _ Hin).
Qed.

(** An environment satisfies a list of constraints exactly when the list is
    empty, or no constraint excludes the environment and one accepts it. *)
Theorem Match_spec e cs :
  Match e cs = true ↔
  cs = [] ∨ (Forall (λ c, ¬ excludes c e) cs ∧ Exists (λ c, accepts c e) cs).
Proof.
  destruct (decide (cs = [])) as [->|Hne]; [rewrite Match_nil; naive_solver|].
  rewrite Match_loop_of_Match, Match_loop_spec by done. naive_solver.
Qed.

(** The answer does not depend on the order of the constraints, nor on
    repetitions of one. *)
Theorem Match_perm e cs cs' :
  (∀ c, c ∈ cs ↔ c ∈ cs') → Match e cs = Match e cs'.
Proof.
  intros Heq. apply eq_true_iff_eq.
  assert (cs = [] ↔ cs' = []) as Hn.
  { split; intros ->; [destruct cs' as [|c cs']|destruct cs as [|c cs]]; try done;
      destruct (Heq c); set_solver. }
  destruct (decide (cs = [])) as [E|E].
  { rewrite E, (proj1 Hn E). done. }
  rewrite !Match_loop_of_Match, !Match_loop_spec by naive_solver.
  rewrite !Forall_forall, !Exists_exists. naive_solver.
Qed.

Lemma Match_perm_witness :
  Match "dev" ["!prod"; "dev"] = Match "dev" ["dev"; "!prod"; "dev"].
Proof. apply (Match_perm "dev" ["!prod"; "dev"] ["dev"; "!prod"; "dev"]). set_solver. Defined.

Example Match_negative : Match "dev" ["!prod"] = true.
Proof. reflexivity. Qed.
Example Match_exclusion_wins : Match "prod" ["prod"; "!prod"] = false.
Proof. reflexivity. Qed.
Example Match_unlisted : Match "test" ["dev"; "prod"] = false.
Proof. reflexivity. Qed.

(** ** pkg/slices *)

(** [Subtract]: the map of [o], the elements of [s] deleted from it, its keys in
    the order in which the range visits them. *)
Definition Subtract (o s : list string) : M (list string) :=
  let m : gset string := list_to_set o in
  let m := m ∖ list_to_set s in
  api (CMapKeys (elements m)).

Lemma elem_of_subtracted (o s : list string) e :
  e ∈ elements ((list_to_set o : gset string) ∖ list_to_set s) ↔ e ∈ o ∧ e ∉ s.
Proof. rewrite elem_of_elements. set_solver. Qed.

(** The set meaning of [Subtract], for the clients of the package. *)
Lemma wp_Subtract o s :
  kwp (Subtract o s) (λ _ out, ∃ r, out = Done r ∧ NoDup r ∧ ∀ e, e ∈ r ↔ e ∈ o ∧ e ∉ s).
Proof.
  unfold Subtract. wcall r Hr. simpl in *. exists r. split; [done|]. split.
  - rewrite <- Hr. apply NoDup_elements.
  - intros e. rewrite <- Hr. apply elem_of_subtracted.
Qed.
