(* ===== verification/Sed.v ===== *)
(** * Service endpoint definition mappings

    pkg/primaza/sed reads the entries of a service endpoint definition off a
    service resource: straight from a JSON path ([SEDResourceMapping]) or from a
    secret whose name and key are constants or JSON paths
    ([SEDSecretRefMapping]).  The JSON path engine of client-go is a parameter.
    The theorems say exactly when a key is read and from where, and which
    mappings may put a value in clear. *)

From S2P Require Import Prelude Prog GoErr GoStr Json Types Kube.

#[local] Open Scope string_scope.
#[local] Open Scope list_scope.
#[local] Open Scope primaza_scope.

(** k8s.io/client-go/util/jsonpath: parsing a template and looking results up. *)
Class JsonPathLib := {
  JSONPath : Type;
  jsonpath_Parse : string → result JSONPath;
  FindResults : JSONPath → json → result (list (list json)) }.

(** The interface of pkg/primaza/sed/mapping.go. *)
Record SEDMapping := {
  Key : string;
  ReadKey : M (result string);
  InSecret : bool }.

Section Sed.
  Context `{JsonPathLib}.

(** *** secretmapping.go: readSingleJsonPath *)

(** ["%v"] of [results] is only part of the message. *)
Definition multiple_results (results : list (list json)) : gerr :=
  ENew ("jsonPath lookup into resource returned multiple results: "
        +++ sprint_json (JArr (JArr <$> results))).

Definition readSingleJsonPath (path : JSONPath) (resource : json) : result string :=
  match FindResults path resource with
  | Err e => Err e
  | Ok [[v]] => Ok (sprint_json v)
  | Ok results => Err (multiple_results results)
  end.

(** [jsonpath.New("")] and [Parse] of ["{expr}"]. *)
Definition parse_path (expr : string) : result JSONPath := jsonpath_Parse ("{" +++ expr +++ "}").

(** *** resourcemapping.go *)

Record SEDResourceMapping := {
  srm_resource : json; srm_key : string; srm_path : JSONPath; srm_secret : bool }.

Definition NewSEDResourceMapping (resource : json) (mapping : ServiceClassResourceFieldMapping)
    : result SEDResourceMapping :=
  match parse_path (rfm_JsonPath mapping) with
  | Err e => Err e
  | Ok path => Ok {| srm_resource := resource; srm_key := rfm_Name mapping; srm_path := path;
                     srm_secret := rfm_Secret mapping |}
  end.

Definition SEDResourceMapping_ReadKey (m : SEDResourceMapping) : result string :=
  match FindResults (srm_path m) (srm_resource m) with
  | Err e => Err e
  | Ok results =>
      match results with
      | [[v]] => Ok (sprint_json v)
      | _ => Err (multiple_results results)
      end
  end.

Definition SEDResourceMapping_SEDMapping (m : SEDResourceMapping) : SEDMapping :=
  {| Key := srm_key m; ReadKey := mret (SEDResourceMapping_ReadKey m); InSecret := srm_secret m |}.

(** *** secretmapping.go *)

Record SEDSecretRefMapping := {
  ssm_namespace : string; ssm_resource : json; ssm_cli : Client; ssm_key : string;
  ssm_secretName : FieldMapping; ssm_secretKey : FieldMapping }.

(** It never fails. *)
Definition NewSEDSecretRefMapping (namespace : string) (resource : json) (cli : Client)
    (mapping : ServiceClassSecretRefFieldMapping) : result SEDSecretRefMapping :=
  Ok {| ssm_namespace := namespace; ssm_resource := resource; ssm_cli := cli;
        ssm_key := sfm_Name mapping; ssm_secretName := sfm_SecretName mapping;
        ssm_secretKey := sfm_SecretKey mapping |}.

Definition readValue (mapping : FieldMapping) (resource : json) : result string :=
  match fm_Constant mapping with
  | Some c => Ok c
  | None =>
      match fm_JsonPathExpr mapping with
      | Some expr =>
          match parse_path expr with
          | Err e => Err e
          | Ok jsonPath => readSingleJsonPath jsonPath resource
          end
      | None => Err (ENew "invalid mapping: neither Constant nor JsonPathExpr defined")
      end
  end.

Definition SEDSecretRefMapping_ReadKey (m : SEDSecretRefMapping) : M (result string) :=
  match readValue (ssm_secretKey m) (ssm_resource m) with
  | Err e => mret (Err e)
  | Ok secKey =>
      match readValue (ssm_secretName m) (ssm_resource m) with
      | Err e => mret (Err e)
      | Ok secName =>
          let! s := api (CGet (ssm_cli m) KSecret
                           {| nn_Namespace := ssm_namespace m; nn_Name := secName |}) ;;
          mret (match sec_Data s !! secKey with
                | Some v => Ok v
                | None => Err (ENew ("secret key '" +++ ssm_namespace m +++ "/" +++ secName +++ ":"
                                     +++ secKey +++ "' not Found"))
                end)
      end
  end.

Definition SEDSecretRefMapping_SEDMapping (m : SEDSecretRefMapping) : SEDMapping :=
  {| Key := ssm_key m; ReadKey := SEDSecretRefMapping_ReadKey m; InSecret := true |}.

(** ** Properties *)

(** A JSON path yields a value exactly when it finds one single result. *)
Lemma readSingleJsonPath_ok path resource s :
  readSingleJsonPath path resource = Ok s ↔
  ∃ v, FindResults path resource = Ok [[v]] ∧ s = sprint_json v.
Proof.
  unfold readSingleJsonPath.
  destruct (FindResults path resource) as [[|[|v [|? ?]] [|? ?]]|]; naive_solver.
Qed.

Lemma readValue_ok mapping resource s :
  readValue mapping resource = Ok s ↔
  fm_Constant mapping = Some s ∨
  (fm_Constant mapping = None ∧ ∃ expr path v,
     fm_JsonPathExpr mapping = Some expr ∧ parse_path expr = Ok path ∧
     FindResults path resource = Ok [[v]] ∧ s = sprint_json v).
Proof.
  unfold readValue. destruct (fm_Constant mapping) as [c|]; [naive_solver|].
  destruct (fm_JsonPathExpr mapping) as [expr|]; [|naive_solver].
  destruct (parse_path expr) as [path|] eqn:Hp.
  - rewrite readSingleJsonPath_ok. split.
    + intros (v & ? & ?). right. split; [done|]. by exists expr, path, v.
    + intros [?|(_ & expr' & path' & v & [= <-] & Hp' & ? & ?)]; [done|].
      exists v. split; congruence.
  - split; [done|]. intros [?|(_ & expr' & path' & v & [= <-] & Hp' & _)]; congruence.
Qed.

(** A secret mapping that yields a value has read it, in its only call, from
    the secret its name mapping designates in its own namespace, under the key its
    key mapping designates. *)
Theorem SEDSecretRefMapping_ReadKey_source m :
  kwp (SEDSecretRefMapping_ReadKey m) (λ t out,
    match out with
    | Done (Ok v) => ∃ name key s,
        readValue (ssm_secretName m) (ssm_resource m) = Ok name ∧
        readValue (ssm_secretKey m) (ssm_resource m) = Ok key ∧
        t = [Ev (CGet (ssm_cli m) KSecret
                   {| nn_Namespace := ssm_namespace m; nn_Name := name |}) (Ok s)] ∧
        sec_Data s !! key = Some v
    | Done (Err _) => (length t ≤ 1)%nat
    | Halted _ => False
    end).
Proof.
  unfold SEDSecretRefMapping_ReadKey.
  destruct (readValue (ssm_secretKey m) _) as [key|] eqn:Hk; [|wflow; simpl; lia].
  destruct (readValue (ssm_secretName m) _) as [name|] eqn:Hn; [|wflow; simpl; lia].
  wnext; simpl; [|lia]. destruct (sec_Data a !! key) as [v|] eqn:Hv; [|simpl; lia].
  by exists name, key, a.
Qed.

(** A resource mapping reads its key without any call; it fails unless its
    path finds one single value, and then yields that value's text. *)
Theorem SEDResourceMapping_ReadKey_source resource mapping :
  match NewSEDResourceMapping resource mapping with
  | Err e => parse_path (rfm_JsonPath mapping) = Err e
  | Ok m =>
      Key (SEDResourceMapping_SEDMapping m) = rfm_Name mapping ∧
      InSecret (SEDResourceMapping_SEDMapping m) = rfm_Secret mapping ∧
      ∃ path, parse_path (rfm_JsonPath mapping) = Ok path ∧
        ∀ s, SEDResourceMapping_ReadKey m = Ok s ↔
             ∃ v, FindResults path resource = Ok [[v]] ∧ s = sprint_json v
  end.
Proof.
  unfold NewSEDResourceMapping. destruct (parse_path _) as [path|]; [|done].
  split; [done|]. split; [done|]. exists path. split; [done|]. intros s.
  apply (readSingleJsonPath_ok path resource).
Qed.
End Sed.
