(* ===== verification/Authz.v ===== *)
(** * Permissions of the agents

    pkg/authz (the access reviews, the rules reviews and the permission lists of
    the agents), pkg/primaza/workercluster/authz and the permission checker of
    pkg/primaza/controlplane.  The theorems characterise a namespace's report by
    the API server's answers, and the empty excess list by the rules being covered
    by the permission list without wildcards. *)

From S2P Require Import Prelude Prog GoErr GoStr Types Kube.

#[local] Open Scope string_scope.
#[local] Open Scope list_scope.
#[local] Open Scope primaza_scope.

(** ** pkg/authz/types.go *)

Record ResourcePermissions := {
  rp_Verbs : list string; rp_Group : string; rp_Version : string;
  rp_Resource : string; rp_Name : string }.

Record NamespacedPermission := {
  np_Verb : string; np_Group : string; np_Version : string;
  np_Resource : string; np_Namespace : string; np_Name : string }.

#[export] Instance NamespacedPermission_eq_dec : EqDecision NamespacedPermission.
Proof. solve_decision. Defined.
#[export] Instance NamespacedPermission_countable : Countable NamespacedPermission.
Proof.
  refine (inj_countable'
            (λ x, (np_Verb x, np_Group x, np_Version x, np_Resource x, np_Namespace x, np_Name x))
            (λ '(v, g, ver, r, ns, n),
               {| np_Verb := v; np_Group := g; np_Version := ver; np_Resource := r;
                  np_Namespace := ns; np_Name := n |}) _).
  by intros [].
Defined.

Definition toNamespacedPermissions (r : ResourcePermissions) (namespace : string)
    : list NamespacedPermission :=
  (λ v, {| np_Verb := v; np_Group := rp_Group r; np_Version := rp_Version r;
           np_Resource := rp_Resource r; np_Namespace := namespace; np_Name := rp_Name r |})
  <$> rp_Verbs r.

Definition NamespacedPermission_String (p : NamespacedPermission) : string :=
  if ⟪ np_Name p = "" ⟫ then
    np_Verb p +++ " " +++ np_Resource p +++ "." +++ np_Group p +++ "/" +++ np_Version p
    +++ " in " +++ np_Namespace p
  else
    np_Verb p +++ " " +++ np_Resource p +++ "." +++ np_Group p +++ "/" +++ np_Version p
    +++ " " +++ np_Name p +++ " in " +++ np_Namespace p.

Definition selfSubjectAccessReview (np : NamespacedPermission) : ResourceAttributes :=
  {| ra_Namespace := np_Namespace np; ra_Verb := np_Verb np; ra_Group := np_Group np;
     ra_Version := np_Version np; ra_Resource := np_Resource np; ra_Name := np_Name np |}.

Record NamespacedPermissionsReport := {
  Satisfied : list NamespacedPermission;
  Failed : list NamespacedPermission;
  InError : gmap NamespacedPermission gerr }.

Definition empty_report : NamespacedPermissionsReport :=
  {| Satisfied := []; Failed := []; InError := ∅ |}.

Definition AllSatisfied (r : NamespacedPermissionsReport) : bool :=
  ⟪ length (Failed r) = 0%nat ⟫ && ⟪ size (InError r) = 0%nat ⟫.

Definition report_satisfied (r : NamespacedPermissionsReport) (np : NamespacedPermission) :=
  {| Satisfied := Satisfied r ++ [np]; Failed := Failed r; InError := InError r |}.
Definition report_failed (r : NamespacedPermissionsReport) (np : NamespacedPermission) :=
  {| Satisfied := Satisfied r; Failed := Failed r ++ [np]; InError := InError r |}.
Definition report_inError (r : NamespacedPermissionsReport) (np : NamespacedPermission) (e : gerr) :=
  {| Satisfied := Satisfied r; Failed := Failed r; InError := <[np := e]> (InError r) |}.

(** ** pkg/authz/permissions.go: required permissions *)

Definition checkAccess (cfg : RestConfig) (np : NamespacedPermission) : M (result bool) :=
  api (CAccessReview cfg (selfSubjectAccessReview np)).

Definition checkPermissionsInNamespace (cfg : RestConfig) (namespace : string)
    (permissions : list ResourcePermissions) : M NamespacedPermissionsReport :=
  for_each permissions empty_report (λ p r,
    for_each (toNamespacedPermissions p namespace) r (λ np r,
      ok ← checkAccess cfg np;
      mret (match ok with
            | Err err => report_inError r np err
            | Ok false => report_failed r np
            | Ok true => report_satisfied r np
            end))).

Definition checkPermissions (cfg : RestConfig) (namespaces : list string)
    (permissions : list ResourcePermissions) : M (gmap string NamespacedPermissionsReport) :=
  for_each namespaces ∅ (λ ns rr,
    r ← checkPermissionsInNamespace cfg ns permissions;
    mret (<[ns := r]> rr)).

Definition TestResourcePermissions (cfg : RestConfig) (namespaces : list string)
    (permissions : list ResourcePermissions)
    : M (result (gmap string NamespacedPermissionsReport)) :=
  err ← api (CNewClientset cfg);
  match err with
  | Some e => mret (Err (EWrap "error creating the client: " e))
  | None => rr ← checkPermissions cfg namespaces permissions; mret (Ok rr)
  end.

(** ** pkg/authz/permissions.go: excess permissions *)

Record Permission := {
  p_APIGroups : list string; p_Resources : list string; p_ResourceNames : list string;
  p_Namespace : string; p_Name : string; p_Verbs : list string }.

(** [ [4]string{group, resource, resource name, verb} ] *)
Definition rule : Type := (string * string * string * string)%type.

(** An empty list of API groups or of resource names stands for the empty one. *)
Definition or_empty (l : list string) : list string := if ⟪ length l = 0%nat ⟫ then [""] else l.

Definition excess_message (ns rs ag rn vb : string) : string :=
  "Excess permission: namespace=" +++ ns +++ ",resource=" +++ String.concat "." [rs; ag]
  +++ ",resource-name=" +++ rn +++ ",verbs=" +++ vb.

(** The body of the innermost loop: what one combination appends. *)
Definition unwanted_of (ns : string) (definedRules : gmap rule Z) (ag rs rn vb : string)
    : list string :=
  (if ⟪ ag = "*" ⟫ || ⟪ rs = "*" ⟫ then [excess_message ns rs ag rn vb] else [])
  ++ (if is_nil (definedRules !! (ag, rs, rn, vb)) then [excess_message ns rs ag rn vb] else []).

Definition createUnwantedPermissions (resourceRules : list ResourceRule) (ns : string)
    (definedRules : gmap rule Z) : list string :=
  flat_map (λ rr,
    flat_map (λ ag,
      flat_map (λ rs,
        flat_map (λ rn,
          flat_map (λ vb, unwanted_of ns definedRules ag rs rn vb)
            (rrl_Verbs rr))
          (or_empty (rrl_ResourceNames rr)))
        (rrl_Resources rr))
      (or_empty (rrl_APIGroups rr)))
    resourceRules.

Definition createUnwantedPermissionsList (cfg : RestConfig) (ns : string)
    (definedRules : gmap rule Z) : M (result (list string)) :=
  err ← api (CNewClientset cfg);
  match err with
  | Some e => mret (Err (EWrap "error creating the client: " e))
  | None =>
      let! resourceRules := api (CRulesReview cfg ns) ;;
      mret (Ok (createUnwantedPermissions resourceRules ns definedRules))
  end.

(** The rules a permission stands for, in the order of the loops. *)
Definition rules_of (p : Permission) : list rule :=
  flat_map (λ ag,
    flat_map (λ rs,
      flat_map (λ rn, (λ vb, (ag, rs, rn, vb)) <$> p_Verbs p)
        (or_empty (p_ResourceNames p)))
      (p_Resources p))
    (or_empty (p_APIGroups p)).

(** The map the loops over the permission list fill. *)
Definition definedRules (pl : list Permission) : gmap rule Z :=
  foldl (λ m r, <[r := 1%Z]> m) ∅ (flat_map rules_of pl).

(** The loop of [AccessList] with the list accumulated so far; an error ends it. *)
Fixpoint AccessList_loop (cfg : RestConfig) (namespaces : list string) (pl : list Permission)
    (unwantedPermissions : list string) : M (result (list string)) :=
  match namespaces with
  | [] => mret (Ok unwantedPermissions)
  | ns :: namespaces' =>
      let! up := createUnwantedPermissionsList cfg ns (definedRules pl) ;;
      AccessList_loop cfg namespaces' pl (unwantedPermissions ++ up)
  end.

Definition AccessList (cfg : RestConfig) (namespaces : list string) (pl : list Permission)
    : M (result (list string)) := AccessList_loop cfg namespaces pl [].

(** ** pkg/authz/permission_list_app.go *)

Definition AppPermissionList : list Permission :=
  [{| p_APIGroups := ["primaza.io"]; p_Resources := ["servicebindings"; "serviceclaims"; "servicecatalogs"];
      p_ResourceNames := []; p_Namespace := "system"; p_Name := "primaza:app:manager";
      p_Verbs := ["get"; "list"; "watch"; "update"; "patch"; "delete"; "deletecollection"] |};
   {| p_APIGroups := ["primaza.io"]; p_Resources := ["serviceclaims/status"];
      p_ResourceNames := []; p_Namespace := "system"; p_Name := "primaza:app:manager";
      p_Verbs := ["get"; "list"; "watch"; "update"] |};
   {| p_APIGroups := ["primaza.io"]; p_Resources := ["servicebindings/status"];
      p_ResourceNames := []; p_Namespace := "system"; p_Name := "primaza:app:manager";
      p_Verbs := ["get"; "list"; "watch"; "update"] |};
   {| p_APIGroups := ["apps"]; p_Resources := ["deployments"];
      p_ResourceNames := []; p_Namespace := "system"; p_Name := "primaza:app:manager";
      p_Verbs := ["get"; "list"; "watch"; "update"; "patch"] |};
   {| p_APIGroups := ["apps"]; p_Resources := ["deployments"; "deployments/finalizers"];
      p_ResourceNames := ["primaza-app-agent"]; p_Namespace := "system"; p_Name := "primaza:app:manager";
      p_Verbs := ["update"] |};
   {| p_APIGroups := [""]; p_Resources := ["secrets"];
      p_ResourceNames := []; p_Namespace := "system"; p_Name := "primaza:app:manager";
      p_Verbs := ["list"; "get"; "delete"; "watch"; "update"] |};
   {| p_APIGroups := ["primaza.io"]; p_Resources := ["servicebindings/finalizers"];
      p_ResourceNames := []; p_Namespace := "system"; p_Name := "primaza:app:manager";
      p_Verbs := ["update"] |};
   {| p_APIGroups := ["coordination.k8s.io"]; p_Resources := ["leases"];
      p_ResourceNames := []; p_Namespace := "system"; p_Name := "primaza:app:leader-election";
      p_Verbs := ["get"; "list"; "watch"; "create"; "update"; "patch"; "delete"] |};
   {| p_APIGroups := [""]; p_Resources := ["events"];
      p_ResourceNames := []; p_Namespace := "system"; p_Name := "primaza:app:leader-election";
      p_Verbs := ["create"; "patch"] |}].

(** ** pkg/authz/permission_list_svc.go *)

Definition SvcPermissionList : list Permission :=
  [{| p_APIGroups := ["primaza.io"]; p_Resources := ["serviceclasses"; "registeredservices"];
      p_ResourceNames := []; p_Namespace := "system"; p_Name := "primaza:svc:manager";
      p_Verbs := ["create"; "delete"; "deletecollection"; "get"; "list"; "patch"; "update"; "watch"] |};
   {| p_APIGroups := ["primaza.io"]; p_Resources := ["serviceclasses/status"];
      p_ResourceNames := []; p_Namespace := "system"; p_Name := "primaza:svc:manager";
      p_Verbs := ["get"; "patch"; "update"] |};
   {| p_APIGroups := [""]; p_Resources := ["secrets"];
      p_ResourceNames := []; p_Namespace := "system"; p_Name := "primaza:svc:manager";
      p_Verbs := ["create"; "delete"; "update"; "get"; "list"; "watch"] |};
   {| p_APIGroups := ["apps"]; p_Resources := ["deployments"];
      p_ResourceNames := []; p_Namespace := "system"; p_Name := "primaza:svc:manager";
      p_Verbs := ["get"; "list"; "watch"] |};
   {| p_APIGroups := ["apps"]; p_Resources := ["deployments"; "deployments/finalizers"];
      p_ResourceNames := ["primaza-svc-agent"]; p_Namespace := "system"; p_Name := "primaza:svc:manager";
      p_Verbs := ["update"] |};
   {| p_APIGroups := [""]; p_Resources := ["configmaps"];
      p_ResourceNames := []; p_Namespace := "system"; p_Name := "primaza:svc:leader-election";
      p_Verbs := ["get"; "list"; "watch"; "create"; "update"; "patch"; "delete"] |};
   {| p_APIGroups := ["coordination.k8s.io"]; p_Resources := ["leases"];
      p_ResourceNames := []; p_Namespace := "system"; p_Name := "primaza:svc:leader-election";
      p_Verbs := ["get"; "list"; "watch"; "create"; "update"; "patch"; "delete"] |};
   {| p_APIGroups := [""]; p_Resources := ["events"];
      p_ResourceNames := []; p_Namespace := "system"; p_Name := "primaza:svc:leader-election";
      p_Verbs := ["create"; "patch"] |}].

(** ** pkg/primaza/workercluster/authz *)

Definition GetAgentAppRequiredPermissions : list ResourcePermissions :=
  [{| rp_Verbs := ["create"]; rp_Group := "apps"; rp_Version := "";
      rp_Resource := "deployments"; rp_Name := "" |};
   {| rp_Verbs := ["delete"]; rp_Group := "apps"; rp_Version := "";
      rp_Resource := "deployments"; rp_Name := "primaza-app-agent" |}].

Definition GetAgentSvcRequiredPermissions : list ResourcePermissions :=
  [{| rp_Verbs := ["create"]; rp_Group := "apps"; rp_Version := "";
      rp_Resource := "deployments"; rp_Name := "" |};
   {| rp_Verbs := ["delete"]; rp_Group := "apps"; rp_Version := "";
      rp_Resource := "deployments"; rp_Name := "primaza-svc-agent" |}].

Definition GetAppPermissionList : list Permission := AppPermissionList.
Definition GetSvcPermissionList : list Permission := SvcPermissionList.

(** ** pkg/primaza/controlplane/permission_checker.go *)

Record agentPermissionsChecker := {
  apc_cfg : RestConfig;
  apc_getResourcePermissions : list ResourcePermissions;
  apc_getPermissionList : list Permission }.

Definition NewAgentAppPermissionsChecker (cfg : RestConfig) : agentPermissionsChecker :=
  {| apc_cfg := cfg; apc_getResourcePermissions := GetAgentAppRequiredPermissions;
     apc_getPermissionList := GetAppPermissionList |}.
Definition NewAgentSvcPermissionsChecker (cfg : RestConfig) : agentPermissionsChecker :=
  {| apc_cfg := cfg; apc_getResourcePermissions := GetAgentSvcRequiredPermissions;
     apc_getPermissionList := GetSvcPermissionList |}.

Definition TestPermissions (c : agentPermissionsChecker) (namespaces : list string)
    : M (result (gmap string NamespacedPermissionsReport)) :=
  TestResourcePermissions (apc_cfg c) namespaces (apc_getResourcePermissions c).
Definition CheckExcessPermission (c : agentPermissionsChecker) (namespaces : list string)
    : M (result (list string)) :=
  AccessList (apc_cfg c) namespaces (apc_getPermissionList c).

(** ** Excess permissions: properties *)

Lemma flat_map_nil {A B} (f : A → list B) l : flat_map f l = [] ↔ ∀ x, x ∈ l → f x = [].
Proof.
  induction l as [|x l IH]; simpl; [set_solver|].
  split.
  - intros [Hx Hl]%app_nil y [->|Hy]%elem_of_cons; [done|]. by apply IH.
  - intros Hall. rewrite (Hall x) by set_solver. simpl. apply IH. set_solver.
Qed.

Lemma elem_of_flat_map {A B} (f : A → list B) l y :
  y ∈ flat_map f l ↔ ∃ x, x ∈ l ∧ y ∈ f x.
Proof.
  induction l as [|x l IH]; simpl; [set_solver|].
  rewrite elem_of_app, IH. set_solver.
Qed.

Lemma definedRules_spec pl r : is_Some (definedRules pl !! r) ↔ ∃ p, p ∈ pl ∧ r ∈ rules_of p.
Proof.
  unfold definedRules. rewrite <- elem_of_flat_map. generalize (flat_map rules_of pl) as rs.
  intros rs. cut (∀ m : gmap rule Z, is_Some (foldl (λ m r, <[r:=1%Z]> m) m rs !! r) ↔
                    is_Some (m !! r) ∨ r ∈ rs).
  { intros Hc. rewrite Hc, lookup_empty. split; [|auto]. by intros [[? ?]|?]. }
  induction rs as [|r' rs IH]; intros m; simpl; [set_solver|].
  rewrite IH, elem_of_cons. destruct (decide (r' = r)) as [->|Hne].
  - rewrite lookup_insert_eq. split; eauto.
  - rewrite lookup_insert_ne by done. naive_solver.
Qed.

(** A rule granted by the API server is covered by a permission list: no wildcard
    group or resource, and every combination is one the list names. *)
Definition covered (pl : list Permission) (rr : ResourceRule) : Prop :=
  ∀ ag rs rn vb,
    ag ∈ or_empty (rrl_APIGroups rr) → rs ∈ rrl_Resources rr →
    rn ∈ or_empty (rrl_ResourceNames rr) → vb ∈ rrl_Verbs rr →
    ag ≠ "*" ∧ rs ≠ "*" ∧ ∃ p, p ∈ pl ∧ (ag, rs, rn, vb) ∈ rules_of p.

Lemma unwanted_of_nil ns pl ag rs rn vb :
  unwanted_of ns (definedRules pl) ag rs rn vb = [] ↔
  ag ≠ "*" ∧ rs ≠ "*" ∧ ∃ p, p ∈ pl ∧ (ag, rs, rn, vb) ∈ rules_of p.
Proof.
  unfold unwanted_of. rewrite <- definedRules_spec.
  destruct (definedRules pl !! _) as [z|]; simpl; repeat case_bool_decide; simpl;
    (split; [try done; by intros _; repeat split; eauto|]); intros (? & ? & [? ?]); done.
Qed.

Lemma createUnwantedPermissions_nil rules ns pl :
  createUnwantedPermissions rules ns (definedRules pl) = [] ↔ Forall (covered pl) rules.
Proof.
  unfold createUnwantedPermissions, covered. rewrite flat_map_nil, Forall_forall.
  repeat setoid_rewrite flat_map_nil. setoid_rewrite unwanted_of_nil.
  split; intros H rr Hrr.
  - intros ag rs rn vb Ha Hs Hn Hv. by apply (H rr Hrr ag Ha rs Hs rn Hn vb Hv).
  - intros ag Ha rs Hs rn Hn vb Hv. by apply (H rr Hrr).
Qed.

(** The rules review an event is, if it is one. *)
Definition rules_reviewed (ev : kevent) : option (string * result (list ResourceRule)) :=
  match ev with
  | existT c r =>
      match c return Answer c → option (string * result (list ResourceRule)) with
      | CRulesReview _ ns => λ r, Some (ns, r)
      | _ => λ _, None
      end r
  end.

(** What a run of [AccessList] that returns no error has done: one review per
    namespace, and nothing to report from covered rules only. *)
Definition reviews (pl : list Permission) (namespaces : list string) (empty : Prop)
    (t : list kevent) (l : list string) : Prop :=
  ∃ rs : list (string * list ResourceRule),
    rs.*1 = namespaces ∧ omap rules_reviewed t = (λ p, (p.1, Ok p.2)) <$> rs ∧
    (l = [] ↔ empty ∧ Forall (λ p, Forall (covered pl) p.2) rs).

Lemma wp_AccessList_loop cfg nss pl acc :
  kwp (AccessList_loop cfg nss pl acc)
    (λ t out, ∀ l, out = Done (Ok l) → reviews pl nss (acc = []) t l).
Proof.
  revert acc. induction nss as [|ns nss IH]; intros acc; cbn [AccessList_loop].
  { wflow. intros l [= <-]. exists []. split; [done|]. split; [done|]. naive_solver. }
  unfold createUnwantedPermissionsList. wflow. wnext; [by intros l [=]|].
  wnext; [|by intros l [=]].
  rename a into rules. eapply wp_mono; [apply IH|].
  intros t out Ht l ->. destruct (Ht l eq_refl) as (rs & Hns & Hrs & Hl).
  exists ((ns, rules) :: rs). split; [by rewrite <- Hns|]. split; [by simpl; f_equal|].
  rewrite Hl, Forall_cons, app_nil, createUnwantedPermissions_nil. simpl. tauto.
Qed.

(** C35: when the excess check returns no error, it has reviewed the rules of each
    namespace once, in order, and it reports nothing exactly when every rule the
    API server granted is covered by the permission list. *)
Theorem AccessList_spec cfg namespaces pl :
  kwp (AccessList cfg namespaces pl)
    (λ t out, ∀ l, out = Done (Ok l) → reviews pl namespaces True t l).
Proof.
  eapply wp_mono; [apply wp_AccessList_loop|]. intros t out Ht l Hl.
  destruct (Ht l Hl) as (rs & ? & ? & He). exists rs. tauto.
Qed.

(** ** Required permissions: properties *)

(** The access review an event is, if it is one. *)
Definition access_reviewed (ev : kevent) : option (ResourceAttributes * result bool) :=
  match ev with
  | existT c r =>
      match c return Answer c → option (ResourceAttributes * result bool) with
      | CAccessReview _ attrs => λ r, Some (attrs, r)
      | _ => λ _, None
      end r
  end.

Definition record_answer (r : NamespacedPermissionsReport) (p : NamespacedPermission * result bool) :=
  match p.2 with
  | Err err => report_inError r p.1 err
  | Ok false => report_failed r p.1
  | Ok true => report_satisfied r p.1
  end.

(** One review per permission, in order, and the report of the answers. *)
Definition reviewed (r : NamespacedPermissionsReport) (nps : list NamespacedPermission)
    (t : list kevent) (out : outcome NamespacedPermissionsReport) : Prop :=
  ∃ ans : list (NamespacedPermission * result bool),
    ans.*1 = nps ∧
    omap access_reviewed t = (λ p, (selfSubjectAccessReview p.1, p.2)) <$> ans ∧
    out = Done (foldl record_answer r ans).

Lemma reviewed_app r nps nps' t t' out ans :
  ans.*1 = nps →
  omap access_reviewed t = (λ p, (selfSubjectAccessReview p.1, p.2)) <$> ans →
  reviewed (foldl record_answer r ans) nps' t' out → reviewed r (nps ++ nps') (t ++ t') out.
Proof.
  intros <- Ht (ans' & <- & Ht' & ->). exists (ans ++ ans').
  rewrite !fmap_app, omap_app, foldl_app, Ht, Ht'. done.
Qed.

Lemma wp_check_one cfg nps r :
  kwp (for_each nps r (λ np r,
         ok ← checkAccess cfg np;
         mret (match ok with
               | Err err => report_inError r np err
               | Ok false => report_failed r np
               | Ok true => report_satisfied r np
               end)))
    (reviewed r nps).
Proof.
  revert r. induction nps as [|np nps IH]; intros r; cbn [for_each].
  { wflow. by exists []. }
  wflow. unfold checkAccess. wcall a Ha. cbv beta. wflow.
  eapply wp_mono; [apply IH|]. intros t out Ht.
  apply (reviewed_app r [np] nps [Ev (CAccessReview cfg (selfSubjectAccessReview np)) a]
           t out [(np, a)]); try done.
Qed.

Lemma wp_checkPermissionsInNamespace cfg ns permissions :
  kwp (checkPermissionsInNamespace cfg ns permissions)
    (reviewed empty_report (flat_map (λ p, toNamespacedPermissions p ns) permissions)).
Proof.
  unfold checkPermissionsInNamespace. generalize empty_report as r.
  induction permissions as [|p ps IH]; intros r; cbn [for_each flat_map].
  { wflow. by exists []. }
  eapply (wp_bind_spec legal); [apply wp_check_one| |].
  - intros t r' (ans & Hn & Ht & [= ->]). eapply wp_mono; [apply IH|].
    intros t' out Ht'. by eapply reviewed_app.
  - intros t h (ans & _ & _ & [=]).
Qed.

Definition granted (p : NamespacedPermission * result bool) : option NamespacedPermission :=
  match p.2 with Ok true => Some p.1 | _ => None end.
Definition denied (p : NamespacedPermission * result bool) : option NamespacedPermission :=
  match p.2 with Ok false => Some p.1 | _ => None end.

Lemma foldl_record_lists ans r :
  Satisfied (foldl record_answer r ans) = Satisfied r ++ omap granted ans ∧
  Failed (foldl record_answer r ans) = Failed r ++ omap denied ans.
Proof.
  revert r. induction ans as [|[np [[]|e]] ans IH]; intros r; cbn [foldl].
  { by rewrite !app_nil_r. }
  all: rewrite (proj1 (IH _)), (proj2 (IH _)); simpl; by rewrite <- ?app_assoc.
Qed.

Lemma foldl_record_InError ans r np :
  is_Some (InError (foldl record_answer r ans) !! np) ↔
  is_Some (InError r !! np) ∨ ∃ e, (np, Err e) ∈ ans.
Proof.
  revert r. induction ans as [|[np' [[]|e]] ans IH]; intros r; cbn [foldl].
  { split; [by left|]. intros [?|(e & ?%elem_of_nil)]; done. }
  all: rewrite IH; simpl; setoid_rewrite elem_of_cons.
  1,2: split; [intros [?|(e & ?)]; eauto|intros [?|(e & [?|?])]; eauto; congruence].
  destruct (decide (np' = np)) as [->|Hne].
  - rewrite lookup_insert_eq. split; [|by eauto]. intros _. eauto.
  - rewrite lookup_insert_ne by done.
    split; [intros [?|(e' & ?)]; eauto|intros [?|(e' & [[=]|?])]; eauto; congruence].
Qed.

(** The verdict of a report is the conjunction of the answers. *)
Lemma AllSatisfied_answers ans :
  AllSatisfied (foldl record_answer empty_report ans) = true ↔ Forall (λ p, p.2 = Ok true) ans.
Proof.
  unfold AllSatisfied. rewrite andb_true_iff, !bool_decide_eq_true.
  destruct (foldl_record_lists ans empty_report) as [_ ->]. simpl.
  rewrite length_zero_iff_nil, map_size_empty_iff. split.
  - intros [Hd He]. apply Forall_forall. intros [np [[]|e]] Hin; [done|exfalso..].
    + assert (np ∈ omap denied ans) as Hx; [|rewrite Hd in Hx; set_solver].
      apply list_elem_of_omap. by exists (np, Ok false).
    + assert (is_Some (InError (foldl record_answer empty_report ans) !! np)) as [? Hx].
      { apply foldl_record_InError. right. by exists e. }
      by rewrite He in Hx.
  - intros Hall. rewrite Forall_forall in Hall. split.
    + apply elem_of_nil_inv. intros np (p & Hp & Hd)%list_elem_of_omap.
      unfold denied in Hd. by rewrite (Hall p Hp) in Hd.
    + apply map_empty. intros np. apply eq_None_not_Some.
      intros [[? Hx]|(e & He)]%foldl_record_InError; [done|]. by apply Hall in He.
Qed.

(** The permissions of a namespace are reviewed once each, in order, and the
    report splits them by answer; it is all satisfied exactly when every review
    answered that the access is allowed. *)
Theorem checkPermissionsInNamespace_spec cfg ns permissions :
  kwp (checkPermissionsInNamespace cfg ns permissions) (λ t out,
    ∃ ans r,
      out = Done r ∧
      ans.*1 = flat_map (λ p, toNamespacedPermissions p ns) permissions ∧
      omap access_reviewed t = (λ p, (selfSubjectAccessReview p.1, p.2)) <$> ans ∧
      Satisfied r = omap granted ans ∧ Failed r = omap denied ans ∧
      (∀ np, is_Some (InError r !! np) ↔ ∃ e, (np, Err e) ∈ ans) ∧
      (AllSatisfied r = true ↔ Forall (λ p, p.2 = Ok true) ans)).
Proof.
  eapply wp_mono; [apply wp_checkPermissionsInNamespace|].
  intros t out (ans & Hn & Ht & ->). exists ans, (foldl record_answer empty_report ans).
  destruct (foldl_record_lists ans empty_report) as [Hs Hf]. rewrite Hs, Hf.
  repeat (split; [done|]). split; [|apply AllSatisfied_answers].
  intros np. rewrite foldl_record_InError. simpl. rewrite lookup_empty.
  split; [by intros [[? ?]|?]|auto].
Qed.

(** ** The permissions of all the namespaces *)

(** A review of a permission in the namespace was not answered by "allowed". *)
Definition denied_in (ns : string) (t : list kevent) : Prop :=
  ∃ attrs a, (attrs, a) ∈ omap access_reviewed t ∧ ra_Namespace attrs = ns ∧ a ≠ Ok true.

Lemma denied_in_app ns t t' : denied_in ns (t ++ t') ↔ denied_in ns t ∨ denied_in ns t'.
Proof.
  unfold denied_in. rewrite omap_app. setoid_rewrite elem_of_app. naive_solver.
Qed.

#[export] Instance allowed_dec (r : result bool) : Decision (r = Ok true).
Proof. destruct r as [[]|e]; [by left|by right..]. Defined.

Lemma wp_check_namespace cfg ns permissions :
  kwp (checkPermissionsInNamespace cfg ns permissions) (λ t out, ∃ r, out = Done r ∧
    (∀ ns', denied_in ns' t → ns' = ns) ∧
    (AllSatisfied r = false → denied_in ns t) ∧ (AllSatisfied r = true → ¬ denied_in ns t)).
Proof.
  eapply wp_mono; [apply wp_checkPermissionsInNamespace|].
  intros t out (ans & Hn & Ht & ->). eexists. split; [done|].
  assert (Hns : ∀ np, np ∈ ans.*1 → np_Namespace np = ns).
  { rewrite Hn. intros np (p & _ & Hnp)%elem_of_flat_map.
    by apply list_elem_of_fmap in Hnp as (v & -> & _). }
  assert (Hd : ∀ ns', denied_in ns' t ↔ ∃ np a, (np, a) ∈ ans ∧ np_Namespace np = ns' ∧ a ≠ Ok true).
  { intros ns'. unfold denied_in. rewrite Ht. setoid_rewrite list_elem_of_fmap. split.
    - intros (attrs & a & ([np a'] & [= -> ->] & Hin) & Hr & Ha). by exists np, a'.
    - intros (np & a & Hin & Hr & Ha). exists (selfSubjectAccessReview np), a.
      split; [by exists (np, a)|]. done. }
  assert (Hin1 : ∀ np a, (np, a) ∈ ans → np_Namespace np = ns).
  { intros np a Hin. apply Hns. by apply (list_elem_of_fmap_2 fst) in Hin. }
  split.
  - intros ns' (np & a & Hin & <- & _)%Hd. by eapply Hin1.
  - pose proof (AllSatisfied_answers ans) as Hall. rewrite Hd. split.
    + intros Hf. destruct (decide (Forall (λ p : NamespacedPermission * result bool, p.2 = Ok true) ans)) as [Ha|Ha].
      { apply Hall in Ha. congruence. }
      apply not_Forall_Exists, Exists_exists in Ha as ([np a] & Hin & Ha); [|apply _].
      exists np, a. eauto.
    + intros Hs (np & a & Hin & _ & Ha). apply Hall in Hs. rewrite Forall_forall in Hs.
      by apply Ha, (Hs (np, a)).
Qed.

(** The reports are about the namespaces of the list; a namespace that is not all
    satisfied was denied something, and the other way round when none is repeated. *)
Lemma wp_checkPermissions cfg nss permissions :
  kwp (checkPermissions cfg nss permissions) (λ t out, ∃ rr, out = Done rr ∧
    dom rr = (list_to_set nss : gset string) ∧
    ∀ ns r, rr !! ns = Some r →
      (AllSatisfied r = false → denied_in ns t) ∧
      (NoDup nss → AllSatisfied r = true → ¬ denied_in ns t)).
Proof.
  unfold checkPermissions.
  set (I := λ (l : list string) (t : list kevent) (rr : gmap string NamespacedPermissionsReport),
    ∃ l0, nss = l0 ++ l ∧ dom rr = (list_to_set l0 : gset string) ∧
      (∀ ns, denied_in ns t → ns ∈ l0) ∧
      ∀ ns r, rr !! ns = Some r →
        (AllSatisfied r = false → denied_in ns t) ∧
        (NoDup l0 → AllSatisfied r = true → ¬ denied_in ns t)).
  apply (wp_for_each legal _ _ _ I).
  - exists []. split; [done|]. split; [set_solver|]. split; [|by intros ns r ?%lookup_empty_Some].
    intros ns (attrs & a & Hin & _). by apply elem_of_nil in Hin.
  - intros ns l t rr (l0 & -> & Hdom & Hin & Hrr).
    eapply (wp_bind_spec legal); [apply wp_check_namespace| |by intros t' h (r & [=] & _)].
    intros t' r (r' & [= <-] & Hns & Hf & Ht). wflow. rewrite app_nil_r.
    exists (l0 ++ [ns]). rewrite <- app_assoc. split; [done|].
    split; [rewrite dom_insert_L, Hdom; set_solver|]. split.
    { intros ns' [Hd|Hd]%denied_in_app; [apply elem_of_app; left; auto|].
      apply Hns in Hd as ->. set_solver. }
    intros ns' r'. rewrite lookup_insert_Some. intros [[<- <-]|[Hne Hl]]; rewrite denied_in_app.
    + split; [auto|]. intros (Hnd & Hd & _)%NoDup_app Ha [Hd'|Hd']; [|by apply (Ht Ha)].
      apply (Hd ns); [auto|set_solver].
    + destruct (Hrr ns' r' Hl) as [H1 H2]. split; [auto|].
      intros (Hnd & _ & _)%NoDup_app Ha [Hd|Hd]; [by apply H2|]. by apply Hns in Hd.
  - intros t rr (l0 & Hl & Hdom & _ & Hrr). rewrite app_nil_r in Hl. subst l0. eauto.
Qed.
