(* ===== verification/GoSource.v ===== *)
(** * Go source text

    The fragment of the Go language in which a generated file is written: its tokens
    (identifiers, keywords, interpreted string literals without escapes, punctuation),
    the semicolons the language inserts at the end of a line, and a declaration of a
    variable as a slice of keyed struct literals whose fields are strings or slices of
    strings.  [read_source] reads such a file back. *)

From Stdlib Require Import Ascii.
From S2P Require Import Prelude GoStr Regex.

#[local] Open Scope string_scope.
#[local] Open Scope list_scope.
#[local] Open Scope primaza_scope.

#[local] Arguments String.append !_ _ / : simpl nomatch.

(** ** Tokens *)

Inductive symbol := LBrace | RBrace | LBrack | RBrack | Comma | Colon | Assign.
Inductive token :=
| TPackage | TVar | TIdent (s : string) | TString (s : string) | TSym (s : symbol) | TSemi.

#[export] Instance symbol_eq_dec : EqDecision symbol.
Proof. solve_decision. Defined.

Definition newline : ascii := "010".
Definition quote : ascii := "034".
Definition backslash : ascii := "092".
Definition is_blank : ascii → bool := one_of [" "; "009"; "013"]%char.
Definition ident_start : ascii → bool := either letter (one_of ["_"]%char).
Definition ident_char : ascii → bool := either alphanumeric (one_of ["_"]%char).

Definition symbol_of (c : ascii) : option symbol :=
  if ⟪ c = "{"%char ⟫ then Some LBrace
  else if ⟪ c = "}"%char ⟫ then Some RBrace
  else if ⟪ c = "["%char ⟫ then Some LBrack
  else if ⟪ c = "]"%char ⟫ then Some RBrack
  else if ⟪ c = ","%char ⟫ then Some Comma
  else if ⟪ c = ":"%char ⟫ then Some Colon
  else if ⟪ c = "="%char ⟫ then Some Assign
  else None.

Definition word (s : string) : token :=
  if ⟪ s = "package" ⟫ then TPackage else if ⟪ s = "var" ⟫ then TVar else TIdent s.

(** After which tokens a newline is a semicolon. *)
Definition ends_statement (t : token) : bool :=
  match t with
  | TIdent _ | TString _ => true
  | TSym s => ⟪ s ∈ [RBrace; RBrack] ⟫
  | _ => false
  end.

(** What is being read, and whether the last token may end a statement. *)
Inductive mode := Between | InWord (acc : string) | InString (acc : string).
Definition lstate : Type := mode * bool.

Definition snoc (s : string) (c : ascii) : string := s +++ String c EmptyString.

Definition step_between (ends : bool) (c : ascii) : option (lstate * list token) :=
  if ⟪ c = quote ⟫ then Some ((InString "", ends), [])
  else if ⟪ c = newline ⟫ then Some ((Between, false), if ends then [TSemi] else [])
  else if is_blank c then Some ((Between, ends), [])
  else if ident_start c then Some ((InWord (String c EmptyString), ends), [])
  else s ← symbol_of c; Some ((Between, ends_statement (TSym s)), [TSym s]).

Definition step (st : lstate) (c : ascii) : option (lstate * list token) :=
  match st with
  | (Between, ends) => step_between ends c
  | (InWord acc, ends) =>
      if ident_char c then Some ((InWord (snoc acc c), ends), [])
      else '(st', ts) ← step_between (ends_statement (word acc)) c; Some (st', word acc :: ts)
  | (InString acc, ends) =>
      if ⟪ c = quote ⟫ then Some ((Between, true), [TString acc])
      else if ⟪ c = newline ⟫ || ⟪ c = backslash ⟫ then None
      else Some ((InString (snoc acc c), ends), [])
  end.

Fixpoint scan (st : lstate) (s : string) : option (lstate * list token) :=
  match s with
  | EmptyString => Some (st, [])
  | String c s' =>
      '(st', ts) ← step st c;
      '(st'', ts') ← scan st' s';
      Some (st'', ts ++ ts')
  end.

(** What is still being read at the end of the text, and the semicolon there. *)
Definition finish (st : lstate) : option (list token) :=
  match st with
  | (Between, ends) => Some (if ends then [TSemi] else [])
  | (InWord acc, _) => Some (word acc :: if ends_statement (word acc) then [TSemi] else [])
  | (InString _, _) => None
  end.

Definition lex (s : string) : option (list token) :=
  '(st, ts) ← scan (Between, false) s;
  ts' ← finish st;
  Some (ts ++ ts').

(** ** Declarations *)

Inductive value := VString (s : string) | VStrings (l : list string).

(** The elements of [[]string{...}], after its brace. *)
Fixpoint read_strings (ts : list token) : option (list string * list token) :=
  match ts with
  | TSym RBrace :: r => Some ([], r)
  | TString s :: TSym RBrace :: r => Some ([s], r)
  | TString s :: TSym Comma :: r => '(l, r') ← read_strings r; Some (s :: l, r')
  | _ => None
  end.

Definition read_value (ts : list token) : option (value * list token) :=
  match ts with
  | TString s :: r => Some (VString s, r)
  | TSym LBrack :: TSym RBrack :: TIdent t :: TSym LBrace :: r =>
      if ⟪ t = "string" ⟫ then '(l, r') ← read_strings r; Some (VStrings l, r') else None
  | _ => None
  end.

(** The fields of a struct literal, after its brace; the fuel is the number of tokens. *)
Fixpoint read_fields (fuel : nat) (ts : list token)
    : option (list (string * value) * list token) :=
  match fuel, ts with
  | S _, TSym RBrace :: r => Some ([], r)
  | S fuel, TIdent f :: TSym Colon :: r =>
      '(v, r1) ← read_value r;
      match r1 with
      | TSym RBrace :: r2 => Some ([(f, v)], r2)
      | TSym Comma :: r2 => '(fs, r3) ← read_fields fuel r2; Some ((f, v) :: fs, r3)
      | _ => None
      end
  | _, _ => None
  end.

(** The elements of a slice literal of structs, after its brace. *)
Fixpoint read_elements (fuel : nat) (ts : list token)
    : option (list (list (string * value)) * list token) :=
  match fuel, ts with
  | S _, TSym RBrace :: r => Some ([], r)
  | S fuel, TSym LBrace :: r =>
      '(fs, r1) ← read_fields (length r) r;
      match r1 with
      | TSym RBrace :: r2 => Some ([fs], r2)
      | TSym Comma :: r2 => '(es, r3) ← read_elements fuel r2; Some (fs :: es, r3)
      | _ => None
      end
  | _, _ => None
  end.

Record declaration := {
  decl_package : string; decl_name : string; decl_type : string;
  decl_elements : list (list (string * value)) }.

(** [package p; var x = []T{...};] *)
Definition read_declaration (ts : list token) : option declaration :=
  match ts with
  | TPackage :: TIdent p :: TSemi :: TVar :: TIdent x :: TSym Assign :: TSym LBrack :: TSym RBrack
    :: TIdent t :: TSym LBrace :: r =>
      '(es, r1) ← read_elements (length r) r;
      match r1 with
      | [TSemi] => Some {| decl_package := p; decl_name := x; decl_type := t; decl_elements := es |}
      | _ => None
      end
  | _ => None
  end.

Definition read_source (s : string) : option declaration := lex s ≫= read_declaration.

(** ** Scanning *)

Lemma scan_app st a b :
  scan st (a +++ b) = '(st1, ts1) ← scan st a; '(st2, ts2) ← scan st1 b; Some (st2, ts1 ++ ts2).
Proof.
  revert st. induction a as [|c a IH]; intros st; cbn [scan String.append].
  - simpl. by destruct (scan st b) as [[? ?]|].
  - destruct (step st c) as [[st1 ts1]|]; simpl; [|done]. rewrite IH.
    destruct (scan st1 a) as [[st2 ts2]|]; simpl; [|done].
    destruct (scan st2 b) as [[st3 ts3]|]; simpl; [|done]. by rewrite (assoc_L app).
Qed.

(** A text that has been scanned, in front of another. *)
Lemma scan_then st a b st1 ts1 st2 ts2 :
  scan st a = Some (st1, ts1) → scan st1 b = Some (st2, ts2) →
  scan st (a +++ b) = Some (st2, ts1 ++ ts2).
Proof. intros Ha Hb. rewrite scan_app, Ha. simpl. by rewrite Hb. Qed.

(** No quote, newline or backslash: the characters that a literal cannot hold as such. *)
Fixpoint plain (s : string) : bool :=
  match s with
  | EmptyString => true
  | String c s' => negb (⟪ c = quote ⟫ || ⟪ c = newline ⟫ || ⟪ c = backslash ⟫) && plain s'
  end.

Definition quoted (s : string) : string := String quote (s +++ String quote EmptyString).

Lemma snoc_append acc c s : snoc acc c +++ s = acc +++ String c s.
Proof. unfold snoc. by rewrite append_assoc. Qed.

Lemma append_nil_r s : s +++ "" = s.
Proof. induction s as [|c s IH]; simpl; [done|by rewrite IH]. Qed.

Lemma scan_in_string acc e s :
  plain s = true →
  scan (InString acc, e) (s +++ String quote EmptyString) = Some ((Between, true), [TString (acc +++ s)]).
Proof.
  revert acc. induction s as [|c s IH]; intros acc Hs.
  - by rewrite append_nil_r.
  - cbn [plain] in Hs. apply andb_true_iff in Hs as [Hc Hs].
    destruct (⟪ c = quote ⟫) eqn:Hq, (⟪ c = newline ⟫) eqn:Hn, (⟪ c = backslash ⟫) eqn:Hb; try done.
    cbn [String.append scan step]. rewrite Hq, Hn, Hb. simpl. rewrite IH by done. simpl.
    by rewrite snoc_append.
Qed.

Lemma scan_quoted e s :
  plain s = true → scan (Between, e) (quoted s) = Some ((Between, true), [TString s]).
Proof. intros Hs. unfold quoted. cbn [scan]. simpl. by rewrite scan_in_string. Qed.

(** The strings of a slice literal, with commas between them. *)
Fixpoint comma_separated (l : list string) : list token :=
  match l with
  | [] => []
  | [s] => [TString s]
  | s :: l' => TString s :: TSym Comma :: comma_separated l'
  end.

Lemma scan_strings e l :
  Forall (λ s, plain s = true) l →
  ∃ e', scan (Between, e) (String.concat ", " (quoted <$> l)) = Some ((Between, e'), comma_separated l).
Proof.
  intros Hl. revert e. induction Hl as [|s l Hs Hl IH]; intros e; [by eexists|].
  destruct l as [|s' l].
  - exists true. cbn [fmap list_fmap String.concat]. by apply scan_quoted.
  - destruct (IH false) as [e' He']. exists e'.
    change (String.concat ", " (quoted <$> s :: s' :: l))
      with (quoted s +++ (", " +++ String.concat ", " (quoted <$> s' :: l))).
    change (comma_separated (s :: s' :: l))
      with ([TString s] ++ ([TSym Comma] ++ comma_separated (s' :: l))).
    eapply scan_then; [by apply scan_quoted|]. eapply scan_then; [reflexivity|]. exact He'.
Qed.

(** An identifier. *)
Definition is_ident (s : string) : bool :=
  match s with
  | EmptyString => false
  | String c s' => ident_start c && forallb ident_char (String.list_ascii_of_string s')
  end.

Lemma ident_start_char c :
  ident_start c = true →
  ident_char c = true ∧ ⟪ c = quote ⟫ = false ∧ ⟪ c = newline ⟫ = false ∧ is_blank c = false.
Proof. destruct c as [[] [] [] [] [] [] [] []]; vm_compute; intros Hc; try discriminate Hc; done. Qed.

Lemma scan_in_word acc e s :
  forallb ident_char (String.list_ascii_of_string s) = true →
  scan (InWord acc, e) s = Some ((InWord (acc +++ s), e), []).
Proof.
  revert acc. induction s as [|c s IH]; intros acc Hs; [by rewrite append_nil_r|].
  simpl in Hs. apply andb_true_iff in Hs as [Hc Hs]. cbn [scan step]. rewrite Hc. simpl.
  rewrite IH by done. simpl. by rewrite snoc_append.
Qed.

Lemma scan_word e s :
  is_ident s = true → scan (Between, e) s = Some ((InWord s, e), []).
Proof.
  destruct s as [|c s]; [done|]. cbn [is_ident]. intros [Hc Hs]%andb_true_iff.
  destruct (ident_start_char c Hc) as (_ & Hq & Hn & Hb).
  cbn [scan step]. unfold step_between. rewrite Hq, Hn, Hb, Hc. simpl. by rewrite scan_in_word.
Qed.

(** ** Reading *)

Lemma read_strings_spec l r :
  read_strings (comma_separated l ++ TSym RBrace :: r) = Some (l, r).
Proof.
  induction l as [|s l IH]; [done|]. destruct l as [|s' l]; [done|].
  change (comma_separated (s :: s' :: l) ++ TSym RBrace :: r)
    with (TString s :: TSym Comma :: comma_separated (s' :: l) ++ TSym RBrace :: r).
  cbn [read_strings]. by rewrite IH.
Qed.

(** The tokens of a declaration with a comma after each field and each element. *)
Definition value_tokens (v : value) : list token :=
  match v with
  | VString s => [TString s]
  | VStrings l =>
      [TSym LBrack; TSym RBrack; TIdent "string"; TSym LBrace] ++ comma_separated l ++ [TSym RBrace]
  end.
Definition field_tokens (fv : string * value) : list token :=
  TIdent fv.1 :: TSym Colon :: value_tokens fv.2 ++ [TSym Comma].
Definition struct_tokens (fs : list (string * value)) : list token :=
  TSym LBrace :: flat_map field_tokens fs ++ [TSym RBrace; TSym Comma].
Definition declaration_tokens (d : declaration) : list token :=
  [TPackage; TIdent (decl_package d); TSemi; TVar; TIdent (decl_name d); TSym Assign; TSym LBrack;
   TSym RBrack; TIdent (decl_type d); TSym LBrace]
  ++ flat_map struct_tokens (decl_elements d) ++ [TSym RBrace; TSemi].

Lemma read_value_spec v r : read_value (value_tokens v ++ r) = Some (v, r).
Proof.
  destruct v as [s|l]; [done|]. cbn [value_tokens app read_value]. rewrite bool_decide_true by done.
  rewrite <- (assoc_L app). cbn [app]. by rewrite read_strings_spec.
Qed.

Lemma read_fields_spec fs r fuel :
  length fs < fuel →
  read_fields fuel (flat_map field_tokens fs ++ TSym RBrace :: r) = Some (fs, r).
Proof.
  revert fuel. induction fs as [|[f v] fs IH]; intros [|fuel] Hfuel; simpl in Hfuel; try lia; [done|].
  cbn [flat_map field_tokens app read_fields fst snd].
  rewrite <- !(assoc_L app). rewrite read_value_spec. simpl. by rewrite IH by lia.
Qed.

Lemma fields_length fs : length fs <= length (flat_map field_tokens fs).
Proof. induction fs as [|f fs IH]; [done|]. simpl. rewrite !length_app. lia. Qed.

Lemma read_elements_spec es r fuel :
  length es < fuel →
  read_elements fuel (flat_map struct_tokens es ++ TSym RBrace :: r) = Some (es, r).
Proof.
  revert fuel. induction es as [|fs es IH]; intros [|fuel] Hfuel; simpl in Hfuel; try lia; [done|].
  cbn [flat_map struct_tokens app read_elements].
  rewrite <- !(assoc_L app). cbn [app].
  rewrite read_fields_spec by (assert (Hl := fields_length fs); rewrite length_app; simpl; lia).
  simpl. by rewrite IH by lia.
Qed.

Lemma elements_length es : length es <= length (flat_map struct_tokens es).
Proof. induction es as [|f es IH]; [done|]. simpl. rewrite !length_app. lia. Qed.

Lemma read_declaration_spec d : read_declaration (declaration_tokens d) = Some d.
Proof.
  destruct d as [p x t es]. unfold declaration_tokens. cbn [app read_declaration decl_elements decl_package decl_name decl_type].
  rewrite read_elements_spec; [done|].
  assert (Hl := elements_length es). rewrite length_app. simpl. lia.
Qed.
