(* ===== verification/PermissionList.v ===== *)
(** * The generator of the permission lists

    hack/permissionlist: the program that go:generate runs to write
    pkg/authz/permission_list_app.go and permission_list_svc.go from the roles in
    config/agents.  It reads role manifests, prints a Go declaration with text/template
    and writes it to a file.  The YAML decoder is a parameter, which is given the role
    it decodes into.  The theorems say that what is written is a Go declaration of
    exactly the permissions of the roles, in order, and that the lists of [Authz.v] are
    those of the shipped roles. *)

From Stdlib Require Import Ascii.
From S2P Require Import Prelude Prog GoErr GoStr Regex Authz GoSource.

#[local] Open Scope string_scope.
#[local] Open Scope list_scope.
#[local] Open Scope primaza_scope.

#[local] Arguments String.append !_ _ / : simpl nomatch.

(** ** Roles *)

Record RoleRule := {
  rr_APIGroups : list string; rr_Resources : list string; rr_Verbs : list string;
  rr_ResourceNames : list string }.
Record Role := { role_Name : string; role_Namespace : string; role_Rules : list RoleRule }.

Definition empty_Role : Role := {| role_Name := ""; role_Namespace := ""; role_Rules := [] |}.

(** [yaml.Unmarshal(in, &role)], its error ignored: the role afterwards. *)
Class RoleLib := { yaml_Unmarshal : string → Role → Role }.

(** ** Calls *)

Inductive GCall :=
| GReadFile (path : string)
| GWriteFile (path data : string).

(** [os.ReadFile] returns what it has read and an error. *)
Definition GAnswer (c : GCall) : Type :=
  match c with
  | GReadFile _ => string * option gerr
  | GWriteFile _ _ => option gerr
  end.

Abbreviation G := (Prog GAnswer).

(** ** Templates *)

Definition nl : string := String newline EmptyString.

(** [label: []string{"a", "b"},] on a new line *)
Definition strings_template (label : string) (l : list string) : string :=
  nl +++ label +++ ": []string{" +++ String.concat ", " (quoted <$> l) +++ "},".
Definition groupsTmpl : list string → string := strings_template "APIGroups".
Definition resourcesTmpl : list string → string := strings_template "Resources".
Definition verbsTmpl : list string → string := strings_template "Verbs".
Definition resourceNamesTmpl : list string → string := strings_template "ResourceNames".
Definition namespacesTmpl (s : string) : string := "Namespace: " +++ quoted s +++ ",".
Definition nameTmpl (s : string) : string := "Name: " +++ quoted s +++ ",".

(** The body of the loop over the rules of a role. *)
Definition rule_text (role : Role) (r : RoleRule) : string :=
  "{" +++ groupsTmpl (rr_APIGroups r) +++ resourcesTmpl (rr_Resources r)
  +++ resourceNamesTmpl (rr_ResourceNames r) +++ nl
  +++ namespacesTmpl (role_Namespace role) +++ nl
  +++ nameTmpl (role_Name role) +++ verbsTmpl (rr_Verbs r) +++ nl +++ "}," +++ nl.

Definition header (agentType : string) : string :=
  "package authz" +++ nl +++ nl +++ "var " +++ agentType +++ "PermissionList = []Permission{" +++ nl.

(** [strings.ToLower], on the letters of ASCII. *)
Definition lower_char (c : ascii) : ascii :=
  if upper c then ascii_of_nat (nat_of_ascii c + 32) else c.
Fixpoint ToLower (s : string) : string :=
  match s with
  | EmptyString => EmptyString
  | String c s' => String (lower_char c) (ToLower s')
  end.

Definition index_out_of_range {A} : G A := Halt (GoPanic "runtime error: index out of range").

(** The templates write to a [strings.Builder], which does not fail; [log.Fatal] exits
    with 1. *)
Definition main `{RoleLib} (args : list string) : G () :=
  match args !! 1, args !! 2 with
  | Some agentType, Some goProgramDir =>
      '(_, out) ← for_each (drop 3 args) (empty_Role, header agentType) (λ ymlFile '(role, out),
        '(ymlBytes, _) ← call (Answer := GAnswer) (GReadFile (path_Clean ymlFile));
        let role := yaml_Unmarshal ymlBytes role in
        mret (role, foldl (λ out r, out +++ rule_text role r) out (role_Rules role)));
      let goProgram := path_Join [goProgramDir; "permission_list_" +++ ToLower agentType +++ ".go"] in
      err ← call (Answer := GAnswer) (GWriteFile goProgram (out +++ "}" +++ nl));
      match err with
      | Some _ => Halt (OsExit 1)
      | None => mret ()
      end
  | _, _ => index_out_of_range
  end.

(** ** What the text means *)

(** The permissions of a role: one for each rule. *)
Definition permissions_of (role : Role) : list Permission :=
  (λ r, {| p_APIGroups := rr_APIGroups r; p_Resources := rr_Resources r;
           p_ResourceNames := rr_ResourceNames r; p_Namespace := role_Namespace role;
           p_Name := role_Name role; p_Verbs := rr_Verbs r |}) <$> role_Rules role.

(** A keyed literal of [authz.Permission]: absent fields are zero. *)
Definition set_field (p : Permission) (fv : string * value) : option Permission :=
  match fv with
  | (f, VStrings l) =>
      if ⟪ f = "APIGroups" ⟫ then
        Some {| p_APIGroups := l; p_Resources := p_Resources p; p_ResourceNames := p_ResourceNames p;
                p_Namespace := p_Namespace p; p_Name := p_Name p; p_Verbs := p_Verbs p |}
      else if ⟪ f = "Resources" ⟫ then
        Some {| p_APIGroups := p_APIGroups p; p_Resources := l; p_ResourceNames := p_ResourceNames p;
                p_Namespace := p_Namespace p; p_Name := p_Name p; p_Verbs := p_Verbs p |}
      else if ⟪ f = "ResourceNames" ⟫ then
        Some {| p_APIGroups := p_APIGroups p; p_Resources := p_Resources p; p_ResourceNames := l;
                p_Namespace := p_Namespace p; p_Name := p_Name p; p_Verbs := p_Verbs p |}
      else if ⟪ f = "Verbs" ⟫ then
        Some {| p_APIGroups := p_APIGroups p; p_Resources := p_Resources p;
                p_ResourceNames := p_ResourceNames p; p_Namespace := p_Namespace p;
                p_Name := p_Name p; p_Verbs := l |}
      else None
  | (f, VString s) =>
      if ⟪ f = "Namespace" ⟫ then
        Some {| p_APIGroups := p_APIGroups p; p_Resources := p_Resources p;
                p_ResourceNames := p_ResourceNames p; p_Namespace := s;
                p_Name := p_Name p; p_Verbs := p_Verbs p |}
      else if ⟪ f = "Name" ⟫ then
        Some {| p_APIGroups := p_APIGroups p; p_Resources := p_Resources p;
                p_ResourceNames := p_ResourceNames p; p_Namespace := p_Namespace p;
                p_Name := s; p_Verbs := p_Verbs p |}
      else None
  end.

Definition empty_Permission : Permission :=
  {| p_APIGroups := []; p_Resources := []; p_ResourceNames := []; p_Namespace := ""; p_Name := "";
     p_Verbs := [] |}.

Definition permission_literal (fs : list (string * value)) : option Permission :=
  if ⟪ NoDup fs.*1 ⟫ then foldl (λ op fv, p ← op; set_field p fv) (Some empty_Permission) fs else None.

(** The variable that a file of package authz declares, and its value. *)
Definition read_permission_list (text : string) : option (string * list Permission) :=
  d ← read_source text;
  if ⟪ decl_package d = "authz" ⟫ && ⟪ decl_type d = "Permission" ⟫ then
    ps ← mapM permission_literal (decl_elements d);
    Some (decl_name d, ps)
  else None.

(** Strings that text/template, which does not escape them, leaves readable. *)
Definition plain_rule (r : RoleRule) : Prop :=
  Forall (λ s, plain s = true)
    (rr_APIGroups r ++ rr_Resources r ++ rr_ResourceNames r ++ rr_Verbs r).
Definition plain_role (role : Role) : Prop :=
  plain (role_Name role) = true ∧ plain (role_Namespace role) = true ∧
  Forall plain_rule (role_Rules role).

(** ** The text is read back *)

Definition permission_fields (p : Permission) : list (string * value) :=
  [("APIGroups", VStrings (p_APIGroups p)); ("Resources", VStrings (p_Resources p));
   ("ResourceNames", VStrings (p_ResourceNames p)); ("Namespace", VString (p_Namespace p));
   ("Name", VString (p_Name p)); ("Verbs", VStrings (p_Verbs p))].

Lemma permission_literal_fields p : permission_literal (permission_fields p) = Some p.
Proof. by destruct p. Qed.

Lemma scan_strings_template label l rest st ts :
  scan (Between, false) (nl +++ label +++ ": []string{") =
    Some ((Between, false), [TIdent label; TSym Colon; TSym LBrack; TSym RBrack; TIdent "string"; TSym LBrace]) →
  Forall (λ s, plain s = true) l →
  scan (Between, false) rest = Some (st, ts) →
  scan (Between, false) (strings_template label l +++ rest) =
    Some (st, field_tokens (label, VStrings l) ++ ts).
Proof.
  intros Hlabel Hl Hrest. destruct (scan_strings false l Hl) as [e' He'].
  assert (strings_template label l +++ rest =
    (nl +++ label +++ ": []string{") +++ (String.concat ", " (quoted <$> l) +++ ("}," +++ rest))) as ->.
  { unfold strings_template. by rewrite !append_assoc. }
  assert (field_tokens (label, VStrings l) ++ ts =
    [TIdent label; TSym Colon; TSym LBrack; TSym RBrack; TIdent "string"; TSym LBrace]
    ++ (comma_separated l ++ ([TSym RBrace; TSym Comma] ++ ts))) as ->.
  { unfold field_tokens. cbn [value_tokens fst snd app]. by rewrite <- !(assoc_L app). }
  eapply scan_then; [exact Hlabel|]. eapply scan_then; [exact He'|]. by eapply scan_then.
Qed.

Lemma scan_string_field prefix label s rest st ts :
  scan (Between, false) prefix = Some ((Between, false), [TIdent label; TSym Colon]) →
  plain s = true →
  scan (Between, false) rest = Some (st, ts) →
  scan (Between, false) (prefix +++ quoted s +++ "," +++ rest) =
    Some (st, field_tokens (label, VString s) ++ ts).
Proof.
  intros Hlabel Hs Hrest.
  change (field_tokens (label, VString s) ++ ts)
    with ([TIdent label; TSym Colon] ++ ([TString s] ++ ([TSym Comma] ++ ts))).
  eapply scan_then; [exact Hlabel|]. eapply scan_then; [by apply scan_quoted|]. by eapply scan_then.
Qed.

(** What a rule of a role prints is read as its permission. *)
Lemma scan_rule_text role r rest st ts :
  plain (role_Name role) = true → plain (role_Namespace role) = true → plain_rule r →
  scan (Between, false) rest = Some (st, ts) →
  scan (Between, false) (rule_text role r +++ rest) =
    Some (st, struct_tokens (permission_fields
      {| p_APIGroups := rr_APIGroups r; p_Resources := rr_Resources r;
         p_ResourceNames := rr_ResourceNames r; p_Namespace := role_Namespace role;
         p_Name := role_Name role; p_Verbs := rr_Verbs r |}) ++ ts).
Proof.
  intros Hn Hns Hr Hrest. unfold plain_rule in Hr. rewrite !Forall_app in Hr.
  destruct Hr as (Hg & Hre & Hrn & Hv).
  unfold rule_text, namespacesTmpl, nameTmpl, groupsTmpl, resourcesTmpl, verbsTmpl, resourceNamesTmpl.
  assert (∀ fs, struct_tokens fs ++ ts =
    [TSym LBrace] ++ (flat_map field_tokens fs ++ ([TSym RBrace; TSym Comma] ++ ts))) as ->.
  { intros fs. unfold struct_tokens. cbn [app]. by rewrite <- (assoc_L app). }
  unfold permission_fields. cbn [flat_map p_APIGroups p_Resources p_ResourceNames
    p_Namespace p_Name p_Verbs]. rewrite !append_assoc.
  eapply (scan_then _ "{" _ (Between, false) [TSym LBrace]); [reflexivity|]. rewrite <- !(assoc_L app).
  do 3 (apply scan_strings_template; [reflexivity|done|]).
  eapply (scan_then _ nl _ (Between, false) []); [reflexivity|].
  apply (scan_string_field "Namespace: "); [reflexivity|done|].
  eapply (scan_then _ nl _ (Between, false) []); [reflexivity|].
  apply (scan_string_field "Name: "); [reflexivity|done|].
  apply scan_strings_template; [reflexivity|done|]. cbn [app].
  eapply (scan_then _ nl _ (Between, false) []); [reflexivity|].
  eapply (scan_then _ "}," _ (Between, false) [TSym RBrace; TSym Comma]); [reflexivity|].
  by eapply (scan_then _ nl _ (Between, false) []).
Qed.

Definition role_text (role : Role) : string :=
  foldr (λ r s, rule_text role r +++ s) "" (role_Rules role).
Definition roles_text (roles : list Role) : string := foldr (λ role s, role_text role +++ s) "" roles.

Lemma scan_role_text role rest st ts :
  plain_role role →
  scan (Between, false) rest = Some (st, ts) →
  scan (Between, false) (role_text role +++ rest) =
    Some (st, flat_map (struct_tokens ∘ permission_fields) (permissions_of role) ++ ts).
Proof.
  intros (Hn & Hns & Hr) Hrest. unfold role_text, permissions_of.
  induction Hr as [|r rs Hr Hrs IH]; [done|]. cbn [foldr fmap list_fmap flat_map].
  rewrite append_assoc, <- (assoc_L app). by apply scan_rule_text.
Qed.

Lemma scan_roles_text roles rest st ts :
  Forall plain_role roles →
  scan (Between, false) rest = Some (st, ts) →
  scan (Between, false) (roles_text roles +++ rest) =
    Some (st, flat_map (struct_tokens ∘ permission_fields) (flat_map permissions_of roles) ++ ts).
Proof.
  intros Hr Hrest. unfold roles_text. induction Hr as [|r rs Hr Hrs IH]; [done|].
  cbn [foldr flat_map]. rewrite append_assoc, flat_map_app, <- (assoc_L app). by apply scan_role_text.
Qed.

(** The file for some roles. *)
Definition list_text (agentType : string) (roles : list Role) : string :=
  header agentType +++ roles_text roles +++ "}" +++ nl.

Definition list_declaration (agentType : string) (ps : list Permission) : declaration :=
  {| decl_package := "authz"; decl_name := agentType +++ "PermissionList"; decl_type := "Permission";
     decl_elements := permission_fields <$> ps |}.

Lemma ident_not_keyword ty : word (ty +++ "PermissionList") = TIdent (ty +++ "PermissionList").
Proof.
  assert (Hl := append_length ty "PermissionList"). simpl in Hl. unfold word.
  rewrite !bool_decide_false; [done|..]; intros He; rewrite He in Hl; simpl in Hl; lia.
Qed.

Lemma list_ascii_append a b :
  String.list_ascii_of_string (a +++ b) = String.list_ascii_of_string a ++ String.list_ascii_of_string b.
Proof. induction a as [|c a IH]; simpl; [done|by rewrite IH]. Qed.

Lemma is_ident_append a b :
  is_ident a = true → forallb ident_char (String.list_ascii_of_string b) = true →
  is_ident (a +++ b) = true.
Proof.
  destruct a as [|c a]; [done|]. simpl. intros [Hc Ha]%andb_true_iff Hb.
  by rewrite Hc, list_ascii_append, forallb_app, Ha.
Qed.

Lemma flat_map_fmap {A B C} (g : A → B) (f : B → list C) l : flat_map (f ∘ g) l = flat_map f (g <$> l).
Proof. induction l as [|x l IH]; simpl; [done|]. by rewrite IH. Qed.

Lemma lex_list_text ty roles :
  is_ident ty = true → Forall plain_role roles →
  lex (list_text ty roles) = Some (declaration_tokens (list_declaration ty (flat_map permissions_of roles))).
Proof.
  intros Hty Hroles.
  assert (Hw : ∀ rest st ts, scan (Between, false) rest = Some (st, ts) →
    scan (Between, false) ((ty +++ "PermissionList") +++ " = []Permission{" +++ nl +++ rest) =
      Some (st, [TIdent (ty +++ "PermissionList"); TSym Assign; TSym LBrack; TSym RBrack;
                 TIdent "Permission"; TSym LBrace] ++ ts)).
  { intros rest st ts Hrest. eapply (scan_then _ _ _ _ []).
    { apply scan_word, is_ident_append; [done|reflexivity]. }
    rewrite <- append_assoc. apply (scan_then _ _ _ (Between, false) [TIdent (ty +++ "PermissionList");
      TSym Assign; TSym LBrack; TSym RBrack; TIdent "Permission"; TSym LBrace]); [|exact Hrest].
    cbn [scan String.append step]. rewrite ident_not_keyword. reflexivity. }
  unfold lex, list_text, header, declaration_tokens, list_declaration.
  cbn [decl_package decl_name decl_type decl_elements]. rewrite !append_assoc.
  rewrite <- flat_map_fmap.
  erewrite (scan_then (Between, false) "package authz" _ (InWord "authz", false) [TPackage]); [|reflexivity|].
  2: { eapply (scan_then _ (nl +++ nl +++ "var ") _ (Between, false) [TIdent "authz"; TSemi; TVar]); [reflexivity|].
       change "PermissionList = []Permission{" with ("PermissionList" +++ " = []Permission{").
       rewrite (append_assoc "PermissionList"), <- (append_assoc ty). apply Hw, scan_roles_text; [done|]. reflexivity. }
  simpl. by rewrite <- !(assoc_L app).
Qed.

(** ** The program *)

Abbreviation gevent := (event GAnswer).
Abbreviation GEv := (@Ev GCall GAnswer).

Section Generator.
Context `{RoleLib}.

(** The role after each file: every file is decoded into the role of the one before. *)
Fixpoint decoded (role : Role) (contents : list string) : list Role :=
  match contents with
  | [] => []
  | c :: contents' => let role := yaml_Unmarshal c role in role :: decoded role contents'
  end.

Definition read_event (ymlFile : string) (r : string * option gerr) : gevent :=
  GEv (GReadFile (path_Clean ymlFile)) r.

Definition written_roles (answers : list (string * option gerr)) : list Role :=
  decoded empty_Role answers.*1.

Lemma foldl_rule_text role rs out :
  foldl (λ out r, out +++ rule_text role r) out rs = out +++ foldr (λ r s, rule_text role r +++ s) "" rs.
Proof.
  revert out. induction rs as [|r rs IH]; intros out; [by rewrite append_nil_r|].
  cbn [foldl foldr]. by rewrite IH, append_assoc.
Qed.

Lemma wp_read_files files role out :
  wp (λ _ _, True)
    (for_each files (role, out) (λ ymlFile '(role, out),
       '(ymlBytes, _) ← call (Answer := GAnswer) (GReadFile (path_Clean ymlFile));
       let role := yaml_Unmarshal ymlBytes role in
       mret (role, foldl (λ out r, out +++ rule_text role r) out (role_Rules role))))
    (λ t o, ∃ answers role', length answers = length files ∧ t = zip_with read_event files answers ∧
       o = Done (role', out +++ roles_text (decoded role answers.*1))).
Proof.
  revert role out. induction files as [|f files IH]; intros role out; cbn [for_each].
  - apply wp_ret. exists [], role. by rewrite append_nil_r.
  - apply wp_bind. apply (wp_call_bind _ (GReadFile (path_Clean f))). intros [content err] _. apply wp_ret. cbn beta iota zeta.
    eapply wp_mono; [apply IH|]. intros t o (answers & role' & Hlen & -> & ->).
    exists ((content, err) :: answers), role'. split; [simpl; by rewrite Hlen|]. split; [done|].
    by rewrite foldl_rule_text, append_assoc.
Qed.

(** C36: the generated list.  The generator reads the given files in order, and then
    writes one file, named after the kind of the agent; if that is an identifier and the
    roles hold no quotes, backslashes or newlines, what is written is a Go declaration of
    a variable of package authz named after the kind of the agent, whose value is one
    permission for each rule of each role, in order, with the role's name and namespace.
    It exits with 1 only when that file cannot be written. *)
Theorem generated_list program agentType goProgramDir files :
  wp (λ _ _, True) (main (program :: agentType :: goProgramDir :: files)) (λ t o,
    ∃ answers text err,
      length answers = length files ∧
      t = zip_with read_event files answers
          ++ [GEv (GWriteFile (path_Join [goProgramDir; "permission_list_" +++ ToLower agentType +++ ".go"]) text) err] ∧
      o = match err with Some _ => Halted (OsExit 1) | None => Done () end ∧
      (is_ident agentType = true → Forall plain_role (written_roles answers) →
       read_permission_list text =
         Some (agentType +++ "PermissionList", flat_map permissions_of (written_roles answers)))).
Proof.
  unfold main. cbn [lookup list_lookup drop].
  apply (wp_bind_spec _ _ _ _ _ (wp_read_files files empty_Role (header agentType))).
  - intros t [role' out] (answers & ? & Hlen & -> & Ho).
    assert (out = header agentType +++ roles_text (decoded empty_Role answers.*1)) as -> by congruence.
    apply (wp_call_bind _ (GWriteFile _ _)). intros err _.
    assert (Htext : is_ident agentType = true → Forall plain_role (written_roles answers) →
      read_permission_list (list_text agentType (written_roles answers)) =
        Some (agentType +++ "PermissionList", flat_map permissions_of (written_roles answers))).
    { intros Hid Hpl. unfold read_permission_list, read_source. rewrite lex_list_text by done.
      cbn [mbind option_bind]. rewrite read_declaration_spec. cbn [mbind option_bind].
      unfold list_declaration. cbn [decl_package decl_type decl_name decl_elements].
      assert (∀ ps, mapM permission_literal (permission_fields <$> ps) = Some ps) as ->; [|done].
      intros ps. induction ps as [|p ps IH]; [done|]. cbn [fmap list_fmap mapM].
      rewrite permission_literal_fields. cbn [mbind option_bind]. by rewrite IH. }
    destruct err as [e|]; [apply wp_halt|apply wp_ret];
      eexists answers, (list_text agentType (written_roles answers)), _; (split; [done|]).
    all: split; [unfold list_text; by rewrite (append_assoc (header agentType))|]; split; [done|exact Htext].
  - intros t h (? & ? & _ & _ & [=]).
Qed.

(** Two arguments are required. *)
Lemma missing_arguments args :
  length args < 3 → main args = Halt (GoPanic "runtime error: index out of range").
Proof. destruct args as [|? [|? [|? ?]]]; simpl; try done; lia. Qed.

(** A file that cannot be read leaves no bytes, which decode to nothing: the rules of
    the file before are printed again. *)
Lemma unreadable_file_repeats c err :
  (∀ role, yaml_Unmarshal "" role = role) →
  flat_map permissions_of (written_roles [(c, None); ("", Some err)]) =
    permissions_of (yaml_Unmarshal c empty_Role) ++ permissions_of (yaml_Unmarshal c empty_Role).
Proof. intros Hempty. unfold written_roles. simpl. by rewrite Hempty, app_nil_r. Qed.
End Generator.

(** ** The shipped roles *)

Module Example.

Definition rule (groups resources verbs names : list string) : RoleRule :=
  {| rr_APIGroups := groups; rr_Resources := resources; rr_Verbs := verbs; rr_ResourceNames := names |}.
Definition lease_rules : list RoleRule :=
  [rule ["coordination.k8s.io"] ["leases"]
        ["get"; "list"; "watch"; "create"; "update"; "patch"; "delete"] [];
   rule [""] ["events"] ["create"; "patch"] []].

(** config/agents/app/rbac *)
Definition app_manager_role : Role :=
  {| role_Name := "primaza:app:manager"; role_Namespace := "system";
     role_Rules :=
       [rule ["primaza.io"] ["servicebindings"; "serviceclaims"; "servicecatalogs"]
             ["get"; "list"; "watch"; "update"; "patch"; "delete"; "deletecollection"] [];
        rule ["primaza.io"] ["serviceclaims/status"] ["get"; "list"; "watch"; "update"] [];
        rule ["primaza.io"] ["servicebindings/status"] ["get"; "list"; "watch"; "update"] [];
        rule ["apps"] ["deployments"] ["get"; "list"; "watch"; "update"; "patch"] [];
        rule ["apps"] ["deployments"; "deployments/finalizers"] ["update"] ["primaza-app-agent"];
        rule [""] ["secrets"] ["list"; "get"; "delete"; "watch"; "update"] [];
        rule ["primaza.io"] ["servicebindings/finalizers"] ["update"] []] |}.
Definition app_leader_election_role : Role :=
  {| role_Name := "primaza:app:leader-election"; role_Namespace := "system"; role_Rules := lease_rules |}.

(** config/agents/svc/rbac *)
Definition svc_manager_role : Role :=
  {| role_Name := "primaza:svc:manager"; role_Namespace := "system";
     role_Rules :=
       [rule ["primaza.io"] ["serviceclasses"; "registeredservices"]
             ["create"; "delete"; "deletecollection"; "get"; "list"; "patch"; "update"; "watch"] [];
        rule ["primaza.io"] ["serviceclasses/status"] ["get"; "patch"; "update"] [];
        rule [""] ["secrets"] ["create"; "delete"; "update"; "get"; "list"; "watch"] [];
        rule ["apps"] ["deployments"] ["get"; "list"; "watch"] [];
        rule ["apps"] ["deployments"; "deployments/finalizers"] ["update"] ["primaza-svc-agent"]] |}.
Definition svc_leader_election_role : Role :=
  {| role_Name := "primaza:svc:leader-election"; role_Namespace := "system";
     role_Rules := rule [""] ["configmaps"]
       ["get"; "list"; "watch"; "create"; "update"; "patch"; "delete"] [] :: lease_rules |}.

(** A decoder that knows the manifests by their paths. *)
#[local] Instance decoder : RoleLib :=
  {| yaml_Unmarshal := λ content role,
       if ⟪ content = "app/manager" ⟫ then app_manager_role
       else if ⟪ content = "app/leader" ⟫ then app_leader_election_role
       else if ⟪ content = "svc/manager" ⟫ then svc_manager_role
       else if ⟪ content = "svc/leader" ⟫ then svc_leader_election_role
       else role |}.

Definition answer (c : GCall) (w : string) : GAnswer c * string :=
  match c return GAnswer c * string with
  | GReadFile path => ((path, None), w)
  | GWriteFile _ data => (None, data)
  end.

(** The lists of [Authz.v] are those the shipped roles give. *)
Example app_list_is_shipped :
  read_permission_list (run answer (main ["permissionlist"; "App"; "pkg/authz/"; "app/manager"; "app/leader"]) "").2
  = Some ("AppPermissionList", AppPermissionList).
Proof. vm_compute. reflexivity. Qed.
Example svc_list_is_shipped :
  read_permission_list (run answer (main ["permissionlist"; "Svc"; "pkg/authz/"; "svc/manager"; "svc/leader"]) "").2
  = Some ("SvcPermissionList", SvcPermissionList).
Proof. vm_compute. reflexivity. Qed.
Example app_list_path :
  last (run answer (main ["permissionlist"; "App"; "pkg/authz/"]) "").1.1
  = Some (GEv (GWriteFile "pkg/authz/permission_list_app.go" (header "App" +++ "}" +++ nl)) None).
Proof. vm_compute. reflexivity. Qed.

(** A quote in a name breaks the generated file. *)
Example quote_is_unreadable :
  read_permission_list (list_text "App"
    [{| role_Name := String quote EmptyString; role_Namespace := ""; role_Rules := [rule [] [] [] []] |}]) = None.
Proof. vm_compute. reflexivity. Qed.
End Example.
