(* ===== verification/WorkerCluster.v ===== *)
(** * Reaching the worker clusters

    pkg/primaza/clustercontext (the cluster context secret, the REST configuration
    it holds and the client made from it) and pkg/primaza/workercluster (the
    connection test, and pushing and deleting the agents).  The YAML decoder and
    the kubeconfig loader are parameters.  A [kubernetes.Clientset] is the client
    of its configuration. *)

From S2P Require Import Prelude Prog GoErr GoStr Json Types Kube.

#[local] Open Scope string_scope.
#[local] Open Scope list_scope.
#[local] Open Scope primaza_scope.

(** pkg/primaza/constants/labels.go *)
Definition PrimazaTenantLabel : string := "primaza.io/tenant".
Definition PrimazaClusterEnvironmentLabel : string := "primaza.io/cluster-environment".
Definition PrimazaNamespaceTypeLabel : string := "primaza.io/namespace-type".
Definition PrimazaNamespaceLabel : string := "primaza.io/namespace".

(** pkg/primaza/constants/constants.go *)
Definition ServiceAgentDeploymentName : string := "primaza-svc-agent".
Definition ApplicationAgentDeploymentName : string := "primaza-app-agent".
Definition NoMatchingServiceFoundReason : string := "NoMatchingServiceFound".
Definition ValidationErrorReason : string := "ValidationError".
Definition BoundRegisteredServiceNameAnnotation : string := "primaza.io/registered-service-name".
Definition BoundRegisteredServiceUIDAnnotation : string := "primaza.io/registered-service-uid".

(** controllers/clusterenvironment_controller.go; the service class controller uses it too *)
Definition clusterEnvironmentFinalizer : string := "clusterenvironment.primaza.io/finalizer".

(** client-go's clientcmd *)
Class KubeconfigLib := { RESTConfigFromKubeConfig : string → result RestConfig }.

(** sigs.k8s.io/yaml at the two types the agents' manifests have *)
Class ManifestLib := {
  yaml_Deployment : string → result Deployment;
  yaml_ConfigMap : string → result ConfigMap }.

(** ** pkg/primaza/clustercontext *)

Module ClusterContext.
Section ClusterContext.
  Context `{KubeconfigLib}.

Definition ErrSecretNotFound : string := "Cluster Context Secret not found".

Definition getSecret (cli : Client) (secretNamespace secretName : string) : M (result Secret) :=
  s ← api (CGet cli KSecret {| nn_Namespace := secretNamespace; nn_Name := secretName |});
  match s with
  | Err err =>
      if IsNotFound (Some err) then mret (Err (EJoin [ESentinel ErrSecretNotFound; err]))
      else mret (Err err)
  | Ok s => mret (Ok s)
  end.

(** [secret.Data["kubeconfig"]] is nil, hence empty, when the key is missing. *)
Definition ExtractClusterRESTConfig (secret : Secret) : result RestConfig :=
  RESTConfigFromKubeConfig (default "" (sec_Data secret !! "kubeconfig")).

Definition GetClusterRESTConfig (cli : Client) (secretNamespace secretName : string)
    : M (result RestConfig) :=
  let! s := getSecret cli secretNamespace secretName ;;
  mret (ExtractClusterRESTConfig s).

Definition CreateClient (primazaCli : Client) (ce : ClusterEnvironment) : M (result Client) :=
  let! cfg := GetClusterRESTConfig primazaCli (om_Namespace (ce_meta ce))
                (ces_ClusterContextSecret (ce_Spec ce)) ;;
  do! api (CNewClient cfg) ;;
  mret (Ok (ForConfig cfg)).

Definition GetClusterContextSecret (cli : Client) (ce : ClusterEnvironment) : M (result Secret) :=
  getSecret cli (om_Namespace (ce_meta ce)) (ces_ClusterContextSecret (ce_Spec ce)).
End ClusterContext.
End ClusterContext.

(** ** pkg/primaza/workercluster/connection.go *)

Definition ConnectionSuccessful : string := "ConnectionSuccessful".
Definition ConnectionError : string := "ConnectionError".
Definition ClientCreationError : string := "ClientCreationError".

Record ConnectionStatus := { cs_State : string; cs_Reason : string; cs_Message : string }.

Definition TestConnection (cfg : RestConfig) : M ConnectionStatus :=
  err ← api (CNewClientset cfg);
  match err with
  | Some err =>
      mret {| cs_State := ClusterEnvironmentStateOffline; cs_Reason := ClientCreationError;
              cs_Message := "error creating the client: " +++ err_msg err |}
  | None =>
      v ← api (CServerVersion cfg);
      match v with
      | Err err =>
          mret {| cs_State := ClusterEnvironmentStateOffline; cs_Reason := ConnectionError;
                  cs_Message := "error connecting to target cluster: " +++ err_msg err |}
      | Ok v =>
          mret {| cs_State := ClusterEnvironmentStateOnline; cs_Reason := ConnectionSuccessful;
                  cs_Message := "successfully connected to target cluster: kubernetes version found "
                                +++ v |}
      end
  end.

Definition GetPrimazaKubeconfig : M (result (RestConfig * string)) :=
  let! config := api (CBuildConfigFromFlags "/etc/primaza/kubeconfig") ;;
  let! nm := api (CReadFile "/etc/primaza/namespace") ;;
  mret (Ok (config, nm)).

(** [ConnectionStatus.Condition] *)
Definition ConnectionStatus_Condition (c : ConnectionStatus) : Condition :=
  let status := if ⟪ cs_State c = ClusterEnvironmentStateOnline ⟫ then ConditionTrue
                else ConditionFalse in
  {| c_Type := "Online"; c_Status := status; c_ObservedGeneration := 0;
     c_LastTransitionTime := 0; c_Reason := cs_Reason c; c_Message := cs_Message c |}.

(** ** pkg/primaza/workercluster/agents.go *)

Section Agents.
  Context `{ManifestLib}.

(** [fmt.Errorf("error deleting ... '%s/%s': %w", ...)] *)
Definition deleting_error (what namespace name : string) (err : gerr) : gerr :=
  EWrap ("error deleting " +++ what +++ " '" +++ namespace +++ "/" +++ name +++ "': ") err.

Definition DeleteAgent (cli : Client) (namespace deploymentName configMapName : string)
    : M (option gerr) :=
  derr ← api (CDelete cli KDeployment {| nn_Namespace := namespace; nn_Name := deploymentName |});
  cerr ← api (CDelete cli KConfigMap {| nn_Namespace := namespace; nn_Name := configMapName |});
  let keep what name err :=
    match err with
    | Some e => if negb (IsNotFound (Some e)) then Some (deleting_error what namespace name e)
                else None
    | None => None
    end in
  mret (errors_join [keep "deployment" deploymentName derr; keep "configmap" configMapName cerr]).

(** [cm.Data[k] = v] panics on a nil map, [cm.Labels] is made when nil. *)
Definition createAgentConfigMap (cli : Client) (namespace ceName configMapManifest strategy : string)
    : M (option gerr) :=
  match yaml_ConfigMap configMapManifest with
  | Err err => mret (Some (EWrap "unmarshal deployment error: " err))
  | Ok cm =>
      let labels := default ∅ (om_Labels (cm_meta cm)) in
      let meta := om_set_Labels (om_set_Namespace (cm_meta cm) namespace)
                    (Some (<[PrimazaClusterEnvironmentLabel := ceName]> labels)) in
      match gomap_set (cm_Data cm) "synchronization-strategy" strategy with
      | None => panic nil_map_write
      | Some data =>
          r ← api (CCreate cli KConfigMap {| cm_meta := meta; cm_Data := data |});
          match r with
          | Err err => mret (Some (EWrap "error creating deployment: " err))
          | Ok _ => mret None
          end
      end
  end.

(** The container list is indexed at 0 and the two label maps are written: each
    panics when it is not there. *)
Definition createAgentDeployment (cli : Client) (namespace ceName agentManifest image : string)
    : M (option gerr) :=
  match yaml_Deployment agentManifest with
  | Err err => mret (Some (EWrap "unmarshal deployment error: " err))
  | Ok dep =>
      match dep_Images dep with
      | [] => panic "index out of range [0] with length 0"
      | _ :: images =>
          match gomap_set (om_Labels (dep_meta dep)) PrimazaClusterEnvironmentLabel ceName with
          | None => panic nil_map_write
          | Some labels =>
              match gomap_set (dep_TemplateLabels dep) PrimazaClusterEnvironmentLabel ceName with
              | None => panic nil_map_write
              | Some tlabels =>
                  let meta := om_set_Labels (om_set_Namespace (dep_meta dep) namespace) labels in
                  r ← api (CCreate cli KDeployment
                             {| dep_meta := meta; dep_TemplateLabels := tlabels;
                                dep_Images := image :: images |});
                  match r with
                  | Err err => mret (Some (EWrap "error creating deployment: " err))
                  | Ok _ => mret None
                  end
              end
          end
      end
  end.

Definition PushAgent (cli : Client) (namespace ceName agentManifest image configManifest strategy : string)
    : M (option gerr) :=
  derr ← createAgentDeployment cli namespace ceName agentManifest image;
  cerr ← createAgentConfigMap cli namespace ceName configManifest strategy;
  let keep err := if IsAlreadyExists err then None else err in
  mret (errors_join [keep derr; keep cerr]).
End Agents.

(** ** Properties *)

(** The configuration [cfg] is the one in the cluster context secret of [ce], as the
    trace read it. *)
Definition env_config `{KubeconfigLib} (ce : ClusterEnvironment) (cfg : RestConfig) (t : list kevent) : Prop :=
  ∃ s, KEv (CGet Manager KSecret {| nn_Namespace := om_Namespace (ce_meta ce);
                                    nn_Name := ces_ClusterContextSecret (ce_Spec ce) |}) (Ok s) ∈ t ∧
       ClusterContext.ExtractClusterRESTConfig s = Ok cfg.

Lemma env_config_mono `{KubeconfigLib} ce cfg t t' :
  (∀ e, e ∈ t → e ∈ t') → env_config ce cfg t → env_config ce cfg t'.
Proof. intros Hsub (s & Hs & Hc). exists s. auto. Qed.

(** Only reads are made, and the configuration is the environment's. *)
Lemma wp_GetClusterRESTConfig `{KubeconfigLib} ce :
  kwp (ClusterContext.GetClusterRESTConfig Manager (om_Namespace (ce_meta ce))
         (ces_ClusterContextSecret (ce_Spec ce)))
    (λ t out, Forall (λ ev : kevent, ¬ is_write (projT1 ev)) t ∧
       ∀ cfg, out = Done (Ok cfg) → env_config ce cfg t).
Proof.
  unfold ClusterContext.GetClusterRESTConfig, ClusterContext.getSecret.
  wflow. wcall s Hs. cbv beta. destruct s as [s|e]; wflow.
  - split; [each_event; not_event|]. intros cfg [= Hcfg]. exists s. split; [set_solver|done].
  - split; [each_event; not_event|done].
  - split; [each_event; not_event|done].
Qed.

Lemma wp_CreateClient `{KubeconfigLib} ce :
  kwp (ClusterContext.CreateClient Manager ce)
    (λ t out, Forall (λ ev : kevent, ¬ is_write (projT1 ev)) t ∧
       ∀ cli, out = Done (Ok cli) → ∃ cfg, cli = ForConfig cfg ∧ env_config ce cfg t).
Proof.
  unfold ClusterContext.CreateClient.
  eapply (wp_bind_spec legal); [apply wp_GetClusterRESTConfig| |].
  - intros t [cfg|e] [Ht Hcfg].
    + wcall r Hr. cbv beta. wflow; (split; [by apply Forall_app_cons; [done|not_event|constructor]|]); [done|].
      intros cli [= <-]. exists cfg. split; [done|]. eapply env_config_mono; [|by apply Hcfg]. set_solver.
    + wflow. rewrite app_nil_r. split; [done|done].
  - intros t h [Ht _]. by split.
Qed.

(** The creation an event attempts: its client and kind, the key, and whether the
    object is there afterwards (created now, or already existing). *)
Record creation := {
  cr_client : Client; cr_kind : Kind; cr_key : NamespacedName; cr_there : bool }.

Definition creation_of (ev : kevent) : option creation :=
  match ev with
  | existT c r =>
      match c return Answer c → option creation with
      | CCreate cl k o => λ r,
          Some {| cr_client := cl; cr_kind := k; cr_key := ObjectKeyFromObject o;
                  cr_there := match result_err r with
                              | None => true
                              | Some e => IsAlreadyExists (Some e)
                              end |}
      | _ => λ _, None
      end r
  end.

Section AgentsProperties.
  Context `{ManifestLib}.

(** Every step of pushing an agent is a creation in the target namespace. *)
Definition creates_in (cli : Client) (ns : string) (ev : kevent) : Prop :=
  match creation_of ev with
  | Some c => cr_client c = cli ∧ nn_Namespace (cr_key c) = ns ∧
              cr_kind c ∈ [KDeployment; KConfigMap]
  | None => False
  end.

Definition all_there (t : list kevent) : Prop :=
  Forall (λ ev, match creation_of ev with Some c => cr_there c = true | None => True end) t.

Definition push_step (cli : Client) (ns : string) (t : list kevent) (out : outcome (option gerr)) : Prop :=
  Forall (creates_in cli ns) t ∧
  match out with
  | Done None => length t = 1 ∧ all_there t
  | Done (Some e) => IsAlreadyExists (Some e) = true → all_there t
  | Halted _ => True
  end.

Lemma wp_createAgentDeployment cli ns ce m img :
  kwp (createAgentDeployment cli ns ce m img) (push_step cli ns).
Proof.
  unfold createAgentDeployment. wflow; try by (split; [constructor|first [done|intros _; constructor]]).
  wcall r Hr. cbv beta. destruct r as [x|e]; wflow.
  - split; [repeat constructor; set_solver|]. split; [done|by repeat constructor].
  - split; [repeat constructor; set_solver|].
    change (IsAlreadyExists (Some (EWrap _ e))) with (IsAlreadyExists (Some e)).
    intros He. by repeat constructor.
Qed.

Lemma wp_createAgentConfigMap cli ns ce m strategy :
  kwp (createAgentConfigMap cli ns ce m strategy) (push_step cli ns).
Proof.
  unfold createAgentConfigMap. wflow; try by (split; [constructor|first [done|intros _; constructor]]).
  wcall r Hr. cbv beta. destruct r as [x|e]; wflow.
  - split; [repeat constructor; set_solver|]. split; [done|by repeat constructor].
  - split; [repeat constructor; set_solver|].
    change (IsAlreadyExists (Some (EWrap _ e))) with (IsAlreadyExists (Some e)).
    intros He. by repeat constructor.
Qed.

(** Pushing an agent only creates a deployment and a config map in the target
    namespace, and returns nil only when nothing it tried to create is missing. *)
Lemma wp_PushAgent cli ns ce m img c strategy :
  kwp (PushAgent cli ns ce m img c strategy) (λ t out,
    Forall (creates_in cli ns) t ∧ (out = Done None → all_there t)).
Proof.
  unfold PushAgent. eapply (wp_bind_spec legal); [apply wp_createAgentDeployment| |].
  2: { intros t h [? _]. by split. }
  intros t derr [Ht Hd]. eapply (wp_bind_spec legal); [apply wp_createAgentConfigMap| |].
  2: { intros t' h [? _]. split; [by apply Forall_app|done]. }
  intros t' cerr [Ht' Hc]. wflow. rewrite app_nil_r. split; [by apply Forall_app|].
  intros [= Hj]. apply errors_join_None in Hj.
  apply Forall_cons in Hj as [Hj1 [Hj2 _]%Forall_cons]. apply Forall_app.
  destruct derr as [de|], cerr as [ce'|];
    repeat match goal with H : context [IsAlreadyExists ?e] |- _ => destruct (IsAlreadyExists e) end;
    naive_solver.
Qed.
End AgentsProperties.

(** The answer to a version request, if the event is one. *)
Definition version_answer (ev : kevent) : option (result string) :=
  match ev with
  | existT c r =>
      match c return Answer c → option (result string) with
      | CServerVersion _ => λ r, Some r
      | _ => λ _, None
      end r
  end.

Lemma wp_TestConnection cfg :
  kwp (TestConnection cfg) (λ t out, ∃ s, out = Done s ∧
    (cs_State s = ClusterEnvironmentStateOnline ↔ ∃ v, omap version_answer t = [Ok v]) ∧
    (cs_State s = ClusterEnvironmentStateOnline ∨ cs_State s = ClusterEnvironmentStateOffline) ∧
    (cs_Reason s = ConnectionSuccessful →
       cs_State s = ClusterEnvironmentStateOnline ∧ ∃ v, KEv (CServerVersion cfg) (Ok v) ∈ t) ∧
    Forall (λ ev : kevent, ¬ is_write (projT1 ev)) t).
Proof.
  unfold TestConnection. wnext; [|wnext]; eexists; (split; [done|]); simpl.
  all: split; [split; [eauto; done|intros [v Hv]; done]|].
  all: split; [auto|]; split; [|each_event; not_event].
  - done.
  - intros _. split; [done|]. eexists. right. left.
  - done.
Qed.

(** A worker cluster is found online exactly when its API server answered the
    version request, offline otherwise, and the condition published for it says so. *)
Theorem TestConnection_online cfg :
  kwp (TestConnection cfg) (λ t out, ∃ s, out = Done s ∧
    (cs_State s = ClusterEnvironmentStateOnline ↔ ∃ v, omap version_answer t = [Ok v]) ∧
    (cs_State s = ClusterEnvironmentStateOnline ∨ cs_State s = ClusterEnvironmentStateOffline) ∧
    c_Status (ConnectionStatus_Condition s) =
      (if ⟪ cs_State s = ClusterEnvironmentStateOnline ⟫ then ConditionTrue else ConditionFalse)).
Proof.
  eapply wp_mono; [apply wp_TestConnection|]. intros t out (s & -> & Hs & Hor & _ & _). eauto 10.
Qed.
