(* ===== verification/Namespaces.v ===== *)
(** * Binding and unbinding the namespaces of a cluster environment

    pkg/primaza/controlplane: the namespace types and roles of the agents, the
    binder and unbinder of namespaces, and the reconciler that binds the requested
    namespaces and unbinds the orphan ones.  The theorems say that one namespace's
    failure never stops the others and is reported, that an agent is only ever
    deleted from a namespace that is not requested, and that unbinding does not
    delete the role bindings that binding created. *)

From S2P Require Import Prelude Prog GoErr GoStr Json Types Kube EnvTag WorkerCluster.

#[local] Open Scope string_scope.
#[local] Open Scope list_scope.
#[local] Open Scope primaza_scope.

(** ** types.go, agents.go, labels.go *)

Definition ServiceNamespaceType : string := "service".
Definition ApplicationNamespaceType : string := "application".

Definition Short (t : string) : string :=
  if ⟪ t = ServiceNamespaceType ⟫ then "svc"
  else if ⟪ t = ApplicationNamespaceType ⟫ then "app"
  else "".

Definition agentRoles : gmap string (list string) :=
  <[ServiceNamespaceType := ["primaza-reporter"]]>
    (<[ApplicationNamespaceType := ["primaza-claimer"]]> ∅).

Definition getAgentRoleNames (agentKind : string) : list string :=
  default [] (agentRoles !! agentKind).

Definition bakeRoleBindingName (role ceName namespace : string) : string :=
  let tr := TrimPrefix role "primaza:" in
  tr +++ "-" +++ ceName +++ "-" +++ namespace.

Definition bakeRoleBindingsLabels (ceName tenant namespace namespaceType : string)
    : gmap string string :=
  <["app" := "primaza"]>
    (<[PrimazaTenantLabel := tenant]>
       (<[PrimazaClusterEnvironmentLabel := ceName]>
          (<[PrimazaNamespaceTypeLabel := namespaceType]>
             (<[PrimazaNamespaceLabel := namespace]> ∅)))).

(** k8s.io/apimachinery/pkg/labels: the error of [NewRequirement] on a key and the
    value it must equal. *)
Class LabelLib := { NewRequirement_err : string → string → option gerr }.

(** The selector as its equality requirements; an invalid one is a panic. *)
Definition getRoleBindingsLabelSelectorOrDie `{LabelLib} (ceName namespaceType : string)
    : M (list (string * string)) :=
  for_each [("app", "primaza"); (PrimazaClusterEnvironmentLabel, ceName);
            (PrimazaNamespaceTypeLabel, namespaceType)] []
    (λ kv sel,
       match NewRequirement_err kv.1 kv.2 with
       | Some err => panic (err_msg err)
       | None => mret (sel ++ [kv])
       end).

(** ** namespaces_binder.go *)

Record namespacesBinder := {
  nb_pcli : Client; nb_wcli : Client; nb_kind : string;
  nb_agentManifest : string; nb_agentImage : string; nb_agentConfig : string;
  nb_strategy : string }.

Definition NewApplicationNamespacesBinder (primazaClient workerClient : Client)
    (agentManifest agentImage agentConfig strategy : string) : namespacesBinder :=
  {| nb_pcli := primazaClient; nb_wcli := workerClient; nb_kind := ApplicationNamespaceType;
     nb_agentManifest := agentManifest; nb_agentImage := agentImage;
     nb_agentConfig := agentConfig; nb_strategy := strategy |}.
Definition NewServiceNamespacesBinder (primazaClient workerClient : Client)
    (agentManifest agentImage agentConfig strategy : string) : namespacesBinder :=
  {| nb_pcli := primazaClient; nb_wcli := workerClient; nb_kind := ServiceNamespaceType;
     nb_agentManifest := agentManifest; nb_agentImage := agentImage;
     nb_agentConfig := agentConfig; nb_strategy := strategy |}.

Definition bakeServiceAccountName (b : namespacesBinder) (ceName namespace : string) : string :=
  "primaza-" +++ Short (nb_kind b) +++ "-" +++ ceName +++ "-" +++ namespace.

(** The role binding [createRoleBinding] creates. *)
Definition agent_role_binding (b : namespacesBinder) (ceName ceNamespace namespace role : string)
    : RoleBinding :=
  let n := bakeRoleBindingName role ceName namespace in
  let sa := bakeServiceAccountName b ceName namespace in
  {| rb_meta := om_set_Labels (named n ceNamespace)
                  (Some (bakeRoleBindingsLabels ceName ceNamespace namespace (nb_kind b)));
     rb_RoleRef := {| rr_APIGroup := "rbac.authorization.k8s.io"; rr_Kind := "Role";
                      rr_Name := role |};
     rb_Subjects := [{| subj_APIGroup := ""; subj_Kind := "ServiceAccount"; subj_Name := sa |}] |}.

Definition createRoleBinding (b : namespacesBinder) (ceName ceNamespace namespace role : string)
    : M (option gerr) :=
  r ← api (CCreate (nb_pcli b) KRoleBinding
             (agent_role_binding b ceName ceNamespace namespace role));
  match result_err r with
  | Some err => if negb (IsAlreadyExists (Some err)) then mret (Some err) else mret None
  | None => mret None
  end.

Definition createRoleBindings (b : namespacesBinder) (ceName ceNamespace namespace : string)
    : M (option gerr) :=
  let rr := getAgentRoleNames (nb_kind b) in
  errs ← for_each rr [] (λ r errs,
           err ← createRoleBinding b ceName ceNamespace namespace r;
           mret (match err with Some e => errs ++ [Some e] | None => errs end));
  mret (errors_join errs).

(** One pass over namespaces that collects those whose treatment fails: the loops
    of [BindNamespaces] and [UnbindNamespaces]. *)
Definition collect_failing (f : string → M (option gerr)) (namespaces : list string)
    : M (list string) :=
  for_each namespaces [] (λ ns ens,
    err ← f ns;
    mret (match err with Some _ => ens ++ [ns] | None => ens end)).

Section Binding.
  Context `{ManifestLib}.

Definition bindNamespace (b : namespacesBinder) (ceName ceNamespace namespace : string)
    : M (option gerr) :=
  do! createRoleBindings b ceName ceNamespace namespace ;;
  do! PushAgent (nb_wcli b) namespace ceName (nb_agentManifest b) (nb_agentImage b)
        (nb_agentConfig b) (nb_strategy b) ;;
  mret None.

Definition BindNamespaces (b : namespacesBinder) (ceName ceNamespace : string)
    (namespaces : list string) : M (option gerr) :=
  ens ← collect_failing (bindNamespace b ceName ceNamespace) namespaces;
  if negb ⟪ length ens = 0%nat ⟫ then
    mret (Some (ENew ("error binding namespaces: " +++ sprint_strings ens)))
  else mret None.

(** ** namespaces_unbinder.go *)

Record namespacesUnbinder := {
  nu_pcli : Client; nu_wcli : Client; nu_kind : string;
  nu_deploymentManifest : string; nu_configMapManifest : string }.

Definition NewApplicationNamespacesUnbinder (primazaClient workerClient : Client)
    (deploymentManifest configMapManifest : string) : namespacesUnbinder :=
  {| nu_pcli := primazaClient; nu_wcli := workerClient; nu_kind := ApplicationNamespaceType;
     nu_deploymentManifest := deploymentManifest; nu_configMapManifest := configMapManifest |}.
Definition NewServiceNamespacesUnbinder (primazaClient workerClient : Client)
    (deploymentManifest configMapManifest : string) : namespacesUnbinder :=
  {| nu_pcli := primazaClient; nu_wcli := workerClient; nu_kind := ServiceNamespaceType;
     nu_deploymentManifest := deploymentManifest; nu_configMapManifest := configMapManifest |}.

Definition getDeploymentName (u : namespacesUnbinder) : result string :=
  match yaml_Deployment (nu_deploymentManifest u) with
  | Err err => Err (EWrap "unmarshal deployment error: " err)
  | Ok dep => Ok (om_Name (dep_meta dep))
  end.

Definition getConfigMapName (u : namespacesUnbinder) : result string :=
  match yaml_ConfigMap (nu_configMapManifest u) with
  | Err err => Err (EWrap "unmarshal deployment error: " err)
  | Ok cm => Ok (om_Name (cm_meta cm))
  end.

Definition getRoleBindingName (ceName namespace : string) : string :=
  "primaza-" +++ ceName +++ "-" +++ namespace.

Definition deleteRoleBinding (u : namespacesUnbinder) (ceName ceNamespace namespace : string)
    : M (option gerr) :=
  let n := getRoleBindingName ceName namespace in
  err ← api (CDelete (nu_pcli u) KRoleBinding {| nn_Namespace := ceNamespace; nn_Name := n |});
  match err with
  | Some e => if negb (IsAlreadyExists (Some e)) then mret (Some e) else mret None
  | None => mret None
  end.

(** A "not found" of either step is not an error. *)
Definition ignoring_not_found (err : option gerr) (k : M (option gerr)) : M (option gerr) :=
  match err with
  | Some e => if negb (IsNotFound (Some e)) then mret (Some e) else k
  | None => k
  end.

Definition unbindNamespace (u : namespacesUnbinder) (ceName ceNamespace namespace : string)
    : M (option gerr) :=
  rerr ← deleteRoleBinding u ceName ceNamespace namespace;
  ignoring_not_found rerr
    match getDeploymentName u with
    | Err err => mret (Some err)
    | Ok d =>
        match getConfigMapName u with
        | Err err => mret (Some err)
        | Ok c =>
            derr ← DeleteAgent (nu_wcli u) namespace d c;
            ignoring_not_found derr (mret None)
        end
    end.

Definition UnbindNamespaces (u : namespacesUnbinder) (ceName ceNamespace : string)
    (namespaces : list string) : M (option gerr) :=
  ens ← collect_failing (unbindNamespace u ceName ceNamespace) namespaces;
  if negb ⟪ length ens = 0%nat ⟫ then
    mret (Some (ENew ("error unbinding namespaces: " +++ sprint_strings ens)))
  else mret None.
End Binding.

(** ** namespaces_reconciler.go and kubernetes_clients.go *)

Definition getInClusterClient : M (result Client) :=
  let! cfg := api CInClusterConfig ;;
  err ← api (CNewClient cfg);
  mret (match err with Some e => Err e | None => Ok (ForConfig cfg) end).

Record ClusterEnvironmentState := {
  st_Name : string; st_Namespace : string; st_ClusterConfig : RestConfig;
  st_ApplicationNamespaces : list string; st_ServiceNamespaces : list string;
  st_AppAgentImage : string; st_SvcAgentImage : string;
  st_AppAgentManifest : string; st_SvcAgentManifest : string;
  st_AppAgentConfigManifest : string; st_SvcAgentConfigManifest : string;
  st_Strategy : string }.

Record namespacesReconciler := {
  nr_pcli : Client; nr_env : ClusterEnvironmentState;
  nr_appBinder : namespacesBinder; nr_svcBinder : namespacesBinder;
  nr_appUnbinder : namespacesUnbinder; nr_svcUnbinder : namespacesUnbinder }.

Definition NewNamespaceReconciler (e : ClusterEnvironmentState)
    : M (result namespacesReconciler) :=
  let! cli := getInClusterClient ;;
  do! api (CNewClientset (st_ClusterConfig e)) ;;
  let wcli := ForConfig (st_ClusterConfig e) in
  mret (Ok {|
    nr_pcli := cli; nr_env := e;
    nr_appBinder := NewApplicationNamespacesBinder cli wcli (st_AppAgentManifest e)
      (st_AppAgentImage e) (st_AppAgentConfigManifest e) (st_Strategy e);
    nr_appUnbinder := NewApplicationNamespacesUnbinder cli wcli (st_AppAgentManifest e)
      (st_AppAgentConfigManifest e);
    nr_svcBinder := NewServiceNamespacesBinder cli wcli (st_SvcAgentManifest e)
      (st_SvcAgentImage e) (st_SvcAgentConfigManifest e) (st_Strategy e);
    nr_svcUnbinder := NewServiceNamespacesUnbinder cli wcli (st_SvcAgentManifest e)
      (st_SvcAgentConfigManifest e) |}).

Section Reconciler.
  Context `{ManifestLib} `{LabelLib}.

(** The namespaces named by the labels of role bindings; unlabelled ones are skipped. *)
Definition labelled_namespaces (items : list RoleBinding) : list string :=
  omap (λ rb, gomap_lookup (om_Labels (rb_meta rb)) PrimazaNamespaceLabel) items.

Definition getAuthorizedNamespaces (r : namespacesReconciler) (ceName namespaceType : string)
    : M (result (list string)) :=
  ls ← getRoleBindingsLabelSelectorOrDie ceName namespaceType;
  let! items := api (CList (nr_pcli r) KRoleBinding
                       {| lo_Namespace := st_Namespace (nr_env r); lo_Labels := ls |}) ;;
  mret (Ok (labelled_namespaces items)).

Definition getOrphanNamespaces (r : namespacesReconciler) (ceName namespaceType : string)
    (requestedNamespaces : list string) : M (result (list string)) :=
  let! ann := getAuthorizedNamespaces r (st_Name (nr_env r)) namespaceType ;;
  nn ← Subtract ann requestedNamespaces;
  mret (Ok nn).

Definition unbindOrphanNamespacesForType (r : namespacesReconciler) (ub : namespacesUnbinder)
    (namespaceType : string) (namespaces : list string) : M (option gerr) :=
  let! nn := getOrphanNamespaces r (st_Name (nr_env r)) namespaceType namespaces ;;
  UnbindNamespaces ub (st_Name (nr_env r)) (st_Namespace (nr_env r)) nn.

Definition unbindOrphanNamespaces (r : namespacesReconciler) : M (option gerr) :=
  aerr ← unbindOrphanNamespacesForType r (nr_appUnbinder r) ApplicationNamespaceType
           (st_ApplicationNamespaces (nr_env r));
  serr ← unbindOrphanNamespacesForType r (nr_svcUnbinder r) ServiceNamespaceType
           (st_ServiceNamespaces (nr_env r));
  mret (errors_join [aerr; serr]).

Definition bindNamespaces (r : namespacesReconciler) : M (option gerr) :=
  aerr ← BindNamespaces (nr_appBinder r) (st_Name (nr_env r)) (st_Namespace (nr_env r))
           (st_ApplicationNamespaces (nr_env r));
  serr ← BindNamespaces (nr_svcBinder r) (st_Name (nr_env r)) (st_Namespace (nr_env r))
           (st_ServiceNamespaces (nr_env r));
  mret (errors_join [aerr; serr]).

Definition ReconcileNamespaces (r : namespacesReconciler) : M (option gerr) :=
  berr ← bindNamespaces r;
  uerr ← unbindOrphanNamespaces r;
  mret (errors_join (filter (λ e, is_Some e) [berr; uerr])).
End Reconciler.

(** ** Properties *)

(** How the treatment of one namespace went: its events and its error. *)
Record treatment := { tr_ns : string; tr_events : list kevent; tr_err : option gerr }.

(** The namespaces were all treated, in order, each on its own. *)
Definition treated (f : string → M (option gerr)) (nss : list string) (t : list kevent)
    (trs : list treatment) : Prop :=
  tr_ns <$> trs = nss ∧ t = concat (tr_events <$> trs) ∧
  Forall (λ r, kexec (f (tr_ns r)) (tr_events r) (Done (tr_err r))) trs.

Definition failing (trs : list treatment) : list string :=
  omap (λ r, match tr_err r with Some _ => Some (tr_ns r) | None => None end) trs.

Lemma failing_nil trs : failing trs = [] ↔ Forall (λ r, tr_err r = None) trs.
Proof.
  induction trs as [|r trs IH]; [by split|].
  rewrite Forall_cons, <- IH. unfold failing. simpl.
  destruct (tr_err r); simpl; [split; [done|by intros [? _]]|]. split; [by split|by intros [_ ?]].
Qed.

Lemma treated_cons f ns nss t t' err trs :
  kexec (f ns) t (Done err) → treated f nss t' trs →
  treated f (ns :: nss) (t ++ t') ({| tr_ns := ns; tr_events := t; tr_err := err |} :: trs).
Proof.
  intros He (<- & -> & Hf). split; [done|]. split; [done|]. by constructor.
Qed.

(** A failure, or anything short of a panic, never stops the pass. *)
Lemma wp_collect_failing f nss :
  kwp (collect_failing f nss) (λ t out,
    match out with
    | Done ens => ∃ trs, treated f nss t trs ∧ ens = failing trs
    | Halted h => ∃ ns t', ns ∈ nss ∧ kexec (f ns) t' (Halted h)
    end).
Proof.
  unfold collect_failing.
  cut (∀ acc, kwp (for_each nss acc (λ ns ens,
         err ← f ns; mret (match err with Some _ => ens ++ [ns] | None => ens end)))
       (λ t out, match out with
                 | Done ens => ∃ trs, treated f nss t trs ∧ ens = acc ++ failing trs
                 | Halted h => ∃ ns t', ns ∈ nss ∧ kexec (f ns) t' (Halted h)
                 end)).
  { intros Hc. apply Hc. }
  induction nss as [|ns nss IH]; intros acc; cbn [for_each].
  { wflow. exists []. split; [by split|]. by rewrite app_nil_r. }
  wflow. eapply (wp_bind_spec legal (λ t out, kexec (f ns) t out)); [by intros t o| |].
  - intros t err Ht. wflow. eapply wp_mono; [apply IH|]. intros t' [ens|h].
    + intros (trs & Htr & ->). eexists. split; [by apply treated_cons|].
      unfold failing. simpl. destruct err; simpl; [by rewrite <- app_assoc|done].
    + intros (ns' & t'' & Hin & Hex). exists ns', t''. split; [set_solver|done].
  - intros t h Ht. exists ns, t. split; [set_solver|done].
Qed.

(** The error the two passes return: none, or one that names the failing namespaces. *)
Lemma wp_report_failing pre trs :
  kwp (if negb ⟪ length (failing trs) = 0%nat ⟫ then
         mret (Some (ENew (pre +++ sprint_strings (failing trs))))
       else mret None)
    (λ t out, ∃ err, t = [] ∧ out = Done err ∧
       (err = None ↔ Forall (λ r, tr_err r = None) trs) ∧
       (∀ e, err = Some e → err_msg e = pre +++ sprint_strings (failing trs))).
Proof.
  case_bool_decide as Hl; simpl; wflow; eexists;
    (split; [done|]); (split; [done|]); rewrite <- failing_nil; rewrite length_zero_iff_nil in Hl.
  - by split.
  - split; [by split|]. by intros e [= <-].
Qed.

Section BindingProperties.
  Context `{ManifestLib}.

(** Binding treats every namespace of the list, whatever happens with the
    others, and its error names exactly the namespaces that could not be bound;
    there is none when all could. *)
Theorem BindNamespaces_spec b ceName ceNamespace nss :
  kwp (BindNamespaces b ceName ceNamespace nss) (λ t out,
    match out with
    | Done err => ∃ trs, treated (bindNamespace b ceName ceNamespace) nss t trs ∧
        (err = None ↔ Forall (λ r, tr_err r = None) trs) ∧
        (∀ e, err = Some e →
           err_msg e = "error binding namespaces: " +++ sprint_strings (failing trs))
    | Halted h => ∃ ns t', ns ∈ nss ∧
        kexec (bindNamespace b ceName ceNamespace ns) t' (Halted h)
    end).
Proof.
  unfold BindNamespaces. eapply (wp_bind_spec legal); [apply wp_collect_failing| |done].
  intros t ens (trs & Htr & ->). eapply wp_mono; [apply wp_report_failing|].
  intros t' out (err & -> & -> & ?). exists trs. by rewrite app_nil_r.
Qed.

(** Unbinding cannot panic. *)
Lemma wp_unbindNamespace_total u ceName ceNamespace ns :
  kwp (unbindNamespace u ceName ceNamespace ns) (λ t out, ∃ err, out = Done err).
Proof.
  unfold unbindNamespace, deleteRoleBinding, ignoring_not_found, DeleteAgent.
  wflow. wnext; try eauto; repeat wnext; eauto.
Qed.

(** C37: unbinding always returns, having treated every namespace of the list, and
    its error names exactly the namespaces that could not be unbound. *)
Theorem UnbindNamespaces_spec u ceName ceNamespace nss :
  kwp (UnbindNamespaces u ceName ceNamespace nss) (λ t out,
    ∃ err trs, out = Done err ∧ treated (unbindNamespace u ceName ceNamespace) nss t trs ∧
      (err = None ↔ Forall (λ r, tr_err r = None) trs) ∧
      (∀ e, err = Some e →
         err_msg e = "error unbinding namespaces: " +++ sprint_strings (failing trs))).
Proof.
  unfold UnbindNamespaces. eapply (wp_bind_spec legal); [apply wp_collect_failing| |].
  2: { intros t h (ns & t' & _ & Hex).
       by destruct (wp_unbindNamespace_total u ceName ceNamespace ns _ _ Hex). }
  intros t ens (trs & Htr & ->). eapply wp_mono; [apply wp_report_failing|].
  intros t' out (err & -> & -> & ?). exists err, trs. by rewrite app_nil_r.
Qed.

(** Unbinding a namespace deletes one role binding of the tenant, the one
    [getRoleBindingName] names, and the agent's deployment and config map in the
    namespace; it makes no other call. *)
Definition unbind_event (u : namespacesUnbinder) (ceName ceNamespace ns : string) (ev : kevent) : Prop :=
  match projT1 ev with
  | CDelete cl k key =>
      (cl = nu_pcli u ∧ k = KRoleBinding ∧
       key = {| nn_Namespace := ceNamespace; nn_Name := getRoleBindingName ceName ns |}) ∨
      (cl = nu_wcli u ∧ k ∈ [KDeployment; KConfigMap] ∧ nn_Namespace key = ns)
  | _ => False
  end.

Lemma wp_unbindNamespace_events u ceName ceNamespace ns :
  kwp (unbindNamespace u ceName ceNamespace ns) (λ t _, Forall (unbind_event u ceName ceNamespace ns) t).
Proof.
  assert (Hr : ∀ r, unbind_event u ceName ceNamespace ns
     (Ev (CDelete (nu_pcli u) KRoleBinding {| nn_Namespace := ceNamespace; nn_Name := getRoleBindingName ceName ns |}) r)).
  { intros r. left. done. }
  assert (Hd : ∀ k n r, k ∈ [KDeployment; KConfigMap] → unbind_event u ceName ceNamespace ns
     (Ev (CDelete (nu_wcli u) k {| nn_Namespace := ns; nn_Name := n |}) r)).
  { intros k n r Hk. right. done. }
  unfold unbindNamespace, deleteRoleBinding, ignoring_not_found, DeleteAgent.
  wflow. repeat wnext; each_event; first [apply Hr | apply Hd; set_solver].
Qed.

(** The name unbinding deletes is never the name binding created. *)
Lemma getRoleBindingName_mismatch kind role ceName ns :
  role ∈ getAgentRoleNames kind → bakeRoleBindingName role ceName ns ≠ getRoleBindingName ceName ns.
Proof.
  unfold getAgentRoleNames, agentRoles. intros Hrole Heq.
  apply (f_equal String.length) in Heq. revert Heq.
  unfold bakeRoleBindingName, getRoleBindingName. rewrite !append_length.
  assert (role = "primaza-reporter" ∨ role = "primaza-claimer") as [-> | ->].
  { destruct (decide (kind = ServiceNamespaceType)) as [->|Hs].
    { rewrite lookup_insert_eq in Hrole. set_solver. }
    rewrite lookup_insert_ne in Hrole by done.
    destruct (decide (kind = ApplicationNamespaceType)) as [->|Ha].
    { rewrite lookup_insert_eq in Hrole. set_solver. }
    rewrite lookup_insert_ne, lookup_empty in Hrole by done. set_solver. }
  all: simpl; lia.
Qed.

(** Unbinding a namespace deletes none of the role bindings that binding the
    same namespace creates: the role bindings, and with them the agent's rights in
    the control plane, stay behind. *)
Theorem unbindNamespace_keeps_role_bindings u b ceName ceNamespace ns :
  kwp (unbindNamespace u ceName ceNamespace ns) (λ t _,
    Forall (λ ev, ∀ role, role ∈ getAgentRoleNames (nb_kind b) →
      ¬ on_Delete KRoleBinding (λ _ key _,
          key = ObjectKeyFromObject (k := KRoleBinding)
                  (agent_role_binding b ceName ceNamespace ns role)) ev) t).
Proof.
  eapply wp_mono; [apply wp_unbindNamespace_events|]. intros t o Ht.
  eapply Forall_impl; [exact Ht|]. intros [c r] Hev role Hrole Hdel.
  destruct c; try done. simpl in *. destruct Hdel as [<- ->].
  destruct Hev as [(_ & _ & Hk)|(_ & Hk & _)]; [|set_solver].
  apply (f_equal nn_Name) in Hk. exact (getRoleBindingName_mismatch _ role ceName ns Hrole Hk).
Qed.

Lemma treated_events f nss t trs (P : string → kevent → Prop) :
  treated f nss t trs →
  (∀ ns, ns ∈ nss → kwp (f ns) (λ t _, Forall (P ns) t)) →
  Forall (λ ev, ∃ ns, ns ∈ nss ∧ P ns ev) t.
Proof.
  intros (<- & -> & Hf) HP. apply Forall_concat, Forall_fmap, Forall_forall.
  intros r Hr. rewrite Forall_forall in Hf. specialize (Hf r Hr).
  eapply Forall_impl; [eapply HP, Hf; by apply list_elem_of_fmap_2|].
  simpl. intros ev Hev. exists (tr_ns r). split; [by apply list_elem_of_fmap_2|done].
Qed.

Lemma wp_UnbindNamespaces u ceName ceNamespace nss :
  kwp (UnbindNamespaces u ceName ceNamespace nss) (λ t out,
    Forall (λ ev, ∃ ns, ns ∈ nss ∧ unbind_event u ceName ceNamespace ns ev) t ∧
    (out = Done None → ∀ ns, ns ∈ nss → ∃ t1 t' t2, t = t1 ++ t' ++ t2 ∧
       kexec (unbindNamespace u ceName ceNamespace ns) t' (Done None))).
Proof.
  unfold UnbindNamespaces. eapply (wp_bind_spec legal); [apply wp_collect_failing| |].
  2: { intros t h (ns & t' & _ & Hex).
       by destruct (wp_unbindNamespace_total u ceName ceNamespace ns _ _ Hex). }
  intros t ens (trs & Htr & ->). eapply wp_mono; [apply wp_report_failing|].
  intros t' out (err & -> & -> & Herr & _). rewrite app_nil_r.
  split; [eapply treated_events; [done|]; intros; apply wp_unbindNamespace_events|].
  intros [= ->] ns Hns. destruct Htr as (<- & -> & Hf).
  apply list_elem_of_fmap in Hns as (r & -> & Hr).
  assert (Hn : tr_err r = None).
  { assert (Hall := proj1 Herr eq_refl). rewrite Forall_forall in Hall. by apply Hall. }
  apply list_elem_of_split in Hr as (l1 & l2 & ->).
  rewrite fmap_app, fmap_cons, concat_app. simpl. eexists _, _, _. split; [done|].
  rewrite Forall_app, Forall_cons in Hf. destruct Hf as (_ & Hf & _).
  rewrite Hn in Hf. exact Hf.
Qed.
End BindingProperties.

Section ReconcilerProperties.
  Context `{ManifestLib} `{LabelLib}.

(** The selector makes no call. *)
Lemma wp_selector ceName ty :
  kwp (getRoleBindingsLabelSelectorOrDie ceName ty) (λ t out,
    t = [] ∧ ∀ ls, out = Done ls →
      ls = [("app", "primaza"); (PrimazaClusterEnvironmentLabel, ceName);
            (PrimazaNamespaceTypeLabel, ty)]).
Proof.
  unfold getRoleBindingsLabelSelectorOrDie. cbn [for_each].
  repeat (wflow; try by (split; [done|])). split; [done|]. by intros ls [= <-].
Qed.

(** The role bindings an event lists, when it lists some successfully. *)
Definition listed_role_bindings (ev : kevent) : option (list RoleBinding) :=
  match ev with
  | existT c r =>
      match c return Answer c → option (list RoleBinding) with
      | CList _ KRoleBinding _ => λ r, match r with Ok l => Some l | Err _ => None end
      | _ => λ _, None
      end r
  end.

Lemma unbind_events_list u ceName ceNamespace (nss : list string) t :
  Forall (λ ev, ∃ ns, ns ∈ nss ∧ unbind_event u ceName ceNamespace ns ev) t →
  omap listed_role_bindings t = [].
Proof.
  induction 1 as [|[c r] t (ns & _ & He) _ IH]; [done|]. by destruct c.
Qed.

(** C29: for a namespace type, the reconciler unbinds exactly the orphans: no agent
    is deleted from a requested namespace, and when no error is returned every
    namespace that a role binding of the environment names and that is not
    requested has been unbound. *)
Theorem unbindOrphanNamespacesForType_orphans r ub ty nss :
  kwp (unbindOrphanNamespacesForType r ub ty nss) (λ t out,
    Forall (λ ev, ¬ on_Delete KDeployment (λ _ key _, nn_Namespace key ∈ nss) ev) t ∧
    (out = Done None → ∃ items, omap listed_role_bindings t = [items] ∧
       ∀ ns, ns ∈ labelled_namespaces items → ns ∉ nss →
       ∃ t1 t' t2, t = t1 ++ t' ++ t2 ∧
         kexec (unbindNamespace ub (st_Name (nr_env r)) (st_Namespace (nr_env r)) ns) t'
           (Done None))).
Proof.
  unfold unbindOrphanNamespacesForType, getOrphanNamespaces, getAuthorizedNamespaces.
  wflow. eapply (wp_bind_spec legal); [apply wp_selector| |].
  2: { intros t h [-> _]. split; [constructor|done]. }
  intros t ls [-> _]. wcall items Hitems. cbv beta. wflow.
  2: { split; [each_event; not_event|done]. }
  unfold Subtract. wcall nn Hnn. cbv beta. wflow.
  eapply wp_mono; [apply wp_UnbindNamespaces|]. cbn [app]. intros t out [Hev Hdone].
  simpl in Hnn. split.
  - apply Forall_cons_2; [not_event|]. apply Forall_cons_2; [not_event|].
    eapply Forall_impl; [exact Hev|]. intros [c ans] (ns & Hns & He) Hdel.
    destruct c; try done. destruct Hdel as [Hk Hin]. subst k.
    destruct He as [(_ & Hk & _)|(_ & _ & Hk)]; [done|]. rewrite Hk in Hin.
    rewrite <- Hnn in Hns. by apply elem_of_subtracted in Hns as [_ ?].
  - intros Hout. exists a. split; [simpl; f_equal; exact (unbind_events_list _ _ _ _ _ Hev)|].
    intros ns Hns Hreq.
    destruct (Hdone Hout ns) as (t1 & t' & t2 & -> & Hex); [by rewrite <- Hnn; apply elem_of_subtracted|].
    eexists (_ :: _ :: t1), t', t2. split; [reflexivity|done].
Qed.
End ReconcilerProperties.
