(* ===== verification/AppNamespaces.v ===== *)
(** * Pushing to and deleting from the namespaces of worker clusters

    pkg/primaza/controlplane/application_namespaces.go and serviceclasses.go:
    service bindings with their secrets, service catalogs and service classes.
    The secret of a service binding is shared by all the namespaces it is pushed
    to, so it is threaded through the pushes as the source mutates it. *)

From S2P Require Import Prelude Prog GoErr GoStr Json Types Kube WorkerCluster.

#[local] Open Scope string_scope.
#[local] Open Scope list_scope.
#[local] Open Scope primaza_scope.

(** ** application_namespaces.go: service bindings *)

(** The specification of the binding of a claim. *)
Definition binding_spec (sc : ServiceClaim) : ServiceBindingSpec :=
  {| sbs_ServiceEndpointDefinitionSecret := om_Name (sc_meta sc);
     sbs_Application := scs_Application (sc_Spec sc);
     sbs_Envs := scs_Envs (sc_Spec sc) |}.

Definition empty_sbstatus : ServiceBindingStatus :=
  {| sbst_Conditions := []; sbst_State := ""; sbst_Connections := [] |}.

(** The callback of the first [CreateOrUpdate]: annotations and specification; the
    claim's registered service is dereferenced. *)
Definition mutate_binding (sc : ServiceClaim) (sb : ServiceBinding)
    : M (ServiceBinding * option gerr) :=
  let annotations := default ∅ (om_Annotations (sb_meta sb)) in
  rs ← deref (scst_RegisteredService (sc_Status sc));
  let annotations := <[BoundRegisteredServiceUIDAnnotation := ref_UID rs]>
                       (<[BoundRegisteredServiceNameAnnotation := ref_Name rs]> annotations) in
  mret ({| sb_meta := om_set_Annotations (sb_meta sb) (Some annotations);
           sb_Spec := binding_spec sc; sb_Status := sb_Status sb |}, None).

(** The reference to the binding of a claim. *)
Definition binding_owner (sc : ServiceClaim) (sbUID : string) : OwnerReference :=
  {| or_APIVersion := "primaza.io/v1alpha1"; or_Kind := "ServiceBinding";
     or_Name := om_Name (sc_meta sc); or_UID := sbUID;
     or_Controller := None; or_BlockOwnerDeletion := None |}.

(** The owner references, namespace and data given to the shared secret. *)
Definition secret_for (secret : Secret) (namespace : string) (sc : ServiceClaim) (sbUID : string)
    : Secret :=
  {| sec_meta := om_set_Namespace
       (om_set_OwnerReferences (sec_meta secret) [binding_owner sc sbUID]) namespace;
     sec_Data := sec_Data secret; sec_StringData := sec_StringData secret |}.

Definition set_StringData (data : gmap string string) (s : Secret) : Secret :=
  {| sec_meta := sec_meta s; sec_Data := sec_Data s; sec_StringData := data |}.

(** The secret as it is left behind, and the error. *)
Definition pushServiceBindingToNamespace (cli : Client) (namespace : string) (sc : ServiceClaim)
    (secret : Secret) : M (Secret * option gerr) :=
  let sb := {| sb_meta := named (om_Name (sc_meta sc)) namespace; sb_Spec := binding_spec sc;
               sb_Status := empty_sbstatus |} in
  '(sb, op) ← CreateOrUpdate cli KServiceBinding sb (mutate_binding sc);
  match op with
  | Err err => mret (secret, Some err)
  | Ok _ =>
      got ← api (CGet cli KServiceBinding
                   {| nn_Namespace := namespace; nn_Name := om_Name (sc_meta sc) |});
      match got with
      | Err err => mret (secret, Some err)
      | Ok sb =>
          let secret := secret_for secret namespace sc (om_UID (sb_meta sb)) in
          let data := sec_StringData secret in
          '(secret, op) ← CreateOrUpdate cli KSecret secret (mutates (set_StringData data));
          mret (secret, result_err op)
      end
  end.

(** [nspace == nil || *nspace == ns] *)
Definition selected (nspace : option string) (ns : string) : bool :=
  match nspace with None => true | Some n => ⟪ n = ns ⟫ end.

Definition PushServiceBinding (sc : ServiceClaim) (secret : Secret) (nspace : option string)
    (applicationNamespaces : list string) (cfg : RestConfig) : M (Secret * option gerr) :=
  err ← api (CNewClient cfg);
  match err with
  | Some err => mret (secret, Some err)
  | None =>
      let cecli := ForConfig cfg in
      '(secret, errs) ← for_each applicationNamespaces (secret, []) (λ ns '(secret, errs),
        if selected nspace ns then
          '(secret, err) ← pushServiceBindingToNamespace cecli ns sc secret;
          mret (secret, match err with Some e => errs ++ [Some e] | None => errs end)
        else mret (secret, errs));
      mret (secret, errors_join errs)
  end.

(** ** application_namespaces.go: service catalogs and deletions *)

Definition empty_ServiceCatalogSpec : ServiceCatalogSpec :=
  {| scats_Services := []; scats_ClaimedByLabels := [] |}.

Definition set_catalog_spec (spec : ServiceCatalogSpec) (c : ServiceCatalog) : ServiceCatalog :=
  {| scat_meta := scat_meta c; scat_Spec := spec |}.

Definition PushServiceCatalogToApplicationNamespaces (sc : ServiceCatalog)
    (applicationNamespaces : list string) (cfg : RestConfig) : M (option gerr) :=
  do! api (CNewClient cfg) ;;
  let cli := ForConfig cfg in
  collect_errors applicationNamespaces (λ ns,
    let sccp := {| scat_meta := named (om_Name (scat_meta sc)) ns;
                   scat_Spec := empty_ServiceCatalogSpec |} in
    '(_, op) ← CreateOrUpdate cli KServiceCatalog sccp (mutates (set_catalog_spec (scat_Spec sc)));
    mret (result_err op)).

Definition DeleteServiceBindingAndSecretFromNamespaces (cli : Client) (sc : ServiceClaim)
    (namespaces : list string) : M (option gerr) :=
  errs ← for_each namespaces [] (λ ns errs,
    err ← api (CDelete cli KServiceBinding
                 {| nn_Namespace := ns; nn_Name := om_Name (sc_meta sc) |});
    mret (match err with
          | Some e => if negb (IsNotFound (Some e)) then errs ++ [Some e] else errs
          | None => errs
          end));
  mret (errors_join errs).

(** ** serviceclasses.go *)

Definition set_class_spec (spec : ServiceClassSpec) (c : ServiceClass) : ServiceClass :=
  {| scl_meta := scl_meta c; scl_Spec := spec; scl_Status := scl_Status c |}.

(** The zero value of a service class's specification. *)
Definition empty_ServiceClassSpec : ServiceClassSpec :=
  {| scls_Constraints := None; scls_HealthCheck := None;
     scls_Resource := {| scr_APIVersion := ""; scr_Kind := "";
       scr_ServiceEndpointDefinitionMappings :=
         {| sedm_ResourceFields := []; sedm_SecretRefFields := [] |} |};
     scls_ServiceClassIdentity := NilSlice |}.

Fixpoint PushServiceClassToNamespaces (cli : Client) (sc : ServiceClass) (namespaces : list string)
    : M (option gerr) :=
  match namespaces with
  | [] => mret None
  | ns :: namespaces' =>
      let sccp := {| scl_meta := named (om_Name (scl_meta sc)) ns;
                     scl_Spec := empty_ServiceClassSpec;
                     scl_Status := {| sclst_Conditions := [] |} |} in
      '(_, op) ← CreateOrUpdate cli KServiceClass sccp (mutates (set_class_spec (scl_Spec sc)));
      match op with
      | Err err => mret (Some err)
      | Ok _ => PushServiceClassToNamespaces cli sc namespaces'
      end
  end.

Fixpoint DeleteServiceClassFromNamespaces (cli : Client) (sc : ServiceClass)
    (namespaces : list string) : M (option gerr) :=
  match namespaces with
  | [] => mret None
  | ns :: namespaces' =>
      do! api (CDelete cli KServiceClass
                 {| nn_Namespace := ns; nn_Name := om_Name (scl_meta sc) |}) ;;
      DeleteServiceClassFromNamespaces cli sc namespaces'
  end.

(** ** Properties *)

(** Nothing is written outside the namespace a binding is pushed to. *)
Lemma only_calls_pushServiceBindingToNamespace cli ns sc secret :
  only_calls legal (writes (λ cl key, cl = cli ∧ nn_Namespace key = ns))
    (pushServiceBindingToNamespace cli ns sc secret).
Proof.
  unfold pushServiceBindingToNamespace, mutate_binding. calls; try done.
  - split; (split; [done|]); by rewrite Hkey.
  - split; (split; [done|]); by rewrite Hkey.
Qed.

(** Pushing a claim's binding writes only to the target cluster, and there only
    to those application namespaces of the list that the claim selects. *)
Theorem PushServiceBinding_targets sc secret nspace nss cfg :
  only_calls legal
    (writes (λ cl key, cl = ForConfig cfg ∧ nn_Namespace key ∈ nss ∧
                       (nspace = None ∨ nspace = Some (nn_Namespace key))))
    (PushServiceBinding sc secret nspace nss cfg).
Proof.
  unfold PushServiceBinding. calls; try done.
  eapply only_calls_mono; [apply only_calls_pushServiceBindingToNamespace|].
  intros c. unfold writes. destruct (write_target c) as [[cl key]|]; [|done].
  intros [-> <-]. split; [done|]. split; [done|].
  destruct nspace as [n|]; [|by left]. right. f_equal.
  match goal with H : selected _ _ = true |- _ => by apply bool_decide_eq_true_1 in H end.
Qed.

(** The binding with the annotations and the specification of a claim bound to [rs]. *)
Definition bound_to (sc : ServiceClaim) (rs : ObjectReference) (sb : ServiceBinding) : ServiceBinding :=
  {| sb_meta := om_set_Annotations (sb_meta sb)
       (Some (<[BoundRegisteredServiceUIDAnnotation := ref_UID rs]>
                (<[BoundRegisteredServiceNameAnnotation := ref_Name rs]>
                   (default ∅ (om_Annotations (sb_meta sb))))));
     sb_Spec := binding_spec sc; sb_Status := sb_Status sb |}.

(** The binding [pushServiceBindingToNamespace] starts from. *)
Definition new_binding (ns : string) (sc : ServiceClaim) : ServiceBinding :=
  {| sb_meta := named (om_Name (sc_meta sc)) ns; sb_Spec := binding_spec sc;
     sb_Status := empty_sbstatus |}.

Lemma wp_push_binding cli ns sc :
  kwp (CreateOrUpdate cli KServiceBinding (new_binding ns sc) (mutate_binding sc))
    (λ t out, ∀ sb op, out = Done (sb, Ok op) →
       ∃ rs, scst_RegisteredService (sc_Status sc) = Some rs ∧
             CoU cli KServiceBinding (new_binding ns sc) (bound_to sc rs) t (sb, Ok op)).
Proof.
  unfold mutate_binding. destruct (scst_RegisteredService _) as [rs|] eqn:Hrs.
  - eapply wp_mono; [apply (wp_CreateOrUpdate cli KServiceBinding (new_binding ns sc) (bound_to sc rs)); done|].
    intros t out (p & -> & Hp) sb op [= ->]. eauto.
  - unfold CreateOrUpdate, mutate, deref. wnext; done.
Qed.

(** How the secret of a claim is left beside the binding [sb]: one that was not there is
    created with the claim's data and owned by [sb]; of one that was there the data is
    set, and its owners stay as they were. *)
Inductive secret_left (cli : Client) (ns : string) (sc : ServiceClaim) (secret : Secret)
    (sb : ServiceBinding) : list kevent → Secret → Prop :=
| secret_created e s s' :
    IsNotFound (Some e) = true →
    om_Name (sec_meta s) = om_Name (sec_meta secret) → om_Namespace (sec_meta s) = ns →
    sec_StringData s = sec_StringData secret →
    om_OwnerReferences (sec_meta s) = [binding_owner sc (om_UID (sb_meta sb))] →
    secret_left cli ns sc secret sb
      [KEv (CGet cli KSecret {| nn_Namespace := ns; nn_Name := om_Name (sec_meta secret) |}) (Err e);
       KEv (CCreate cli KSecret s) (Ok s')] s'
| secret_unchanged x s :
    sec_StringData s = sec_StringData secret → sec_meta s = sec_meta x →
    SemanticDeepEqual (k := KSecret) x s = true →
    secret_left cli ns sc secret sb
      [KEv (CGet cli KSecret {| nn_Namespace := ns; nn_Name := om_Name (sec_meta secret) |}) (Ok x)] s
| secret_updated x s s' :
    sec_StringData s = sec_StringData secret → sec_meta s = sec_meta x → sec_Data s = sec_Data x →
    secret_left cli ns sc secret sb
      [KEv (CGet cli KSecret {| nn_Namespace := ns; nn_Name := om_Name (sec_meta secret) |}) (Ok x);
       KEv (CUpdate cli KSecret s) (Ok s')] s'.

Lemma CoU_secret_left cli ns sc secret sb t s op :
  CoU cli KSecret (secret_for secret ns sc (om_UID (sb_meta sb)))
    (set_StringData (sec_StringData secret)) t (s, Ok op) →
  secret_left cli ns sc secret sb t s.
Proof. intros H. inversion H; subst; by econstructor. Qed.

(** C28: when pushing a claim to a namespace returns no error, the claim names a
    registered service and the binding there was left with the claim's application,
    environment variables and secret name and with the annotations of that service.
    The secret, if it was not there, was created with the data of the claim and owned by
    the binding then read; if it was there, its data was set to that of the claim and
    everything else, its owners included, was left as it was read. *)
Theorem pushServiceBindingToNamespace_spec cli ns sc secret :
  kwp (pushServiceBindingToNamespace cli ns sc secret) (λ t out,
    ∀ s', out = Done (s', None) →
    ∃ rs sb sb' op t1 t2,
      t = t1 ++ Ev (CGet cli KServiceBinding
                      {| nn_Namespace := ns; nn_Name := om_Name (sc_meta sc) |}) (Ok sb') :: t2 ∧
      scst_RegisteredService (sc_Status sc) = Some rs ∧
      CoU cli KServiceBinding (new_binding ns sc) (bound_to sc rs) t1 (sb, Ok op) ∧
      secret_left cli ns sc secret sb' t2 s').
Proof.
  unfold pushServiceBindingToNamespace.
  eapply (wp_bind_spec legal); [apply wp_push_binding| |done].
  intros t1 [sb op] Ht1. wflow; [|done]. destruct (Ht1 sb a eq_refl) as (rs & Hrs & Hsb).
  wnext; [|done]. rename a0 into sb'.
  eapply (wp_bind_spec legal).
  - by apply (wp_CreateOrUpdate cli KSecret (secret_for secret ns sc (om_UID (sb_meta sb')))
             (set_StringData (sec_StringData secret))).
  - intros t2 [s2 op2] (p & [= <-] & Hp). wflow. intros s' [= <- Hop].
    destruct op2 as [op2|]; [|done]. rewrite app_nil_r.
    eexists rs, sb, sb', a, t1, t2. eauto using CoU_secret_left.
  - intros t h (p & [=] & _).
Qed.

(** Deleting the bindings of a claim: one deletion per namespace. *)
Lemma only_calls_DeleteServiceBindings cli sc nss :
  only_calls legal (λ c, ∃ ns, ns ∈ nss ∧
      c = CDelete cli KServiceBinding {| nn_Namespace := ns; nn_Name := om_Name (sc_meta sc) |})
    (DeleteServiceBindingAndSecretFromNamespaces cli sc nss).
Proof. unfold DeleteServiceBindingAndSecretFromNamespaces. calls. eauto. Qed.

(** The answer of a deletion, if the event is one. *)
Definition deletion_answer (ev : kevent) : option (NamespacedName * option gerr) :=
  match ev with
  | existT c r =>
      match c return Answer c → option (NamespacedName * option gerr) with
      | CDelete _ _ key => λ r, Some (key, r)
      | _ => λ _, None
      end r
  end.

Lemma wp_DeleteServiceBindings cli sc nss :
  kwp (DeleteServiceBindingAndSecretFromNamespaces cli sc nss) (λ t out,
    ∃ ans err, out = Done err ∧ omap deletion_answer t = ans ∧
      ans.*1 = (λ ns, {| nn_Namespace := ns; nn_Name := om_Name (sc_meta sc) |}) <$> nss ∧
      (err = None ↔ Forall (λ a, IgnoreNotFound a.2 = None) ans)).
Proof.
  unfold DeleteServiceBindingAndSecretFromNamespaces.
  set (I := λ (l : list string) (t : list kevent) (errs : list (option gerr)),
    ∃ l0, nss = l0 ++ l ∧
      (omap deletion_answer t).*1 = (λ ns, {| nn_Namespace := ns; nn_Name := om_Name (sc_meta sc) |}) <$> l0 ∧
      (errors_join errs = None ↔ Forall (λ a, IgnoreNotFound a.2 = None) (omap deletion_answer t))).
  eapply (wp_bind_spec legal (λ t out, ∃ errs, out = Done errs ∧ I [] t errs)).
  - apply (wp_for_each legal _ _ _ I).
    + exists []. by split.
    + intros ns l t errs (l0 & -> & Hk & He). wcall r Hr. cbv beta. wflow.
      exists (l0 ++ [ns]). rewrite <- app_assoc. split; [done|].
      rewrite omap_app, !fmap_app, Hk. split; [done|]. simpl. rewrite Forall_app, Forall_singleton, <- He.
      simpl. destruct r as [e|]; simpl; [|naive_solver].
      unfold IgnoreNotFound. destruct (IsNotFound (Some e)); simpl; [naive_solver|].
      rewrite !errors_join_None, Forall_app, Forall_singleton. naive_solver.
    + by intros t errs HI; exists errs.
  - intros t errs (errs' & [= <-] & l0 & -> & Hk & He). wflow. rewrite !app_nil_r in *.
    by exists (omap deletion_answer t), (errors_join errs).
  - by intros t h (errs & [=] & _).
Qed.

(** ** Service classes: properties *)

Definition in_namespace (name ns : string) : NamespacedName := {| nn_Namespace := ns; nn_Name := name |}.

(** The service class [PushServiceClassToNamespaces] starts from. *)
Definition new_class (ns : string) (sc : ServiceClass) : ServiceClass :=
  {| scl_meta := named (om_Name (scl_meta sc)) ns; scl_Spec := empty_ServiceClassSpec;
     scl_Status := {| sclst_Conditions := [] |} |}.

Definition class_keys (cli : Client) (sc : ServiceClass) (nss : list string)
    (cl : Client) (key : NamespacedName) : Prop :=
  cl = cli ∧ nn_Name key = om_Name (scl_meta sc) ∧ nn_Namespace key ∈ nss.

Lemma only_calls_PushServiceClass cli sc nss :
  only_calls legal (writes_at KServiceClass (class_keys cli sc nss)) (PushServiceClassToNamespaces cli sc nss).
Proof.
  induction nss as [|ns nss IH]; cbn [PushServiceClassToNamespaces]; calls.
  - by intros [].
  - by split; intros _; (split; [done|]); eexists _, _; (split; [done|]); rewrite Hkey;
      (split; [done|]); (split; [done|]); apply list_elem_of_here.
  - eapply only_calls_mono; [apply IH|]. intros c. apply writes_at_mono.
    intros cl key (-> & ? & ?). repeat split; try done. set_solver.
Qed.

(** The service class was left in the namespace with the specification of [sc]. *)
Definition class_pushed (cli : Client) (sc : ServiceClass) (ns : string) (t : list kevent) : Prop :=
  part (λ u, ∃ o op, CoU cli KServiceClass (new_class ns sc) (set_class_spec (scl_Spec sc)) u (o, Ok op)) t.

Lemma wp_PushServiceClass cli sc nss :
  kwp (PushServiceClassToNamespaces cli sc nss) (λ t out,
    out = Done None → ∀ ns, ns ∈ nss → class_pushed cli sc ns t).
Proof.
  induction nss as [|ns nss IH]; cbn [PushServiceClassToNamespaces].
  { wflow. set_solver. }
  eapply (wp_bind_spec legal);
    [apply (wp_CreateOrUpdate cli KServiceClass (new_class ns sc) (set_class_spec (scl_Spec sc))); done| |].
  - intros t [o op] (p & [= <-] & Hp). wflow; [|done].
    eapply wp_mono; [apply IH|]. intros t' out Ht' -> ns' [->|Hns']%elem_of_cons.
    + apply part_app_l, part_here. eauto.
    + by apply part_app_r, Ht'.
  - by intros t h (p & [=] & _).
Qed.

Lemma only_calls_DeleteServiceClass cli sc nss :
  only_calls legal (writes_at KServiceClass (class_keys cli sc nss)) (DeleteServiceClassFromNamespaces cli sc nss).
Proof.
  induction nss as [|ns nss IH]; cbn [DeleteServiceClassFromNamespaces]; calls.
  - intros _. split; [done|]. eexists _, _. split; [done|]. repeat split. apply list_elem_of_here.
  - eapply only_calls_mono; [apply IH|]. intros c. apply writes_at_mono.
    intros cl key (-> & ? & ?). repeat split; try done. set_solver.
Qed.

(** The deletion of the service class in the namespace was answered with no error. *)
Definition class_deleted (cli : Client) (sc : ServiceClass) (ns : string) (t : list kevent) : Prop :=
  KEv (CDelete cli KServiceClass (in_namespace (om_Name (scl_meta sc)) ns)) None ∈ t.

Lemma wp_DeleteServiceClass cli sc nss :
  kwp (DeleteServiceClassFromNamespaces cli sc nss) (λ t out,
    out = Done None → ∀ ns, ns ∈ nss → class_deleted cli sc ns t).
Proof.
  induction nss as [|ns nss IH]; cbn [DeleteServiceClassFromNamespaces].
  { wflow. set_solver. }
  wcall r Hr. cbv beta. wflow; [done|].
  eapply wp_mono; [apply IH|]. intros t out Ht -> ns' [->|Hns']%elem_of_cons.
  - apply elem_of_cons. by left.
  - apply elem_of_cons. right. by apply Ht.
Qed.

(** ** Service catalogs: properties *)

Definition new_catalog (ns : string) (sc : ServiceCatalog) : ServiceCatalog :=
  {| scat_meta := named (om_Name (scat_meta sc)) ns; scat_Spec := empty_ServiceCatalogSpec |}.

(** The catalog was left in the namespace with the services of [sc]. *)
Definition catalog_pushed (cli : Client) (sc : ServiceCatalog) (ns : string) (t : list kevent) : Prop :=
  part (λ u, ∃ o op, CoU cli KServiceCatalog (new_catalog ns sc) (set_catalog_spec (scat_Spec sc)) u (o, Ok op)) t.

Definition catalog_keys (cli : Client) (sc : ServiceCatalog) (nss : list string)
    (cl : Client) (key : NamespacedName) : Prop :=
  cl = cli ∧ nn_Name key = om_Name (scat_meta sc) ∧ nn_Namespace key ∈ nss.

Lemma only_calls_PushServiceCatalog sc nss cfg :
  only_calls legal (writes_at KServiceCatalog (catalog_keys (ForConfig cfg) sc nss))
    (PushServiceCatalogToApplicationNamespaces sc nss cfg).
Proof.
  unfold PushServiceCatalogToApplicationNamespaces. calls; try by intros [].
  by split; intros _; (split; [done|]); eexists _, _; (split; [done|]); rewrite Hkey.
Qed.

Lemma wp_PushServiceCatalog sc nss cfg :
  kwp (PushServiceCatalogToApplicationNamespaces sc nss cfg) (λ t out,
    out = Done None → ∀ ns, ns ∈ nss → catalog_pushed (ForConfig cfg) sc ns t).
Proof.
  unfold PushServiceCatalogToApplicationNamespaces. wcall r Hr. cbv beta. wflow; [done|].
  eapply wp_mono; [refine (wp_collect_errors nss _ (λ ns u, ∃ o op,
    CoU (ForConfig cfg) KServiceCatalog (new_catalog ns sc) (set_catalog_spec (scat_Spec sc)) u (o, Ok op)) _)|].
  - intros ns _. eapply (wp_bind_spec legal);
      [apply (wp_CreateOrUpdate _ KServiceCatalog (new_catalog ns sc) (set_catalog_spec (scat_Spec sc))); done| |].
    + intros t [o op] (p & [= <-] & Hp). wflow. rewrite app_nil_r. intros [= Hop].
      destruct op as [op|]; [|done]. eauto.
    + by intros t h (p & [=] & _).
  - intros t out Ht -> ns Hns. by apply part_cons, Ht.
Qed.
