(* ===== verification/ServiceClaimCtrl.v ===== *)
(** * The service claim controller

    controllers/serviceclaim_controller.go: a claim is matched with an available
    registered service, the service is marked as claimed, its endpoint definition
    is pushed to the application namespaces, and the claim is resolved; a deleted
    claim has its bindings deleted and its service freed.  A parameter [sclaim]
    passed by pointer is returned with the error; [r.Client] is the manager's. *)

From S2P Require Import Prelude Prog GoErr GoStr Json Types Kube EnvTag WorkerCluster AppNamespaces.

#[local] Open Scope string_scope.
#[local] Open Scope list_scope.
#[local] Open Scope primaza_scope.

Definition ServiceClaimFinalizer : string := "serviceclaims.primaza.io/finalizer".

(** ** Field updates *)

Definition sc_set_Status (sc : ServiceClaim) (st : ServiceClaimStatus) : ServiceClaim :=
  {| sc_meta := sc_meta sc; sc_Spec := sc_Spec sc; sc_Status := st |}.
Definition sc_set_State (sc : ServiceClaim) (state : string) : ServiceClaim :=
  sc_set_Status sc {| scst_State := state; scst_ClaimID := scst_ClaimID (sc_Status sc);
    scst_RegisteredService := scst_RegisteredService (sc_Status sc);
    scst_Conditions := scst_Conditions (sc_Status sc) |}.
Definition sc_set_RegisteredService (sc : ServiceClaim) (rs : RegisteredService) : ServiceClaim :=
  sc_set_Status sc {| scst_State := scst_State (sc_Status sc);
    scst_ClaimID := scst_ClaimID (sc_Status sc);
    scst_RegisteredService :=
      Some {| ref_Name := om_Name (rs_meta rs); ref_UID := om_UID (rs_meta rs) |};
    scst_Conditions := scst_Conditions (sc_Status sc) |}.
Definition sc_set_Conditions (sc : ServiceClaim) (cs : list Condition) : ServiceClaim :=
  sc_set_Status sc {| scst_State := scst_State (sc_Status sc);
    scst_ClaimID := scst_ClaimID (sc_Status sc);
    scst_RegisteredService := scst_RegisteredService (sc_Status sc);
    scst_Conditions := cs |}.
Definition rs_set_State (rs : RegisteredService) (state : string) : RegisteredService :=
  {| rs_meta := rs_meta rs; rs_Spec := rs_Spec rs; rs_Status := {| rsst_State := state |} |}.

(** ** Matching *)

(** The occurrences of each identity item. *)
Definition count_items (l : list ServiceClassIdentityItem) : gmap ServiceClassIdentityItem Z :=
  foldl (λ set value, <[value := (default 0 (set !! value) + 1)%Z]> set) ∅ l.

Fixpoint consume_items (set : gmap ServiceClassIdentityItem Z) (l : list ServiceClassIdentityItem)
    : bool :=
  match l with
  | [] => true
  | value :: l' =>
      match set !! value with
      | None => false
      | Some count =>
          if ⟪ count < 1 ⟫%Z then false else consume_items (<[value := (count - 1)%Z]> set) l'
      end
  end.

Definition checkSCISubset (serviceClaim registeredService : list ServiceClassIdentityItem) : bool :=
  consume_items (count_items registeredService) serviceClaim.

(** [rs.Spec.Constraints == nil || envtag.Match(env, rs.Spec.Constraints.Environments)] *)
Definition env_matches (env : string) (rs : RegisteredService) : bool :=
  match rss_Constraints (rs_Spec rs) with
  | None => true
  | Some c => Match env (rsc_Environments c)
  end.

(** The service the loop of [processServiceClaim] stops at. *)
Definition claimable (sclaim : ServiceClaim) (env : string) (rs : RegisteredService) : bool :=
  ⟪ rsst_State (rs_Status rs) = RegisteredServiceStateAvailable ⟫ &&
  checkSCISubset (scs_ServiceClassIdentity (sc_Spec sclaim)) (rss_ServiceClassIdentity (rs_Spec rs)) &&
  env_matches env rs.

(** [sclaim.Spec.Target], dereferenced *)
Definition target (sclaim : ServiceClaim) : M ServiceClaimTarget := deref (scs_Target (sc_Spec sclaim)).

Section ServiceClaimReconciler.
  Context `{KubeconfigLib}.

(** ** Service endpoint definitions *)

Definition put_secret (secret : Secret) (k v : string) : Secret :=
  {| sec_meta := sec_meta secret; sec_Data := sec_Data secret;
     sec_StringData := <[k := v]> (sec_StringData secret) |}.

(** The secret and the number of entries written; the error is always nil.  An
    entry with no value and no reference to a secret is a nil dereference. *)
Definition extractServiceEndpointDefinition (namespace : string) (rs : RegisteredService)
    (sedKeys : list string) (secret : Secret) : M (Secret * nat) :=
  for_each (rss_ServiceEndpointDefinition (rs_Spec rs)) (secret, 0%nat) (λ sed '(secret, count),
    if ⟪ sedi_Value sed ≠ "" ⟫ then
      if ⟪ sedi_Name sed ∈ sedKeys ⟫ then
        mret (put_secret secret (sedi_Name sed) (sedi_Value sed), S count)
      else mret (secret, count)
    else
      vs ← deref (sedi_ValueFromSecret sed);
      let k := sedr_Key vs in
      if ⟪ k ≠ "" ⟫ then
        if ⟪ sedi_Name sed ∈ sedKeys ⟫ then
          sec ← api (CGet Manager KSecret {| nn_Namespace := namespace; nn_Name := sedr_Name vs |});
          match sec with
          | Err _ => mret (secret, count)
          | Ok sec =>
              mret (put_secret secret (sedi_Name sed) (default "" (sec_Data sec !! k)), S count)
          end
        else mret (secret, count)
      else mret (secret, count)).

Definition changeServiceState (rs : RegisteredService) (state : string) : M (option gerr) :=
  r ← api (CStatusUpdate Manager KRegisteredService (rs_set_State rs state));
  mret (result_err r).

Definition getEnvironmentFromClusterEnvironment (namespace clusterEnvironmentName : string)
    : M (result ClusterEnvironment) :=
  api (CGet Manager KClusterEnvironment
         {| nn_Namespace := namespace; nn_Name := clusterEnvironmentName |}).

(** [corev1.Secret{ObjectMeta: ..., StringData: map[string]string{}}] *)
Definition claim_secret (sclaim : ServiceClaim) : Secret :=
  {| sec_meta := named (om_Name (sc_meta sclaim)) (om_Namespace (sc_meta sclaim));
     sec_Data := ∅; sec_StringData := ∅ |}.

(** [for _, sci := range ... { secret.StringData[sci.Name] = sci.Value }] *)
Definition put_identity (scis : list ServiceClassIdentityItem) (secret : Secret) : Secret :=
  foldl (λ s sci, put_secret s (sci_Name sci) (sci_Value sci)) secret scis.

Definition getServiceEndpointDefinition (sclaim : ServiceClaim) (rs : RegisteredService) : M Secret :=
  '(secret, _) ← extractServiceEndpointDefinition (om_Namespace (sc_meta sclaim)) rs
                   (scs_ServiceEndpointDefinitionKeys (sc_Spec sclaim)) (claim_secret sclaim);
  mret (put_identity (scs_ServiceClassIdentity (sc_Spec sclaim)) secret).

(** ** Status of the claim *)

(** [rsc.Status.RegisteredService != sclaim.Status.RegisteredService] compares the
    two pointers, which come from different decodings: equal only when both are nil. *)
Definition registered_service_pointers_differ (a b : option ObjectReference) : bool :=
  negb (is_nil a && is_nil b).

Definition updateRemoteServiceClaimStatusIfNeeded (sclaim : ServiceClaim) : M (option gerr) :=
  tgt ← target sclaim;
  match tgt_ApplicationClusterContext tgt with
  | None => mret None
  | Some acc =>
      let! ce := getEnvironmentFromClusterEnvironment (om_Namespace (sc_meta sclaim))
                   (acc_ClusterEnvironmentName acc) ;;
      let! cfg := ClusterContext.GetClusterRESTConfig Manager (om_Namespace (ce_meta ce))
                    (ces_ClusterContextSecret (ce_Spec ce)) ;;
      err ← api (CNewClient cfg);
      match err with
      | Some err => mret (Some (EWrap ("error creating client for cluster environment "
                                       +++ om_Name (ce_meta ce) +++ ": ") err))
      | None =>
          let cli := ForConfig cfg in
          let ans := acc_Namespace acc in
          got ← api (CGet cli KServiceClaim
                       {| nn_Namespace := ans; nn_Name := om_Name (sc_meta sclaim) |});
          match got with
          | Err err =>
              if ⟪ scst_State (sc_Status sclaim) = ServiceClaimStatePending ⟫ then mret None
              else mret (Some (EWrap ("error retrieving ServiceClaim from application namespace "
                     +++ ans +++ " of cluster environment " +++ om_Name (ce_meta ce) +++ ": ") err))
          | Ok rsc =>
              if registered_service_pointers_differ (scst_RegisteredService (sc_Status rsc))
                   (scst_RegisteredService (sc_Status sclaim))
                 || ⟪ scst_State (sc_Status rsc) ≠ scst_State (sc_Status sclaim) ⟫
                 || ⟪ scst_Conditions (sc_Status rsc) ≠ scst_Conditions (sc_Status sclaim) ⟫
              then
                let rsc := sc_set_Status rsc
                  {| scst_State := scst_State (sc_Status sclaim);
                     scst_ClaimID := scst_ClaimID (sc_Status rsc);
                     scst_RegisteredService := scst_RegisteredService (sc_Status sclaim);
                     scst_Conditions := scst_Conditions (sc_Status sclaim) |} in
                r ← api (CStatusUpdate cli KServiceClaim rsc);
                match r with
                | Err err => mret (Some (EWrap ("error updating ServiceClaim from application namespace "
                     +++ ans +++ " of cluster environment " +++ om_Name (ce_meta ce) +++ ": ") err))
                | Ok _ => mret None
                end
              else mret None
          end
      end
  end.

Definition updateServiceClaimStatus (sclaim : ServiceClaim) : M (ServiceClaim * option gerr) :=
  r ← api (CStatusUpdate Manager KServiceClaim sclaim);
  match r with
  | Err err => mret (sclaim, Some err)
  | Ok sclaim =>
      err ← updateRemoteServiceClaimStatusIfNeeded sclaim;
      mret (sclaim, err)
  end.

(** ** Pushing to and deleting from the cluster environments *)

(** The loop over the cluster environments, with the shared secret and the errors
    so far; a cluster that cannot be reached for its configuration ends it. *)
Fixpoint push_environments (sclaim : ServiceClaim) (tag : string) (ces : list ClusterEnvironment)
    (secret : Secret) (errs : list (option gerr)) : M (option gerr) :=
  match ces with
  | [] => mret (errors_join errs)
  | ce :: ces' =>
      let! cfg := ClusterContext.GetClusterRESTConfig Manager (om_Namespace (ce_meta ce))
                    (ces_ClusterContextSecret (ce_Spec ce)) ;;
      if ⟪ ces_EnvironmentName (ce_Spec ce) ≠ tag ⟫ then
        push_environments sclaim tag ces' secret errs
      else
        '(secret, err) ← PushServiceBinding sclaim secret None
                           (ces_ApplicationNamespaces (ce_Spec ce)) cfg;
        push_environments sclaim tag ces' secret
          (match err with Some e => errs ++ [Some e] | None => errs end)
  end.

Definition pushToClusterEnvironments (sclaim : ServiceClaim) (secret : Secret) : M (option gerr) :=
  tgt ← target sclaim;
  match tgt_ApplicationClusterContext tgt with
  | Some acc =>
      let! ce := getEnvironmentFromClusterEnvironment (om_Namespace (sc_meta sclaim))
                   (acc_ClusterEnvironmentName acc) ;;
      let! cfg := ClusterContext.GetClusterRESTConfig Manager (om_Namespace (ce_meta ce))
                    (ces_ClusterContextSecret (ce_Spec ce)) ;;
      '(_, err) ← PushServiceBinding sclaim secret (Some (acc_Namespace acc))
                    (ces_ApplicationNamespaces (ce_Spec ce)) cfg;
      mret (errors_join [err])
  | None =>
      cel ← api (CList Manager KClusterEnvironment (InNamespace ""));
      match cel with
      | Err err => mret (IgnoreNotFound (Some err))
      | Ok items => push_environments sclaim (tgt_EnvironmentTag tgt) items secret []
      end
  end.

Fixpoint delete_environments (sclaim : ServiceClaim) (tag : string) (ces : list ClusterEnvironment)
    (errs : list (option gerr)) : M (option gerr) :=
  match ces with
  | [] => mret (errors_join errs)
  | ce :: ces' =>
      let! cli := ClusterContext.CreateClient Manager ce ;;
      if ⟪ ces_EnvironmentName (ce_Spec ce) ≠ tag ⟫ then
        delete_environments sclaim tag ces' errs
      else
        err ← DeleteServiceBindingAndSecretFromNamespaces cli sclaim
                (ces_ApplicationNamespaces (ce_Spec ce));
        delete_environments sclaim tag ces'
          (match err with Some e => errs ++ [Some e] | None => errs end)
  end.

Definition DeleteServiceBindingsAndSecret (sclaim : ServiceClaim) : M (option gerr) :=
  ot ← target sclaim;
  match tgt_ApplicationClusterContext ot with
  | Some acc =>
      let! ce := getEnvironmentFromClusterEnvironment (om_Namespace (sc_meta sclaim))
                   (acc_ClusterEnvironmentName acc) ;;
      let! cli := ClusterContext.CreateClient Manager ce ;;
      err ← DeleteServiceBindingAndSecretFromNamespaces cli sclaim [acc_Namespace acc];
      mret (errors_join [err])
  | None =>
      cel ← api (CList Manager KClusterEnvironment (InNamespace ""));
      match cel with
      | Err err => mret (IgnoreNotFound (Some err))
      | Ok items => delete_environments sclaim (tgt_EnvironmentTag ot) items []
      end
  end.

(** ** Processing a claim *)

(** [metav1.Condition{...}] of a claim that stays pending; the clock is read. *)
Definition pending_condition (now : Z) (message : string) : Condition :=
  {| c_Type := ServiceClaimConditionReady; c_Status := ConditionFalse; c_ObservedGeneration := 0;
     c_LastTransitionTime := now; c_Reason := NoMatchingServiceFoundReason; c_Message := message |}.

(** The two early exits of [processServiceClaim]: the condition is set, the claim
    is put back to pending, and an error is returned. *)
Definition leave_pending (sclaim : ServiceClaim) (message : string) : M (option gerr) :=
  now ← api CNow;
  cs ← SetStatusCondition (scst_Conditions (sc_Status sclaim)) (pending_condition now message);
  let sclaim := sc_set_State (sc_set_Conditions sclaim cs) ServiceClaimStatePending in
  '(_, err) ← updateServiceClaimStatus sclaim;
  match err with
  | Some err => mret (Some err)
  | None => mret (Some (ENew message))
  end.

(** The environment a claim is for: its tag, or that of its cluster environment. *)
Definition claim_environment (sclaim : ServiceClaim) : M (result string) :=
  tgt ← target sclaim;
  match tgt_ApplicationClusterContext tgt with
  | Some acc =>
      let! ce := getEnvironmentFromClusterEnvironment (om_Namespace (sc_meta sclaim))
                   (acc_ClusterEnvironmentName acc) ;;
      mret (Ok (ces_EnvironmentName (ce_Spec ce)))
  | None => mret (Ok (tgt_EnvironmentTag tgt))
  end.

Definition processServiceClaim (rsl : list RegisteredService) (sclaim : ServiceClaim)
    : M (option gerr) :=
  let secret := claim_secret sclaim in
  let! env := claim_environment sclaim ;;
  match find_first (claimable sclaim env) rsl with
  | None => leave_pending sclaim "SCI is not matched"
  | Some registeredService =>
      '(secret, count) ← extractServiceEndpointDefinition (om_Namespace (sc_meta sclaim))
                           registeredService (scs_ServiceEndpointDefinitionKeys (sc_Spec sclaim)) secret;
      if ⟪ (count < length (scs_ServiceEndpointDefinitionKeys (sc_Spec sclaim)))%nat ⟫ then
        leave_pending sclaim "key not available in the list of SEDs"
      else
        let secret := put_identity (scs_ServiceClassIdentity (sc_Spec sclaim)) secret in
        let sclaim := sc_set_RegisteredService (sc_set_State sclaim ServiceClaimStatePending)
                        registeredService in
        '(sclaim, err) ← updateServiceClaimStatus sclaim;
        match err with
        | Some err => mret (Some err)
        | None =>
            do! changeServiceState registeredService RegisteredServiceStateClaimed ;;
            let sclaim := sc_set_RegisteredService (sc_set_State sclaim ServiceClaimStateResolved)
                            registeredService in
            err ← pushToClusterEnvironments sclaim secret;
            match err with
            | Some err =>
                _ ← changeServiceState registeredService RegisteredServiceStateAvailable;
                mret (IgnoreNotFound (Some err))
            | None =>
                '(_, err) ← updateServiceClaimStatus sclaim;
                mret err
            end
        end
  end.

Definition processClaim (req : NamespacedName) (sclaim : ServiceClaim) : M (option gerr) :=
  rsl ← api (CList Manager KRegisteredService (InNamespace (nn_Namespace req)));
  match rsl with
  | Err err => mret (IgnoreNotFound (Some err))
  | Ok rsl => processServiceClaim rsl sclaim
  end.

Definition processResolvedServiceClaim (sclaim : ServiceClaim) : M (option gerr) :=
  match scst_RegisteredService (sc_Status sclaim) with
  | None =>
      mret (Some (ENew ("service claim " +++ om_Name (sc_meta sclaim)
                        +++ "'s registered service name is not set")))
  | Some ref =>
      let! rs := api (CGet Manager KRegisteredService
                        {| nn_Namespace := om_Namespace (sc_meta sclaim);
                           nn_Name := ref_Name ref |}) ;;
      secret ← getServiceEndpointDefinition sclaim rs;
      let sclaim := sc_set_RegisteredService (sc_set_State sclaim ServiceClaimStatePending) rs in
      '(sclaim, err) ← updateServiceClaimStatus sclaim;
      match err with
      | Some err => mret (Some err)
      | None =>
          do! changeServiceState rs RegisteredServiceStateClaimed ;;
          let sclaim := sc_set_RegisteredService (sc_set_State sclaim ServiceClaimStateResolved) rs in
          err ← pushToClusterEnvironments sclaim secret;
          match err with
          | Some err =>
              _ ← changeServiceState rs RegisteredServiceStateAvailable;
              mret (Some err)
          | None =>
              '(_, err) ← updateServiceClaimStatus sclaim;
              mret err
          end
      end
  end.

(** ** Deletion *)

(** The loop of [processClaimMarkedForDeletion]: the target is dereferenced only
    for a service whose identity matches and that has constraints. *)
Fixpoint find_service_to_free (sclaim : ServiceClaim) (rsl : list RegisteredService)
    : M (option RegisteredService) :=
  match rsl with
  | [] => mret None
  | rs :: rsl' =>
      if checkSCISubset (scs_ServiceClassIdentity (sc_Spec sclaim))
           (rss_ServiceClassIdentity (rs_Spec rs)) then
        match rss_Constraints (rs_Spec rs) with
        | None => mret (Some rs)
        | Some c =>
            tgt ← target sclaim;
            if Match (tgt_EnvironmentTag tgt) (rsc_Environments c) then mret (Some rs)
            else find_service_to_free sclaim rsl'
        end
      else find_service_to_free sclaim rsl'
  end.

Definition processClaimMarkedForDeletion (req : NamespacedName) (sclaim : ServiceClaim)
    : M (option gerr) :=
  rsl ← api (CList Manager KRegisteredService (InNamespace (nn_Namespace req)));
  let errs := match rsl with Err err => [IgnoreNotFound (Some err)] | Ok _ => [] end in
  let items := match rsl with Err _ => [] | Ok items => items end in
  found ← find_service_to_free sclaim items;
  derr ← DeleteServiceBindingsAndSecret sclaim;
  cerr ← match found with
         | Some registeredService =>
             changeServiceState registeredService RegisteredServiceStateAvailable
         | None => mret None
         end;
  mret (errors_join (errs ++ [derr; cerr])).

(** ** Reconcile *)

Definition ensureServiceClaimIsInitialized (sc : ServiceClaim) : M (ServiceClaim * option gerr) :=
  if ⟪ scst_ClaimID (sc_Status sc) ≠ "" ⟫ then mret (sc, None)
  else
    id ← api CUuid;
    let sc := sc_set_Status sc
      {| scst_State := ServiceClaimStatePending; scst_ClaimID := id;
         scst_RegisteredService := scst_RegisteredService (sc_Status sc);
         scst_Conditions := scst_Conditions (sc_Status sc) |} in
    r ← api (CStatusUpdate Manager KServiceClaim sc);
    mret (match r with Ok sc => (sc, None) | Err err => (sc, Some err) end).

Definition Reconcile (req : NamespacedName) : M (option gerr) :=
  got ← api (CGet Manager KServiceClaim req);
  match got with
  | Err err => mret (IgnoreNotFound (Some err))
  | Ok sclaim =>
      if HasDeletionTimestamp (sc_meta sclaim) then
        if ContainsFinalizer (k := KServiceClaim) sclaim ServiceClaimFinalizer then
          do! processClaimMarkedForDeletion req sclaim ;;
          let '(sclaim, finalizerBool) :=
            RemoveFinalizer (k := KServiceClaim) sclaim ServiceClaimFinalizer in
          if negb finalizerBool then
            mret (Some (ENew "Finalizer not removed for service claim"))
          else
            r ← api (CUpdate Manager KServiceClaim sclaim);
            mret (result_err r)
        else mret None
      else
        let '(sclaim, added) := AddFinalizer (k := KServiceClaim) sclaim ServiceClaimFinalizer in
        let! sclaim := (if added then api (CUpdate Manager KServiceClaim sclaim)
                        else mret (Ok sclaim)) ;;
        '(sclaim, err) ← ensureServiceClaimIsInitialized sclaim;
        match err with
        | Some err => mret (Some err)
        | None =>
            if ⟪ scst_State (sc_Status sclaim) = ServiceClaimStateResolved ⟫ then
              processResolvedServiceClaim sclaim
            else processClaim req sclaim
        end
  end.

(** ** SetupWithManager: the claims to reconcile when a registered service changes *)

Definition claims_service (rs : RegisteredService) (sc : ServiceClaim) : bool :=
  ⟪ scst_State (sc_Status sc) = ServiceClaimStateResolved ⟫ &&
  match scst_RegisteredService (sc_Status sc) with
  | Some ref => ⟪ ref_UID ref = om_UID (rs_meta rs) ⟫
  | None => false
  end.

Definition reconcileOnRegisteredServiceUpdate (rs : RegisteredService) : M (list NamespacedName) :=
  if ⟪ rsst_State (rs_Status rs) ≠ "Claimed" ⟫ then mret []
  else
    serviceclaims ← api (CList Manager KServiceClaim (InNamespace ""));
    match serviceclaims with
    | Err _ => mret []
    | Ok items =>
        match find_first (claims_service rs) items with
        | Some sc => mret [ {| nn_Namespace := om_Namespace (sc_meta sc);
                               nn_Name := om_Name (sc_meta sc) |} ]
        | None => mret []
        end
    end.
End ServiceClaimReconciler.

(** ** Matching: properties *)

(** How many times an item occurs. *)
Definition occurrences (x : ServiceClassIdentityItem) (l : list ServiceClassIdentityItem) : Z :=
  Z.of_nat (length (filter (x =.) l)).

Lemma occurrences_cons x y l :
  occurrences x (y :: l) = ((if ⟪ x = y ⟫ then 1 else 0) + occurrences x l)%Z.
Proof.
  unfold occurrences. rewrite filter_cons. case_bool_decide as Hx; [subst|].
  - rewrite decide_True by done. simpl. lia.
  - rewrite decide_False by done. lia.
Qed.

Lemma occurrences_pos x l : (0 < occurrences x l)%Z ↔ x ∈ l.
Proof.
  induction l as [|y l IH]; [unfold occurrences; simpl; set_solver by lia|].
  rewrite occurrences_cons, elem_of_cons, <- IH.
  assert (0 <= occurrences x l)%Z by (unfold occurrences; lia).
  case_bool_decide as Hx; split; [by left|lia|right; lia|].
  intros [Heq|?]; [done|lia].
Qed.

Lemma occurrences_submseteq l l' : (∀ x, (occurrences x l ≤ occurrences x l')%Z) ↔ l ⊆+ l'.
Proof.
  split.
  - revert l'. induction l as [|x l IH]; intros l' Hle; [apply submseteq_nil_l|].
    assert (x ∈ l') as Hx.
    { apply occurrences_pos. specialize (Hle x). rewrite occurrences_cons in Hle.
      rewrite bool_decide_true in Hle by done. unfold occurrences in *. lia. }
    apply list_elem_of_split in Hx as (l1 & l2 & ->).
    rewrite <- Permutation_middle. apply submseteq_skip, IH. intros y.
    specialize (Hle y). unfold occurrences in *.
    rewrite filter_app, length_app in *. rewrite !filter_cons in Hle.
    destruct (decide (y = x)); simpl in Hle; lia.
  - intros [k Hk]%submseteq_Permutation x. unfold occurrences.
    rewrite Hk, filter_app, length_app. lia.
Qed.

Lemma count_items_spec l x :
  default 0%Z (count_items l !! x) = occurrences x l ∧ (∀ n, count_items l !! x = Some n → (0 < n)%Z).
Proof.
  unfold count_items.
  cut (∀ m : gmap ServiceClassIdentityItem Z, (∀ y n, m !! y = Some n → (0 < n)%Z) →
     let m' := foldl (λ set value, <[value:=(default 0 (set !! value) + 1)%Z]> set) m l in
     default 0%Z (m' !! x) = (default 0 (m !! x) + occurrences x l)%Z ∧
     (∀ n, m' !! x = Some n → (0 < n)%Z)).
  { intros Hc. specialize (Hc ∅). rewrite lookup_empty in Hc. apply Hc. intros y n.
    by rewrite lookup_empty. }
  induction l as [|y l IH]; intros m Hm; simpl; [unfold occurrences; simpl; split; [lia|eauto]|].
  set (m1 := <[y := _]> m). destruct (IH m1) as [Hd Hn].
  { intros z n. unfold m1. rewrite lookup_insert_Some. intros [[-> <-]|[_ ?]]; [|eauto].
    destruct (m !! z) as [k|] eqn:Hk; simpl; [apply Hm in Hk|]; lia. }
  split; [|done]. rewrite Hd, occurrences_cons. unfold m1. case_bool_decide as Hx.
  - subst y. rewrite lookup_insert_eq. simpl. lia.
  - rewrite lookup_insert_ne by done. lia.
Qed.

Lemma consume_items_spec set l :
  (∀ x n, set !! x = Some n → (0 <= n)%Z) →
  consume_items set l = true ↔ ∀ x, (occurrences x l ≤ default 0 (set !! x))%Z.
Proof.
  revert set. induction l as [|y l IH]; intros set Hset; simpl.
  { split; [|done]. intros _ x. unfold occurrences. simpl.
    destruct (set !! x) as [n|] eqn:Hn; simpl; [by eapply Hset|lia]. }
  setoid_rewrite occurrences_cons.
  assert (Hp : ∀ x, (0 <= occurrences x l)%Z) by (intros; unfold occurrences; lia).
  destruct (set !! y) as [n|] eqn:Hy.
  - case_bool_decide as Hn.
    + split; [done|]. intros H. specialize (H y). rewrite Hy in H. specialize (Hp y).
      rewrite bool_decide_true in H by done. simpl in H. lia.
    + rewrite IH.
      * split; intros H x; specialize (H x); case_bool_decide as Hx.
        -- subst. rewrite lookup_insert_eq in H. rewrite Hy. simpl in *. lia.
        -- rewrite lookup_insert_ne in H by done. lia.
        -- subst. rewrite lookup_insert_eq. rewrite Hy in H. simpl in *. lia.
        -- rewrite lookup_insert_ne by done. lia.
      * intros x k. rewrite lookup_insert_Some. intros [[<- <-]|[_ ?]]; [lia|eauto].
  - split; [done|]. intros H. specialize (H y). rewrite Hy in H. specialize (Hp y).
    rewrite bool_decide_true in H by done. simpl in H. lia.
Qed.

Lemma checkSCISubset_submseteq a b : checkSCISubset a b = true ↔ a ⊆+ b.
Proof.
  unfold checkSCISubset. rewrite consume_items_spec.
  - setoid_rewrite (λ x, proj1 (count_items_spec b x)). apply occurrences_submseteq.
  - intros x n Hn. apply count_items_spec in Hn. lia.
Qed.

(** ** The phases of claiming: which calls each part makes *)

(** Reads, and the status updates of the claim in a worker cluster. *)
Definition remote_status_call (c : Call) : Prop :=
  match c with
  | CStatusUpdate (ForConfig _) KServiceClaim _ => True
  | c => ¬ is_write c
  end.
(** Reads, and creations and updates in worker clusters. *)
Definition push_call (c : Call) : Prop :=
  match c with
  | CCreate (ForConfig _) _ _ | CUpdate (ForConfig _) _ _ => True
  | c => ¬ is_write c
  end.
(** A creation or an update in a worker cluster. *)
Definition pushes (c : Call) : Prop :=
  match c with
  | CCreate (ForConfig _) _ _ | CUpdate (ForConfig _) _ _ => True
  | _ => False
  end.

(** The control plane's claim is set to [Resolved]. *)
Definition resolves (ev : kevent) : Prop :=
  on_StatusUpdate KServiceClaim
    (λ cl o _, cl = Manager ∧ scst_State (sc_Status o) = ServiceClaimStateResolved) ev.
(** The status of some registered service is updated. *)
Definition updates_service (ev : kevent) : Prop :=
  on_StatusUpdate KRegisteredService (λ _ _ _, True) ev.
Definition sets_service (rs : RegisteredService) (state : string) (ev : kevent) : Prop :=
  on_StatusUpdate KRegisteredService (λ cl o _, cl = Manager ∧ o = rs_set_State rs state) ev.

(** Nothing of the claim is visible outside yet. *)
Definition quiet (ev : kevent) : Prop :=
  ¬ updates_service ev ∧ ¬ pushes (projT1 ev) ∧ ¬ resolves ev.
Definition in_push (ev : kevent) : Prop := ¬ updates_service ev ∧ ¬ resolves ev.

Lemma quiet_of_read ev : ¬ is_write (projT1 ev) → quiet ev.
Proof. destruct ev as [[] r]; try (simpl; tauto); intros _; repeat split; not_event. Qed.
Lemma quiet_of_remote ev : remote_status_call (projT1 ev) → quiet ev.
Proof.
  destruct ev as [[] r]; try (intros H; by apply quiet_of_read).
  destruct cl, k; simpl; try tauto. intros _. repeat split; try not_event.
  by intros [? _].
Qed.
Lemma in_push_of_push ev : push_call (projT1 ev) → in_push ev.
Proof.
  destruct ev as [[] r]; try (intros H; apply quiet_of_read in H; split; apply H);
    intros _; split; not_event.
Qed.
Lemma quiet_in_push ev : quiet ev → in_push ev.
Proof. intros (? & _ & ?). by split. Qed.

Section Phases.
  Context `{KubeconfigLib}.

Lemma only_calls_environment sclaim :
  only_calls legal (λ c, ¬ is_write c) (claim_environment sclaim).
Proof.
  unfold claim_environment, target, getEnvironmentFromClusterEnvironment. calls; simpl; tauto.
Qed.

Lemma only_calls_extract ns rs keys secret :
  only_calls legal (λ c, ¬ is_write c) (extractServiceEndpointDefinition ns rs keys secret).
Proof. unfold extractServiceEndpointDefinition. calls; simpl; tauto. Qed.

Lemma only_calls_getSecret cl ns n :
  only_calls legal (λ c, ¬ is_write c) (ClusterContext.getSecret cl ns n).
Proof. unfold ClusterContext.getSecret. calls; simpl; tauto. Qed.
Lemma only_calls_rest_config cl ns n :
  only_calls legal (λ c, ¬ is_write c) (ClusterContext.GetClusterRESTConfig cl ns n).
Proof. unfold ClusterContext.GetClusterRESTConfig. calls. apply only_calls_getSecret. Qed.

Lemma only_calls_remote_status sclaim :
  only_calls legal remote_status_call (updateRemoteServiceClaimStatusIfNeeded sclaim).
Proof.
  unfold updateRemoteServiceClaimStatusIfNeeded, target, getEnvironmentFromClusterEnvironment.
  calls; try (simpl; tauto).
  eapply only_calls_mono; [apply only_calls_rest_config|]. intros c; destruct c; simpl; tauto.
Qed.

(** The control plane's update comes first; the rest is reads and the remote one. *)
Lemma wp_updateServiceClaimStatus sclaim :
  kwp (updateServiceClaimStatus sclaim) (λ t out,
    ∃ r t', t = Ev (CStatusUpdate Manager KServiceClaim sclaim) r :: t' ∧
            Forall (λ ev : kevent, remote_status_call (projT1 ev)) t' ∧
            (∀ sc', out = Done (sc', None) → ∃ o, r = Ok o)).
Proof.
  unfold updateServiceClaimStatus. wcall r Hr. cbv beta. destruct r as [sc'|e]; wflow.
  - eapply (wp_bind_spec legal); [apply only_calls_remote_status| |].
    + intros t err Ht. wflow. rewrite app_nil_r. exists (Ok sc'), t. eauto.
    + intros t h Ht. exists (Ok sc'), t. eauto.
  - exists (Err e), []. split; [done|]. split; [constructor|]. by intros sc' [=].
Qed.

Lemma only_calls_PushServiceBinding sclaim secret nspace nss cfg :
  only_calls legal push_call (PushServiceBinding sclaim secret nspace nss cfg).
Proof.
  unfold PushServiceBinding, pushServiceBindingToNamespace, mutate_binding.
  calls; simpl; tauto.
Qed.

Lemma only_calls_push_config cl ns n :
  only_calls legal push_call (ClusterContext.GetClusterRESTConfig cl ns n).
Proof.
  eapply only_calls_mono; [apply only_calls_rest_config|]. intros c; destruct c; simpl; tauto.
Qed.

Lemma only_calls_push_environments sclaim tag ces secret errs :
  only_calls legal push_call (push_environments sclaim tag ces secret errs).
Proof.
  revert secret errs. induction ces as [|ce ces IH]; intros secret errs;
    cbn [push_environments]; calls; try done.
  - apply only_calls_push_config.
  - apply only_calls_PushServiceBinding.
Qed.

Lemma only_calls_push sclaim secret :
  only_calls legal push_call (pushToClusterEnvironments sclaim secret).
Proof.
  unfold pushToClusterEnvironments, target, getEnvironmentFromClusterEnvironment.
  calls; try (simpl; tauto); try apply only_calls_push_config;
    try apply only_calls_PushServiceBinding; apply only_calls_push_environments.
Qed.

(** ** What claiming does, phase by phase *)

(** A service serves a claim in an environment. *)
Record serves (sclaim : ServiceClaim) (env : string) (rs : RegisteredService) : Prop := {
  serves_available : rsst_State (rs_Status rs) = RegisteredServiceStateAvailable;
  serves_identity :
    elems (scs_ServiceClassIdentity (sc_Spec sclaim)) ⊆+ elems (rss_ServiceClassIdentity (rs_Spec rs));
  serves_env : ∀ c, rss_Constraints (rs_Spec rs) = Some c → Match env (rsc_Environments c) = true }.

Lemma claimable_serves sclaim env rs : claimable sclaim env rs = true ↔ serves sclaim env rs.
Proof.
  unfold claimable, env_matches.
  rewrite !andb_true_iff, bool_decide_eq_true, checkSCISubset_submseteq.
  split; [intros [[? ?] He]|intros [? ? He]].
  - split; [done|done|]. intros c Hc. by rewrite Hc in He.
  - split; [done|]. destruct (rss_Constraints _) as [c|]; [by apply He|done].
Qed.

(** The first service of the list that serves the claim. *)
Definition first_serving (rsl : list RegisteredService) (sclaim : ServiceClaim) (env : string)
    (rs : RegisteredService) : Prop :=
  ∃ l1 l2, rsl = l1 ++ rs :: l2 ∧ serves sclaim env rs ∧ Forall (λ r, ¬ serves sclaim env r) l1.

Lemma first_serving_find rsl sclaim env rs :
  find_first (claimable sclaim env) rsl = Some rs ↔ first_serving rsl sclaim env rs.
Proof.
  unfold first_serving. rewrite find_first_Some.
  split; intros (l1 & l2 & -> & Hrs & Hl); exists l1, l2; (split; [done|]);
    (split; [by apply claimable_serves|]); (eapply Forall_impl; [exact Hl|]); intros r; simpl.
  - intros Hf Hs%claimable_serves. congruence.
  - rewrite <- claimable_serves. by intros ?%not_true_is_false.
Qed.

(** The environment was determined at the start of the run, and the service is the
    first of the list that serves the claim there. *)
Definition chosen (rsl : list RegisteredService) (sclaim : ServiceClaim) (t : list kevent)
    (rs : RegisteredService) : Prop :=
  ∃ env t0 t', t = t0 ++ t' ∧ kexec (claim_environment sclaim) t0 (Done (Ok env)) ∧
               first_serving rsl sclaim env rs.

Definition claimed_ok (rs : RegisteredService) (o : RegisteredService) : kevent :=
  Ev (Answer := Answer)
    (CStatusUpdate Manager KRegisteredService (rs_set_State rs RegisteredServiceStateClaimed)) (Ok o).
Definition claim_failed (rs : RegisteredService) (e : gerr) : kevent :=
  Ev (Answer := Answer)
    (CStatusUpdate Manager KRegisteredService (rs_set_State rs RegisteredServiceStateClaimed)) (Err e).
Definition freed (rs : RegisteredService) (r : result RegisteredService) : kevent :=
  Ev (Answer := Answer)
    (CStatusUpdate Manager KRegisteredService (rs_set_State rs RegisteredServiceStateAvailable)) r.
Definition resolved (sc : ServiceClaim) (r : result ServiceClaim) : kevent :=
  Ev (Answer := Answer) (CStatusUpdate Manager KServiceClaim sc) r.

(** A push to the cluster environments, within these events, returned this error. *)
Definition push_failed (e : gerr) (t : list kevent) : Prop :=
  ∃ sclaim secret, kexec (pushToClusterEnvironments sclaim secret) t (Done (Some e)).

Inductive ClaimTrace (rsl : list RegisteredService) (sclaim : ServiceClaim)
    : list kevent → outcome (option gerr) → Prop :=
(** Nothing was claimed: the run ends in an error (or a panic). *)
| CT_unclaimed t out :
    Forall quiet t → out ≠ Done None → ClaimTrace rsl sclaim t out
(** The service could not be marked as claimed. *)
| CT_claim_failed t rs e :
    Forall quiet t → chosen rsl sclaim t rs →
    ClaimTrace rsl sclaim (t ++ [claim_failed rs e]) (Done (Some e))
(** Claimed, then a panic while pushing. *)
| CT_push_halted t rs o t' h :
    Forall quiet t → chosen rsl sclaim t rs → Forall in_push t' →
    ClaimTrace rsl sclaim (t ++ claimed_ok rs o :: t') (Halted h)
(** Claimed, the push failed, and the service was set back to available. *)
| CT_rolled_back t rs o t' e r :
    Forall quiet t → chosen rsl sclaim t rs → Forall in_push t' → push_failed e t' →
    ClaimTrace rsl sclaim (t ++ claimed_ok rs o :: t' ++ [freed rs r]) (Done (IgnoreNotFound (Some e)))
(** Claimed, pushed, and the claim was set to resolved. *)
| CT_resolved t rs o t' sc r t'' out :
    Forall quiet t → chosen rsl sclaim t rs → Forall in_push t' →
    scst_State (sc_Status sc) = ServiceClaimStateResolved →
    scst_RegisteredService (sc_Status sc) =
      Some {| ref_Name := om_Name (rs_meta rs); ref_UID := om_UID (rs_meta rs) |} →
    Forall quiet t'' → (out = Done None → ∃ sc', r = Ok sc') →
    ClaimTrace rsl sclaim (t ++ claimed_ok rs o :: t' ++ resolved sc r :: t'') out.

Lemma quiet_status sc r :
  scst_State (sc_Status sc) ≠ ServiceClaimStateResolved → quiet (resolved sc r).
Proof. intros Hs. repeat split; try not_event. intros Hres. apply Hs, Hres. Qed.

Lemma quiet_remotes t :
  Forall (λ ev : kevent, remote_status_call (projT1 ev)) t → Forall quiet t.
Proof. intros Ht. eapply Forall_impl; [exact Ht|]. apply quiet_of_remote. Qed.
Lemma quiet_reads t : Forall (λ ev : kevent, ¬ is_write (projT1 ev)) t → Forall quiet t.
Proof. intros Ht. eapply Forall_impl; [exact Ht|]. apply quiet_of_read. Qed.
Lemma in_push_pushes t : Forall (λ ev : kevent, push_call (projT1 ev)) t → Forall in_push t.
Proof. intros Ht. eapply Forall_impl; [exact Ht|]. apply in_push_of_push. Qed.

(** An update of the claim to a state other than resolved is quiet. *)
Lemma wp_update_quiet sclaim :
  scst_State (sc_Status sclaim) ≠ ServiceClaimStateResolved →
  kwp (updateServiceClaimStatus sclaim) (λ t _, Forall quiet t).
Proof.
  intros Hs. eapply wp_mono; [apply wp_updateServiceClaimStatus|].
  intros t out (r & t' & -> & Ht & _). constructor; [by apply quiet_status|by apply quiet_remotes].
Qed.

Lemma wp_leave_pending sclaim msg :
  kwp (leave_pending sclaim msg) (λ t out, Forall quiet t ∧ out ≠ Done None).
Proof.
  unfold leave_pending. wcall now Hnow. cbv beta.
  eapply (wp_bind_spec legal); [apply wp_SetStatusCondition| |].
  2: { by intros t h (_ & cs & [=] & _). }
  intros t cs [Hnows _].
  assert (Forall quiet (Ev CNow now :: t)).
  { constructor; [apply quiet_of_read; not_event|]. eapply Forall_impl; [exact Hnows|].
    intros ev Hev. apply quiet_of_read. rewrite Hev. simpl. tauto. }
  eapply (wp_bind_spec legal); [apply wp_update_quiet; done| |].
  - intros t' [sc err] Ht'. wflow; rewrite app_nil_r; (split; [|done]);
      rewrite app_comm_cons; by apply Forall_app.
  - intros t' h Ht'. split; [|done]. rewrite app_comm_cons. by apply Forall_app.
Qed.

Lemma wp_changeServiceState {A} rs state (f : option gerr → M A) Q :
  (∀ r, kwp (f (result_err r))
          (λ t o, Q (Ev (CStatusUpdate Manager KRegisteredService (rs_set_State rs state)) r :: t) o)) →
  kwp (changeServiceState rs state ≫= f) Q.
Proof. intros Hf. unfold changeServiceState. wcall r Hr. cbv beta. wflow. apply Hf. Qed.

(** The part of [processServiceClaim] after the service is claimed: the pushes, then
    either the rollback or the resolution. *)
Lemma wp_after_claim (P : list kevent → outcome (option gerr) → Prop) rs sclaim secret
    (ignore : option gerr → option gerr) :
  scst_State (sc_Status sclaim) = ServiceClaimStateResolved →
  (∀ t' h, Forall in_push t' → P t' (Halted h)) →
  (∀ t' e r, Forall in_push t' → push_failed e t' → P (t' ++ [freed rs r]) (Done (ignore (Some e)))) →
  (∀ t' r t'' out, Forall in_push t' → Forall quiet t'' →
     (out = Done None → ∃ sc', r = Ok sc') → P (t' ++ resolved sclaim r :: t'') out) →
  kwp (err ← pushToClusterEnvironments sclaim secret;
       match err with
       | Some err =>
           _ ← changeServiceState rs RegisteredServiceStateAvailable;
           mret (ignore (Some err))
       | None =>
           '(_, err) ← updateServiceClaimStatus sclaim;
           mret err
       end) P.
Proof.
  intros Hs Hhalt Hroll Hres.
  eapply (wp_bind_spec legal (λ t out, kexec (pushToClusterEnvironments sclaim secret) t out ∧
                                       Forall in_push t)).
  { intros t out Hex. split; [done|]. by apply in_push_pushes, (only_calls_push sclaim secret t out). }
  2: { intros t h [_ Ht]. by apply Hhalt. }
  intros t err [Hex Ht]. wflow.
  - unfold changeServiceState. wcall r Hr. cbv beta. wflow. apply Hroll; [done|]. by exists sclaim, secret.
  - eapply (wp_bind_spec legal); [apply wp_updateServiceClaimStatus| |].
    + intros t2 [sc' err'] (r & t' & -> & Ht' & Hok). wflow. rewrite app_nil_r.
      apply Hres; [done|by apply quiet_remotes|]. intros [= ->]. by eapply Hok.
    + intros t2 h (r & t' & -> & Ht' & _). apply Hres; [done|by apply quiet_remotes|done].
Qed.

Lemma wp_processServiceClaim rsl sclaim :
  kwp (processServiceClaim rsl sclaim) (ClaimTrace rsl sclaim).
Proof.
  unfold processServiceClaim.
  eapply (wp_bind_spec legal (λ t out, kexec (claim_environment sclaim) t out ∧ Forall quiet t)).
  { intros t out Hex. split; [done|]. by apply quiet_reads, (only_calls_environment sclaim t out). }
  2: { intros t h [_ Ht]. by constructor. }
  intros t0 [env|e] [Henv Ht0]; cbv beta iota.
  2: { wflow. rewrite app_nil_r. by constructor. }
  destruct (find_first (claimable sclaim env) rsl) as [rs|] eqn:Hf.
  2: { eapply wp_mono; [apply wp_leave_pending|]. intros t out [Ht Ho].
       constructor; [by apply Forall_app|done]. }
  apply first_serving_find in Hf.
  assert (Hch : ∀ t', chosen rsl sclaim (t0 ++ t') rs) by (intros t'; by exists env, t0, t').
  eapply (wp_bind_spec legal); [apply only_calls_extract| |].
  2: { intros t h Ht. constructor; [apply Forall_app; split; [done|by apply quiet_reads]|done]. }
  intros t1 [secret count] Ht1. apply quiet_reads in Ht1. cbv beta iota.
  destruct (bool_decide _).
  { eapply wp_mono; [apply wp_leave_pending|]. intros t out [Ht Ho].
    constructor; [by repeat apply Forall_app_2|done]. }
  eapply (wp_bind_spec legal (λ t out, Forall quiet t)); [by apply wp_update_quiet| |].
  2: { intros t h Ht. constructor; [by repeat apply Forall_app_2|done]. }
  intros t2 [sc' err] Ht2. cbv beta iota.
  assert (Hq : Forall quiet (t0 ++ t1 ++ t2)) by by repeat apply Forall_app_2.
  destruct err as [err|]; [wflow; rewrite app_nil_r; by constructor|].
  apply wp_changeServiceState. intros [o|e]; cbn [result_err].
  2: { wflow. replace (t0 ++ t1 ++ t2 ++ _) with ((t0 ++ t1 ++ t2) ++ [claim_failed rs e])
         by by rewrite <- !app_assoc. by constructor. }
  assert (Hre : ∀ t, t0 ++ t1 ++ t2 ++ claimed_ok rs o :: t = (t0 ++ t1 ++ t2) ++ claimed_ok rs o :: t)
    by (intros; by rewrite <- !app_assoc).
  simpl. apply wp_after_claim; [done|..].
  - intros t' h Ht'. fold (claimed_ok rs o). rewrite Hre. by constructor.
  - intros t' e r Ht' He. fold (claimed_ok rs o). rewrite Hre. by constructor.
  - intros t' r t'' out Ht' Ht'' Hok. fold (claimed_ok rs o). rewrite Hre. by constructor.
Qed.

(** ** The claim protocol: properties *)

(** C8: a claim only ever touches one registered service: the first of the list
    that is available, whose identity contains the claim's (with multiplicity) and
    whose constraints accept the claim's environment; and it only ever marks it
    claimed or available, leaving the rest of the object as it was listed. *)
Theorem processServiceClaim_service rsl sclaim :
  kwp (processServiceClaim rsl sclaim) (λ t _,
    Forall (λ ev, ¬ updates_service ev) t ∨
    ∃ rs, chosen rsl sclaim t rs ∧
      Forall (λ ev, updates_service ev →
                sets_service rs RegisteredServiceStateClaimed ev ∨
                sets_service rs RegisteredServiceStateAvailable ev) t).
Proof.
  eapply wp_mono; [apply wp_processServiceClaim|]. intros t out Ht.
  assert (Hq : ∀ (P : kevent → Prop) u, Forall quiet u → Forall (λ ev, updates_service ev → P ev) u).
  { intros P u Hu. eapply Forall_impl; [exact Hu|]. by intros ev (? & _) ?. }
  assert (Hp : ∀ (P : kevent → Prop) u, Forall in_push u → Forall (λ ev, updates_service ev → P ev) u).
  { intros P u Hu. eapply Forall_impl; [exact Hu|]. by intros ev (? & _) ?. }
  assert (Hch : ∀ u u' rs, chosen rsl sclaim u rs → chosen rsl sclaim (u ++ u') rs).
  { intros u u' rs (env & t0 & t1 & -> & ? & ?). exists env, t0, (t1 ++ u'). by rewrite app_assoc. }
  destruct Ht as [t out Ht _|t rs e Ht Hc|t rs o t' h Ht Hc Ht'|t rs o t' e r Ht Hc Ht' _
                 |t rs o t' sc r t'' out Ht Hc Ht' _ _ Ht'' _].
  { left. eapply Forall_impl; [exact Ht|]. by intros ev (? & _). }
  all: right; exists rs; (split; [by apply Hch|]); apply Forall_app; (split; [by apply Hq|]);
    (apply Forall_cons_2; [intros _; left; done|]).
  - constructor.
  - by apply Hp.
  - apply Forall_app. split; [by apply Hp|]. constructor; [intros _; right; done|constructor].
  - apply Forall_app. split; [by apply Hp|]. constructor; [by intros []|by apply Hq].
Qed.

(** Nothing is created or updated in a worker cluster for a claim before its
    registered service has successfully been marked as claimed. *)
Theorem processServiceClaim_claims_before_push rsl sclaim :
  kwp (processServiceClaim rsl sclaim) (λ t _,
    preceded (λ ev, on_StatusUpdate KRegisteredService
                (λ cl o r, cl = Manager ∧ rsst_State (rs_Status o) = RegisteredServiceStateClaimed ∧
                           is_Some (match r with Ok o => Some o | Err _ => None end)) ev)
             (λ ev, pushes (projT1 ev)) t).
Proof.
  eapply wp_mono; [apply wp_processServiceClaim|]. intros t out Ht.
  assert (Hq : ∀ u, Forall quiet u → Forall (λ ev : kevent, ¬ pushes (projT1 ev)) u).
  { intros u Hu. eapply Forall_impl; [exact Hu|]. by intros ev (_ & ? & _). }
  destruct Ht as [t out Ht _|t rs e Ht Hc|t rs o t' h Ht Hc Ht'|t rs o t' e r Ht Hc Ht' _
                 |t rs o t' sc r t'' out Ht Hc Ht' _ _ Ht'' _].
  - apply preceded_none, Hq, Ht.
  - apply preceded_none, Forall_app. split; [by apply Hq|]. constructor; [not_event|constructor].
  - apply preceded_by; [by apply Hq|by repeat econstructor|not_event].
  - apply preceded_by; [by apply Hq|by repeat econstructor|not_event].
  - apply preceded_by; [by apply Hq|by repeat econstructor|not_event].
Qed.

(** The state of some registered service is set. *)
Definition marks (state : string) (ev : kevent) : Prop :=
  on_StatusUpdate KRegisteredService
    (λ cl o _, cl = Manager ∧ rsst_State (rs_Status o) = state) ev.

Lemma marks_updates state ev : marks state ev → updates_service ev.
Proof. destruct ev as [[] r]; try done. by destruct k. Qed.

(** How claiming ends.  When the claim is set to resolved, the service it names
    was successfully marked as claimed, and no service is set back to available; and
    a run that returns no error has resolved the claim or else, when the push failed
    because something was not found, has asked for the service to be set back to
    available. *)
Theorem processServiceClaim_outcome rsl sclaim :
  kwp (processServiceClaim rsl sclaim) (λ t out,
    (Exists resolves t →
       Forall (λ ev, ¬ marks RegisteredServiceStateAvailable ev) t ∧
       ∃ rs o sc r, claimed_ok rs o ∈ t ∧ resolved sc r ∈ t ∧
         scst_State (sc_Status sc) = ServiceClaimStateResolved ∧
         scst_RegisteredService (sc_Status sc) =
           Some {| ref_Name := om_Name (rs_meta rs); ref_UID := om_UID (rs_meta rs) |}) ∧
    (out = Done None →
       Exists resolves t ∨
       (Exists (marks RegisteredServiceStateAvailable) t ∧ Forall (λ ev, ¬ resolves ev) t))).
Proof.
  eapply wp_mono; [apply wp_processServiceClaim|]. intros t out Ht.
  assert (Hqr : ∀ u, Forall quiet u → Forall (λ ev, ¬ resolves ev) u).
  { intros u Hu. eapply Forall_impl; [exact Hu|]. by intros ev (_ & _ & ?). }
  assert (Hpr : ∀ u, Forall in_push u → Forall (λ ev, ¬ resolves ev) u).
  { intros u Hu. eapply Forall_impl; [exact Hu|]. by intros ev (_ & ?). }
  assert (Hqm : ∀ st u, Forall quiet u → Forall (λ ev, ¬ marks st ev) u).
  { intros st u Hu. eapply Forall_impl; [exact Hu|]. by intros ev (Hn & _) ?%marks_updates. }
  assert (Hpm : ∀ st u, Forall in_push u → Forall (λ ev, ¬ marks st ev) u).
  { intros st u Hu. eapply Forall_impl; [exact Hu|]. by intros ev (Hn & _) ?%marks_updates. }
  assert (Hno : ∀ u (P : Prop), Forall (λ ev, ¬ resolves ev) u → Exists resolves u → P).
  { intros u P Hu (ev & Hin & Hev)%Exists_exists. rewrite Forall_forall in Hu. by destruct (Hu ev Hin). }
  destruct Ht as [t out Ht Ho|t rs e Ht Hc|t rs o t' h Ht Hc Ht'|t rs o t' e r Ht Hc Ht' _
                 |t rs o t' sc r t'' out Ht Hc Ht' Hst Hrs Ht'' Hok].
  - split; [by apply Hno, Hqr|done].
  - split; [|done]. apply Hno, Forall_app. split; [by apply Hqr|].
    constructor; [not_event|constructor].
  - split; [|done]. apply Hno, Forall_app. split; [by apply Hqr|].
    constructor; [not_event|by apply Hpr].
  - assert (Forall (λ ev, ¬ resolves ev) (t ++ claimed_ok rs o :: t' ++ [freed rs r])) as Hnone.
    { apply Forall_app_cons; [by apply Hqr|not_event|]. apply Forall_app_cons; [by apply Hpr|not_event|constructor]. }
    split; [by apply Hno|]. intros _. right. split; [|done].
    apply Exists_app. right. apply Exists_cons_tl, Exists_app. right. by constructor.
  - split.
    + intros _. split.
      * apply Forall_app_cons; [by apply Hqm|by intros [_ ?]|].
        apply Forall_app_cons; [by apply Hpm|not_event|by apply Hqm].
      * exists rs, o, sc, r. split; [set_solver|]. split; [|done].
        apply elem_of_app. right. apply elem_of_cons. right. set_solver.
    + intros _. left. apply Exists_app. right. apply Exists_cons_tl, Exists_app. right. by constructor.
Qed.

(** ** Deletion: properties *)

(** The claim itself is not updated (its status may be). *)
Definition not_claim_update (c : Call) : Prop :=
  match c with CUpdate _ KServiceClaim _ => False | _ => True end.

Lemma only_calls_not_claim_update {A} (P : Call → Prop) (p : M A) :
  (∀ c, P c → not_claim_update c) → only_calls legal P p → only_calls legal not_claim_update p.
Proof. intros Hi Hp. by eapply only_calls_mono. Qed.

Lemma reads_not_claim_update c : ¬ is_write c → not_claim_update c.
Proof. by destruct c. Qed.
Lemma remote_not_claim_update c : remote_status_call c → not_claim_update c.
Proof. destruct c; try done; intros Hc; by apply reads_not_claim_update. Qed.

Lemma update_status_not_claim_update sclaim :
  only_calls legal not_claim_update (updateServiceClaimStatus sclaim).
Proof.
  unfold updateServiceClaimStatus. calls; [done|].
  eapply only_calls_not_claim_update; [apply remote_not_claim_update|apply only_calls_remote_status].
Qed.

Lemma PushServiceBinding_not_claim_update sclaim secret nspace nss cfg :
  only_calls legal not_claim_update (PushServiceBinding sclaim secret nspace nss cfg).
Proof.
  unfold PushServiceBinding, pushServiceBindingToNamespace, mutate_binding. calls; simpl; tauto.
Qed.

Lemma rest_config_not_claim_update cl ns n :
  only_calls legal not_claim_update (ClusterContext.GetClusterRESTConfig cl ns n).
Proof.
  eapply only_calls_not_claim_update; [apply reads_not_claim_update|apply only_calls_rest_config].
Qed.

Lemma push_not_claim_update sclaim secret :
  only_calls legal not_claim_update (pushToClusterEnvironments sclaim secret).
Proof.
  assert (Hloop : ∀ tag ces secret errs,
    only_calls legal not_claim_update (push_environments sclaim tag ces secret errs)).
  { intros tag ces. induction ces as [|ce ces IH]; intros s errs; cbn [push_environments];
      calls; try done; [apply rest_config_not_claim_update|apply PushServiceBinding_not_claim_update]. }
  unfold pushToClusterEnvironments, target, getEnvironmentFromClusterEnvironment.
  calls; try (simpl; tauto); try apply rest_config_not_claim_update;
    try apply PushServiceBinding_not_claim_update; apply Hloop.
Qed.

Lemma extract_not_claim_update ns rs keys secret :
  only_calls legal not_claim_update (extractServiceEndpointDefinition ns rs keys secret).
Proof.
  eapply only_calls_not_claim_update; [apply reads_not_claim_update|apply only_calls_extract].
Qed.

Lemma processServiceClaim_not_claim_update rsl sclaim :
  only_calls legal not_claim_update (processServiceClaim rsl sclaim).
Proof.
  assert (Hl : ∀ sc msg, only_calls legal not_claim_update (leave_pending sc msg)).
  { intros sc msg. unfold leave_pending. calls; try (simpl; tauto).
    apply update_status_not_claim_update. }
  unfold processServiceClaim, changeServiceState. calls;
    try apply extract_not_claim_update; try apply update_status_not_claim_update;
    try apply push_not_claim_update; try apply Hl; try (simpl; tauto).
  eapply only_calls_not_claim_update; [apply reads_not_claim_update|apply only_calls_environment].
Qed.

Lemma processResolvedServiceClaim_not_claim_update sclaim :
  only_calls legal not_claim_update (processResolvedServiceClaim sclaim).
Proof.
  unfold processResolvedServiceClaim, getServiceEndpointDefinition, changeServiceState. calls;
    try apply extract_not_claim_update; try apply update_status_not_claim_update;
    try apply push_not_claim_update; simpl; tauto.
Qed.

(** A claim's object is written back without its finalizer. *)
Definition drops_finalizer (ev : kevent) : Prop :=
  on_Update KServiceClaim
    (λ _ o _, ContainsFinalizer (k := KServiceClaim) o ServiceClaimFinalizer = false) ev.

Lemma drops_not_claim_update {A} (p : M A) :
  only_calls legal not_claim_update p →
  kwp p (λ t _, Forall (λ ev, ¬ drops_finalizer ev) t).
Proof.
  intros Hp. eapply wp_mono; [exact Hp|]. intros t o Ht.
  eapply Forall_impl; [exact Ht|]. intros [[] r] Hc Hdrop; try done. destruct k; done.
Qed.

Lemma no_drop_False (t : list kevent) (P : Prop) :
  Forall (λ ev, ¬ drops_finalizer ev) t → Exists drops_finalizer t → P.
Proof.
  intros Hn (ev & Hin & Hev)%Exists_exists. rewrite Forall_forall in Hn. by destruct (Hn ev Hin).
Qed.

Lemma keeps_no_drop (o : ServiceClaim) r :
  ContainsFinalizer (k := KServiceClaim) o ServiceClaimFinalizer = true →
  ¬ drops_finalizer (Ev (CUpdate Manager KServiceClaim o) r).
Proof.
  intros Hc Hd. change (ContainsFinalizer (k := KServiceClaim) o ServiceClaimFinalizer = false) in Hd.
  congruence.
Qed.

(** The bindings of a claim were deleted, without an error, within these events. *)
Definition bindings_deleted (sclaim : ServiceClaim) (t : list kevent) : Prop :=
  ∃ t1 t2 t3, t = t1 ++ t2 ++ t3 ∧ kexec (DeleteServiceBindingsAndSecret sclaim) t2 (Done None).

Lemma find_to_free_reads sclaim rsl :
  only_calls legal (λ c, ¬ is_write c) (find_service_to_free sclaim rsl).
Proof. induction rsl as [|rs rsl IH]; cbn [find_service_to_free]; unfold target; calls; done. Qed.

Lemma wp_processClaimMarkedForDeletion req sclaim :
  kwp (processClaimMarkedForDeletion req sclaim) (λ t out,
    Forall (λ ev, ¬ drops_finalizer ev) t ∧ (out = Done None → bindings_deleted sclaim t)).
Proof.
  assert (Hd : only_calls legal not_claim_update (DeleteServiceBindingsAndSecret sclaim)).
  { assert (Hc : ∀ ce, only_calls legal not_claim_update (ClusterContext.CreateClient Manager ce)).
    { intros ce. unfold ClusterContext.CreateClient. calls; [apply rest_config_not_claim_update|done]. }
    assert (Hloop : ∀ tag ces errs,
      only_calls legal not_claim_update (delete_environments sclaim tag ces errs)).
    { intros tag ces. induction ces as [|ce ces IH]; intros errs; cbn [delete_environments];
        unfold DeleteServiceBindingAndSecretFromNamespaces; calls; try apply Hc; try apply IH; done. }
    unfold DeleteServiceBindingsAndSecret, target, getEnvironmentFromClusterEnvironment,
      DeleteServiceBindingAndSecretFromNamespaces.
    calls; try apply Hc; try apply Hloop; done. }
  unfold processClaimMarkedForDeletion. wcall rsl Hrsl. cbv beta.
  eapply (wp_bind_spec legal); [apply (drops_not_claim_update _), only_calls_not_claim_update with (2 := find_to_free_reads _ _), reads_not_claim_update| |].
  2: { intros t h Ht. split; [|done]. apply Forall_cons_2; [not_event|done]. }
  intros t1 found Ht1. cbv beta.
  eapply (wp_bind_spec legal (λ t out, kexec (DeleteServiceBindingsAndSecret sclaim) t out ∧
                                Forall (λ ev, ¬ drops_finalizer ev) t)).
  { intros t out Hex. split; [done|]. by apply (drops_not_claim_update _ Hd t out). }
  2: { intros t h [_ Ht]. split; [|done]. apply Forall_cons_2; [not_event|by apply Forall_app]. }
  intros t2 derr [Hex Ht2]. cbv beta. unfold changeServiceState.
  assert (Hj : ∀ errs cerr, errors_join (errs ++ [derr; cerr]) = None → derr = None).
  { intros errs cerr [_ [Hde _]%Forall_cons]%errors_join_None%Forall_app. done. }
  destruct found as [rs|].
  - wcall r Hr. cbv beta. wflow. split.
    + apply Forall_cons_2; [not_event|]. apply Forall_app. split; [done|].
      apply Forall_app. split; [done|]. apply Forall_cons_2; [not_event|constructor].
    + intros [= ->%Hj]. by exists (Ev _ rsl :: t1), t2, [Ev _ r].
  - wflow. rewrite app_nil_r. split.
    + apply Forall_cons_2; [not_event|]. by apply Forall_app.
    + intros [= ->%Hj]. exists (Ev _ rsl :: t1), t2, []. by rewrite app_nil_r.
Qed.

(** C11: the finalizer of a claim is removed only from a claim that is being deleted,
    by the last call of the run, and only after all its service bindings have been
    deleted without an error. *)
Theorem Reconcile_finalizer req :
  kwp (Reconcile req) (λ t _,
    Exists drops_finalizer t →
    ∃ sclaim t' r,
      t = Ev (CGet Manager KServiceClaim req) (Ok sclaim) :: t' ++
          [Ev (CUpdate Manager KServiceClaim
                 (RemoveFinalizer (k := KServiceClaim) sclaim ServiceClaimFinalizer).1) r] ∧
      HasDeletionTimestamp (sc_meta sclaim) = true ∧ bindings_deleted sclaim t').
Proof.
  unfold Reconcile. wcall got Hgot. cbv beta. destruct got as [sclaim|e].
  2: { wflow. apply no_drop_False. apply Forall_cons_2; [not_event|constructor]. }
  destruct (HasDeletionTimestamp (sc_meta sclaim)) eqn:Hdel.
  - destruct (ContainsFinalizer _ _).
    2: { wflow. apply no_drop_False. apply Forall_cons_2; [not_event|constructor]. }
    eapply (wp_bind_spec legal); [apply wp_processClaimMarkedForDeletion| |].
    2: { intros t h [Ht _]. apply no_drop_False. apply Forall_cons_2; [not_event|done]. }
    intros t [e|] [Ht Hb].
    + wflow. rewrite app_nil_r. apply no_drop_False. apply Forall_cons_2; [not_event|done].
    + rewrite (surjective_pairing (RemoveFinalizer (k := KServiceClaim) sclaim ServiceClaimFinalizer)).
      destruct (negb _); [wflow; rewrite app_nil_r; apply no_drop_False;
                          apply Forall_cons_2; [not_event|done]|].
      wcall r Hr. cbv beta. wflow. intros _. exists sclaim, t, r. auto.
  - pose proof (AddFinalizer_contains (k := KServiceClaim) sclaim ServiceClaimFinalizer) as Hadd.
    destruct (AddFinalizer (k := KServiceClaim) sclaim ServiceClaimFinalizer) as [sc1 added].
    cbn [fst] in Hadd.
    assert (Hrest : ∀ sc, kwp ('(sclaim, err) ← ensureServiceClaimIsInitialized sc;
        match err with
        | Some err => mret (Some err)
        | None => if ⟪ scst_State (sc_Status sclaim) = ServiceClaimStateResolved ⟫ then
                    processResolvedServiceClaim sclaim else processClaim req sclaim
        end) (λ t _, Forall (λ ev, ¬ drops_finalizer ev) t)).
    { intros sc. apply drops_not_claim_update.
      unfold ensureServiceClaimIsInitialized, processClaim. calls;
        try apply processResolvedServiceClaim_not_claim_update;
        try apply processServiceClaim_not_claim_update; done. }
    destruct added.
    + wcall r Hr. cbv beta. destruct r as [sc2|e]; wflow.
      * eapply wp_mono; [apply Hrest|]. intros t o Ht. apply no_drop_False.
        do 2 (apply Forall_cons_2; [first [not_event|by apply keeps_no_drop]|]). done.
      * apply no_drop_False. do 2 (apply Forall_cons_2; [first [not_event|by apply keeps_no_drop]|]). constructor.
    + wflow. eapply wp_mono; [apply Hrest|]. intros t o Ht. apply no_drop_False.
      apply Forall_cons_2; [not_event|done].
Qed.

(** ** The pushed secret: properties *)

Lemma put_identity_lookup scis secret k :
  sec_StringData (put_identity scis secret) !! k =
  match find_first (λ sci, ⟪ sci_Name sci = k ⟫) (reverse scis) with
  | Some sci => Some (sci_Value sci)
  | None => sec_StringData secret !! k
  end.
Proof.
  unfold put_identity. induction scis as [|sci scis IH] using rev_ind; [done|].
  rewrite foldl_app, reverse_app. simpl.
  case_bool_decide as Hk; [subst; apply lookup_insert_eq|].
  by rewrite lookup_insert_ne.
Qed.

(** An entry of the secret that comes from the registered service: a requested key,
    with the literal value of an entry of that name or with what was read from the
    secret it refers to. *)
Definition from_service (ns : string) (rs : RegisteredService) (keys : list string)
    (t : list kevent) (k v : string) : Prop :=
  k ∈ keys ∧ ∃ sed, sed ∈ elems (rss_ServiceEndpointDefinition (rs_Spec rs)) ∧ sedi_Name sed = k ∧
    ((sedi_Value sed = v ∧ v ≠ "") ∨
     (sedi_Value sed = "" ∧ ∃ vs sec, sedi_ValueFromSecret sed = Some vs ∧ sedr_Key vs ≠ "" ∧
        v = default "" (sec_Data sec !! sedr_Key vs) ∧
        Ev (CGet Manager KSecret {| nn_Namespace := ns; nn_Name := sedr_Name vs |}) (Ok sec) ∈ t)).

Lemma from_service_app ns rs keys t t' k v :
  from_service ns rs keys t k v → from_service ns rs keys (t ++ t') k v.
Proof.
  intros (Hk & sed & Hin & Hn & Hv). split; [done|]. exists sed. do 2 (split; [done|]).
  destruct Hv as [?|(? & vs & sec & ? & ? & ? & ?)]; [by left|right].
  split; [done|]. exists vs, sec. do 3 (split; [done|]). apply elem_of_app. by left.
Qed.

Lemma wp_extract ns rs keys secret :
  sec_StringData secret = ∅ →
  kwp (extractServiceEndpointDefinition ns rs keys secret) (λ t out,
    ∀ s count, out = Done (s, count) → sec_meta s = sec_meta secret ∧
      ∀ k v, sec_StringData s !! k = Some v → from_service ns rs keys t k v).
Proof.
  intros Hempty. unfold extractServiceEndpointDefinition.
  set (I := λ (l : list ServiceEndpointDefinitionItem) (t : list kevent) (st : Secret * nat),
     (∀ sed, sed ∈ l → sed ∈ elems (rss_ServiceEndpointDefinition (rs_Spec rs))) ∧
     sec_meta st.1 = sec_meta secret ∧
     ∀ k v, sec_StringData st.1 !! k = Some v → from_service ns rs keys t k v).
  apply (wp_for_each legal _ _ _ I).
  - split; [done|]. split; [done|]. intros k v. cbn [fst]. by rewrite Hempty, lookup_empty.
  - intros sed l t [s count] (Hl & Hm & Hs). cbn [fst] in *.
    assert (Hskip : ∀ t', I l (t ++ t') (s, count)).
    { intros t'. split; [intros; apply Hl; set_solver|]. split; [done|].
      intros k v Hkv. by apply from_service_app, Hs. }
    assert (Hput : ∀ t' v, from_service ns rs keys (t ++ t') (sedi_Name sed) v →
              I l (t ++ t') (put_secret s (sedi_Name sed) v, S count)).
    { intros t' v Hv. split; [intros; apply Hl; set_solver|]. split; [done|].
      intros k v'. simpl. rewrite lookup_insert_Some.
      intros [[<- <-]|[_ Hkv]]; [done|]. by apply from_service_app, Hs. }
    assert (Hsed : sed ∈ elems (rss_ServiceEndpointDefinition (rs_Spec rs))) by (apply Hl; set_solver).
    case_bool_decide as Hv.
    { case_bool_decide as Hk; wflow; [|apply Hskip]. apply Hput. split; [done|].
      exists sed. eauto. }
    unfold deref.
    destruct (sedi_ValueFromSecret sed) as [vs|] eqn:Hvs; [|by wflow]. wret.
    case_bool_decide as Hkey; [|wflow; apply Hskip].
    case_bool_decide as Hk; [|wflow; apply Hskip].
    wcall sec Hsec. cbv beta. destruct sec as [sec|e]; wflow; [|apply Hskip].
    apply Hput. split; [done|]. exists sed. do 2 (split; [done|]). right. split; [done|].
    exists vs, sec. do 3 (split; [done|]). apply elem_of_app. right. by apply list_elem_of_singleton.
  - intros t [s count] (_ & Hm & Hs) s' count' [= <- <-]. done.
Qed.

(** C22: the secret pushed for a claim holds, under each name of the claim's
    identity, the identity's (last) value, whatever the service defines under that
    name; everything else in it is a key the claim asked for, with the value the
    registered service defines for it. *)
Theorem getServiceEndpointDefinition_contents sclaim rs :
  kwp (getServiceEndpointDefinition sclaim rs) (λ t out, ∀ s, out = Done s →
    ObjectKeyFromObject (k := KSecret) s = ObjectKeyFromObject (k := KServiceClaim) sclaim ∧
    ∀ k, match find_first (λ sci, ⟪ sci_Name sci = k ⟫)
                 (reverse (scs_ServiceClassIdentity (sc_Spec sclaim))) with
         | Some sci => sec_StringData s !! k = Some (sci_Value sci)
         | None => ∀ v, sec_StringData s !! k = Some v →
             from_service (om_Namespace (sc_meta sclaim)) rs
               (scs_ServiceEndpointDefinitionKeys (sc_Spec sclaim)) t k v
         end).
Proof.
  unfold getServiceEndpointDefinition.
  eapply (wp_bind_spec legal); [by apply wp_extract| |done].
  intros t [secret count] Hs. destruct (Hs secret count eq_refl) as [Hm Hk]. wflow.
  intros s [= <-]. rewrite app_nil_r.
  assert (Hmeta : sec_meta (put_identity (scs_ServiceClassIdentity (sc_Spec sclaim)) secret) = sec_meta secret).
  { clear. unfold put_identity. generalize (elems (scs_ServiceClassIdentity (sc_Spec sclaim))) as l.
    intros l. revert secret. induction l as [|x l IH]; intros secret; [done|]. simpl. by rewrite IH. }
  split.
  - unfold ObjectKeyFromObject, obj_Namespace, obj_Name. simpl. by rewrite Hmeta, Hm.
  - intros k. rewrite put_identity_lookup. destruct (find_first _ _); [done|]. apply Hk.
Qed.
End Phases.
