(* ===== verification/ClaimProtocol.v ===== *)
(** * The protocol of a service claim

    What the service claim controller (ServiceClaimCtrl.v) promises to the rest of the
    system, as a small state machine: a run takes one registered service, publishes
    its binding only while it holds it, and then either resolves the claim with that
    service or asks to give it back, which may be refused and leave it stuck with the
    service; the run for a claim under deletion only frees.  The reconciler is proved to
    implement the machine: the protocol's view of every execution ([view] of its calls)
    is a sequence of the machine's steps, and it is said when a run may end, without an
    error, where. *)

From S2P Require Import Prelude Prog GoErr Types Kube WorkerCluster AppNamespaces ServiceClaimCtrl.

#[local] Open Scope string_scope.
#[local] Open Scope list_scope.
#[local] Open Scope primaza_scope.

(** ** The machine *)

(** How far the run of a claim is. *)
Inductive phase :=
| Idle
| Held (service : ObjectReference)
| Resolved (service : ObjectReference)
| GivenBack (service : ObjectReference)
| Stuck (service : ObjectReference)
| Deleting.

(** What the surroundings see of it; [ok] is whether the API server accepted. *)
Inductive action :=
| Take (service : ObjectReference) (ok : bool)
| Publish
| Resolve (service : option ObjectReference) (ok : bool)
| GiveBack (service : ObjectReference) (ok : bool)
| Stray.

Inductive step : phase → action → phase → Prop :=
| step_refused s : step Idle (Take s false) Idle
| step_take s : step Idle (Take s true) (Held s)
| step_publish s : step (Held s) Publish (Held s)
| step_unresolved s : step (Held s) (Resolve (Some s) false) (Held s)
| step_resolve s : step (Held s) (Resolve (Some s) true) (Resolved s)
| step_give_back s : step (Held s) (GiveBack s true) (GivenBack s)
| step_stuck s : step (Held s) (GiveBack s false) (Stuck s)
| step_delete s ok : step Deleting (GiveBack s ok) Deleting.

Inductive steps : phase → list action → phase → Prop :=
| steps_nil p : steps p [] p
| steps_cons p a p' l p'' : step p a p' → steps p' l p'' → steps p (a :: l) p''.

Lemma steps_app p l p' l' p'' : steps p l p' → steps p' l' p'' → steps p (l ++ l') p''.
Proof. induction 1; [done|]. intros ?. econstructor; eauto. Qed.

Lemma steps_one p a p' : step p a p' → steps p [a] p'.
Proof. intros. econstructor; [done|constructor]. Qed.

#[export] Hint Constructors step steps : primaza.
#[export] Hint Resolve steps_app steps_one : primaza.

(** What the machine promises of a resolved claim: the service it names was taken, in
    between there is nothing but publications and refused attempts to resolve, and
    the resolution is the last action. *)
Lemma held_resolved s l s' :
  steps (Held s) l (Resolved s') →
  s' = s ∧ ∃ l', l = l' ++ [Resolve (Some s) true] ∧
                 Forall (λ a, a = Publish ∨ a = Resolve (Some s) false) l'.
Proof.
  remember (Held s) as p eqn:Hp. remember (Resolved s') as q eqn:Hq.
  induction 1 as [p|p a p' l q Hstep Hsteps IH]; subst; [done|].
  inversion Hstep; subst.
  1,2: destruct IH as (-> & l' & -> & Hl); [done..|]; split; [done|]; eexists (_ :: l'); eauto.
  all: inversion Hsteps as [|? ? ? ? ? Hs]; subst; try by inversion Hs.
  split; [done|]. exists []. eauto.
Qed.

Lemma idle_resolved l s :
  steps Idle l (Resolved s) →
  ∃ l1 l2, l = l1 ++ Take s true :: l2 ++ [Resolve (Some s) true] ∧
    Forall (λ a, ∃ s', a = Take s' false) l1 ∧
    Forall (λ a, a = Publish ∨ a = Resolve (Some s) false) l2.
Proof.
  remember Idle as p eqn:Hp. remember (Resolved s) as q eqn:Hq.
  induction 1 as [p|p a p' l q Hstep Hsteps IH]; subst; [done|].
  inversion Hstep; subst.
  - destruct IH as (l1 & l2 & -> & ? & ?); [done..|]. eexists (_ :: l1), l2. eauto.
  - apply held_resolved in Hsteps as (-> & l' & -> & ?). exists [], l'. eauto.
Qed.

(** ** The view of a run *)

Definition accepted {A} (r : result A) : bool := match r with Ok _ => true | Err _ => false end.

(** The reference a claim's status has to a service. *)
Definition reference (rs : RegisteredService) : ObjectReference :=
  {| ref_Name := om_Name (rs_meta rs); ref_UID := om_UID (rs_meta rs) |}.

Definition view_service (cl : Client) (rs : RegisteredService) (ok : bool) : action :=
  if negb ⟪ cl = Manager ⟫ then Stray
  else if ⟪ rsst_State (rs_Status rs) = RegisteredServiceStateClaimed ⟫ then Take (reference rs) ok
  else if ⟪ rsst_State (rs_Status rs) = RegisteredServiceStateAvailable ⟫ then
    GiveBack (reference rs) ok
  else Stray.

Definition view_claim (cl : Client) (sc : ServiceClaim) (ok : bool) : option action :=
  if ⟪ cl = Manager ⟫ && ⟪ scst_State (sc_Status sc) = ServiceClaimStateResolved ⟫ then
    Some (Resolve (scst_RegisteredService (sc_Status sc)) ok)
  else None.

(** The action an event is, if any: every status update of a registered service,
    the control plane's claim being resolved, and every object created or updated in
    a worker cluster. *)
Definition view (ev : kevent) : option action :=
  match ev with
  | existT c r =>
      match c return Answer c → option action with
      | CStatusUpdate cl k o =>
          match k return kobj k → result (kobj k) → option action with
          | KRegisteredService => λ o r, Some (view_service cl o (accepted r))
          | KServiceClaim => λ o r, view_claim cl o (accepted r)
          | _ => λ _ _, None
          end o
      | CCreate (ForConfig _) _ _ | CUpdate (ForConfig _) _ _ => λ _, Some Publish
      | _ => λ _, None
      end r
  end.

Section Protocol.
  Context `{KubeconfigLib}.

(** A push to the cluster environments failed because something was not found. *)
Definition push_not_found (t : list kevent) : Prop :=
  ∃ e, IsNotFound (Some e) = true ∧ part (push_failed e) t.

(** Where a run may end without an error: resolved, or with no service, and stuck with a
    service that could not be given back only if the push met a "not found". *)
Definition settled (t : list kevent) (p : phase) : Prop :=
  match p with
  | Held _ => False
  | Stuck _ => push_not_found t
  | _ => True
  end.

Definition follows (p : phase) (t : list kevent) (out : outcome (option gerr)) : Prop :=
  ∃ p', steps p (omap view t) p' ∧ (out = Done None → settled t p').

Lemma push_not_found_app t t' : push_not_found t' → push_not_found (t ++ t').
Proof. intros (e & He & Ht). exists e. split; [done|by apply part_app_r]. Qed.

Lemma settled_app t t' p : settled t' p → settled (t ++ t') p.
Proof. destruct p; simpl; auto using push_not_found_app. Qed.

(** ** The phases of the reconciler in the view *)

Lemma view_quiet ev : quiet ev → view ev = None.
Proof.
  destruct ev as [[] r]; try done; intros (Hs & Hp & Hr).
  1,2: destruct cl; [done|by destruct Hp].
  destruct k; try done. simpl. unfold view_claim.
  repeat case_bool_decide; try done. by destruct Hr.
Qed.

Lemma view_in_push ev : in_push ev → view ev = None ∨ view ev = Some Publish.
Proof.
  destruct ev as [[] r]; try (left; done); intros (Hs & Hr).
  1,2: destruct cl; [by left|by right].
  left. destruct k; try done. simpl. unfold view_claim.
  repeat case_bool_decide; try done. by destruct Hr.
Qed.

Lemma view_quiets t : Forall quiet t → omap view t = [].
Proof. induction 1 as [|ev t Hev _ IH]; [done|]. simpl. by rewrite (view_quiet _ Hev). Qed.

Lemma steps_in_push s t : Forall in_push t → steps (Held s) (omap view t) (Held s).
Proof.
  induction 1 as [|ev t Hev _ IH]; [constructor|]. simpl.
  destruct (view_in_push _ Hev) as [->| ->]; eauto with primaza.
Qed.

Lemma view_claimed_ok rs o : view (claimed_ok rs o) = Some (Take (reference rs) true).
Proof. done. Qed.
Lemma view_claim_failed rs e : view (claim_failed rs e) = Some (Take (reference rs) false).
Proof. done. Qed.
Lemma view_freed rs r : view (freed rs r) = Some (GiveBack (reference rs) (accepted r)).
Proof. done. Qed.
Lemma view_resolved sc r :
  scst_State (sc_Status sc) = ServiceClaimStateResolved →
  view (resolved sc r) = Some (Resolve (scst_RegisteredService (sc_Status sc)) (accepted r)).
Proof. intros Hs. simpl. unfold view_claim. by rewrite Hs. Qed.

Lemma follows_quiet p t u out : Forall quiet t → follows p u out → follows p (t ++ u) out.
Proof.
  intros Ht (p' & Hs & Hp). exists p'. rewrite omap_app, (view_quiets _ Ht).
  split; [done|]. intros Hout. by apply settled_app, Hp.
Qed.

Lemma follows_quiets t out : Forall quiet t → follows Idle t out.
Proof. intros Ht. exists Idle. rewrite (view_quiets _ Ht). by split; [constructor|]. Qed.

Lemma follows_refused rs e err : follows Idle [claim_failed rs e] (Done (Some err)).
Proof. exists Idle. by split; [apply steps_one, step_refused|]. Qed.

(** After the service was taken: what [wp_after_claim] leaves to show. *)
Lemma follows_taken rs o u out :
  follows (Held (reference rs)) u out → follows Idle (claimed_ok rs o :: u) out.
Proof.
  intros (p & Hs & Hp). exists p. split; [|intros Hout; by apply (settled_app [_]), Hp].
  cbn [omap list_omap]. rewrite view_claimed_ok. by econstructor; [apply step_take|].
Qed.

Lemma follows_halted s t h : Forall in_push t → follows (Held s) t (Halted h).
Proof. intros Ht. exists (Held s). split; [by apply steps_in_push|done]. Qed.

Lemma follows_given_back rs t r out :
  Forall in_push t → (out = Done None → push_not_found t) →
  follows (Held (reference rs)) (t ++ [freed rs r]) out.
Proof.
  intros Ht Hout. exists (if accepted r then GivenBack (reference rs) else Stuck (reference rs)).
  rewrite omap_app. split.
  - eapply steps_app; [by apply steps_in_push|]. cbn [omap list_omap]. rewrite view_freed.
    destruct (accepted r); eauto with primaza.
  - intros (e & He & Hp)%Hout. destruct (accepted r); [done|]. exists e. split; [done|by apply part_app_l].
Qed.

Lemma follows_resolved rs sc t r u out :
  scst_State (sc_Status sc) = ServiceClaimStateResolved →
  scst_RegisteredService (sc_Status sc) = Some (reference rs) →
  Forall in_push t → Forall quiet u → (out = Done None → ∃ sc', r = Ok sc') →
  follows (Held (reference rs)) (t ++ resolved sc r :: u) out.
Proof.
  intros Hst Hrs Ht Hu Hok.
  exists (if accepted r then Resolved (reference rs) else Held (reference rs)). split.
  - rewrite omap_app. eapply steps_app; [by apply steps_in_push|]. cbn [omap list_omap].
    rewrite (view_resolved _ _ Hst), Hrs. fold (omap view u). rewrite (view_quiets _ Hu).
    destruct r; eauto with primaza.
  - by intros [sc' ->]%Hok.
Qed.

Lemma follows_cons p ev t out : view ev = None → follows p t out → follows p (ev :: t) out.
Proof.
  intros Hev (p' & Hs & Hp). exists p'. cbn [omap list_omap]. rewrite Hev.
  split; [done|]. intros Hout. by apply (settled_app [_]), Hp.
Qed.

(** The calls the machine allows for a claim under deletion. *)
Definition frees (c : Call) : Prop :=
  ∀ r : Answer c, view (Ev c r) = None ∨ ∃ s ok, view (Ev c r) = Some (GiveBack s ok).

Lemma frees_read c : ¬ is_write c → frees c.
Proof. intros Hc r. left. by apply view_quiet, quiet_of_read. Qed.

Lemma frees_service rs : frees (CStatusUpdate Manager KRegisteredService
                                  (rs_set_State rs RegisteredServiceStateAvailable)).
Proof. intros r. right. by exists (reference rs), (accepted r). Qed.

Lemma follows_frees t out : Forall (λ ev : kevent, frees (projT1 ev)) t → follows Deleting t out.
Proof.
  intros Ht. exists Deleting. split; [|done].
  induction Ht as [|[c r] t Hev _ IH]; [constructor|]. cbn [omap list_omap].
  assert (Hv : view (Ev c r) = None ∨ ∃ s ok, view (Ev c r) = Some (GiveBack s ok)) by apply Hev.
  unfold Ev in Hv. destruct Hv as [->|(s & ok & ->)]; [done|]. by econstructor; [constructor|].
Qed.

(** ** The parts of the reconciler *)

Lemma processServiceClaim_follows rsl sclaim :
  kwp (processServiceClaim rsl sclaim) (follows Idle).
Proof.
  eapply wp_mono; [apply wp_processServiceClaim|]. intros t out Ht.
  destruct Ht as [t out Ht _|t rs e Ht _|t rs o t' h Ht _ Ht'|t rs o t' e r Ht _ Ht' He
                 |t rs o t' sc r t'' out Ht _ Ht' Hst Hrs Ht'' Hok]; [by apply follows_quiets|..];
    (apply follows_quiet; [done|]); [apply follows_refused|apply follows_taken..].
  - by apply follows_halted.
  - apply follows_given_back; [done|]. unfold IgnoreNotFound.
    destruct (IsNotFound (Some e)) eqn:Hn; [|done]. intros _. exists e. split; [done|by apply part_here].
  - by apply follows_resolved.
Qed.

(** The calls before the service is taken, for a claim that is already resolved. *)
Lemma quiet_prefix {A} (p : M A) (f : A → M (option gerr)) :
  kwp p (λ t _, Forall quiet t) → (∀ a, kwp (f a) (follows Idle)) → kwp (p ≫= f) (follows Idle).
Proof.
  intros Hp Hf. eapply (wp_bind_spec legal); [exact Hp| |].
  - intros t a Ht. eapply wp_mono; [apply Hf|]. intros u out. by apply follows_quiet.
  - intros t h Ht. by apply follows_quiets.
Qed.

Lemma quiet_reads_wp {A} (p : M A) :
  only_calls legal (λ c, ¬ is_write c) p → kwp p (λ t _, Forall quiet t).
Proof. intros Hp. eapply wp_mono; [exact Hp|]. intros t o. apply quiet_reads. Qed.

Lemma follows_ret a : kwp (mret a) (follows Idle).
Proof. apply wp_ret, follows_quiets. constructor. Qed.

Lemma getServiceEndpointDefinition_reads sclaim rs :
  only_calls legal (λ c, ¬ is_write c) (getServiceEndpointDefinition sclaim rs).
Proof.
  unfold getServiceEndpointDefinition. apply only_calls_bind; [apply only_calls_extract|].
  intros [s n]. apply only_calls_ret.
Qed.

Lemma processResolvedServiceClaim_follows sclaim :
  kwp (processResolvedServiceClaim sclaim) (follows Idle).
Proof.
  unfold processResolvedServiceClaim. destruct (scst_RegisteredService _) as [ref|]; [|apply follows_ret].
  apply quiet_prefix; [apply quiet_reads_wp; calls; not_event|]. intros [rs|e]; [|apply follows_ret].
  apply quiet_prefix; [apply quiet_reads_wp, getServiceEndpointDefinition_reads|]. intros secret.
  apply quiet_prefix; [by apply wp_update_quiet|]. intros [sc [e|]]; [apply follows_ret|].
  apply wp_changeServiceState. intros [o|e]; cbn [result_err].
  2: { apply wp_ret, (follows_refused rs e). }
  apply (wp_after_claim (λ t out, follows Idle (claimed_ok rs o :: t) out) rs _ _ (λ e, e)); [done|..].
  - intros t h Ht. by apply follows_taken, follows_halted.
  - intros t e r Ht _. by apply follows_taken, follows_given_back.
  - intros t r u out Ht Hu Hok. by apply follows_taken, follows_resolved.
Qed.

Lemma processClaimMarkedForDeletion_frees req sclaim :
  only_calls legal frees (processClaimMarkedForDeletion req sclaim).
Proof.
  assert (Hr : ∀ A (p : M A), only_calls legal (λ c, ¬ is_write c) p → only_calls legal frees p).
  { intros A p Hp. eapply only_calls_mono; [exact Hp|]. apply frees_read. }
  assert (Hdel : ∀ cli sc nss,
    only_calls legal frees (DeleteServiceBindingAndSecretFromNamespaces cli sc nss)).
  { intros. unfold DeleteServiceBindingAndSecretFromNamespaces. calls; intros r; by left. }
  assert (Hcli : ∀ ce, only_calls legal frees (ClusterContext.CreateClient Manager ce)).
  { intros ce. apply Hr. unfold ClusterContext.CreateClient.
    calls; first [apply only_calls_rest_config|not_event]. }
  assert (Hloop : ∀ tag ces errs, only_calls legal frees (delete_environments sclaim tag ces errs)).
  { intros tag ces. induction ces as [|ce ces IH]; intros errs; cbn [delete_environments];
      calls; first [apply Hcli|apply Hdel|apply IH]. }
  unfold processClaimMarkedForDeletion, DeleteServiceBindingsAndSecret, changeServiceState, target,
    getEnvironmentFromClusterEnvironment.
  calls; first [apply Hcli|apply Hdel|apply Hloop|apply frees_service|apply Hr, find_to_free_reads
               |apply frees_read; not_event].
Qed.

(** ** The reconciler *)

(** The phase a run starts in: what it read of the claim decides. *)
Definition start (sclaim : ServiceClaim) : phase :=
  if HasDeletionTimestamp (sc_meta sclaim) then Deleting else Idle.

(** C1: the service claim controller implements the protocol: the registered services
    it marks, the objects it creates or updates in worker clusters and the resolution
    of the claim are, in every execution of a reconciliation, a sequence of the
    machine's steps from [Deleting] or [Idle] as the claim has a deletion timestamp or
    not (so: one service at most, taken before anything is published, the claim
    resolved with that very service, nothing published after it was given back).  A run
    that returns no error does not end holding a service: it resolved the claim, or took
    nothing, or gave the service back, or else was refused the return (and so leaves the
    service claimed by a claim that is not resolved), but this last only when the push
    to the cluster environments failed with a "not found". *)
Theorem Reconcile_follows_protocol req :
  kwp (Reconcile req) (λ t out,
    match t with
    | existT (CGet Manager KServiceClaim _) (Ok sclaim) :: _ => follows (start sclaim) t out
    | _ => omap view t = []
    end).
Proof.
  unfold Reconcile. wcall got Hgot. cbv beta. destruct got as [sclaim|e]; [|by wflow].
  eapply (wp_mono _ _ (follows (start sclaim))); [|intros t out; by apply follows_cons].
  unfold start. destruct (HasDeletionTimestamp (sc_meta sclaim)).
  - destruct (ContainsFinalizer _ _); [|apply wp_ret, follows_frees; constructor].
    eapply wp_mono; [|intros t out; apply follows_frees].
    apply only_calls_bind; [apply processClaimMarkedForDeletion_frees|]. intros err.
    calls; intros r; by left.
  - destruct (AddFinalizer _ _) as [sc1 added].
    apply quiet_prefix.
    { destruct added; [|apply wp_ret; constructor].
      apply (wp_call legal (CUpdate Manager KServiceClaim sc1)). intros r _. constructor; [by repeat split; not_event|constructor]. }
    intros [sc2|e]; [|apply follows_ret]. apply quiet_prefix.
    { unfold ensureServiceClaimIsInitialized. destruct (bool_decide _); [apply wp_ret; constructor|].
      wcall uid Huid. cbv beta. wcall r Hr. cbv beta.
      assert (Hq : ∀ st, scst_State st ≠ ServiceClaimStateResolved →
        Forall quiet [Ev CUuid uid; Ev (CStatusUpdate Manager KServiceClaim (sc_set_Status sc2 st)) r]).
      { intros st Hst. repeat constructor; try not_event. by intros [_ ?]. }
      destruct r; wflow; by apply Hq. }
    intros [sc [e|]]; [apply follows_ret|]. destruct (bool_decide _).
    { apply processResolvedServiceClaim_follows. }
    unfold processClaim. apply quiet_prefix; [apply quiet_reads_wp; calls; not_event|].
    intros [rsl|e]; [apply processServiceClaim_follows|apply follows_ret].
Qed.
End Protocol.
