(* ===== verification/ClaimRace.v ===== *)
(** * Claims racing for a registered service

    [ApiServer.v] at the registered services of the control plane, and what it gives the
    service claim controller: claiming is mutually exclusive, and the roll back of a
    failed push is always refused. *)

From S2P Require Import Prelude Prog GoErr Types Kube WorkerCluster AppNamespaces ServiceClaimCtrl ApiServer.

#[local] Open Scope string_scope.
#[local] Open Scope list_scope.
#[local] Open Scope primaza_scope.

(** ** Registered services *)

#[export] Instance stored_services : Stored KRegisteredService :=
  Build_Stored KRegisteredService
    (λ o o' : RegisteredService, rs_Spec o = rs_Spec o')
    (λ o o' : RegisteredService, rs_Status o = rs_Status o').

Definition rs_key (rs : RegisteredService) : NamespacedName :=
  ObjectKeyFromObject (k := KRegisteredService) rs.

Definition list_services (opts : ListOptions) (r : result (list RegisteredService)) : kevent :=
  event_of (RList (k := KRegisteredService) opts r).
Definition update_service_status (o : RegisteredService) (r : result RegisteredService) : kevent :=
  event_of (RStatus (k := KRegisteredService) o r).

Lemma listed_services s L m opts os :
  served_log s L m → list_services opts (Ok os) ∈ L → Forall (.∈ revisions m) os.
Proof. exact (listed_revisions s L m opts os). Qed.

Lemma status_update_served s o o' s' :
  served_event s (update_service_status o (Ok o')) s' →
  ∃ c, up_to_date s o c ∧
    ((s' = store s o' ∧ fresh s o' ∧ rs_key o' = rs_key o ∧ rs_Status o' = rs_Status o) ∨
     (s' = s ∧ o' = c ∧ rs_Status o = rs_Status c)).
Proof. exact (served_status_inv s o o' s'). Qed.

Lemma status_update_inj o r o' r' :
  update_service_status o r = update_service_status o' r' → o = o' ∧ r = r'.
Proof.
  intros Heq%(event_of_inj (RStatus (k := KRegisteredService) o r) (RStatus (k := KRegisteredService) o' r')).
  by injection Heq.
Qed.

(** ** What releases a service *)

(** What an accepted creation or status update of a service leaves. *)
Definition stored_by (ev : kevent) : option RegisteredService :=
  match ev with
  | existT c r =>
      match c return Answer c → option RegisteredService with
      | CCreate Manager k _ | CStatusUpdate Manager k _ =>
          match k return result (kobj k) → option RegisteredService with
          | KRegisteredService => λ r, match r with Ok o => Some o | Err _ => None end
          | _ => λ _, None
          end
      | _ => λ _, None
      end r
  end.

(** The service is created, or its state set, as available. *)
Definition releases (key : NamespacedName) (ev : kevent) : Prop :=
  match stored_by ev with
  | Some o => rs_key o = key ∧ rsst_State (rs_Status o) = RegisteredServiceStateAvailable
  | None => False
  end.
#[export] Instance releases_dec key ev : Decision (releases key ev).
Proof. unfold releases. destruct (stored_by ev); apply _. Defined.

Definition unavailable (key : NamespacedName) (s : server KRegisteredService) : Prop :=
  ∀ c, current s !! key = Some c → rsst_State (rs_Status c) ≠ RegisteredServiceStateAvailable.

Lemma unavailable_store key s o :
  unavailable key s →
  (rs_key o = key → rsst_State (rs_Status o) ≠ RegisteredServiceStateAvailable) →
  unavailable key (store s o).
Proof. intros Hu Ho c. simpl. intros [[? <-]|[_ Hc]]%lookup_insert_Some; [by apply Ho|by apply Hu]. Qed.

Lemma unavailable_remove key s k : unavailable key s → unavailable key (remove s k).
Proof. intros Hu c. simpl. intros [_ Hc]%lookup_delete_Some. by apply Hu. Qed.

Lemma served_unavailable key s ev s' :
  wf s → served_event s ev s' → unavailable key s → ¬ releases key ev → unavailable key s'.
Proof.
  intros Hwf Hs Hu Hr. destruct Hs as [|s q s' Hs]; [done|].
  destruct Hs as [| | | |s o1 o2 H1 H2 H3 H4| |s o1 c o2 [H1 _] H2 H3 H4 H5| | | |s o1 c o2 H1 H2 H3 H4 H5
    | | | |s key' c o2 H1 H2 H3 H4 H5|]; try done; try by apply unavailable_remove.
  all: apply unavailable_store; [done|]; intros Hk.
  1,3: intros Ha; by apply Hr.
  all: simpl in H5; rewrite H5; apply Hu; unfold rs_key in Hk; by rewrite <- Hk, H3.
Qed.

Lemma served_log_unavailable key s L s' :
  wf s → served_log s L s' → unavailable key s → Forall (λ ev, ¬ releases key ev) L →
  unavailable key s'.
Proof.
  intros Hwf HL. induction HL as [|s ev m L s' Hev HL IH]; [done|].
  intros Hu [Hr HF]%Forall_cons. apply IH; eauto using served_event_wf, served_unavailable.
Qed.

(** What a claim's run relies on when it updates a service: it listed it as available,
    and gives back what it took. *)
Definition warranted (t : list kevent) (ev : kevent) : Prop :=
  updates_service ev →
  ∃ opts rsl rs, list_services opts (Ok rsl) ∈ t ∧ rs ∈ rsl ∧
    rsst_State (rs_Status rs) = RegisteredServiceStateAvailable ∧
    ((∃ r, ev = update_service_status (rs_set_State rs RegisteredServiceStateClaimed) r) ∨
     (∃ r, ev = freed rs r) ∧ ∃ o, claimed_ok rs o ∈ t).

Lemma warranted_none t t' :
  Forall (λ ev, ¬ updates_service ev) t' → justified (λ t1 ev, warranted (t ++ t1) ev) t'.
Proof.
  intros Ht. apply justified_all. eapply Forall_impl; [exact Ht|]. by intros ev Hn t1 ?.
Qed.

Lemma quiet_updates t : Forall quiet t → Forall (λ ev, ¬ updates_service ev) t.
Proof. intros Ht. eapply Forall_impl; [exact Ht|]. by intros ev (? & _). Qed.
Lemma in_push_updates t : Forall in_push t → Forall (λ ev, ¬ updates_service ev) t.
Proof. intros Ht. eapply Forall_impl; [exact Ht|]. by intros ev (? & _). Qed.

Section Race.
  Context `{KubeconfigLib}.

Lemma chosen_listed rsl sclaim t rs :
  chosen rsl sclaim t rs →
  rs ∈ rsl ∧ rsst_State (rs_Status rs) = RegisteredServiceStateAvailable.
Proof.
  intros (env & _ & _ & _ & _ & l1 & l2 & -> & [Ha _ _] & _). split; [|done].
  apply elem_of_app. right. by left.
Qed.

Lemma wp_processClaim_warranted req sclaim :
  kwp (processClaim req sclaim) (λ t _, justified warranted t).
Proof.
  unfold processClaim. wcall r Hr. cbv beta.
  set (listing := Ev _ r).
  assert (Hone : justified warranted [listing]) by (apply justified_one; by intros ?).
  destruct r as [rsl|e]; [|by apply wp_ret].
  eapply wp_mono; [apply wp_processServiceClaim|]. intros t out Ht.
  apply (justified_app _ [listing]); [done|].
  assert (Hlist : ∀ u, listing ∈ [listing] ++ u) by (intros; by left).
  assert (Hclaim : ∀ u rs r, chosen rsl sclaim u rs → justified
    (λ t1 ev, warranted (([listing] ++ u) ++ t1) ev)
    [update_service_status (rs_set_State rs RegisteredServiceStateClaimed) r]).
  { intros u rs r [Hin Ha]%chosen_listed. apply justified_one. intros _.
    exists (InNamespace (nn_Namespace req)), rsl, rs. rewrite app_nil_r. eauto 10. }
  destruct Ht as [t out Ht _|t rs e Ht Hc|t rs o t' h Ht Hc Ht'|t rs o t' e r Ht Hc Ht' _
                 |t rs o t' sc r t'' out Ht Hc Ht' _ _ Ht'' _];
    [by apply warranted_none, quiet_updates|..];
    (apply justified_app; [by apply warranted_none, quiet_updates|]).
  all: eapply justified_mono; [intros t1 ev Hw; rewrite (assoc_L (++)); exact Hw|].
  { by apply Hclaim. }
  all: apply (justified_app _ [claimed_ok rs o]); [by apply Hclaim|].
  all: eapply justified_mono; [intros t1 ev Hw; rewrite (assoc_L (++)); exact Hw|].
  { by apply warranted_none, in_push_updates. }
  - apply justified_app; [by apply warranted_none, in_push_updates|].
    apply justified_one. intros _. apply chosen_listed in Hc as [Hin Ha].
    exists (InNamespace (nn_Namespace req)), rsl, rs.
    split; [by left|]. do 2 (split; [done|]). right. split; [by exists r|]. exists o.
    rewrite !elem_of_app, !list_elem_of_singleton. tauto.
  - apply justified_app; [by apply warranted_none, in_push_updates|].
    eapply justified_mono; [intros t1 ev Hw; rewrite (assoc_L (++)); exact Hw|].
    apply warranted_none, Forall_cons. split; [by intros ?|by apply quiet_updates].
Qed.

Lemma made_warranted req sclaim L ev : made_by (processClaim req sclaim) L ev → warranted L ev.
Proof.
  apply made_justified; [apply wp_processClaim_warranted|].
  intros t t' e Hin Hw Hu. destruct (Hw Hu) as (opts & rsl & rs & Hl & Hrs & Ha & Hev).
  exists opts, rsl, rs. split; [auto|]. do 2 (split; [done|]).
  destruct Hev as [?|[? (o & ?)]]; [by left|right]. split; [done|]. eauto.
Qed.

(** *** Whole reconciliations *)

(** The claim of a request as it was answered: to its read or to an update of it. *)
Definition claim_answered (req : NamespacedName) (t : list kevent) (sclaim : ServiceClaim) : Prop :=
  KEv (CGet Manager KServiceClaim req) (Ok sclaim) ∈ t ∨
  ∃ o, ObjectKeyFromObject (k := KServiceClaim) o = req ∧
    (KEv (CUpdate Manager KServiceClaim o) (Ok sclaim) ∈ t ∨
     KEv (CStatusUpdate Manager KServiceClaim o) (Ok sclaim) ∈ t).

(** The claim of the request was answered as resolved, with a service of this key. *)
Definition renews (req : NamespacedName) (t : list kevent) (key : NamespacedName) : Prop :=
  ∃ sclaim ref, claim_answered req t sclaim ∧
    scst_State (sc_Status sclaim) = ServiceClaimStateResolved ∧
    scst_RegisteredService (sc_Status sclaim) = Some ref ∧
    key = {| nn_Namespace := nn_Namespace req; nn_Name := ref_Name ref |}.

(** The service was listed as available, and is otherwise sent as it was listed. *)
Definition listed_available (t : list kevent) (o : RegisteredService) : Prop :=
  ∃ opts rsl rs, list_services opts (Ok rsl) ∈ t ∧ rs ∈ rsl ∧
    rsst_State (rs_Status rs) = RegisteredServiceStateAvailable ∧
    o = rs_set_State rs RegisteredServiceStateClaimed.

(** What a reconciliation relies on when it marks a service as claimed. *)
Definition takes (req : NamespacedName) (t : list kevent) (ev : kevent) : Prop :=
  ∀ o r, ev = update_service_status o r →
    rsst_State (rs_Status o) = RegisteredServiceStateClaimed →
    listed_available t o ∨ renews req t (rs_key o).

(** Calls that mark no service as claimed. *)
Definition not_claiming (c : Call) : Prop :=
  match c with
  | CStatusUpdate _ k o =>
      match k return kobj k → Prop with
      | KRegisteredService => λ o, rsst_State (rs_Status o) ≠ RegisteredServiceStateClaimed
      | _ => λ _, True
      end o
  | _ => True
  end.

Lemma read_not_claiming c : ¬ is_write c → not_claiming c.
Proof. by destruct c. Qed.
Lemma remote_not_claiming c : remote_status_call c → not_claiming c.
Proof. destruct c; try done. destruct cl, k; simpl; tauto. Qed.
Lemma push_not_claiming c : push_call c → not_claiming c.
Proof. destruct c; try done; by intros ?%read_not_claiming. Qed.

Lemma after_not_claiming {A} req t0 (p : M A) :
  only_calls legal not_claiming p → after legal (takes req) t0 p.
Proof.
  intros Hp. eapply after_calls; [exact Hp|]. intros t ev Hn o r ->. intros Ho. by destruct Hn.
Qed.

Lemma takes_reads {A} req t0 (p : M A) :
  only_calls legal (λ c, ¬ is_write c) p → after legal (takes req) t0 p.
Proof. intros Hp. apply after_not_claiming. eapply only_calls_mono; [exact Hp|]. apply read_not_claiming. Qed.

Lemma not_claiming_update_status sclaim :
  only_calls legal not_claiming (updateServiceClaimStatus sclaim).
Proof.
  unfold updateServiceClaimStatus. calls; [done|].
  eapply only_calls_mono; [apply only_calls_remote_status|]. apply remote_not_claiming.
Qed.

Lemma not_claiming_push sclaim secret : only_calls legal not_claiming (pushToClusterEnvironments sclaim secret).
Proof. eapply only_calls_mono; [apply only_calls_push|]. apply push_not_claiming. Qed.

Lemma not_claiming_deletion req sclaim :
  only_calls legal not_claiming (processClaimMarkedForDeletion req sclaim).
Proof.
  assert (Hcli : ∀ ce, only_calls legal not_claiming (ClusterContext.CreateClient Manager ce)).
  { intros ce. eapply only_calls_mono; [|apply read_not_claiming]. unfold ClusterContext.CreateClient.
    calls; first [apply only_calls_rest_config|not_event]. }
  assert (Hfind : ∀ rsl, only_calls legal not_claiming (find_service_to_free sclaim rsl)).
  { intros rsl. eapply only_calls_mono; [apply find_to_free_reads|apply read_not_claiming]. }
  assert (Hloop : ∀ tag ces errs, only_calls legal not_claiming (delete_environments sclaim tag ces errs)).
  { intros tag ces. induction ces as [|ce ces IH]; intros errs; cbn [delete_environments];
      unfold DeleteServiceBindingAndSecretFromNamespaces; calls; first [apply Hcli|apply IH|done]. }
  unfold processClaimMarkedForDeletion, DeleteServiceBindingsAndSecret, changeServiceState, target,
    getEnvironmentFromClusterEnvironment, DeleteServiceBindingAndSecretFromNamespaces.
  calls; first [apply Hcli|apply Hfind|apply Hloop|done].
Qed.

(** A claim that is resolved has its service marked again. *)
Lemma takes_processResolved req t0 sclaim :
  claim_answered req t0 sclaim → om_Namespace (sc_meta sclaim) = nn_Namespace req →
  scst_State (sc_Status sclaim) = ServiceClaimStateResolved →
  after legal (takes req) t0 (processResolvedServiceClaim sclaim).
Proof.
  intros Hans Hns Hst. unfold processResolvedServiceClaim.
  destruct (scst_RegisteredService (sc_Status sclaim)) as [ref|] eqn:Href; [|apply after_ret].
  apply (after_call legal); [by intros r _ o r' Hr|]. intros [rs|e] Hrs; [|apply after_ret].
  eapply (after_bind legal _ _ _ _ (λ _ _, True)); [by intros ? ?|
    apply takes_reads; unfold getServiceEndpointDefinition; calls; apply only_calls_extract|].
  intros t1 secret _. eapply (after_bind legal _ _ _ _ (λ _ _, True));
    [by intros ? ?|apply after_not_claiming, not_claiming_update_status|].
  intros t2 [sc [err|]] _; [apply after_ret|]. unfold changeServiceState at 1.
  apply after_assoc. apply (after_call legal).
  { intros r _ o r' Ho _. right. apply status_update_inj in Ho as [<- _].
    exists sclaim, ref. split; [|split_and!; [done..|]].
    - destruct Hans as [?|(o' & ? & ?)]; [left; set_solver|right; exists o'; set_solver].
    - rewrite <- Hns. exact Hrs. }
  intros r _. apply after_ret_bind. destruct (result_err r); [apply after_ret|].
  apply after_not_claiming. unfold changeServiceState.
  calls; first [apply not_claiming_push|apply not_claiming_update_status|done].
Qed.

Lemma after_processClaim req t0 sclaim :
  after legal (takes req) t0 (processClaim req sclaim).
Proof.
  eapply wp_mono; [apply wp_processClaim_warranted|]. intros t out Ht.
  eapply justified_mono; [|exact Ht]. intros t1 ev Hw o r -> Ho. left.
  destruct (Hw I) as (opts & rsl & rs & Hl & Hrs & Ha & Hev).
  exists opts, rsl, rs. split; [set_solver|]. do 2 (split; [done|]).
  destruct Hev as [[r' Hev]|[[r' Hev] _]]; apply status_update_inj in Hev as [-> _]; done.
Qed.

Lemma wp_Reconcile_takes req : kwp (Reconcile req) (λ t _, justified (takes req) t).
Proof.
  change (after legal (takes req) [] (Reconcile req)). unfold Reconcile.
  apply (after_call legal); [by intros r _ o r' Hr|]. intros [sclaim|e] Hkey; [|apply after_ret].
  destruct (HasDeletionTimestamp (sc_meta sclaim)).
  { destruct (ContainsFinalizer _ _); [|apply after_ret]. apply after_not_claiming.
    calls; first [apply not_claiming_deletion|done]. }
  destruct (AddFinalizer _ _) as [sc1 added] eqn:Hadd.
  assert (Hk1 : ObjectKeyFromObject (k := KServiceClaim) sc1 = req).
  { rewrite <- Hkey. replace sc1 with (AddFinalizer (k := KServiceClaim) sclaim ServiceClaimFinalizer).1 by by rewrite Hadd. apply key_AddFinalizer. }
  set (t0 := [] ++ [_]).
  eapply (after_bind legal _ _ _ _ (λ t out, ∀ sc, out = Done (Ok sc) →
    claim_answered req (t0 ++ t) sc ∧ ObjectKeyFromObject (k := KServiceClaim) sc = req)).
  { destruct added.
    - apply (wp_call legal (CUpdate Manager KServiceClaim sc1)). intros r Hr sc [= ->]. split; [|by rewrite <- Hk1].
      right. exists sc1. split; [done|]. left. set_solver.
    - apply wp_ret. intros sc [= <-]. split; [|done]. left. unfold AddFinalizer in Hadd.
      case_bool_decide; simplify_eq. set_solver. }
  { destruct added; [|apply after_ret]. apply after_not_claiming. by calls. }
  intros t1 [sc2|e] Hsc2; [|apply after_ret]. destruct (Hsc2 _ eq_refl) as [Ha2 Hk2].
  eapply (after_bind legal _ _ _ _ (λ t out, ∀ sc, out = Done (sc, None) →
    claim_answered req ((t0 ++ t1) ++ t) sc ∧ ObjectKeyFromObject (k := KServiceClaim) sc = req)).
  { unfold ensureServiceClaimIsInitialized. case_bool_decide.
    - apply wp_ret. intros sc [= <-]. by rewrite app_nil_r.
    - wcall uid Huid. cbv beta. wcall r Hr. cbv beta. apply wp_ret. intros sc Hsc.
      destruct r as [sc3|e]; [injection Hsc as ->|done]. split; [|by etrans; [exact Hr|]].
      right. eexists (sc_set_Status sc2 _). split; [exact Hk2|]. right.
      apply elem_of_app. right. apply list_elem_of_further, list_elem_of_here. }
  { apply after_not_claiming. unfold ensureServiceClaimIsInitialized. by calls. }
  intros t2 [sc [err|]] Hsc; [apply after_ret|]. destruct (Hsc _ eq_refl) as [Ha Hk].
  case_bool_decide as Hst; [|apply after_processClaim].
  apply takes_processResolved; [done| |done]. by rewrite <- Hk.
Qed.

(** ** Claiming is exclusive, and never undone *)

(** C2: mutual exclusion of claims.  However the reconciliations are interleaved and
    however old the objects they read are: when a registered service was marked as
    claimed, by anyone, and then a reconciliation of a claim succeeds in marking it as
    claimed, either the service was set to available or created anew in between, or this
    run was answered its own claim as resolved with a service of that name, which it
    marks again without looking at its state. *)
Theorem claims_exclusive (s s' : server KRegisteredService) L1 o1 o1' L2 o2 o2' req t :
  wf s →
  served_log s (L1 ++ update_service_status o1 (Ok o1') :: L2 ++ [update_service_status o2 (Ok o2')]) s' →
  rsst_State (rs_Status o1) = RegisteredServiceStateClaimed →
  rsst_State (rs_Status o2) = RegisteredServiceStateClaimed →
  rs_key o1 = rs_key o2 →
  made_after (Reconcile req) t (L1 ++ update_service_status o1 (Ok o1') :: L2)
    (update_service_status o2 (Ok o2')) →
  Exists (releases (rs_key o1)) L2 ∨ renews req t (rs_key o1).
Proof.
  intros Hwf HL Ho1 Ho2 Hkey Hmade.
  destruct (made_after_justified _ _ _ _ _ (wp_Reconcile_takes req) Hmade) as [Htakes Hsub].
  destruct (Htakes _ _ eq_refl Ho2) as [Hlisted|Hr]; [left|right; by rewrite Hkey].
  destruct (decide (Exists (releases (rs_key o1)) L2)) as [|HL2]; [done|exfalso].
  rewrite <- Forall_Exists_neg in HL2.
  rewrite app_comm_cons, (assoc_L (++)) in HL.
  apply served_log_app in HL as (m & HL & (m' & Hm' & _)%served_log_cons).
  destruct Hlisted as (opts & rsl & rs & Hlist%Hsub & Hin & Ha & Ho).
  assert (Hrs : rs ∈ revisions m).
  { eapply listed_services in Hlist; [|exact HL]. rewrite Forall_forall in Hlist. auto. }
  apply served_log_wf in HL as Hwfm; [|done].
  apply status_update_served in Hm' as (c & Hup & _).
  assert (c = rs) as -> by (apply (up_to_date_current m o2); [done..|by rewrite Ho]).
  destruct Hup as [Hc _].
  apply served_log_app in HL as (m1 & HL1 & (m2 & Hm2 & HL')%served_log_cons).
  apply served_log_wf in HL1 as Hwf1; [|done].
  refine (served_log_unavailable (rs_key o1) m2 L2 m _ HL' _ HL2 rs _ Ha); [by eapply served_event_wf| |unfold rs_key in *; by rewrite Hkey].
  apply status_update_served in Hm2 as (c1 & [Hc1 _] & [(-> & _ & Hk & Hst)|(-> & -> & Hst)]);
    intros c; unfold rs_key in *; simpl.
  - rewrite Hk, lookup_insert_eq. intros [= <-]. by rewrite Hst, Ho1.
  - intros Hc'. assert (Some c = Some c1) as [= ->] by (by etransitivity; [symmetry|]).
    by rewrite <- Hst, Ho1.
Qed.

(** What was available and is marked as claimed is replaced by a new revision. *)
Lemma claimed_replaces (s : server KRegisteredService) L m rs o :
  wf s → served_log s L m → claimed_ok rs o ∈ L → rs ∈ revisions m →
  rsst_State (rs_Status rs) = RegisteredServiceStateAvailable →
  replaced m (version (k := KRegisteredService) rs).
Proof.
  intros Hwf HL (L1 & L2 & ->)%list_elem_of_split Hrs Ha.
  apply served_log_wf in HL as Hwfm; [|done].
  apply served_log_app in HL as (m1 & HL1 & (m2 & Hm2 & HL2)%served_log_cons).
  apply served_log_wf in HL1 as Hwf1; [|done].
  eapply served_log_replaced; [exact HL2|].
  apply status_update_served in Hm2 as Hinv. destruct Hinv as (c & Hup & [(-> & Hf & Hk & _)|(-> & -> & Hst)]).
  - by apply (store_replaces m1 (rs_set_State rs RegisteredServiceStateClaimed) c);
      [..|apply (wf_nonempty m Hwfm rs)| |].
  - assert (c = rs) as ->; [|by rewrite <- Hst in Ha].
    destruct Hup as [Hc Hv]. destruct (wf_current m1 Hwf1 _ _ Hc) as [Hcin _].
    apply (wf_version m Hwfm); [by eapply served_log_revisions|done|].
    destruct Hv as [He|Hv]; [by destruct (wf_nonempty m Hwfm rs Hrs)|]. by rewrite <- Hv.
Qed.

(** C6: a claim that could not be pushed never gives its service back.  The roll back
    of [processServiceClaim] updates the service as it was listed, whose resource
    version the successful update to claimed has just replaced; the API server refuses
    it whenever it comes, and the service stays claimed by a claim that is not
    resolved. *)
Theorem rollback_refused (s s' : server KRegisteredService) L req sclaim o r :
  wf s →
  rsst_State (rs_Status o) = RegisteredServiceStateAvailable →
  made_by (processClaim req sclaim) L (update_service_status o r) →
  served_log s (L ++ [update_service_status o r]) s' →
  ∃ e, r = Err e.
Proof.
  intros Hwf Ho Hmade HL. destruct r as [o'|e]; [exfalso|by exists e].
  apply served_log_app in HL as (m & HL & (m' & Hm' & _)%served_log_cons).
  destruct (made_warranted _ _ _ _ Hmade I) as (opts & rsl & rs & Hlist & Hin & Ha & Hev).
  destruct Hev as [[r Hev]|[[r Hev] [oc Hoc]]]; apply status_update_inj in Hev as [-> _]; [done|].
  assert (Hrs : rs ∈ revisions m).
  { eapply listed_services in Hlist; [|exact HL]. rewrite Forall_forall in Hlist. auto. }
  destruct (claimed_replaces s L m rs oc) as (Hne & _ & Hcur); [done..|].
  apply status_update_served in Hm' as (c & [Hc [Hv|Hv]] & _); [done|].
  by destruct (Hcur _ _ Hc).
Qed.
End Race.

(** ** Two claims and one service *)

Module Example.

#[local] Instance kubeconfig : KubeconfigLib :=
  {| RESTConfigFromKubeConfig := λ data, Ok {| cfg_Host := data; cfg_Rest := "" |} |}.

Definition tenant : string := "primaza-mytenant".
Definition identity : list ServiceClassIdentityItem := [{| sci_Name := "type"; sci_Value := "psql" |}].

(** A revision of the one registered service. *)
Definition database (v state : string) : RegisteredService :=
  {| rs_meta := om_set_ResourceVersion (named "db" tenant) v;
     rs_Spec := {| rss_Constraints := None; rss_HealthCheck := None; rss_SLA := "";
                   rss_ServiceClassIdentity := Slice identity; rss_ServiceEndpointDefinition := Slice [] |};
     rs_Status := {| rsst_State := state |} |}.

Definition request : NamespacedName := {| nn_Namespace := tenant; nn_Name := "orders" |}.

Definition claim : ServiceClaim :=
  {| sc_meta := named "orders" tenant;
     sc_Spec := {| scs_ServiceClassIdentity := Slice identity; scs_ServiceEndpointDefinitionKeys := Slice [];
                   scs_Application := {| as_APIVersion := "apps/v1"; as_Kind := "Deployment";
                                         as_Name := "orders"; as_Selector := None |};
                   scs_Envs := [];
                   scs_Target := Some {| tgt_EnvironmentTag := "dev";
                                         tgt_ApplicationClusterContext := None |} |};
     sc_Status := {| scst_State := ""; scst_ClaimID := ""; scst_RegisteredService := None;
                     scst_Conditions := [] |} |}.

(** A claim that was reconciled before, with this status. *)
Definition claim_with (name : string) (status : ServiceClaimStatus) : ServiceClaim :=
  {| sc_meta := om_set_Finalizers (named name tenant) [ServiceClaimFinalizer];
     sc_Spec := sc_Spec claim; sc_Status := status |}.
Definition pending_claim : ServiceClaim :=
  claim_with "orders" {| scst_State := ServiceClaimStatePending; scst_ClaimID := "1";
                         scst_RegisteredService := None; scst_Conditions := [] |}.

Definition environment : ClusterEnvironment :=
  {| ce_meta := named "worker" tenant;
     ce_Spec := {| ces_EnvironmentName := "dev"; ces_ClusterContextSecret := "kw"; ces_Description := "";
                   ces_Labels := []; ces_ApplicationNamespaces := ["applications"];
                   ces_ServiceNamespaces := []; ces_ContactInfo := "";
                   ces_SynchronizationStrategy := SynchronizationStrategyPush |};
     ce_Status := {| cest_State := ClusterEnvironmentStateOnline; cest_Conditions := [] |} |}.
Definition available (v : string) : RegisteredService := database v RegisteredServiceStateAvailable.
Definition taken (v : string) : RegisteredService := database v RegisteredServiceStateClaimed.
Definition conflict : gerr :=
  EStatus "Conflict" 409 "the object has been modified; please apply your changes to the latest version".

(** The control plane answers a run with the service at revision [v], then with [w] or
    a conflict to its updates, and with these cluster environments. *)
Definition answer (v w : string) (ces : list ClusterEnvironment) (c : Call) : Answer c :=
  match c with
  | CList _ k opts =>
      match k return result (list (kobj k)) with
      | KRegisteredService => if ⟪ lo_Namespace opts = tenant ⟫ then Ok [available v] else Ok []
      | KClusterEnvironment => if ⟪ lo_Namespace opts = "" ⟫ then Ok ces else Ok []
      | _ => Ok []
      end
  | CGet _ k key =>
      match k return result (kobj k) with
      | KServiceClaim => if ⟪ key = request ⟫ then Ok pending_claim else Err (ENew "not found")
      | _ => Err (ENew "not found")
      end
  | CStatusUpdate _ k o =>
      match k return kobj k → result (kobj k) with
      | KRegisteredService => λ o,
          if ⟪ rs_set_State o RegisteredServiceStateAvailable = available v ⟫ &&
             ⟪ rsst_State (rs_Status o) = RegisteredServiceStateClaimed ⟫ then Ok (taken w)
          else Err conflict
      | _ => Ok
      end o
  | CNewClient _ => None
  | c => failing (ENew "not found") c
  end.

Definition trace (v w : string) (ces : list ClusterEnvironment) : list kevent :=
  run_trace (λ c (s : unit), (answer v w ces c, s)) (processClaim request claim) tt.
Definition run (v w : string) : list kevent :=
  run_trace (λ c (s : unit), (answer v w [] c, s)) (Reconcile request) tt.

Lemma race_answer_legal v w ces c : legal c (answer v w ces c).
Proof.
  destruct c; simpl; try done; destruct k; simpl; try done.
  - case_bool_decide as Hk; [by rewrite Hk|done].
  - case_bool_decide as Ht; [|constructor]. rewrite Ht. constructor; [by right|constructor].
  - case_bool_decide as Ht; [|constructor]. rewrite Ht. apply Forall_true. by left.
  - case_bool_decide as Ho; [|done]. case_bool_decide; [|done].
    symmetry. exact (f_equal rs_key Ho).
Qed.

(** The service at revision 1, claimed by one claim, freed, and claimed by another. *)
Definition server_1 : server KRegisteredService := single (k := KRegisteredService) (available "1").

Definition claimed_twice : list kevent :=
  [update_service_status (taken "1") (Ok (taken "2"));
   update_service_status (available "2") (Ok (available "3"))] ++ take 3 (run "3" "4").

(** A claim takes revision 1, it is freed, and the other claim, which lists it then,
    takes it: between the two is the event that freed it. *)
Lemma claims_exclusive_witness :
  Exists (releases (rs_key (taken "1"))) (drop 1 claimed_twice) ∨
  renews request (take 3 (run "3" "4")) (rs_key (taken "1")).
Proof.
  set (s2 := store (store server_1 (taken "2")) (available "3")).
  apply (claims_exclusive server_1 (store s2 (taken "4")) [] (taken "1") (taken "2") (drop 1 claimed_twice)
           (taken "3") (taken "4") request (take 3 (run "3" "4"))); [by apply single_wf|..]; try done.
  - vm_compute drop. repeat serve KRegisteredService. constructor.
  - apply run_made_after; [intros c []; apply race_answer_legal|done|]. by do 2 apply sublist_cons.
Defined.

(** A claim that is resolved with the service, and the answers to its run, to which the
    service is at revision 2. *)
Definition audit : ServiceClaim :=
  claim_with "audit" {| scst_State := ServiceClaimStateResolved; scst_ClaimID := "2";
                        scst_RegisteredService := Some {| ref_Name := "db"; ref_UID := "" |};
                        scst_Conditions := [] |}.
Definition audit_request : NamespacedName := {| nn_Namespace := tenant; nn_Name := "audit" |}.
Definition audit_answer (c : Call) : Answer c :=
  match c with
  | CGet _ k key =>
      match k return result (kobj k) with
      | KServiceClaim => if ⟪ key = audit_request ⟫ then Ok audit else Err (ENew "not found")
      | KRegisteredService => if ⟪ key = rs_key (taken "2") ⟫ then Ok (taken "2") else Err (ENew "not found")
      | _ => Err (ENew "not found")
      end
  | CStatusUpdate _ _ o => Ok o
  | c => failing (ENew "not found") c
  end.
Definition audit_run : list kevent :=
  run_trace (λ c (s : unit), (audit_answer c, s)) (Reconcile audit_request) tt.

(** The other case: the service of the claim [audit] has been set back to available (by
    whatever means), [orders] takes it, and the next run of [audit] marks it again: both
    updates are accepted and nothing released the service in between. *)
Theorem taken_by_two :
  let L := take 3 (run "1" "2") ++ [update_service_status (taken "1") (Ok (taken "2"))] ++
           take 3 audit_run ++ [update_service_status (taken "2") (Ok (taken "2"))] in
  served_log server_1 L (store server_1 (taken "2")) ∧
  made_by (Reconcile request) (take 3 L) (update_service_status (taken "1") (Ok (taken "2"))) ∧
  made_by (Reconcile audit_request) (take 7 L) (update_service_status (taken "2") (Ok (taken "2"))) ∧
  Forall (λ ev, ¬ releases (rs_key (taken "1")) ev) (drop 4 L).
Proof.
  split_and!.
  - vm_compute take. repeat serve KRegisteredService. constructor.
  - apply (run_made (λ c (s : unit), (answer "1" "2" [] c, s)) _ tt _ 3); [intros c []; apply race_answer_legal|done|done].
  - apply (run_made (λ c (s : unit), (audit_answer c, s)) _ tt _ 3); [|done|].
    + intros c []. destruct c; simpl; try done. destruct k; simpl; try done;
        case_bool_decide as Hk; by rewrite ?Hk.
    + by do 4 apply sublist_cons.
  - vm_compute drop. repeat constructor; by intros [].
Qed.

(** Taking revision 1 makes revision 2; the push fails for want of the cluster's secret,
    and the roll back, which still carries revision 1, meets a conflict. *)
Lemma rollback_refused_witness :
  last (trace "1" "2" [environment]) = Some (update_service_status (available "1") (Err conflict)) ∧
  ∃ e, (Err conflict : result RegisteredService) = Err e.
Proof.
  split; [reflexivity|].
  apply (rollback_refused server_1 (store server_1 (taken "2")) (take 5 (trace "1" "2" [environment]))
           request claim (available "1")); [by apply single_wf|..]; try done.
  - apply (run_made (λ c (s : unit), (answer "1" "2" [environment] c, s)) _ tt _ 5); [intros c []; apply race_answer_legal|done|done].
  - vm_compute take. repeat serve KRegisteredService. constructor.
Defined.
End Example.
