(* ===== verification/ClaimLiveness.v ===== *)
(** * A claim that can be served is resolved

    The other theorems about claims say what a run never does; this one says that it
    does its work.  When the surroundings cooperate ([coop]: every call succeeds, an
    object other than a claim is missing in a worker cluster only as long as nobody
    has seen or made it, and the cluster context secrets hold kubeconfigs that can be
    loaded), a claim for an environment with a service that serves it and
    provides its keys is resolved by the run, without an error; and when it was made in
    an application namespace, the claim there is told. *)

From S2P Require Import Prelude Prog GoErr Json Types Kube WorkerCluster AppNamespaces ServiceClaimCtrl ClaimRace.

#[local] Open Scope string_scope.
#[local] Open Scope list_scope.
#[local] Open Scope primaza_scope.

(** ** Cooperating surroundings *)

(** The object was seen, or made, by a call of the run. *)
Definition exists_by (cfg : RestConfig) (k : Kind) (key : NamespacedName) (ev : kevent) : Prop :=
  match ev with
  | existT c r =>
      match c return Answer c → Prop with
      | CGet cl k' key' => λ r,
          cl = ForConfig cfg ∧ k' = k ∧ key' = key ∧ match r with Ok _ => True | Err _ => False end
      | CCreate cl k' o => λ r,
          cl = ForConfig cfg ∧ k' = k ∧ ObjectKeyFromObject o = key ∧
          match r with Ok _ => True | Err _ => False end
      | _ => λ _, False
      end r
  end.

Definition succeeded {A} (r : result A) : Prop := match r with Ok _ => True | Err _ => False end.

(** A status update is answered with the status, and leaves the specification. *)
Definition keeps_spec {k : Kind} : kobj k → result (kobj k) → Prop :=
  match k with
  | KServiceClaim => λ o r,
      match r with
      | Ok o' => sc_Spec o' = sc_Spec o ∧ sc_Status o' = sc_Status o
      | Err _ => False
      end
  | _ => λ _ r, succeeded r
  end.

(** The secret a cluster environment names. *)
Definition context_key (ce : ClusterEnvironment) : NamespacedName :=
  {| nn_Namespace := om_Namespace (ce_meta ce); nn_Name := ces_ClusterContextSecret (ce_Spec ce) |}.

Section Coop.
Context `{KubeconfigLib}.
(** The environment whose name the cluster environment of a claim has, and the keys of
    the cluster context secrets. *)
Context (env : string) (contexts : NamespacedName → Prop).

(** What the control plane answers to a read: a cluster environment is of the
    environment and names a cluster context secret, and such a secret holds a kubeconfig
    that can be loaded. *)
Definition cooperates {k : Kind} (key : NamespacedName) : result (kobj k) → Prop :=
  match k with
  | KClusterEnvironment => λ r,
      match r with
      | Ok ce => ces_EnvironmentName (ce_Spec ce) = env ∧ contexts (context_key ce)
      | Err _ => False
      end
  | KSecret => λ r,
      match r with
      | Ok s => contexts key → ∃ cfg, ClusterContext.ExtractClusterRESTConfig s = Ok cfg
      | Err _ => False
      end
  | _ => succeeded
  end.

Definition cooperate {k : Kind} : result (list (kobj k)) → Prop :=
  match k with
  | KClusterEnvironment => λ r,
      match r with Ok ces => Forall (λ ce, contexts (context_key ce)) ces | Err _ => False end
  | _ => succeeded
  end.

Definition coop (h : list kevent) (ev : kevent) : Prop :=
  match ev with
  | existT c r =>
      match c return Answer c → Prop with
      | CGet (ForConfig cfg) k key => λ r,
          match r with
          | Ok _ => True
          | Err e => k ≠ KServiceClaim ∧ IsNotFound (Some e) = true ∧ ¬ Exists (exists_by cfg k key) h
          end
      | CGet Manager _ key => cooperates key
      | CList _ _ _ => cooperate
      | CCreate _ _ _ | CUpdate _ _ _ => λ r, succeeded r
      | CStatusUpdate _ _ o => λ r, keeps_spec o r
      | CNewClient _ => λ r, r = None
      | _ => λ _, True
      end r
  end.

(** In cooperating surroundings the program returns, in [Q]; [h] is what happened
    before it. *)
Definition succeeds {A} (h : list kevent) (p : M A) (Q : list kevent → A → Prop) : Prop :=
  kwp p (λ t out, justified (λ u ev, coop (h ++ u) ev) t → ∃ a, out = Done a ∧ Q (h ++ t) a).

Lemma succeeds_ret {A} h (a : A) (Q : list kevent → A → Prop) : Q h a → succeeds h (mret a) Q.
Proof. intros HQ. apply wp_ret. intros _. exists a. by rewrite app_nil_r. Qed.

Lemma justified_split (R : list kevent → kevent → Prop) t t' :
  justified R (t ++ t') → justified R t ∧ justified (λ u, R (t ++ u)) t'.
Proof.
  intros HR. split.
  - intros t1 ev t2 ->. eapply (HR t1 ev (t2 ++ t')). by rewrite <- (assoc_L (++)).
  - intros t1 ev t2 ->. apply (HR (t ++ t1) ev t2). by rewrite <- (assoc_L (++)).
Qed.

Lemma succeeds_bind {A B} h (p : M A) (f : A → M B) P Q :
  succeeds h p P → (∀ h' a, P h' a → succeeds h' (f a) Q) → succeeds h (p ≫= f) Q.
Proof.
  intros Hp Hf. eapply (wp_bind_spec legal); [exact Hp| |].
  - intros t a Ha t' out Hex Hj. apply justified_split in Hj as [Ht Ht'].
    destruct (Ha Ht) as (a' & [= <-] & HP).
    destruct (Hf _ _ HP t' out Hex) as (b & -> & HQ).
    { eapply justified_mono; [|exact Ht']. intros u ev. cbv beta. by rewrite (assoc_L (++)). }
    exists b. by rewrite (assoc_L (++)).
  - intros t x Hx Hj. by destruct (Hx Hj) as (a & [=] & _).
Qed.

Lemma succeeds_call h c (Q : list kevent → Answer c → Prop) :
  (∀ r, legal c r → coop h (Ev c r) → Q (h ++ [Ev c r]) r) → succeeds h (api c) Q.
Proof.
  intros HQ. apply wp_call. intros r Hr Hj. exists r. split; [done|]. apply HQ; [done|].
  specialize (Hj [] (Ev c r) [] eq_refl). cbv beta in Hj. by rewrite app_nil_r in Hj.
Qed.

Lemma succeeds_call_bind {B} h c (f : Answer c → M B) (Q : list kevent → B → Prop) :
  (∀ r, legal c r → coop h (Ev c r) → succeeds (h ++ [Ev c r]) (f r) Q) → succeeds h (api c ≫= f) Q.
Proof.
  intros HQ. eapply (succeeds_bind _ _ _ (λ h' r, succeeds h' (f r) Q)); [by apply succeeds_call|auto].
Qed.

Lemma succeeds_mono {A} h (p : M A) (P Q : list kevent → A → Prop) :
  succeeds h p P → (∀ h' a, P h' a → Q h' a) → succeeds h p Q.
Proof.
  intros Hp HPQ. eapply wp_mono; [exact Hp|]. intros t out Ht Hj.
  destruct (Ht Hj) as (a & -> & Ha). eauto.
Qed.

(** What the calls of a part are. *)
Lemma succeeds_calls {A} h (p : M A) (P : Call → Prop) (Q : list kevent → A → Prop) :
  only_calls legal P p → succeeds h p Q →
  succeeds h p (λ h' a, Q h' a ∧ ∃ u, h' = h ++ u ∧ Forall (λ ev : kevent, P (projT1 ev)) u).
Proof.
  intros Hp HQ. eapply wp_mono; [exact (wp_and _ _ _ _ Hp HQ)|]. intros t out [Ht Hout] Hj.
  destruct (Hout Hj) as (a & -> & Ha). eauto 10.
Qed.

Lemma succeeds_for_each {A S} h (l : list A) (s : S) body (I : list A → list kevent → S → Prop) :
  I l h s →
  (∀ x l' h' s', I (x :: l') h' s' → succeeds h' (body x s') (I l')) →
  succeeds h (for_each l s body) (I []).
Proof.
  intros HI Hbody. revert h s HI. induction l as [|x l IH]; intros h s HI; simpl.
  { by apply succeeds_ret. }
  eapply succeeds_bind; [by apply Hbody|]. intros h' s' HI'. by apply IH.
Qed.

(** ** The parts of a claim's run *)

Lemma exists_by_last cfg k key h ev : exists_by cfg k key ev → Exists (exists_by cfg k key) (h ++ [ev]).
Proof. intros Hev. apply Exists_app. right. by constructor. Qed.
Lemma exists_by_app cfg k key h ev :
  Exists (exists_by cfg k key) h → Exists (exists_by cfg k key) (h ++ [ev]).
Proof. intros Hh. apply Exists_app. by left. Qed.

(** A callback that makes no call, does not fail and keeps the key. *)
Definition keeps_key {k} (f : kobj k → M (kobj k * option gerr)) : Prop :=
  ∀ o, ∃ o', f o = mret (o', None) ∧ ObjectKeyFromObject o' = ObjectKeyFromObject o.

Lemma keeps_key_mutate {k} (f : kobj k → M (kobj k * option gerr)) (o : kobj k) :
  keeps_key f →
  ∃ o', mutate f (ObjectKeyFromObject o) o = mret (o', None) ∧
        ObjectKeyFromObject o' = ObjectKeyFromObject o.
Proof.
  intros Hf. destruct (Hf o) as (o' & Hfo & Hk). exists o'. split; [|done].
  unfold mutate. rewrite Hfo. change (?p ≫= ?g) with (prog_bind p g). simpl. unfold mret, prog_ret_inst.
  rewrite prog_bind_ret_l. cbv beta iota. rewrite Hk. by rewrite bool_decide_false by auto.
Qed.

Lemma succeeds_CreateOrUpdate h cfg k (o : kobj k) f :
  keeps_key f →
  succeeds h (CreateOrUpdate (ForConfig cfg) k o f) (λ h' p,
    (∃ op, p.2 = Ok op) ∧ Exists (exists_by cfg k (ObjectKeyFromObject o)) h').
Proof.
  intros Hf. unfold CreateOrUpdate. apply succeeds_call_bind. intros got Hl Hgot.
  destruct got as [existing|e].
  - assert (Hkey : ObjectKeyFromObject existing = ObjectKeyFromObject o) by exact Hl.
    destruct (keeps_key_mutate f existing Hf) as (o' & Hm & Hk). rewrite <- Hkey, Hm.
    set (h' := h ++ [_]).
    assert (Hseen : Exists (exists_by cfg k (ObjectKeyFromObject existing)) h').
    { by apply exists_by_last; rewrite Hkey. }
    eapply (succeeds_bind _ _ _ (λ h2 p, h2 = h' ∧ p = (o', None))); [by apply succeeds_ret|].
    intros ? ? [-> ->]. cbv beta iota. destruct (SemanticDeepEqual existing o').
    { apply succeeds_ret. split; [by eexists|done]. }
    apply succeeds_call_bind. intros [o''|e] _ Hr; [|done].
    apply succeeds_ret. split; [by eexists|by apply exists_by_app].
  - destruct Hgot as (_ & Hnf & _). rewrite Hnf. cbn [negb].
    destruct (keeps_key_mutate f o Hf) as (o' & Hm & Hk). rewrite Hm.
    set (h' := h ++ [_]).
    eapply (succeeds_bind _ _ _ (λ h2 p, h2 = h' ∧ p = (o', None))); [by apply succeeds_ret|].
    intros ? ? [-> ->]. cbv beta iota.
    apply succeeds_call_bind. intros [o''|e2] _ Hr; [|done].
    apply succeeds_ret. split; [by eexists|]. by apply exists_by_last; rewrite <- Hk.
Qed.

Lemma mutate_binding_keeps_key sc ref :
  scst_RegisteredService (sc_Status sc) = Some ref → keeps_key (k := KServiceBinding) (mutate_binding sc).
Proof.
  intros Href sb. unfold mutate_binding, deref. rewrite Href. eexists. split; [reflexivity|done].
Qed.

Lemma mutates_keeps_key {k} (f : kobj k → kobj k) :
  (∀ o, ObjectKeyFromObject (f o) = ObjectKeyFromObject o) → keeps_key (mutates f).
Proof. intros Hf o. exists (f o). split; [done|apply Hf]. Qed.

Lemma succeeds_pushServiceBindingToNamespace h cfg ns sc secret ref :
  scst_RegisteredService (sc_Status sc) = Some ref →
  succeeds h (pushServiceBindingToNamespace (ForConfig cfg) ns sc secret) (λ _ p, p.2 = None).
Proof.
  intros Href. unfold pushServiceBindingToNamespace.
  eapply succeeds_bind; [by eapply succeeds_CreateOrUpdate, mutate_binding_keeps_key|].
  intros h1 [sb op] [[op' Hop] Hseen]. cbn [snd] in Hop. subst op. cbv beta iota.
  apply succeeds_call_bind. intros [sb'|e] _ Hr; [|by destruct Hr as (_ & _ & [])].
  eapply succeeds_bind; [by apply (succeeds_CreateOrUpdate _ cfg KSecret), mutates_keeps_key|].
  intros h2 [secret' op] [[op2 Hop] _]. cbn [snd] in Hop. subst op. by apply succeeds_ret.
Qed.

Lemma succeeds_PushServiceBinding h cfg sc secret nspace nss ref :
  scst_RegisteredService (sc_Status sc) = Some ref →
  succeeds h (PushServiceBinding sc secret nspace nss cfg) (λ _ p, p.2 = None).
Proof.
  intros Href. unfold PushServiceBinding. apply succeeds_call_bind. intros r _ ->.
  eapply (succeeds_bind _ _ _ (λ _ p, p.2 = [])).
  - apply (succeeds_for_each _ _ _ _ (λ _ _ p, p.2 = [])); [done|].
    intros ns l h' [s errs] Hs. cbn [snd] in Hs. subst errs.
    destruct (selected nspace ns); [|by apply succeeds_ret].
    eapply succeeds_bind; [by eapply succeeds_pushServiceBindingToNamespace|].
    intros h2 [s' err] He. cbn [snd] in He. subst err. by apply succeeds_ret.
  - intros h' [s errs] Hs. cbn [snd] in Hs. subst errs. by apply succeeds_ret.
Qed.

Lemma succeeds_rest_config h ce :
  contexts (context_key ce) →
  succeeds h (ClusterContext.GetClusterRESTConfig Manager (om_Namespace (ce_meta ce))
                (ces_ClusterContextSecret (ce_Spec ce))) (λ _ r, ∃ cfg, r = Ok cfg).
Proof.
  intros Hctx. unfold ClusterContext.GetClusterRESTConfig, ClusterContext.getSecret.
  eapply (succeeds_bind _ _ _ (λ _ r, ∃ s, r = Ok s ∧ ∃ cfg, ClusterContext.ExtractClusterRESTConfig s = Ok cfg)).
  { apply succeeds_call_bind. intros [s|e] _ Hr; [|done]. apply succeeds_ret. exists s.
    split; [done|]. exact (Hr Hctx). }
  intros h' r (s & -> & Hcfg). by apply succeeds_ret.
Qed.

Lemma succeeds_push_environments h sc tag ces secret ref :
  scst_RegisteredService (sc_Status sc) = Some ref → Forall (λ ce, contexts (context_key ce)) ces →
  succeeds h (push_environments sc tag ces secret []) (λ _ err, err = None).
Proof.
  intros Href Hces. revert h secret.
  induction Hces as [|ce ces Hce Hces IH]; intros h secret; cbn [push_environments]; [by apply succeeds_ret|].
  eapply succeeds_bind; [by apply succeeds_rest_config|]. intros h1 r [cfg ->]. cbv beta iota.
  case_bool_decide; [apply IH|].
  eapply succeeds_bind; [by eapply succeeds_PushServiceBinding|].
  intros h2 [s err] He. cbn [snd] in He. subst err. apply IH.
Qed.

(** The claim has the target, which means the environment: by its tag, or because the
    cluster environment it names is of it. *)
Definition aimed (sc : ServiceClaim) (tgt : ServiceClaimTarget) : Prop :=
  scs_Target (sc_Spec sc) = Some tgt ∧
  (tgt_ApplicationClusterContext tgt = None → tgt_EnvironmentTag tgt = env).

Lemma succeeds_target h sc tgt : aimed sc tgt → succeeds h (target sc) (λ h' tgt', h' = h ∧ tgt' = tgt).
Proof. intros [Htgt _]. unfold target, deref. rewrite Htgt. by apply succeeds_ret. Qed.

Lemma succeeds_environment h ns name :
  succeeds h (getEnvironmentFromClusterEnvironment ns name)
    (λ _ r, ∃ ce, r = Ok ce ∧ ces_EnvironmentName (ce_Spec ce) = env ∧ contexts (context_key ce)).
Proof.
  unfold getEnvironmentFromClusterEnvironment. apply (succeeds_call _ (CGet Manager KClusterEnvironment _)).
  intros [ce|e] _ Hr; [|done]. by exists ce.
Qed.

Lemma succeeds_claim_environment h sc tgt :
  aimed sc tgt → succeeds h (claim_environment sc) (λ _ r, r = Ok env).
Proof.
  intros Haim. unfold claim_environment. eapply succeeds_bind; [by apply succeeds_target|].
  intros h1 tgt' [-> ->]. destruct Haim as [_ Htag]. destruct (tgt_ApplicationClusterContext tgt) as [acc|].
  - eapply succeeds_bind; [apply succeeds_environment|]. intros h2 r (ce & -> & <- & _). by apply succeeds_ret.
  - apply succeeds_ret. by rewrite Htag.
Qed.

Lemma succeeds_push h sc tgt secret ref :
  aimed sc tgt → scst_RegisteredService (sc_Status sc) = Some ref →
  succeeds h (pushToClusterEnvironments sc secret) (λ _ err, err = None).
Proof.
  intros Haim Href. unfold pushToClusterEnvironments.
  eapply succeeds_bind; [by apply succeeds_target|]. intros h1 tgt' [-> ->].
  destruct (tgt_ApplicationClusterContext tgt) as [acc|].
  - eapply succeeds_bind; [apply succeeds_environment|]. intros h2 r (ce & -> & _ & Hctx). cbv beta iota.
    eapply succeeds_bind; [by apply succeeds_rest_config|]. intros h3 r [cfg ->]. cbv beta iota.
    eapply succeeds_bind; [by eapply succeeds_PushServiceBinding|].
    intros h4 [s err] He. cbn [snd] in He. subst err. by apply succeeds_ret.
  - apply succeeds_call_bind. intros [ces|e] _ Hr; [|done]. by eapply succeeds_push_environments.
Qed.

(** The claim in the application namespace, if it was made there, is given the state and
    the service. *)
Definition told (sc : ServiceClaim) (tgt : ServiceClaimTarget) (u : list kevent) : Prop :=
  ∀ acc ref, tgt_ApplicationClusterContext tgt = Some acc →
    scst_RegisteredService (sc_Status sc) = Some ref →
    ∃ cfg rsc r, KEv (CStatusUpdate (ForConfig cfg) KServiceClaim rsc) (Ok r) ∈ u ∧
      ObjectKeyFromObject (k := KServiceClaim) rsc =
        {| nn_Namespace := acc_Namespace acc; nn_Name := om_Name (sc_meta sc) |} ∧
      scst_State (sc_Status rsc) = scst_State (sc_Status sc) ∧
      scst_RegisteredService (sc_Status rsc) = Some ref.

Lemma succeeds_remote_status h sc tgt :
  aimed sc tgt →
  succeeds h (updateRemoteServiceClaimStatusIfNeeded sc) (λ h' err, err = None ∧ told sc tgt h').
Proof.
  intros Haim. unfold updateRemoteServiceClaimStatusIfNeeded.
  eapply succeeds_bind; [by apply succeeds_target|]. intros h1 tgt' [-> ->].
  destruct (tgt_ApplicationClusterContext tgt) as [acc|] eqn:Hacc.
  2: { apply succeeds_ret. split; [done|]. intros acc ref. by rewrite Hacc. }
  eapply succeeds_bind; [apply succeeds_environment|]. intros h2 r (ce & -> & _ & Hctx). cbv beta iota.
  eapply succeeds_bind; [by apply succeeds_rest_config|]. intros h3 r [cfg ->]. cbv beta iota.
  apply succeeds_call_bind. intros r _ ->.
  apply succeeds_call_bind. intros [rsc|e] Hk Hr; [|by destruct Hr as [[] _]].
  assert (Hkey : ObjectKeyFromObject (k := KServiceClaim) rsc =
    {| nn_Namespace := acc_Namespace acc; nn_Name := om_Name (sc_meta sc) |}) by exact Hk.
  destruct (registered_service_pointers_differ _ _ || _ || _) eqn:Hdiff.
  - apply succeeds_call_bind. intros [rsc'|e] _ Hr'; [|done]. apply succeeds_ret. split; [done|].
    intros acc' ref Hacc' Href. rewrite Hacc in Hacc'. injection Hacc' as <-. exists cfg. eexists _, rsc'.
    split; [apply elem_of_app; right; by left|]. split; [exact Hkey|done].
  - apply succeeds_ret. split; [done|]. intros acc' ref _ Href. exfalso. revert Hdiff.
    unfold registered_service_pointers_differ. rewrite Href, andb_false_r. done.
Qed.

Lemma succeeds_updateServiceClaimStatus h sc tgt :
  aimed sc tgt →
  succeeds h (updateServiceClaimStatus sc) (λ h' p,
    p.2 = None ∧ aimed p.1 tgt ∧ ∃ o u, h' = h ++ resolved sc (Ok o) :: u ∧
      Forall (λ ev : kevent, remote_status_call (projT1 ev)) u ∧ told sc tgt h').
Proof.
  intros Haim. unfold updateServiceClaimStatus. apply succeeds_call_bind. intros [sc'|e] Hk Hr; [|done].
  destruct Hr as [Hspec Hst].
  assert (Haim' : aimed sc' tgt) by (destruct Haim; split; [by rewrite Hspec|done]).
  eapply succeeds_bind; [apply succeeds_calls; [apply only_calls_remote_status|by apply succeeds_remote_status]|].
  intros h2 err [[-> Htold] (u & -> & Hu)]. apply succeeds_ret. split; [done|]. split; [done|].
  exists sc', u. split; [by rewrite <- (assoc_L (++))|]. split; [done|].
  intros acc ref Hacc Href. rewrite <- Hst in Href. destruct (Htold acc ref Hacc Href) as (cfg & rsc & r & Hin & Hkey & Hrest).
  exists cfg, rsc, r. split; [done|]. rewrite <- Hst. split; [|done].
  rewrite Hkey. f_equal. exact (f_equal nn_Name Hk).
Qed.

(** A definition the controller can read: a value, or a key of a secret. *)
Definition readable (sed : ServiceEndpointDefinitionItem) : Prop :=
  sedi_Value sed ≠ "" ∨ ∃ vs, sedi_ValueFromSecret sed = Some vs ∧ sedr_Key vs ≠ "".

Lemma succeeds_extract h ns rs keys secret :
  Forall readable (rss_ServiceEndpointDefinition (rs_Spec rs)) →
  succeeds h (extractServiceEndpointDefinition ns rs keys secret) (λ _ p,
    p.2 = length (filter (.∈ keys) (sedi_Name <$> elems (rss_ServiceEndpointDefinition (rs_Spec rs))))).
Proof.
  intros Hwf. unfold extractServiceEndpointDefinition.
  set (count := λ l, length (filter (.∈ keys) (sedi_Name <$> l))).
  set (I := λ (l : list ServiceEndpointDefinitionItem) (_ : list kevent) (p : Secret * nat),
    Forall readable l ∧ p.2 + count l = count (rss_ServiceEndpointDefinition (rs_Spec rs))).
  eapply succeeds_mono; [apply (succeeds_for_each _ _ _ _ I)|].
  - by split.
  - intros sed l h' [s n] [[Hsed Hl]%Forall_cons Hn]. cbn [snd] in Hn.
    unfold count in Hn. rewrite fmap_cons, filter_cons in Hn. fold (count l) in Hn.
    assert (Hskip : ∀ h2, sedi_Name sed ∉ keys → I l h2 (s, n)).
    { intros h2 Hk. rewrite decide_False in Hn by done. by split. }
    assert (Hput : ∀ h2 s', sedi_Name sed ∈ keys → I l h2 (s', S n)).
    { intros h2 s' Hk. rewrite decide_True in Hn by done. split; [done|].
      cbn [snd] in *. simpl in Hn. unfold count in *. lia. }
    destruct (bool_decide_reflect (sedi_Value sed ≠ "")) as [Hv|Hv].
    { case_bool_decide; apply succeeds_ret; auto. }
    destruct Hsed as [?|(vs & Hvs & Hk)]; [done|]. rewrite Hvs.
    eapply (succeeds_bind _ _ _ (λ h2 v, v = vs)); [by apply succeeds_ret|]. intros h2 v ->.
    rewrite bool_decide_true by done. case_bool_decide; [|apply succeeds_ret; auto].
    apply succeeds_call_bind. intros [sec|e] _ Hr; [|done]. apply succeeds_ret. auto.
  - intros h' [s n] [_ Hn]. unfold count in Hn at 1. simpl in Hn. by rewrite Nat.add_0_r in Hn.
Qed.

Lemma provided_count (keys names : list string) :
  keys ⊆+ names → (length keys ≤ length (filter (.∈ keys) names))%nat.
Proof.
  intros [k Hk]%submseteq_Permutation. rewrite Hk, filter_app, length_app.
  assert (filter (.∈ keys) keys = keys) as ->; [|lia].
  by apply filter_all, Forall_forall.
Qed.

Lemma succeeds_changeServiceState h rs state :
  succeeds h (changeServiceState rs state) (λ _ err, err = None).
Proof.
  unfold changeServiceState. apply succeeds_call_bind. intros [o|e] _ Hr; [|done]. by apply succeeds_ret.
Qed.

(** A service that provides what a claim asks of it. *)
Record provides (rs : RegisteredService) (sc : ServiceClaim) : Prop := {
  provides_readable : Forall readable (rss_ServiceEndpointDefinition (rs_Spec rs));
  provides_keys : elems (scs_ServiceEndpointDefinitionKeys (sc_Spec sc)) ⊆+
                  (sedi_Name <$> elems (rss_ServiceEndpointDefinition (rs_Spec rs))) }.

(** C5: progress.  In cooperating surroundings ([coop]) a claim for an environment, given by a tag
    or by a cluster environment, is resolved, with the first listed service that serves
    it, provided that service defines the keys asked for: the run returns no error and
    has set the claim to resolved with that service, after which it only updates the
    status of the claim in the worker cluster; and if the claim was made in an
    application namespace, it is resolved there too. *)
Theorem claim_is_resolved rsl sclaim tgt rs :
  aimed sclaim tgt → first_serving rsl sclaim env rs → provides rs sclaim →
  kwp (processServiceClaim rsl sclaim) (λ t out, justified coop t →
    out = Done None ∧
    ∃ t' sc o u, t = t' ++ resolved sc (Ok o) :: u ∧
      scst_State (sc_Status sc) = ServiceClaimStateResolved ∧
      scst_RegisteredService (sc_Status sc) =
        Some {| ref_Name := om_Name (rs_meta rs); ref_UID := om_UID (rs_meta rs) |} ∧
      Forall (λ ev : kevent, remote_status_call (projT1 ev)) u ∧ told sc tgt t).
Proof.
  intros Haim Hfirst [Hread Hkeys]. apply first_serving_find in Hfirst.
  set (ref := Some {| ref_Name := om_Name (rs_meta rs); ref_UID := om_UID (rs_meta rs) |}).
  cut (succeeds [] (processServiceClaim rsl sclaim) (λ h err, err = None ∧
    ∃ t' sc o u, h = t' ++ resolved sc (Ok o) :: u ∧
      scst_State (sc_Status sc) = ServiceClaimStateResolved ∧
      scst_RegisteredService (sc_Status sc) = ref ∧
      Forall (λ ev : kevent, remote_status_call (projT1 ev)) u ∧ told sc tgt h)).
  { intros Hs. eapply wp_mono; [exact Hs|]. intros t out Ht Hj.
    destruct (Ht Hj) as (err & -> & -> & Hres). done. }
  unfold processServiceClaim.
  eapply succeeds_bind; [by eapply succeeds_claim_environment|].
  intros h1 r ->. cbv beta iota. rewrite Hfirst.
  eapply succeeds_bind; [by apply succeeds_extract|]. intros h2 [secret count] Hcount.
  cbn [snd] in Hcount. rewrite bool_decide_false by (apply provided_count in Hkeys; lia).
  cbv beta iota zeta.
  eapply succeeds_bind; [by apply (succeeds_updateServiceClaimStatus _ _ tgt)|].
  intros h3 [sc err] (He & Haim' & _). cbn [fst snd] in *. subst err.
  eapply succeeds_bind; [apply succeeds_changeServiceState|]. intros h4 err ->. cbv beta iota zeta.
  eapply succeeds_bind; [by eapply (succeeds_push _ _ tgt)|]. intros h5 err ->. cbv beta iota.
  eapply succeeds_bind; [by apply (succeeds_updateServiceClaimStatus _ _ tgt)|].
  intros h6 [sc' err] (He & _ & o & u & -> & Hu & Htold). cbn [fst snd] in *. subst err. apply succeeds_ret.
  split; [done|]. do 4 eexists. split; [reflexivity|]. by repeat split.
Qed.
End Coop.

(** ** A claim made in an application namespace *)

Module Resolved.

Import ClaimRace.Example.

(** A loader that refuses what is empty. *)
#[local] Instance strict_kubeconfig : KubeconfigLib :=
  {| RESTConfigFromKubeConfig := λ data,
       if ⟪ data = "" ⟫ then Err (ENew "invalid configuration: no configuration has been provided")
       else Ok {| cfg_Host := data; cfg_Rest := "" |} |}.

Definition context : ServiceClaimTarget :=
  {| tgt_EnvironmentTag := "";
     tgt_ApplicationClusterContext := Some
       {| acc_ClusterEnvironmentName := "worker"; acc_Namespace := "applications" |} |}.
Definition targeted (ns : string) (tgt : option ServiceClaimTarget) : ServiceClaim :=
  {| sc_meta := named "orders" ns;
     sc_Spec := {| scs_ServiceClassIdentity := Slice identity; scs_ServiceEndpointDefinitionKeys := Slice [];
                   scs_Application := scs_Application (sc_Spec claim); scs_Envs := [];
                   scs_Target := tgt |};
     sc_Status := sc_Status claim |}.

(** The cluster context secret of the cluster environment. *)
Definition context_secret (key : NamespacedName) : Prop :=
  key = {| nn_Namespace := tenant; nn_Name := "kw" |}.

(** Every call succeeds; the objects of the worker cluster exist. *)
Definition willing (c : Call) : Answer c :=
  match c with
  | CGet _ k key =>
      let meta := named (nn_Name key) (nn_Namespace key) in
      match k return result (kobj k) with
      | KServiceBinding =>
          Ok {| sb_meta := meta; sb_Spec := binding_spec claim; sb_Status := empty_sbstatus |}
      | KSecret => Ok {| sec_meta := meta;
                         sec_Data := if ⟪ nn_Name key = "kw" ⟫ then {["kubeconfig" := "worker"]} else ∅;
                         sec_StringData := ∅ |}
      | KServiceClaim =>
          Ok {| sc_meta := meta; sc_Spec := sc_Spec (targeted "" None); sc_Status := sc_Status claim |}
      | KClusterEnvironment =>
          Ok {| ce_meta := meta; ce_Spec := ce_Spec environment; ce_Status := ce_Status environment |}
      | _ => Err (ENew "not found")
      end
  | CList _ _ _ => Ok []
  | CCreate _ _ o | CUpdate _ _ o | CStatusUpdate _ _ o => Ok o
  | CNewClient _ => None
  | c => failing (ENew "refused") c
  end.

Definition p : M (option gerr) := processServiceClaim [available "1"] (targeted tenant (Some context)).
Definition handler (c : Call) (s : unit) : Answer c * unit := (willing c, s).

Lemma willing_exec : kexec p (run_trace handler p tt) (run_outcome handler p tt).
Proof.
  apply run_exec. intros c []. by destruct c; simpl; try done; destruct k; simpl; try done; destruct key.
Qed.

(** The whole run: the claim pending, the service claimed, the binding and the secret
    pushed, the claim resolved; each state of the claim is told to the namespace. *)
Lemma claim_is_resolved_witness :
  length (run_trace handler p tt) = 22%nat ∧ run_outcome handler p tt = Done None.
Proof.
  split; [reflexivity|].
  refine (proj1 (claim_is_resolved "dev" context_secret [available "1"] (targeted tenant (Some context)) context
                   (available "1") _ _ _ _ _ willing_exec _)).
  - done.
  - by apply first_serving_find.
  - split; [constructor|apply submseteq_nil_l].
  - apply justified_all. vm_compute. repeat constructor; try done; intros _; by eexists.
Defined.
End Resolved.
