(* ===== verification/RegisteredServiceCtrl.v ===== *)
(** * The registered service controller

    controllers/registeredservice_controller.go: the state of a registered service
    follows its health check, and the service catalogs of the tenant list the
    available services whose constraints accept the catalog's environment. *)

From S2P Require Import Prelude Prog GoErr GoStr Json Types Kube EnvTag.

#[local] Open Scope string_scope.
#[local] Open Scope list_scope.
#[local] Open Scope primaza_scope.

(** ** Service catalogs *)

(** The index of a service in a catalog; [None] is the source's -1. *)
Fixpoint index_of_service (services : list ServiceCatalogService) (serviceName : string) : option nat :=
  match services with
  | [] => None
  | service :: services' =>
      if ⟪ scsv_Name service = serviceName ⟫ then Some 0%nat
      else S <$> index_of_service services' serviceName
  end.
Definition ServiceInCatalog (sc : ServiceCatalog) (serviceName : string) : option nat :=
  index_of_service (scats_Services (scat_Spec sc)) serviceName.

Definition getServiceCatalogs (namespace : string) : M (result (list ServiceCatalog)) :=
  api (CList Manager KServiceCatalog (InNamespace namespace)).

(** The selector of the last claim bound to the service; nil when there is none. *)
Definition claim_selector (serviceName : string) (sclaims : list ServiceClaim) : option LabelSelector :=
  foldl (λ labelSelector sclaim,
    match scst_RegisteredService (sc_Status sclaim) with
    | Some ref => if ⟪ ref_Name ref = serviceName ⟫ then as_Selector (scs_Application (sc_Spec sclaim))
                  else labelSelector
    | None => labelSelector
    end) None sclaims.

(** The catalog without its entry at [si]; the entry moves to the services claimed
    by labels when there is a selector. *)
Definition catalog_without (sc : ServiceCatalog) (si : nat) (s : ServiceCatalogService)
    (labelSelector : option LabelSelector) : ServiceCatalog :=
  {| scat_meta := scat_meta sc;
     scat_Spec := {|
       scats_Services := take si (scats_Services (scat_Spec sc)) ++
                         drop (S si) (scats_Services (scat_Spec sc));
       scats_ClaimedByLabels :=
         match labelSelector with
         | Some _ => scats_ClaimedByLabels (scat_Spec sc) ++
                     [{| scbl_ServiceCatalogService := s; scbl_Labels := labelSelector |}]
         | None => scats_ClaimedByLabels (scat_Spec sc)
         end |} |}.

Definition removeServiceFromCatalog (sc : ServiceCatalog) (namespace serviceName : string)
    : M (option gerr) :=
  match ServiceInCatalog sc serviceName with
  | None => mret None
  | Some si =>
      let! sclaims := api (CList Manager KServiceClaim (InNamespace namespace)) ;;
      match scats_Services (scat_Spec sc) !! si with
      | None => panic "index out of range"
      | Some s =>
          r ← api (CUpdate Manager KServiceCatalog
                     (catalog_without sc si s (claim_selector serviceName sclaims)));
          mret (result_err r)
      end
  end.

Definition service_entry (rs : RegisteredService) : ServiceCatalogService :=
  {| scsv_Name := om_Name (rs_meta rs);
     scsv_ServiceClassIdentity := rss_ServiceClassIdentity (rs_Spec rs);
     scsv_ServiceEndpointDefinitionKeys :=
       Slice (sedi_Name <$> elems (rss_ServiceEndpointDefinition (rs_Spec rs))) |}.

Definition catalog_with (sc : ServiceCatalog) (scs : ServiceCatalogService) : ServiceCatalog :=
  {| scat_meta := scat_meta sc;
     scat_Spec := {| scats_Services := scats_Services (scat_Spec sc) ++ [scs];
                     scats_ClaimedByLabels := scats_ClaimedByLabels (scat_Spec sc) |} |}.

Definition addServiceToCatalog (sc : ServiceCatalog) (rs : RegisteredService) : M (option gerr) :=
  let scs := service_entry rs in
  match ServiceInCatalog sc (scsv_Name scs) with
  | None =>
      r ← api (CUpdate Manager KServiceCatalog (catalog_with sc scs));
      mret (result_err r)
  | Some _ => mret None
  end.

Definition removeServiceFromCatalogs (namespace serviceName : string) : M (option gerr) :=
  let! catalogs := getServiceCatalogs namespace ;;
  errs ← for_each catalogs [] (λ sc errs,
    err ← removeServiceFromCatalog sc namespace serviceName;
    mret (errs ++ [err]));
  mret (errors_join errs).

Definition reconcileCatalogs (rs : RegisteredService) : M (option gerr) :=
  let! catalogs := getServiceCatalogs (om_Namespace (rs_meta rs)) ;;
  errs ← for_each catalogs [] (λ sc errs,
    err ← (if Match (om_Name (scat_meta sc)) (rss_GetEnvironmentConstraints (rs_Spec rs))
           then addServiceToCatalog sc rs
           else removeServiceFromCatalog sc (om_Namespace (rs_meta rs)) (om_Name (rs_meta rs)));
    mret (errs ++ [err]));
  mret (errors_join errs).

(** ** Health checks *)

Definition set_state (rs : RegisteredService) (state : string) : RegisteredService :=
  {| rs_meta := rs_meta rs; rs_Spec := rs_Spec rs; rs_Status := {| rsst_State := state |} |}.

Definition healthcheck_container (hc : HealthCheck) : JobContainer :=
  {| jc_Name := "healthcheck"; jc_Command := hcc_Command (hc_Container hc);
     jc_Image := hcc_Image (hc_Container hc); jc_ImagePullPolicy := "IfNotPresent";
     jc_DropCapabilities := ["ALL"]; jc_Privileged := Some false; jc_RunAsNonRoot := Some true;
     jc_AllowPrivilegeEscalation := Some false |}.

Definition healthcheck_spec (hc : HealthCheck) : CronJobSpec :=
  {| cjs_Schedule := "*/" +++ pretty (hcc_Minutes (hc_Container hc)) +++ " * * * *";
     cjs_ConcurrencyPolicy := "Forbid";
     cjs_SuccessfulJobsHistoryLimit := Some 1%Z; cjs_FailedJobsHistoryLimit := Some 1%Z;
     cjs_ActiveDeadlineSeconds := Some 30%Z; cjs_BackoffLimit := Some 2%Z; cjs_Parallelism := Some 1%Z;
     cjs_Containers := [healthcheck_container hc]; cjs_RestartPolicy := "Never";
     cjs_RunAsUser := Some 65530%Z; cjs_RunAsGroup := Some 65530%Z; cjs_RunAsNonRoot := Some true;
     cjs_SeccompProfile := "RuntimeDefault" |}.

(** The callback: the specification is replaced, the service becomes the controller. *)
Definition mutate_cronjob (rs : RegisteredService) (cronjob : CronJob) : M (CronJob * option gerr) :=
  hc ← deref (rss_HealthCheck (rs_Spec rs));
  mret (SetControllerReference (ko := KRegisteredService) (k := KCronJob) rs
          {| cj_meta := cj_meta cronjob; cj_Spec := Some (healthcheck_spec hc) |}).

Definition registerHealthcheck (rs : RegisteredService) : M (option gerr) :=
  '(_, operation) ← CreateOrUpdate Manager KCronJob
     {| cj_meta := named (om_Name (rs_meta rs)) (om_Namespace (rs_meta rs)); cj_Spec := None |}
     (mutate_cronjob rs);
  mret (result_err operation).

Definition owned_by (uid : string) (m : ObjectMeta) : bool :=
  existsb (λ r, ⟪ or_UID r = uid ⟫) (om_OwnerReferences m).

(** What one job says: the first of its conditions that is a completion or a
    failure decides. *)
Definition job_verdict (job : Job) : option bool :=
  match find_first (λ c, (⟪ jcond_Type c = "Complete" ⟫ || ⟪ jcond_Type c = "Failed" ⟫)
                         && ⟪ jcond_Status c = ConditionTrue ⟫) (job_Conditions job) with
  | Some c => Some ⟪ jcond_Type c = "Complete" ⟫
  | None => None
  end.

(** [completed] and [failed] after the loop over the jobs. *)
Definition job_status (cronjobUID : string) (jobs : list Job) : bool * bool :=
  foldl (λ '(completed, failed) job,
    if owned_by cronjobUID (job_meta job) then
      match job_verdict job with
      | Some true => (true, failed)
      | Some false => (completed, true)
      | None => (completed, failed)
      end
    else (completed, failed)) (false, false) jobs.

Definition state_after_jobs (state : string) (completed failed : bool) : string :=
  if completed then
    if ⟪ state ≠ RegisteredServiceStateClaimed ⟫ then RegisteredServiceStateAvailable else state
  else if failed then RegisteredServiceStateUnreachable
  else RegisteredServiceStateUnknown.

Definition handleHealthcheck (rs : RegisteredService) : M (RegisteredService * option gerr) :=
  got ← api (CGet Manager KCronJob
               {| nn_Namespace := om_Namespace (rs_meta rs); nn_Name := om_Name (rs_meta rs) |});
  match got with
  | Err err =>
      if IsNotFound (Some err) then
        err ← registerHealthcheck rs;
        mret (set_state rs RegisteredServiceStateUnknown, err)
      else mret (rs, Some err)
  | Ok cronjob =>
      jobList ← api (CList Manager KJob (InNamespace (om_Namespace (cj_meta cronjob))));
      match jobList with
      | Err err => mret (rs, Some err)
      | Ok items =>
          let '(completed, failed) := job_status (om_UID (cj_meta cronjob)) items in
          let rs := set_state rs (state_after_jobs (rsst_State (rs_Status rs)) completed failed) in
          err ← registerHealthcheck rs;
          mret (rs, err)
      end
  end.

Definition cleanupHealthchecks (rs : RegisteredService) : M (option gerr) :=
  cronjobList ← api (CList Manager KCronJob (InNamespace (om_Namespace (rs_meta rs))));
  match cronjobList with
  | Err err => mret (IgnoreNotFound (Some err))
  | Ok items =>
      errs ← for_each items [] (λ (cronjob : CronJob) errs,
        if owned_by (om_UID (rs_meta rs)) (cj_meta cronjob) then
          err ← api (CDelete Manager KCronJob (ObjectKeyFromObject (k := KCronJob) cronjob));
          mret (errs ++ [err])
        else mret errs);
      mret (errors_join errs)
  end.

(** ** Reconcile *)

(** The service with its new state: by its health check, or else claimed stays
    claimed and everything else becomes available. *)
Definition observe_state (rs : RegisteredService) : M (RegisteredService * option gerr) :=
  if negb (is_nil (rss_HealthCheck (rs_Spec rs))) then handleHealthcheck rs
  else
    err ← cleanupHealthchecks rs;
    match err with
    | Some err => mret (rs, Some err)
    | None =>
        mret (if ⟪ rsst_State (rs_Status rs) ≠ RegisteredServiceStateClaimed ⟫
              then set_state rs RegisteredServiceStateAvailable else rs, None)
    end.

Definition Reconcile (req : NamespacedName) : M (option gerr) :=
  got ← api (CGet Manager KRegisteredService req);
  match got with
  | Err err =>
      if IsNotFound (Some err) then removeServiceFromCatalogs (nn_Namespace req) (nn_Name req)
      else mret (Some err)
  | Ok rs =>
      '(rs, err) ← observe_state rs;
      match err with
      | Some err => mret (Some err)
      | None =>
          do! (if ⟪ rsst_State (rs_Status rs) = RegisteredServiceStateAvailable ⟫
               then reconcileCatalogs rs
               else removeServiceFromCatalogs (nn_Namespace req) (nn_Name req)) ;;
          r ← api (CStatusUpdate Manager KRegisteredService rs);
          mret (result_err r)
      end
  end.

(** ** States: properties *)

Lemma set_state_same rs : set_state rs (rsst_State (rs_Status rs)) = rs.
Proof. by destruct rs as [m sp []]. Qed.

Lemma owned_by_spec uid m : owned_by uid m = true ↔ ∃ r, r ∈ om_OwnerReferences m ∧ or_UID r = uid.
Proof.
  unfold owned_by. rewrite existsb_exists. setoid_rewrite bool_decide_eq_true.
  setoid_rewrite list_elem_of_In. done.
Qed.

(** What the jobs of a cron job say. *)
Definition some_job (cronjobUID : string) (jobs : list Job) (verdict : bool) : Prop :=
  ∃ job, job ∈ jobs ∧ owned_by cronjobUID (job_meta job) = true ∧ job_verdict job = Some verdict.

Lemma job_status_spec uid jobs :
  ((job_status uid jobs).1 = true ↔ some_job uid jobs true) ∧
  ((job_status uid jobs).2 = true ↔ some_job uid jobs false).
Proof.
  unfold job_status, some_job. induction jobs as [|job jobs IH] using rev_ind.
  { simpl. split; (split; [done|]); intros (job & ?%elem_of_nil & _); done. }
  rewrite foldl_app. cbn [foldl]. destruct (foldl _ _ jobs) as [c f]. simpl in *.
  assert (Hsnoc : ∀ v, (∃ j, j ∈ jobs ++ [job] ∧ owned_by uid (job_meta j) = true ∧ job_verdict j = Some v) ↔
     (∃ j, j ∈ jobs ∧ owned_by uid (job_meta j) = true ∧ job_verdict j = Some v) ∨
     (owned_by uid (job_meta job) = true ∧ job_verdict job = Some v)).
  { intros v. setoid_rewrite elem_of_app. setoid_rewrite list_elem_of_singleton. naive_solver. }
  rewrite !Hsnoc. destruct IH as [Hc Hf]. rewrite <- Hc, <- Hf.
  destruct (owned_by uid (job_meta job)); [|naive_solver].
  destruct (job_verdict job) as [[]|]; simpl; naive_solver.
Qed.

(** The state a run gives to the service it has read: without a health check a
    claimed service stays claimed and any other becomes available; with one, a
    success of one of its jobs makes it available unless it is claimed, otherwise a
    failure makes it unreachable, and with neither, or without a cron job yet, it is
    unknown. *)
Inductive NextState (rs : RegisteredService) (t : list kevent) : string → Prop :=
| NS_claimed :
    rss_HealthCheck (rs_Spec rs) = None →
    rsst_State (rs_Status rs) = RegisteredServiceStateClaimed →
    NextState rs t RegisteredServiceStateClaimed
| NS_available :
    rss_HealthCheck (rs_Spec rs) = None →
    rsst_State (rs_Status rs) ≠ RegisteredServiceStateClaimed →
    NextState rs t RegisteredServiceStateAvailable
| NS_no_cronjob hc e :
    rss_HealthCheck (rs_Spec rs) = Some hc → IsNotFound (Some e) = true →
    KEv (CGet Manager KCronJob (ObjectKeyFromObject (k := KRegisteredService) rs)) (Err e) ∈ t →
    NextState rs t RegisteredServiceStateUnknown
| NS_jobs hc (cronjob : CronJob) jobs state :
    rss_HealthCheck (rs_Spec rs) = Some hc →
    KEv (CGet Manager KCronJob (ObjectKeyFromObject (k := KRegisteredService) rs)) (Ok cronjob) ∈ t →
    KEv (CList Manager KJob (InNamespace (om_Namespace (cj_meta cronjob)))) (Ok jobs) ∈ t →
    (some_job (om_UID (cj_meta cronjob)) jobs true →
       state = if ⟪ rsst_State (rs_Status rs) = RegisteredServiceStateClaimed ⟫
               then RegisteredServiceStateClaimed else RegisteredServiceStateAvailable) →
    (¬ some_job (om_UID (cj_meta cronjob)) jobs true → some_job (om_UID (cj_meta cronjob)) jobs false →
       state = RegisteredServiceStateUnreachable) →
    (¬ some_job (om_UID (cj_meta cronjob)) jobs true → ¬ some_job (om_UID (cj_meta cronjob)) jobs false →
       state = RegisteredServiceStateUnknown) →
    NextState rs t state.

Lemma NextState_app rs t1 t t2 state : NextState rs t state → NextState rs (t1 ++ t ++ t2) state.
Proof.
  assert (Hin : ∀ ev, ev ∈ t → ev ∈ t1 ++ t ++ t2) by set_solver.
  intros [?|?|hc e ? ? ?|hc cronjob jobs st ? ? ? ? ? ?];
    [by constructor|by constructor|eapply NS_no_cronjob; eauto|eapply NS_jobs; eauto].
Qed.

(** Neither a catalog nor the status of a registered service is written. *)
Definition no_catalog_or_state (c : Call) : Prop :=
  match c with
  | CUpdate _ KServiceCatalog _ | CStatusUpdate _ KRegisteredService _ => False
  | _ => True
  end.

Lemma only_calls_registerHealthcheck rs :
  only_calls legal no_catalog_or_state (registerHealthcheck rs).
Proof. unfold registerHealthcheck, mutate_cronjob. calls; done. Qed.

Lemma wp_observe_state rs :
  kwp (observe_state rs) (λ t out,
    Forall (λ ev : kevent, no_catalog_or_state (projT1 ev)) t ∧
    ∀ rs', out = Done (rs', None) → ∃ state, rs' = set_state rs state ∧ NextState rs t state).
Proof.
  unfold observe_state. destruct (rss_HealthCheck (rs_Spec rs)) as [hc|] eqn:Hhc; cbn [is_nil negb].
  - unfold handleHealthcheck. wcall got Hgot. cbv beta. destruct got as [cronjob|e].
    + wcall jobs Hjobs. cbv beta. destruct jobs as [jobs|e].
      2: { wflow. split; [by each_event|by intros ? [=]]. }
      destruct (job_status_spec (om_UID (cj_meta cronjob)) jobs) as [Hc Hf].
      destruct (job_status _ jobs) as [completed failed]. cbn [fst snd] in *.
      eapply (wp_bind_spec legal); [apply only_calls_registerHealthcheck| |].
      2: { intros t h Ht. split; [|done]. by do 2 constructor. }
      intros t err Ht. wflow. rewrite app_nil_r. split; [by do 2 (constructor; [done|])|].
      intros rs' [= <- ->]. eexists. split; [done|].
      eapply (NS_jobs _ _ hc cronjob jobs); [done|set_solver..| | |];
        rewrite <- ?Hc, <- ?Hf; unfold state_after_jobs.
      * intros ->. repeat case_bool_decide; naive_solver.
      * intros ?%not_true_is_false ->. by subst.
      * intros ?%not_true_is_false ?%not_true_is_false. by subst.
    + destruct (IsNotFound (Some e)) eqn:He; [|wflow; split; [by each_event|by intros ? [=]]].
      eapply (wp_bind_spec legal); [apply only_calls_registerHealthcheck| |].
      2: { intros t h Ht. split; [|done]. by constructor. }
      intros t err Ht. wflow. rewrite app_nil_r. split; [by constructor|].
      intros rs' [= <- ->]. eexists. split; [done|]. eapply NS_no_cronjob; [done..|set_solver].
  - eapply (wp_bind_spec legal (λ t _, Forall (λ ev : kevent, no_catalog_or_state (projT1 ev)) t)).
    { unfold cleanupHealthchecks. change (only_calls legal no_catalog_or_state (cleanupHealthchecks rs)).
      unfold cleanupHealthchecks. calls; done. }
    2: { intros t h Ht. by split. }
    intros t [e|] Ht; wflow; rewrite ?app_nil_r; (split; [done|]); [by intros ? [=]|].
    intros rs' [= <-]. case_bool_decide as Hst.
    + eexists. split; [done|]. by apply NS_available.
    + exists (rsst_State (rs_Status rs)). rewrite set_state_same. split; [done|].
      rewrite Hst. by apply NS_claimed.
Qed.

(** ** Catalogs: properties *)

Definition service_names (sc : ServiceCatalog) : list string :=
  scsv_Name <$> scats_Services (scat_Spec sc).

Lemma index_of_service_Some l n i :
  index_of_service l n = Some i →
  ∃ l1 s l2, l = l1 ++ s :: l2 ∧ length l1 = i ∧ scsv_Name s = n.
Proof.
  revert i. induction l as [|s l IH]; intros i; simpl; [done|].
  case_bool_decide as Hs; [intros [= <-]; by exists [], s, l|].
  intros (j & Hj & ->)%fmap_Some. destruct (IH j Hj) as (l1 & s' & l2 & -> & <- & ?).
  by exists (s :: l1), s', l2.
Qed.

Lemma index_of_service_None l n : index_of_service l n = None ↔ n ∉ (scsv_Name <$> l).
Proof.
  induction l as [|s l IH]; simpl; [set_solver|]. rewrite not_elem_of_cons.
  case_bool_decide as Hs; [naive_solver|]. rewrite fmap_None, IH. naive_solver.
Qed.

(** The catalog [o] is [sc] with the entry of the service added ... *)
Definition added (rs : RegisteredService) (sc o : ServiceCatalog) : Prop :=
  (om_Name (rs_meta rs) ∉ service_names sc) ∧ o = catalog_with sc (service_entry rs).
(** ... or with its first entry removed. *)
Definition removed (n : string) (sc o : ServiceCatalog) : Prop :=
  ∃ l1 s l2 selector, scats_Services (scat_Spec sc) = l1 ++ s :: l2 ∧ scsv_Name s = n ∧
    o = catalog_without sc (length l1) s selector.

(** The catalogs a program writes; it does not touch the state of a service. *)
Definition catalog_calls (Q : ServiceCatalog → Prop) (c : Call) : Prop :=
  match c with
  | CUpdate cl KServiceCatalog o => cl = Manager ∧ Q o
  | CStatusUpdate _ KRegisteredService _ => False
  | _ => True
  end.

Lemma only_calls_remove sc ns n :
  only_calls legal (catalog_calls (removed n sc)) (removeServiceFromCatalog sc ns n).
Proof.
  unfold removeServiceFromCatalog, ServiceInCatalog. calls; try done.
  split; [done|]. apply index_of_service_Some in Heqo as (l1 & s' & l2 & Hl & <- & Hs).
  rewrite Hl, list_lookup_middle in Heqo0 by done. injection Heqo0 as <-.
  eexists l1, s', l2, _. done.
Qed.

Lemma only_calls_add sc rs :
  only_calls legal (catalog_calls (added rs sc)) (addServiceToCatalog sc rs).
Proof.
  unfold addServiceToCatalog, ServiceInCatalog. calls; try done.
  split; [done|]. apply index_of_service_None in Heqo. done.
Qed.

Lemma catalog_calls_mono (Q Q' : ServiceCatalog → Prop) c :
  (∀ o, Q o → Q' o) → catalog_calls Q c → catalog_calls Q' c.
Proof. intros HQ. destruct c; try done; destruct k; simpl; naive_solver. Qed.

(** The catalogs of the tenant are listed first; what is written are listed ones,
    changed as [Q] says. *)
Definition lists_then (ns : string) (Q : ServiceCatalog → ServiceCatalog → Prop) (t : list kevent) : Prop :=
  ∃ r t', t = KEv (CList Manager KServiceCatalog (InNamespace ns)) r :: t' ∧
    Forall (λ ev : kevent, catalog_calls (λ o, ∃ items sc, r = Ok items ∧ sc ∈ items ∧ Q sc o) (projT1 ev)) t'.

Lemma wp_removeServiceFromCatalogs ns n :
  kwp (removeServiceFromCatalogs ns n) (λ t _, lists_then ns (removed n) t).
Proof.
  unfold removeServiceFromCatalogs, getServiceCatalogs. wcall r Hr. cbv beta. destruct r as [items|e].
  2: { wflow. by exists (Err e), []. }
  eapply wp_mono.
  - eapply (only_calls_bind legal (catalog_calls (λ o, ∃ items0 sc, Ok items = Ok items0 ∧ sc ∈ items0 ∧ removed n sc o)));
      [|intros ?; calls].
    calls. eapply only_calls_mono; [apply only_calls_remove|]. intros c. apply catalog_calls_mono. eauto.
  - intros t out Ht. by exists (Ok items), t.
Qed.

Lemma wp_reconcileCatalogs rs :
  kwp (reconcileCatalogs rs) (λ t _, lists_then (om_Namespace (rs_meta rs)) (λ sc o,
    if Match (om_Name (scat_meta sc)) (rss_GetEnvironmentConstraints (rs_Spec rs))
    then added rs sc o else removed (om_Name (rs_meta rs)) sc o) t).
Proof.
  unfold reconcileCatalogs, getServiceCatalogs. wcall r Hr. cbv beta. destruct r as [items|e].
  2: { wflow. by exists (Err e), []. }
  eapply wp_mono.
  - eapply (only_calls_bind legal (catalog_calls (λ o, ∃ items0 sc, Ok items = Ok items0 ∧ sc ∈ items0 ∧
      if Match (om_Name (scat_meta sc)) (rss_GetEnvironmentConstraints (rs_Spec rs))
      then added rs sc o else removed (om_Name (rs_meta rs)) sc o)));
      [|intros ?; calls].
    calls; (eapply only_calls_mono; [first [apply only_calls_add|apply only_calls_remove]|]);
      intros c; apply catalog_calls_mono; intros o Ho; exists items, x; rewrite Heqb; done.
  - intros t out Ht. by exists (Ok items), t.
Qed.

(** The service is to be listed in a catalog: it is available after this run, and
    its constraints accept the catalog's environment. *)
Definition to_list (req : NamespacedName) (t : list kevent) (sc : ServiceCatalog) : Prop :=
  ∃ rs, KEv (CGet Manager KRegisteredService req) (Ok rs) ∈ t ∧
    NextState rs t RegisteredServiceStateAvailable ∧
    Match (om_Name (scat_meta sc)) (rss_GetEnvironmentConstraints (rs_Spec rs)) = true.
(** The service is not to be listed: it is gone, or in another state, or rejected. *)
Definition not_to_list (req : NamespacedName) (t : list kevent) (sc : ServiceCatalog) : Prop :=
  (∃ e, IsNotFound (Some e) = true ∧ KEv (CGet Manager KRegisteredService req) (Err e) ∈ t) ∨
  ∃ rs state, KEv (CGet Manager KRegisteredService req) (Ok rs) ∈ t ∧ NextState rs t state ∧
    (state ≠ RegisteredServiceStateAvailable ∨
     Match (om_Name (scat_meta sc)) (rss_GetEnvironmentConstraints (rs_Spec rs)) = false).

(** A catalog [o] written for the service named [n] in place of [sc]: names stay
    unique, the other services are kept, and [n] is listed as it should be. *)
Record catalog_ok (n : string) (listed : Prop) (sc o : ServiceCatalog) : Prop := {
  cok_key : ObjectKeyFromObject (k := KServiceCatalog) o = ObjectKeyFromObject (k := KServiceCatalog) sc;
  cok_others : filter (λ s, scsv_Name s ≠ n) (scats_Services (scat_Spec o)) =
               filter (λ s, scsv_Name s ≠ n) (scats_Services (scat_Spec sc));
  cok_unique : NoDup (service_names sc) → NoDup (service_names o);
  cok_listed : NoDup (service_names sc) → (n ∈ service_names o ↔ listed) }.

Lemma service_names_with sc scs :
  service_names (catalog_with sc scs) = service_names sc ++ [scsv_Name scs].
Proof. unfold service_names. simpl. by rewrite fmap_app. Qed.

Lemma services_without sc l1 s l2 s' sel :
  scats_Services (scat_Spec sc) = l1 ++ s :: l2 →
  scats_Services (scat_Spec (catalog_without sc (length l1) s' sel)) = l1 ++ l2.
Proof.
  intros Hl. simpl. rewrite Hl, take_app_length, drop_app_ge by (simpl; lia).
  by replace (S (length l1) - length l1) with 1 by lia.
Qed.

Lemma added_ok rs sc o : added rs sc o → catalog_ok (om_Name (rs_meta rs)) True sc o.
Proof.
  intros [Hn ->]. split; [done|..]; rewrite ?service_names_with.
  - simpl. rewrite filter_app, filter_cons, decide_False by (simpl; tauto). by rewrite app_nil_r.
  - intros Hnd. apply NoDup_app. split; [done|]. split; [|apply NoDup_singleton].
    intros x Hx ->%list_elem_of_singleton. done.
  - intros _. set_solver.
Qed.

Lemma removed_ok n sc o : removed n sc o → catalog_ok n False sc o.
Proof.
  intros (l1 & s & l2 & sel & Hl & <- & ->).
  assert (Ho := services_without sc l1 s l2 s sel Hl).
  assert (Hnames : NoDup (service_names sc) →
    (scsv_Name s ∉ (scsv_Name <$> (l1 ++ l2))) ∧ NoDup (scsv_Name <$> (l1 ++ l2))).
  { unfold service_names. rewrite Hl, <- Permutation_middle, fmap_cons. by intros [? ?]%NoDup_cons. }
  split; [done|..].
  - rewrite Ho, Hl, !filter_app, filter_cons, decide_False by tauto. done.
  - intros Hnd. unfold service_names. rewrite Ho. by apply Hnames.
  - intros Hnd. unfold service_names. rewrite Ho. split; [|done]. by apply Hnames.
Qed.

(** What a run writes for a service: catalogs that were listed, with the service in
    them exactly when it is to be listed. *)
Definition catalog_step (req : NamespacedName) (t : list kevent) (c : Call) : Prop :=
  catalog_calls (λ o, ∃ items sc,
    KEv (CList Manager KServiceCatalog (InNamespace (nn_Namespace req))) (Ok items) ∈ t ∧ sc ∈ items ∧
    ((to_list req t sc ∧ catalog_ok (nn_Name req) True sc o) ∨
     (not_to_list req t sc ∧ catalog_ok (nn_Name req) False sc o))) c.

(** The part of the trace that updates catalogs, as [lists_then] has it. *)
Lemma lists_then_step req t1 t t2 Q :
  lists_then (nn_Namespace req) Q t →
  (∀ sc o, Q sc o →
     (to_list req (t1 ++ t ++ t2) sc ∧ catalog_ok (nn_Name req) True sc o) ∨
     (not_to_list req (t1 ++ t ++ t2) sc ∧ catalog_ok (nn_Name req) False sc o)) →
  Forall (λ ev : kevent, catalog_step req (t1 ++ t ++ t2) (projT1 ev)) t.
Proof.
  intros (r & t' & -> & Ht) HQ. constructor; [done|]. eapply Forall_impl; [exact Ht|].
  intros ev. apply catalog_calls_mono. intros o (items & sc & -> & Hsc & Ho).
  exists items, sc. split; [set_solver|]. split; [done|]. by apply HQ.
Qed.

Lemma no_catalog_step req t u :
  Forall (λ ev : kevent, no_catalog_or_state (projT1 ev)) u →
  Forall (λ ev : kevent, catalog_step req t (projT1 ev)) u.
Proof.
  intros Hu. eapply Forall_impl; [exact Hu|]. intros [c r]; destruct c; try done; by destruct k.
Qed.

(** The catalog a call writes. *)
Definition catalog_written (c : Call) : option ServiceCatalog :=
  match c with CUpdate _ KServiceCatalog o => Some o | _ => None end.

(** What the run publishes as the state of the service. *)
Definition state_step (req : NamespacedName) (t : list kevent) (ev : kevent) : Prop :=
  on_StatusUpdate KRegisteredService (λ _ _ _, True) ev →
  on_StatusUpdate KRegisteredService (λ cl o _, cl = Manager ∧
    ∃ rs state, KEv (CGet Manager KRegisteredService req) (Ok rs) ∈ t ∧
      NextState rs t state ∧ o = set_state rs state) ev.

Definition step_ok (req : NamespacedName) (t : list kevent) (ev : kevent) : Prop :=
  state_step req t ev ∧
  (is_Some (catalog_written (projT1 ev)) → catalog_step req t (projT1 ev)).

Lemma steps_of_catalog req t u :
  Forall (λ ev : kevent, catalog_step req t (projT1 ev)) u → Forall (step_ok req t) u.
Proof.
  intros Hu. eapply Forall_impl; [exact Hu|]. intros ev Hev. split; [|done].
  destruct ev as [c r]; destruct c; try (intros Hs; destruct Hs; fail).
  intros Hs. by destruct k.
Qed.

Lemma wp_Reconcile req : kwp (Reconcile req) (λ t _, Forall (step_ok req t) t).
Proof.
  unfold Reconcile. wcall got Hgot. cbv beta. destruct got as [rs|e].
  2: { destruct (IsNotFound (Some e)) eqn:He; [|wflow; repeat constructor; by intros []].
       eapply wp_mono; [apply wp_removeServiceFromCatalogs|]. intros t out Ht.
       constructor; [split; [by intros []|by intros [? ?]]|].
       apply steps_of_catalog.
       apply (lists_then_step req [KEv (CGet Manager KRegisteredService req) (Err e)] t [] _) in Ht.
       { by rewrite app_nil_r in Ht. }
       intros sc o Ho. right. split; [left; exists e; set_solver|by apply removed_ok]. }
  assert (Hn : om_Name (rs_meta rs) = nn_Name req) by (by rewrite <- Hgot).
  assert (Hns : om_Namespace (rs_meta rs) = nn_Namespace req) by (by rewrite <- Hgot).
  eapply (wp_bind_spec legal); [apply wp_observe_state| |].
  2: { intros t h [Ht _]. constructor; [split; [by intros []|by intros [? ?]]|].
       by apply steps_of_catalog, no_catalog_step. }
  intros t [rs' err] [Ht Hst]. destruct err as [err|].
  { wflow. rewrite app_nil_r. constructor; [split; [by intros []|by intros [? ?]]|].
    by apply steps_of_catalog, no_catalog_step. }
  destruct (Hst rs' eq_refl) as (state & -> & Hns'). clear Hst.
  eapply (wp_bind_spec legal (λ u _, ∀ t2, Forall (λ ev : kevent,
     catalog_step req (KEv (CGet Manager KRegisteredService req) (Ok rs) :: t ++ u ++ t2) (projT1 ev)) u)).
  - case_bool_decide as Hav; simpl in Hav.
    + eapply wp_mono; [apply wp_reconcileCatalogs|]. intros u out Hu t2. simpl in Hu.
      rewrite Hns in Hu.
      apply (lists_then_step req (KEv (CGet Manager KRegisteredService req) (Ok rs) :: t) u t2 _) in Hu; [exact Hu|].
      intros sc o Ho. destruct (Match _ _) eqn:Hm.
      * left. split; [|rewrite <- Hn; exact (added_ok _ _ _ Ho)]. exists rs. split; [set_solver|].
        split; [|done]. rewrite <- Hav. by apply (NextState_app rs [KEv (CGet Manager KRegisteredService req) (Ok rs)] t (u ++ t2)).
      * right. split; [|rewrite <- Hn; exact (removed_ok _ _ _ Ho)]. right. exists rs, state.
        split; [set_solver|]. split; [by apply (NextState_app rs [KEv (CGet Manager KRegisteredService req) (Ok rs)] t (u ++ t2))|by right].
    + eapply wp_mono; [apply wp_removeServiceFromCatalogs|]. intros u out Hu t2.
      apply (lists_then_step req (KEv (CGet Manager KRegisteredService req) (Ok rs) :: t) u t2 _) in Hu; [exact Hu|].
      intros sc o Ho. right. split; [|by apply removed_ok]. right. exists rs, state.
      split; [set_solver|]. split; [by apply (NextState_app rs [KEv (CGet Manager KRegisteredService req) (Ok rs)] t (u ++ t2))|by left].
  - intros u err Hu. wflow.
    + rewrite !app_nil_r. constructor; [split; [by intros []|by intros [? ?]]|].
      specialize (Hu []). rewrite app_nil_r in Hu.
      apply Forall_app. split; [by apply steps_of_catalog, no_catalog_step|by apply steps_of_catalog].
    + wcall r Hr. cbv beta. wflow. constructor; [split; [by intros []|by intros [? ?]]|].
      apply Forall_app. split; [by apply steps_of_catalog, no_catalog_step|].
      apply Forall_app. split; [by apply steps_of_catalog|]. constructor; [|constructor].
      split; [|by intros [? ?]]. intros _. split; [done|]. exists rs, state.
      split; [set_solver|]. split; [|done]. by apply (NextState_app rs [KEv (CGet Manager KRegisteredService req) (Ok rs)] t).
  - intros u h Hu. specialize (Hu []). rewrite app_nil_r in Hu.
    constructor; [split; [by intros []|by intros [? ?]]|].
    apply Forall_app. split; [by apply steps_of_catalog, no_catalog_step|by apply steps_of_catalog].
Qed.

(** C30: the only states a run publishes are those the health check of the service
    it read gives, on top of the service as it was read. *)
Theorem Reconcile_state req : kwp (Reconcile req) (λ t _, Forall (state_step req t) t).
Proof.
  eapply wp_mono; [apply wp_Reconcile|]. intros t out Ht. eapply Forall_impl; [exact Ht|].
  by intros ev [? _].
Qed.

(** C13: a run writes only catalogs that it listed, each at most changed at this
    service: names stay unique, the other services are kept, and the service is
    listed exactly when it is available after the run and its constraints accept
    the catalog's environment. *)
Theorem Reconcile_catalogs req :
  kwp (Reconcile req) (λ t _,
    Forall (λ ev : kevent, is_Some (catalog_written (projT1 ev)) → catalog_step req t (projT1 ev)) t).
Proof.
  eapply wp_mono; [apply wp_Reconcile|]. intros t out Ht. eapply Forall_impl; [exact Ht|].
  by intros ev [_ ?].
Qed.
