(* ===== verification/CatalogRace.v ===== *)
(** * Registered services sharing a catalog

    [ApiServer.v] at the service catalogs of the control plane.  The run of every
    registered service reads the catalogs and writes them back with its own entry added
    or removed; runs overlap and read old revisions.  No run undoes the work of another:
    an accepted update changes the revision it read, at the service of the run only. *)

From S2P Require Import Prelude Prog GoErr Types Kube EnvTag ApiServer RegisteredServiceCtrl.

#[local] Open Scope string_scope.
#[local] Open Scope list_scope.
#[local] Open Scope primaza_scope.

(** ** Catalogs *)

(** A catalog has no status. *)
#[export] Instance stored_catalogs : Stored KServiceCatalog :=
  Build_Stored KServiceCatalog
    (λ o o' : ServiceCatalog, scat_Spec o = scat_Spec o')
    (λ o o' : ServiceCatalog, True).

Definition cat_key (sc : ServiceCatalog) : NamespacedName :=
  ObjectKeyFromObject (k := KServiceCatalog) sc.

Definition list_catalogs (opts : ListOptions) (r : result (list ServiceCatalog)) : kevent :=
  event_of (RList (k := KServiceCatalog) opts r).
Definition create_catalog (o : ServiceCatalog) (r : result ServiceCatalog) : kevent :=
  event_of (RCreate (k := KServiceCatalog) o r).
Definition update_catalog (o : ServiceCatalog) (r : result ServiceCatalog) : kevent :=
  event_of (RUpdate (k := KServiceCatalog) o r).

Lemma listed_catalogs s L m opts os :
  served_log s L m → list_catalogs opts (Ok os) ∈ L → Forall (.∈ revisions m) os.
Proof. exact (listed_revisions s L m opts os). Qed.

(** The entries of the service named [n]. *)
Definition entries (n : string) (sc : ServiceCatalog) : list ServiceCatalogService :=
  filter (λ s, scsv_Name s = n) (scats_Services (scat_Spec sc)).

Lemma entries_of_others n n' (sc o : ServiceCatalog) :
  n' ≠ n →
  filter (λ s, scsv_Name s ≠ n') (scats_Services (scat_Spec o)) =
  filter (λ s, scsv_Name s ≠ n') (scats_Services (scat_Spec sc)) →
  entries n o = entries n sc.
Proof.
  intros Hne Heq. unfold entries.
  assert (Hf : ∀ l : list ServiceCatalogService,
    filter (λ s, scsv_Name s = n) l = filter (λ s, scsv_Name s = n) (filter (λ s, scsv_Name s ≠ n') l)).
  { intros l. rewrite list_filter_filter. apply list_filter_iff. intros s. naive_solver. }
  by rewrite (Hf (scats_Services (scat_Spec o))), Heq, <- Hf.
Qed.

(** ** What a run writes *)

(** An update of a catalog is of one listed before, changed at the run's service. *)
Definition catalog_basis (req : NamespacedName) (t : list kevent) (ev : kevent) : Prop :=
  ∀ o r, ev = update_catalog o r →
    ∃ opts items sc listed, list_catalogs opts (Ok items) ∈ t ∧ sc ∈ items ∧
      scat_meta o = scat_meta sc ∧ catalog_ok (nn_Name req) listed sc o.

Lemma basis_none req t u :
  Forall (λ ev : kevent, no_catalog_or_state (projT1 ev)) u →
  justified (λ t1 ev, catalog_basis req (t ++ t1) ev) u.
Proof.
  intros Hu. apply justified_all. eapply Forall_impl; [exact Hu|]. intros ev Hev t1 o r ->. done.
Qed.

Lemma basis_lists req ns t u (Q : ServiceCatalog → ServiceCatalog → Prop) :
  lists_then ns Q u →
  (∀ sc o, Q sc o → scat_meta o = scat_meta sc ∧ ∃ listed, catalog_ok (nn_Name req) listed sc o) →
  justified (λ t1 ev, catalog_basis req (t ++ t1) ev) u.
Proof.
  intros (r & u' & -> & Hu) HQ. apply (justified_app _ [_]).
  { apply justified_one. intros o r' Heq. by apply (f_equal (@projT1 _ _)) in Heq. }
  apply justified_all. eapply Forall_impl; [exact Hu|]. intros ev Hev t1 o r' ->.
  destruct Hev as [_ (items & sc & -> & Hin & Hsc)]. destruct (HQ sc o Hsc) as [Hm [listed Hok]].
  exists (InNamespace ns), items, sc, listed. split; [|done]. rewrite elem_of_app. right. by left.
Qed.

Lemma removed_changes n sc o :
  removed n sc o → scat_meta o = scat_meta sc ∧ ∃ listed, catalog_ok n listed sc o.
Proof.
  intros Hr. split; [by destruct Hr as (? & ? & ? & ? & _ & _ & ->)|]. by eexists; apply removed_ok.
Qed.
Lemma added_changes n rs sc o :
  om_Name (rs_meta rs) = n → added rs sc o → scat_meta o = scat_meta sc ∧ ∃ listed, catalog_ok n listed sc o.
Proof. intros <- Ha. split; [by destruct Ha as [_ ->]|]. by eexists; apply added_ok. Qed.

Lemma wp_Reconcile_basis req : kwp (Reconcile req) (λ t _, justified (catalog_basis req) t).
Proof.
  unfold Reconcile. wcall got Hgot. cbv beta.
  set (e0 := KEv _ got).
  assert (Hone : justified (catalog_basis req) [e0]) by (apply justified_one; by intros o r ?%(f_equal (@projT1 _ _))).
  destruct got as [rs|e].
  2: { destruct (IsNotFound _); [|by wflow].
       eapply wp_mono; [apply wp_removeServiceFromCatalogs|]. intros t out Ht.
       apply (justified_app _ [e0]); [done|]. eapply basis_lists; [exact Ht|]. apply removed_changes. }
  assert (Hn : om_Name (rs_meta rs) = nn_Name req) by (by rewrite <- Hgot).
  eapply (wp_bind_spec legal); [apply wp_observe_state| |].
  2: { intros t h [Ht _]. apply (justified_app _ [e0]); [done|]. by apply basis_none. }
  intros t [rs' err] [Ht Hst].
  assert (Hhead : justified (catalog_basis req) (e0 :: t)) by (apply (justified_app _ [e0]); [done|by apply basis_none]).
  destruct err as [err|]; [wflow; by rewrite app_nil_r|].
  destruct (Hst rs' eq_refl) as (state & -> & _). clear Hst.
  eapply (wp_bind_spec legal (λ u _, justified (λ t1 ev, catalog_basis req ((e0 :: t) ++ t1) ev) u)).
  - case_bool_decide.
    + eapply wp_mono; [apply wp_reconcileCatalogs|]. intros u out Hu. eapply basis_lists; [exact Hu|].
      intros sc o. simpl. destruct (Match _ _); [by apply added_changes|]. rewrite Hn. apply removed_changes.
    + eapply wp_mono; [apply wp_removeServiceFromCatalogs|]. intros u out Hu.
      eapply basis_lists; [exact Hu|]. apply removed_changes.
  - intros u err Hu.
    assert (Hall : justified (catalog_basis req) ((e0 :: t) ++ u)) by by apply justified_app.
    wflow; rewrite ?app_nil_r; [done|]. wcall r Hr. wflow.
    apply (justified_app _ (e0 :: t)); [done|]. apply justified_app; [done|].
    apply justified_one. by intros o r' ?%(f_equal (@projT1 _ _)).
  - intros u h Hu. by apply (justified_app _ (e0 :: t)).
Qed.

Lemma made_basis req L ev : made_by (Reconcile req) L ev → catalog_basis req L ev.
Proof.
  apply made_justified; [apply wp_Reconcile_basis|].
  intros t t' e Hin Hb o r Hev. destruct (Hb o r Hev) as (opts & items & sc & listed & Hl & Hrest).
  exists opts, items, sc, listed. split; [by apply Hin|done].
Qed.

(** ** No run undoes another's work *)

(** The run's accepted update changes the current revision, at its own service. *)
Lemma accepted_update (s m : server KServiceCatalog) L req o r c :
  wf s → served_log s L m → made_by (Reconcile req) L (update_catalog o r) → up_to_date m o c →
  ∃ listed, catalog_ok (nn_Name req) listed c o.
Proof.
  intros Hwf HL Hmade Hup. destruct (made_basis _ _ _ Hmade o r eq_refl) as (opts & items & sc & listed & Hl & Hin & Hm & Hok).
  apply served_log_wf in HL as Hwfm; [|done].
  eapply listed_catalogs in Hl; [|exact HL]. rewrite Forall_forall in Hl.
  assert (c = sc) as ->; [|by eexists].
  apply (up_to_date_current m o); [done..|by apply Hl|]. unfold version. simpl. by rewrite Hm.
Qed.

(** Who writes the catalog [key] in the log [L], after [L0]: runs of the registered
    services that [who] accepts, and nobody creates it. *)
Definition written_by (who : NamespacedName → Prop) (key : NamespacedName) (L0 L : list kevent) : Prop :=
  (∀ L1 o o' L2, L = L1 ++ update_catalog o (Ok o') :: L2 → cat_key o = key →
     ∃ req, made_by (Reconcile req) (L0 ++ L1) (update_catalog o (Ok o')) ∧ who req) ∧
  (∀ o o', create_catalog o (Ok o') ∈ L → cat_key o ≠ key).

Lemma written_by_init who key L0 L ev : written_by who key L0 (L ++ [ev]) → written_by who key L0 L.
Proof.
  intros [Hu Hc]. split.
  - intros L1 o o' L2 -> Hk. apply (Hu L1 o o' (L2 ++ [ev])); [|done]. by rewrite <- (assoc_L (++)).
  - intros o o' Hin. apply (Hc o o'), elem_of_app. by left.
Qed.

(** What each of these runs keeps of a catalog, the log keeps. *)
Lemma written_by_keeps who key (P : ServiceCatalogSpec → Prop) (s0 s s' : server KServiceCatalog) L0 L :
  wf s0 → served_log s0 L0 s → served_log s L s' → written_by who key L0 L →
  (∀ req listed c o, who req → catalog_ok (nn_Name req) listed c o → P (scat_Spec c) → P (scat_Spec o)) →
  (∀ c, current s !! key = Some c → P (scat_Spec c)) → ∀ c, current s' !! key = Some c → P (scat_Spec c).
Proof.
  intros Hwf HL0 HL Hwho HP Hs. revert s' HL Hwho. induction L as [|ev L IH] using rev_ind; intros s' HL Hwho.
  { inversion HL; by subst. }
  apply served_log_app in HL as (m & HL & (m' & Hev & Hnil)%served_log_cons).
  assert (m' = s') as -> by by inversion Hnil. clear Hnil.
  specialize (IH m HL (written_by_init _ _ _ _ _ Hwho)).
  assert (HLm : served_log s0 (L0 ++ L) m) by (apply served_log_app; eauto).
  assert (Hstore : ∀ x, (cat_key x = key → P (scat_Spec x)) → ∀ c, current (store m x) !! key = Some c → P (scat_Spec c)).
  { intros x Hx c. simpl. intros [[Hk <-]|[_ Hk]]%lookup_insert_Some; [by apply Hx|by apply IH]. }
  assert (Hremove : ∀ k c, current (remove m k) !! key = Some c → P (scat_Spec c)).
  { intros k c. simpl. intros [_ Hk]%lookup_delete_Some. by apply IH. }
  destruct Hev as [|m q s' Hq]; [done|].
  destruct Hq as [| | | |m o o' Hnone Hfr Hk Hsp| |m o c o' Hup Hfr Hk Hsp Hst| | | |m o c o' Hup Hfr Hk Hsp Hst
    | | | |m k c o' Hc Hfr Hk Hsp Hst|]; try done; try by apply Hremove.
  - apply Hstore. intros Hkey. destruct (proj2 Hwho o o'); [|by rewrite <- Hkey].
    apply elem_of_app. right. by left.
  - apply Hstore. intros Hkey. unfold cat_key in *. rewrite Hk in Hkey.
    destruct (proj1 Hwho L o o' [] eq_refl Hkey) as (req & Hmade & Hreq).
    destruct (accepted_update s0 m (L0 ++ L) req o (Ok o') c Hwf HLm Hmade Hup) as [listed Hok].
    simpl in Hsp. rewrite Hsp. eapply HP; [done..|]. apply IH. destruct Hup as [Hc _]. by rewrite <- Hkey.
  - apply Hstore. intros Hkey. unfold cat_key in *. simpl in Hsp. rewrite Hsp. apply IH.
    destruct Hup as [Hc _]. by rewrite <- Hkey, Hk.
  - apply Hstore. intros Hkey. unfold cat_key in *. simpl in Hsp. rewrite Hsp. apply IH. by rewrite <- Hkey, Hk.
Qed.

(** C3: no lost updates.  However the runs are interleaved and however old the catalogs
    they read are: while a catalog is written by runs of other services only, the entry
    of a service in it, or its absence, stays as it is. *)
Theorem catalog_entries_kept n key (s0 s s' : server KServiceCatalog) L0 L c c' :
  wf s0 → served_log s0 L0 s → served_log s L s' →
  written_by (λ req, nn_Name req ≠ n) key L0 L →
  current s !! key = Some c → current s' !! key = Some c' → entries n c' = entries n c.
Proof.
  intros Hwf HL0 HL Hwho Hc Hc'.
  refine (written_by_keeps _ key (λ sp, filter (λ x, scsv_Name x = n) (scats_Services sp) = entries n c)
    s0 s s' L0 L Hwf HL0 HL Hwho _ _ c' Hc').
  - intros req listed c1 o Hne Hok <-. by eapply entries_of_others, (cok_others _ _ _ _ Hok).
  - intros c1. rewrite Hc. by intros [= <-].
Qed.

(** C14: names stay unique.  A catalog that lists every service at most once does so
    after any interleaving of runs of registered services. *)
Theorem catalog_names_unique key (s0 s s' : server KServiceCatalog) L0 L c c' :
  wf s0 → served_log s0 L0 s → served_log s L s' →
  written_by (λ _, True) key L0 L →
  current s !! key = Some c → current s' !! key = Some c' →
  NoDup (service_names c) → NoDup (service_names c').
Proof.
  intros Hwf HL0 HL Hwho Hc Hc' Hnd.
  refine (written_by_keeps _ key (λ sp, NoDup (scsv_Name <$> scats_Services sp))
    s0 s s' L0 L Hwf HL0 HL Hwho _ _ c' Hc').
  - intros req listed c1 o _ Hok. apply (cok_unique _ _ _ _ Hok).
  - intros c1. rewrite Hc. by intros [= <-].
Qed.

(** ** Two services and one catalog *)

Module Example.

Definition tenant : string := "primaza-mytenant".

Definition service (n : string) : RegisteredService :=
  {| rs_meta := named n tenant;
     rs_Spec := {| rss_Constraints := None; rss_HealthCheck := None; rss_SLA := "";
                   rss_ServiceClassIdentity := Slice []; rss_ServiceEndpointDefinition := Slice [] |};
     rs_Status := {| rsst_State := RegisteredServiceStateAvailable |} |}.

Definition rs_request (n : string) : NamespacedName := {| nn_Namespace := tenant; nn_Name := n |}.

(** The catalog of the environment dev, at revision [v]. *)
Definition catalog (v : string) (names : list string) : ServiceCatalog :=
  {| scat_meta := om_set_ResourceVersion (named "dev" tenant) v;
     scat_Spec := {| scats_Services := service_entry ∘ service <$> names; scats_ClaimedByLabels := [] |} |}.

(** The run of a service reads the first revision; its update of the catalog is answered
    with the new version [r], or with a conflict. *)
Definition answer (n : string) (r : option string) (c : Call) : Answer c :=
  match c with
  | CGet _ k key =>
      match k return result (kobj k) with
      | KRegisteredService => if ⟪ key = rs_request n ⟫ then Ok (service n) else Err (ENew "not found")
      | _ => Err (ENew "not found")
      end
  | CList _ k opts =>
      match k return result (list (kobj k)) with
      | KServiceCatalog => if ⟪ lo_Namespace opts = tenant ⟫ then Ok [catalog "1" ["orders"]] else Ok []
      | _ => Ok []
      end
  | CUpdate _ k o =>
      match k return kobj k → result (kobj k) with
      | KServiceCatalog => λ o,
          match r with
          | Some v => Ok {| scat_meta := om_set_ResourceVersion (scat_meta o) v; scat_Spec := scat_Spec o |}
          | None => Err (EStatus "Conflict" 409 "the object has been modified")
          end
      | _ => Ok
      end o
  | CStatusUpdate _ _ o => Ok o
  | c => failing (ENew "refused") c
  end.

Definition trace (n : string) (r : option string) : list kevent :=
  run_trace (λ c (s : unit), (answer n r c, s)) (Reconcile (rs_request n)) tt.

Lemma catalog_answer_legal n r c : legal c (answer n r c).
Proof.
  destruct c; simpl; try done; destruct k; simpl; try done.
  - case_bool_decide as Hk; [by rewrite Hk|done].
  - case_bool_decide as Ht; [|constructor]. rewrite Ht. constructor; [by right|constructor].
  - by destruct r.
Qed.

Lemma made_by_service n r L i ev :
  trace n r !! i = Some ev → take i (trace n r) `sublist_of` L → made_by (Reconcile (rs_request n)) L ev.
Proof. apply run_made. intros c []. apply catalog_answer_legal. Qed.

(** Both runs read the first revision; the update of cache comes first, that of queue is
    refused. *)
Definition log : list kevent :=
  take 3 (trace "cache" (Some "2")) ++ take 3 (trace "queue" None) ++
  drop 3 (trace "cache" (Some "2")) ++ drop 3 (trace "queue" None).

Definition server_1 : server KServiceCatalog := single (k := KServiceCatalog) (catalog "1" ["orders"]).

Lemma log_served : served_log server_1 log (store server_1 (catalog "2" ["orders"; "cache"])).
Proof. eval_log log. repeat serve KServiceCatalog. constructor. Qed.

(** The one accepted update is that of cache, after both had read. *)
Lemma log_written n : n ≠ "cache" → written_by (λ req, nn_Name req ≠ n) (cat_key (catalog "1" [])) [] log.
Proof.
  intros Hn. split.
  - intros L1 o o' L2 HL _.
    assert (Hev : log !! length L1 = Some (update_catalog o (Ok o'))) by (by rewrite HL, list_lookup_middle).
    assert (HL1 : L1 = take (length L1) log) by (by rewrite HL, take_app_length).
    assert (Hr : (log !! length L1) ≫= request_of KServiceCatalog = Some (RUpdate (k := KServiceCatalog) o (Ok o'))).
    { rewrite Hev. apply (request_of_event (RUpdate (k := KServiceCatalog) o (Ok o'))). }
    destruct (decide (length L1 = 6)) as [Hlen|Hlen].
    + exists (rs_request "cache"). split; [|by apply not_eq_sym].
      apply (made_by_service "cache" (Some "2") _ 3); [rewrite <- Hev, Hlen; reflexivity|].
      rewrite HL1, Hlen. exact (sublist_inserts_r (take 3 (trace "queue" None)) _ _ (reflexivity _)).
    + exfalso. clear HL HL1 Hev. revert Hr Hlen. generalize (length L1). intros i.
      do 9 (destruct i as [|i]; [by vm_compute|]). by vm_compute.
  - intros o o' Hin. exfalso. apply list_elem_of_lookup in Hin as [i Hi].
    assert (Hr : (log !! i) ≫= request_of KServiceCatalog = Some (RCreate (k := KServiceCatalog) o (Ok o'))).
    { rewrite Hi. apply (request_of_event (RCreate (k := KServiceCatalog) o (Ok o'))). }
    clear Hi. revert Hr. do 9 (destruct i as [|i]; [by vm_compute|]). by vm_compute.
Qed.

Lemma catalog_entries_kept_witness :
  entries "orders" (catalog "2" ["orders"; "cache"]) = entries "orders" (catalog "1" ["orders"]).
Proof.
  apply (catalog_entries_kept "orders" (cat_key (catalog "1" [])) server_1 server_1
           (store server_1 (catalog "2" ["orders"; "cache"])) [] log); try reflexivity.
  - by apply single_wf.
  - constructor.
  - apply log_served.
  - by apply log_written.
Defined.

Lemma catalog_names_unique_witness : NoDup (service_names (catalog "2" ["orders"; "cache"])).
Proof.
  apply (catalog_names_unique (cat_key (catalog "1" [])) server_1 server_1
           (store server_1 (catalog "2" ["orders"; "cache"])) [] log (catalog "1" ["orders"])); try reflexivity.
  - by apply single_wf.
  - constructor.
  - apply log_served.
  - destruct (log_written "orders") as [Hu Hc]; [done|]. split; [|done].
    intros L1 o o' L2 HL Hk. destruct (Hu L1 o o' L2 HL Hk) as (req & ? & _). by exists req.
  - apply NoDup_singleton.
Defined.
End Example.
