(* ===== verification/ServiceClassCtrl.v ===== *)
(** * The service class controller of the control plane

    controllers/serviceclass_controller.go: a service class is pushed to the service
    namespaces of the cluster environments its constraints accept, and removed from
    them when it is deleted.  The theorems say where the controller writes, that a
    run without error pushed the class everywhere it belongs, and what was removed
    when the finalizer is. *)

From S2P Require Import Prelude Prog GoErr GoStr Json Types Kube EnvTag WorkerCluster AppNamespaces.

#[local] Open Scope string_scope.
#[local] Open Scope list_scope.
#[local] Open Scope primaza_scope.

Section ServiceClassReconciler.
  Context `{KubeconfigLib}.

Definition filterClusterEnvironments (environmentConstraints : list string)
    (clusterEnvironments : list ClusterEnvironment) : list ClusterEnvironment :=
  filter (λ ce, Match (ces_EnvironmentName (ce_Spec ce)) environmentConstraints = true)
    clusterEnvironments.

Definition getRelatedClusterEnvironments (constraints : list string)
    : M (result (list ClusterEnvironment)) :=
  let! items := api (CList Manager KClusterEnvironment (InNamespace "")) ;;
  mret (Ok (filterClusterEnvironments constraints items)).

(** [fmt.Errorf("error ... service class '%s' to cluster environment '%s': %w", ...)] *)
Definition class_error (what class environment : string) (err : gerr) : gerr :=
  EWrap ("error " +++ what +++ " service class '" +++ class +++ "' to cluster environment '"
         +++ environment +++ "': ") err.

(** One iteration of the loop of [reconcileEnvironments]. *)
Definition push_to_environment (sc : ServiceClass) (ce : ClusterEnvironment) : M (option gerr) :=
  let! cli := ClusterContext.CreateClient Manager ce ;;
  err ← PushServiceClassToNamespaces cli sc (ces_ServiceNamespaces (ce_Spec ce));
  match err with
  | Some e => mret (Some (class_error "pushing" (om_Name (scl_meta sc)) (om_Name (ce_meta ce)) e))
  | None => mret None
  end.

Definition reconcileEnvironments (sc : ServiceClass) : M (option gerr) :=
  let! items := api (CList Manager KClusterEnvironment (InNamespace "")) ;;
  collect_errors (filterClusterEnvironments (scls_GetEnvironmentConstraints (scl_Spec sc)) items)
    (push_to_environment sc).

(** The loop of [removeFromEnvironments]: no client is a return, a failed deletion
    is collected. *)
Fixpoint remove_from_each (sc : ServiceClass) (ff : list ClusterEnvironment)
    (errs : list (option gerr)) : M (option gerr) :=
  match ff with
  | [] => mret (errors_join errs)
  | ce :: ff' =>
      let! cli := ClusterContext.CreateClient Manager ce ;;
      err ← DeleteServiceClassFromNamespaces cli sc (ces_ServiceNamespaces (ce_Spec ce));
      remove_from_each sc ff'
        (match err with
         | Some e => errs ++ [Some (class_error "deleting" (om_Name (scl_meta sc)) (om_Name (ce_meta ce)) e)]
         | None => errs
         end)
  end.

Definition removeFromEnvironments (sc : ServiceClass) : M (option gerr) :=
  if is_nil (scls_Constraints (scl_Spec sc)) then mret None
  else
    let! ff := getRelatedClusterEnvironments (scls_GetEnvironmentConstraints (scl_Spec sc)) ;;
    remove_from_each sc ff [].

Definition finalize (sc : ServiceClass) : M (option gerr) := removeFromEnvironments sc.

Definition Reconcile (req : NamespacedName) : M (option gerr) :=
  got ← api (CGet Manager KServiceClass req);
  match got with
  | Err err => mret (IgnoreNotFound (Some err))
  | Ok sc =>
      if HasDeletionTimestamp (scl_meta sc) then
        if ContainsFinalizer (k := KServiceClass) sc clusterEnvironmentFinalizer then
          do! finalize sc ;;
          r ← api (CUpdate Manager KServiceClass
                     (RemoveFinalizer (k := KServiceClass) sc clusterEnvironmentFinalizer).1);
          mret (result_err r)
        else mret None
      else
        let '(sc, added) := AddFinalizer (k := KServiceClass) sc clusterEnvironmentFinalizer in
        let! sc := (if added then api (CUpdate Manager KServiceClass sc) else mret (Ok sc)) ;;
        do! reconcileEnvironments sc ;;
        mret None
  end.

(** ** Properties *)

Definition environments_listed (items : list ClusterEnvironment) (t : list kevent) : Prop :=
  KEv (CList Manager KClusterEnvironment (InNamespace "")) (Ok items) ∈ t.

(** The class, as the run read it or as its own update left it. *)
Definition class_seen (req : NamespacedName) (sc : ServiceClass) (t : list kevent) : Prop :=
  KEv (CGet Manager KServiceClass req) (Ok sc) ∈ t ∨
  ∃ o, KEv (CUpdate Manager KServiceClass o) (Ok sc) ∈ t.

(** A write for [sc] in a worker cluster: a service class of its name, in a service
    namespace of one of the environments [ff], with the client of that environment. *)
Definition class_write (sc : ServiceClass) (ff : list ClusterEnvironment) (t : list kevent) (ev : kevent) : Prop :=
  writes_at KServiceClass (λ cl key, nn_Name key = om_Name (scl_meta sc) ∧
    ∃ ce cfg, ce ∈ ff ∧ cl = ForConfig cfg ∧ env_config ce cfg t ∧
      nn_Namespace key ∈ ces_ServiceNamespaces (ce_Spec ce)) (projT1 ev).

Lemma class_write_grows sc ff : grows (class_write sc ff).
Proof.
  intros t t' ev Hsub. apply writes_at_mono.
  intros cl key (Hn & ce & cfg & Hin & Hcl & Hc & Hns). split; [done|]. exists ce, cfg.
  do 2 (split; [done|]). split; [by eapply env_config_mono|done].
Qed.

(** Calls through the client of an environment, after the client was made. *)
Lemma class_write_calls sc ff ce cfg t t' :
  ce ∈ ff → env_config ce cfg t →
  Forall (λ ev : kevent, ¬ is_write (projT1 ev)) t →
  Forall (λ ev : kevent, writes_at KServiceClass
    (class_keys (ForConfig cfg) sc (ces_ServiceNamespaces (ce_Spec ce))) (projT1 ev)) t' →
  traced (class_write sc ff) (t ++ t').
Proof.
  intros Hce Hcfg Ht Ht'. apply Forall_app. split.
  - eapply Forall_impl; [exact Ht|]. intros ev Hev Hw. done.
  - eapply Forall_impl; [exact Ht'|]. intros ev. apply writes_at_mono.
    intros cl key (-> & Hn & Hns). split; [done|]. exists ce, cfg.
    do 2 (split; [done|]). split; [|done]. eapply env_config_mono; [|exact Hcfg]. set_solver.
Qed.

Lemma reads_class_write sc ff t :
  Forall (λ ev : kevent, ¬ is_write (projT1 ev)) t → traced (class_write sc ff) t.
Proof. intros Ht. eapply Forall_impl; [exact Ht|]. intros ev Hev Hw. done. Qed.

Lemma traced_push_to_environment sc ff ce :
  ce ∈ ff → kwp (push_to_environment sc ce) (λ t _, traced (class_write sc ff) t).
Proof.
  intros Hce. unfold push_to_environment. eapply (wp_bind_spec legal); [apply wp_CreateClient| |].
  2: { intros t h [Ht _]. by apply reads_class_write. }
  intros t [cli|e] [Ht Hcli]; [|wflow; rewrite app_nil_r; by apply reads_class_write].
  destruct (Hcli cli eq_refl) as (cfg & -> & Hcfg).
  eapply (wp_bind_spec legal); [apply only_calls_PushServiceClass| |].
  - intros t' err Ht'. wflow; rewrite app_nil_r; by eapply class_write_calls.
  - intros t' h Ht'. by eapply class_write_calls.
Qed.

Lemma traced_remove_from_each sc ff ff' errs :
  (∀ ce, ce ∈ ff' → ce ∈ ff) →
  kwp (remove_from_each sc ff' errs) (λ t _, traced (class_write sc ff) t).
Proof.
  revert errs. induction ff' as [|ce ff' IH]; intros errs Hsub; cbn [remove_from_each].
  { wflow. constructor. }
  eapply (wp_bind_spec legal); [apply wp_CreateClient| |].
  2: { intros t h [Ht _]. by apply reads_class_write. }
  intros t [cli|e] [Ht Hcli]; [|wflow; rewrite app_nil_r; by apply reads_class_write].
  destruct (Hcli cli eq_refl) as (cfg & -> & Hcfg).
  assert (Hce : ce ∈ ff) by (apply Hsub; set_solver).
  eapply (wp_bind_spec legal); [apply only_calls_DeleteServiceClass| |].
  - intros t' err Ht'. eapply wp_mono; [apply IH; intros; apply Hsub; set_solver|].
    intros u o Hu. rewrite app_assoc. apply traced_app; [apply class_write_grows| |done].
    by eapply class_write_calls.
  - intros t' h Ht'. by eapply class_write_calls.
Qed.

(** What the class is to be pushed to: the listed environments its constraints accept. *)
Definition accepting (sc : ServiceClass) (items : list ClusterEnvironment) : list ClusterEnvironment :=
  filter (λ ce, Match (ces_EnvironmentName (ce_Spec ce)) (scls_GetEnvironmentConstraints (scl_Spec sc)) = true)
    items.

(** The class was pushed to, or deleted from, every service namespace of [ce]. *)
Definition everywhere_in (what : Client → ServiceClass → string → list kevent → Prop)
    (sc : ServiceClass) (ce : ClusterEnvironment) (t : list kevent) : Prop :=
  ∃ cfg, env_config ce cfg t ∧
    ∀ ns, ns ∈ ces_ServiceNamespaces (ce_Spec ce) → what (ForConfig cfg) sc ns t.

Lemma wp_push_to_environment sc ce :
  kwp (push_to_environment sc ce) (λ t out, out = Done None → everywhere_in class_pushed sc ce t).
Proof.
  unfold push_to_environment. eapply (wp_bind_spec legal); [apply wp_CreateClient| |done].
  intros t [cli|e] [Ht Hcli]; [|by wflow].
  destruct (Hcli cli eq_refl) as (cfg & -> & Hcfg).
  eapply (wp_bind_spec legal); [apply wp_PushServiceClass| |done].
  intros t' err Ht'. wflow; [done|]. rewrite app_nil_r. intros _. exists cfg. split; [eapply env_config_mono; [|exact Hcfg]; set_solver|].
  intros ns Hns. by apply part_app_r, Ht'.
Qed.

Lemma class_deleted_mono cli sc ns t t' :
  (∀ e, e ∈ t → e ∈ t') → class_deleted cli sc ns t → class_deleted cli sc ns t'.
Proof. intros Hsub. apply Hsub. Qed.

Lemma wp_remove_from_each sc ff errs :
  kwp (remove_from_each sc ff errs) (λ t out, out = Done None →
    Forall (λ e, e = None) errs ∧ ∀ ce, ce ∈ ff → everywhere_in class_deleted sc ce t).
Proof.
  revert errs. induction ff as [|ce ff IH]; intros errs; cbn [remove_from_each].
  { wflow. intros [= Hj%errors_join_None]. split; [done|set_solver]. }
  eapply (wp_bind_spec legal); [apply wp_CreateClient| |done].
  intros t [cli|e] [Ht Hcli]; [|by wflow].
  destruct (Hcli cli eq_refl) as (cfg & -> & Hcfg).
  eapply (wp_bind_spec legal); [apply wp_DeleteServiceClass| |done].
  intros t' err Ht'. eapply wp_mono; [apply IH|]. intros u out Hu Hout.
  destruct (Hu Hout) as [Herrs Hall]. destruct err as [e|].
  { apply Forall_app in Herrs as [_ [? _]%Forall_cons]. done. }
  split; [done|]. intros ce' [->|Hce']%elem_of_cons.
  - exists cfg. split; [eapply env_config_mono; [|exact Hcfg]; set_solver|].
    intros ns Hns. eapply class_deleted_mono; [|by apply Ht']. set_solver.
  - destruct (Hall ce' Hce') as (cfg' & Hc' & Hd). exists cfg'.
    split; [eapply env_config_mono; [|exact Hc']; set_solver|].
    intros ns Hns. eapply class_deleted_mono; [|by apply Hd]. set_solver.
Qed.
Lemma everywhere_pushed_part sc ce t :
  part (everywhere_in class_pushed sc ce) t → everywhere_in class_pushed sc ce t.
Proof.
  intros (t1 & u & t2 & -> & cfg & Hcfg & Hns). exists cfg.
  split; [eapply env_config_mono; [|exact Hcfg]; set_solver|].
  intros ns Hin. by apply part_app_r, part_app_l, Hns.
Qed.

(** The environments are listed first; without an error, [what] was done in all the
    accepting ones. *)
Definition for_accepting (what : Client → ServiceClass → string → list kevent → Prop)
    (sc : ServiceClass) (t : list kevent) (out : outcome (option gerr)) : Prop :=
  ∃ r u, t = KEv (CList Manager KClusterEnvironment (InNamespace "")) r :: u ∧
    match r with
    | Ok items => traced (class_write sc (accepting sc items)) u ∧
        (out = Done None → ∀ ce, ce ∈ accepting sc items → everywhere_in what sc ce t)
    | Err _ => u = [] ∧ out ≠ Done None
    end.

Definition pushing : ServiceClass → list kevent → outcome (option gerr) → Prop := for_accepting class_pushed.

Definition removing (sc : ServiceClass) (t : list kevent) (out : outcome (option gerr)) : Prop :=
  (scls_Constraints (scl_Spec sc) = None ∧ t = [] ∧ out = Done None) ∨
  (is_Some (scls_Constraints (scl_Spec sc)) ∧ for_accepting class_deleted sc t out).

Lemma wp_reconcileEnvironments sc : kwp (reconcileEnvironments sc) (pushing sc).
Proof.
  unfold reconcileEnvironments. wcall r Hr. cbv beta. destruct r as [items|e].
  2: { wflow. by eexists _, []. }
  eapply wp_mono; [apply wp_and|].
  - apply (wp_traced_collect_errors (class_write sc (accepting sc items))); [apply class_write_grows|].
    intros ce Hce. by apply traced_push_to_environment.
  - apply (wp_collect_errors _ _ (everywhere_in class_pushed sc)). intros ce _. apply wp_push_to_environment.
  - intros t out [Ht Hout]. eexists _, t. split; [done|]. split; [done|]. intros Hd ce Hce.
    by apply everywhere_pushed_part, part_cons, Hout.
Qed.

Lemma wp_removeFromEnvironments sc : kwp (removeFromEnvironments sc) (removing sc).
Proof.
  unfold removeFromEnvironments, getRelatedClusterEnvironments.
  destruct (scls_Constraints _) as [c|] eqn:Hc; cbn [is_nil]; [|wflow; by left].
  wflow. wcall r Hr. cbv beta. destruct r as [items|e]; wflow.
  2: { right. split; [done|]. by eexists _, []. }
  eapply wp_mono; [apply wp_and|].
  - by apply (traced_remove_from_each sc (accepting sc items)).
  - apply wp_remove_from_each.
  - intros t out [Ht Hout]. right. split; [done|]. eexists _, t.
    split; [done|]. split; [done|]. intros Hd ce Hce.
    destruct (Hout Hd) as [_ Hall]. destruct (Hall ce Hce) as (cfg & Hcfg & Hns). exists cfg.
    split; [eapply env_config_mono; [|exact Hcfg]; set_solver|].
    intros ns Hns'. eapply class_deleted_mono; [|by apply Hns]. set_solver.
Qed.

(** Every write of a run: the class itself, or its copy in a service namespace of an
    environment that was listed and that the class accepts. *)
Definition reconcile_write (req : NamespacedName) (t : list kevent) (ev : kevent) : Prop :=
  writes_at KServiceClass (λ cl key, (cl = Manager ∧ key = req) ∨
    ∃ sc items ce cfg, class_seen req sc t ∧ environments_listed items t ∧ ce ∈ accepting sc items ∧
      cl = ForConfig cfg ∧ env_config ce cfg t ∧ nn_Name key = nn_Name req ∧
      nn_Namespace key ∈ ces_ServiceNamespaces (ce_Spec ce)) (projT1 ev).

Lemma for_accepting_writes what req sc t1 t t2 out :
  om_Name (scl_meta sc) = nn_Name req → class_seen req sc t1 → for_accepting what sc t out →
  Forall (reconcile_write req (t1 ++ t ++ t2)) t.
Proof.
  intros Hn Hseen (r & u & -> & Hr).
  constructor; [by intros []|]. destruct r as [items|e]; [|destruct Hr as [-> _]; constructor].
  destruct Hr as [Hu _]. eapply Forall_impl; [exact Hu|]. intros ev. apply writes_at_mono.
  intros cl key (Hkn & ce & cfg & Hce & Hcl & Hcfg & Hns). right. exists sc, items, ce, cfg.
  split; [destruct Hseen as [?|[o ?]]; [left; set_solver|right; exists o; set_solver]|].
  split; [unfold environments_listed; set_solver|]. do 2 (split; [done|]).
  split; [eapply env_config_mono; [|exact Hcfg]; set_solver|]. by rewrite Hkn.
Qed.

Lemma own_update req t (o : ServiceClass) r :
  ObjectKeyFromObject (k := KServiceClass) o = req →
  reconcile_write req t (KEv (CUpdate Manager KServiceClass o) r).
Proof. intros Hk _. split; [done|]. eexists _, _. split; [done|]. by left. Qed.

Definition without_finalizer (sc : ServiceClass) : ServiceClass :=
  (RemoveFinalizer (k := KServiceClass) sc clusterEnvironmentFinalizer).1.
Definition with_finalizer (sc : ServiceClass) : ServiceClass :=
  (AddFinalizer (k := KServiceClass) sc clusterEnvironmentFinalizer).1.

(** The runs of the reconciler. *)
Inductive class_run (req : NamespacedName) : list kevent → outcome (option gerr) → Prop :=
| CR_unread e :
    class_run req [KEv (CGet Manager KServiceClass req) (Err e)] (Done (IgnoreNotFound (Some e)))
| CR_finalized sc :
    HasDeletionTimestamp (scl_meta sc) = true →
    ContainsFinalizer (k := KServiceClass) sc clusterEnvironmentFinalizer = false →
    class_run req [KEv (CGet Manager KServiceClass req) (Ok sc)] (Done None)
| CR_removal_failed sc t out :
    HasDeletionTimestamp (scl_meta sc) = true → removing sc t out → out ≠ Done None →
    class_run req (KEv (CGet Manager KServiceClass req) (Ok sc) :: t) out
| CR_removed sc t r :
    HasDeletionTimestamp (scl_meta sc) = true → removing sc t (Done None) →
    class_run req (KEv (CGet Manager KServiceClass req) (Ok sc) :: t ++
                   [KEv (CUpdate Manager KServiceClass (without_finalizer sc)) r]) (Done (result_err r))
| CR_not_added sc e :
    HasDeletionTimestamp (scl_meta sc) = false →
    class_run req [KEv (CGet Manager KServiceClass req) (Ok sc);
                   KEv (CUpdate Manager KServiceClass (with_finalizer sc)) (Err e)] (Done (Some e))
| CR_added sc o t out :
    HasDeletionTimestamp (scl_meta sc) = false → pushing o t out →
    class_run req (KEv (CGet Manager KServiceClass req) (Ok sc) ::
                   KEv (CUpdate Manager KServiceClass (with_finalizer sc)) (Ok o) :: t) out
| CR_pushed sc t out :
    HasDeletionTimestamp (scl_meta sc) = false → pushing sc t out →
    class_run req (KEv (CGet Manager KServiceClass req) (Ok sc) :: t) out.

(** [if err := p; err != nil { return err }; return nil] *)
Lemma wp_return_error p Q : kwp p Q → kwp (do! p ;; mret (None : option gerr)) Q.
Proof.
  intros Hp. eapply (wp_bind_spec legal); [exact Hp| |done].
  intros t [e|] HQ; wflow; by rewrite app_nil_r.
Qed.

Lemma wp_class_run req : kwp (Reconcile req) (class_run req).
Proof.
  unfold Reconcile. wcall got Hgot. cbv beta. destruct got as [sc|e]; [|wflow; constructor].
  destruct (HasDeletionTimestamp _) eqn:Hdel.
  - destruct (ContainsFinalizer _ _) eqn:Hfin; [|wflow; by constructor].
    unfold finalize. eapply (wp_bind_spec legal); [apply wp_removeFromEnvironments| |].
    2: { intros t h Ht. by eapply CR_removal_failed. }
    intros t [e|] Ht; [wflow; rewrite app_nil_r; by eapply CR_removal_failed|].
    wcall r Hr. cbv beta. wflow. by apply CR_removed.
  - pose proof (eq_refl (with_finalizer sc)) as Hw. unfold with_finalizer at 1 in Hw.
    destruct (AddFinalizer _ _) as [sc1 added] eqn:Hadd. cbn [fst] in Hw. subst sc1.
    destruct added.
    + wcall r Hr. cbv beta. destruct r as [o|e]; [|wflow; by apply CR_not_added].
      eapply wp_mono; [apply wp_return_error, wp_reconcileEnvironments|].
      intros t out Ht. by apply CR_added.
    + assert (with_finalizer sc = sc) as -> 
        by exact (AddFinalizer_same (k := KServiceClass) sc _ (f_equal snd Hadd)).
      wret. eapply wp_mono; [apply wp_return_error, wp_reconcileEnvironments|].
      intros t out Ht. by apply CR_pushed.
Qed.
Lemma removing_writes req sc t1 t t2 out :
  ObjectKeyFromObject (k := KServiceClass) sc = req → class_seen req sc t1 → removing sc t out →
  Forall (reconcile_write req (t1 ++ t ++ t2)) t.
Proof.
  intros <- Hseen [(_ & -> & _)|(_ & Hacc)]; [constructor|].
  by eapply for_accepting_writes.
Qed.

Lemma pushing_writes req sc t1 t out :
  ObjectKeyFromObject (k := KServiceClass) sc = req → class_seen req sc t1 → pushing sc t out →
  Forall (reconcile_write req (t1 ++ t)) t.
Proof.
  intros <- Hseen Hacc. rewrite <- (app_nil_r t) at 1. by eapply for_accepting_writes.
Qed.

(** What was pushed, seen from a longer trace. *)
Lemma everywhere_pushed_app sc ce t1 t :
  everywhere_in class_pushed sc ce t → everywhere_in class_pushed sc ce (t1 ++ t).
Proof. intros Ht. by apply everywhere_pushed_part, part_app_r, part_here. Qed.

Lemma for_accepting_done what sc t :
  for_accepting what sc t (Done None) →
  ∃ items, environments_listed items t ∧
    ∀ ce, ce ∈ accepting sc items → everywhere_in what sc ce t.
Proof.
  intros (r & u & -> & Hr). destruct r as [items|e]; [|by destruct Hr].
  destruct Hr as [_ Hall]. exists items. split; [apply list_elem_of_here|auto].
Qed.

Lemma read_class_write req key t r :
  reconcile_write req t (KEv (CGet Manager KServiceClass key) r).
Proof. by intros []. Qed.

(** C24: the service class controller writes service classes only: the one it
    reconciles, and copies of its name in the service namespaces of the cluster
    environments that were listed and that its constraints accept, each with the
    configuration of that environment's own cluster context secret. *)
Theorem serviceclass_targets req : kwp (Reconcile req) (λ t _, Forall (reconcile_write req t) t).
Proof.
  eapply wp_mono; [apply wp_and; [apply wp_class_run|apply (wp_legal legal)]|].
  intros t out [Hrun Hlegal].
  assert (Hk : ∀ sc, KEv (CGet Manager KServiceClass req) (Ok sc) ∈ t →
                ObjectKeyFromObject (k := KServiceClass) sc = req).
  { rewrite Forall_forall in Hlegal. intros sc Hin. exact (Hlegal _ Hin). }
  destruct Hrun as [e|sc Hdel Hfin|sc t out Hdel Ht Hout|sc t r Hdel Ht|sc e Hdel|sc o t out Hdel Ht|sc t out Hdel Ht];
    (apply Forall_cons_2; [apply read_class_write|]).
  - constructor.
  - constructor.
  - specialize (removing_writes req sc [KEv (CGet Manager KServiceClass req) (Ok sc)] t [] out) as Hw.
    rewrite app_nil_r in Hw. apply Hw; [apply Hk; left|left; left|done].
  - apply Forall_app_cons; [|apply own_update; unfold without_finalizer; rewrite key_RemoveFinalizer; apply Hk; left|constructor].
    eapply (removing_writes req sc [KEv (CGet Manager KServiceClass req) (Ok sc)]);
      [apply Hk; left|left; left|done].
  - apply Forall_cons_2; [|constructor]. apply own_update. unfold with_finalizer. rewrite key_AddFinalizer. apply Hk. left.
  - apply Forall_cons_2.
    + apply own_update. unfold with_finalizer. rewrite key_AddFinalizer. apply Hk. left.
    + assert (Ho : ObjectKeyFromObject (k := KServiceClass) o = req).
      { apply Forall_cons in Hlegal as [_ [Hl _]%Forall_cons]. simpl in Hl. rewrite Hl.
        unfold with_finalizer. rewrite key_AddFinalizer. apply Hk. left. }
      eapply (pushing_writes req o [_; _]); [exact Ho|right; eexists; right; left|exact Ht].
  - eapply (pushing_writes req sc [_]); [apply Hk; left|left; left|exact Ht].
Qed.
(** C33: when a run returns no error, the class was gone, or is being deleted, or was
    left, with the specification the run saw, in every service namespace of every
    listed environment its constraints accept. *)
Theorem serviceclass_pushed req :
  kwp (Reconcile req) (λ t out, out = Done None →
    (∃ e, IsNotFound (Some e) = true ∧ t = [KEv (CGet Manager KServiceClass req) (Err e)]) ∨
    ∃ sc t', t = KEv (CGet Manager KServiceClass req) (Ok sc) :: t' ∧
      (HasDeletionTimestamp (scl_meta sc) = true ∨
       ∃ sc' items, class_seen req sc' t ∧ environments_listed items t ∧
         ∀ ce, ce ∈ accepting sc' items → everywhere_in class_pushed sc' ce t)).
Proof.
  eapply wp_mono; [apply wp_class_run|]. intros t out Hrun Hout.
  destruct Hrun as [e|sc Hdel|sc u ? Hdel|sc u r Hdel|sc e Hdel|sc o u ? Hdel Hu|sc u ? Hdel Hu];
    try subst out.
  - left. exists e. split; [|done]. injection Hout. unfold IgnoreNotFound. by destruct (IsNotFound _).
  - right. exists sc, []. auto.
  - done.
  - right. eexists sc, _. split; [done|]. by left.
  - done.
  - right. eexists sc, _. split; [done|]. right. apply for_accepting_done in Hu as (items & Hi & Hall).
    exists o, items. split; [right; eexists; right; left|].
    split; [by do 2 right|]. intros ce Hce. by apply (everywhere_pushed_app _ _ [_; _]), Hall.
  - right. eexists sc, _. split; [done|]. right. apply for_accepting_done in Hu as (items & Hi & Hall).
    exists sc, items. split; [left; left|].
    split; [by right|]. intros ce Hce. by apply (everywhere_pushed_app _ _ [_]), Hall.
Qed.

(** The class is written back without its finalizer. *)
Definition drops_class_finalizer (ev : kevent) : Prop :=
  on_Update KServiceClass (λ cl o _, cl = Manager ∧
    ContainsFinalizer (k := KServiceClass) o clusterEnvironmentFinalizer = false) ev.

Lemma added_no_drop sc r :
  ¬ drops_class_finalizer (KEv (CUpdate Manager KServiceClass (with_finalizer sc)) r).
Proof.
  intros Hd. assert (Hc := proj2 Hd : ContainsFinalizer (k := KServiceClass) (with_finalizer sc) _ = false).
  unfold with_finalizer in Hc. by rewrite AddFinalizer_contains in Hc.
Qed.

Lemma class_write_no_drop sc ff t u :
  Forall (class_write sc ff t) u → Forall (λ ev, ¬ drops_class_finalizer ev) u.
Proof.
  intros Hu. eapply Forall_impl; [exact Hu|]. intros [c r] Hw Hd.
  destruct c; try done. destruct k; try done.
  destruct (Hw I) as (_ & cl' & key & [= <- <-] & _ & ce & cfg & _ & -> & _). by destruct Hd.
Qed.

Lemma for_accepting_no_drop what sc t out :
  for_accepting what sc t out → Forall (λ ev, ¬ drops_class_finalizer ev) t.
Proof.
  intros (r & u & -> & Hr). constructor; [not_event|]. destruct r as [items|e].
  - destruct Hr as [Hu _]. by eapply class_write_no_drop.
  - by destruct Hr as [-> _].
Qed.

Lemma removing_no_drop sc t out :
  removing sc t out → Forall (λ ev, ¬ drops_class_finalizer ev) t.
Proof.
  intros [(_ & -> & _)|(_ & Ht)]; [constructor|by eapply for_accepting_no_drop].
Qed.

(** C34: the finalizer of a service class is removed only from a class that is being
    deleted, by the last call of the run, and after the class was deleted from every
    service namespace of every listed environment it accepts; but a class without
    constraints, which is pushed to every environment, is deleted from none. *)
Theorem serviceclass_finalizer req :
  kwp (Reconcile req) (λ t _, Exists drops_class_finalizer t →
    ∃ sc u r, t = KEv (CGet Manager KServiceClass req) (Ok sc) :: u ++
                  [KEv (CUpdate Manager KServiceClass (without_finalizer sc)) r] ∧
      HasDeletionTimestamp (scl_meta sc) = true ∧
      ((scls_Constraints (scl_Spec sc) = None ∧ u = []) ∨
       ∃ items, environments_listed items u ∧
         ∀ ce, ce ∈ accepting sc items → everywhere_in class_deleted sc ce u)).
Proof.
  eapply wp_mono; [apply wp_class_run|]. intros t out Hrun Hex.
  destruct Hrun as [e|sc Hdel Hfin|sc t out Hdel Ht Hout|sc t r Hdel Ht|sc e Hdel|sc o t out Hdel Ht|sc t out Hdel Ht].
  all: apply Exists_cons in Hex as [[]|Hex].
  - by apply Exists_nil in Hex.
  - by apply Exists_nil in Hex.
  - apply removing_no_drop in Ht. by destruct (Forall_not_Exists _ _ Ht Hex).
  - exists sc, t, r. split; [done|]. split; [done|]. destruct Ht as [(? & -> & _)|(_ & Ht)]; [by left|].
    right. by apply for_accepting_done.
  - apply Exists_cons in Hex as [Hex|Hex%Exists_nil]; [|done].
    by apply added_no_drop in Hex.
  - apply Exists_cons in Hex as [Hex|Hex]; [by apply added_no_drop in Hex|].
    apply for_accepting_no_drop in Ht. by destruct (Forall_not_Exists _ _ Ht Hex).
  - apply for_accepting_no_drop in Ht. by destruct (Forall_not_Exists _ _ Ht Hex).
Qed.
End ServiceClassReconciler.
