(* ===== verification/ServiceCatalogCtrl.v ===== *)
(** * The service catalog controller of the control plane

    controllers/servicecatalog_controller.go: a service catalog, which bears the name
    of an environment, is pushed to the application namespaces of the cluster
    environments of that environment. *)

From S2P Require Import Prelude Prog GoErr GoStr Json Types Kube WorkerCluster AppNamespaces.

#[local] Open Scope string_scope.
#[local] Open Scope list_scope.
#[local] Open Scope primaza_scope.

Section ServiceCatalogReconciler.
  Context `{KubeconfigLib}.

Definition PushServiceCatalog (serviceCatalog : ServiceCatalog) (ce : ClusterEnvironment)
    : M (option gerr) :=
  let! cfg := ClusterContext.GetClusterRESTConfig Manager (om_Namespace (ce_meta ce))
                (ces_ClusterContextSecret (ce_Spec ce)) ;;
  do! PushServiceCatalogToApplicationNamespaces serviceCatalog
        (ces_ApplicationNamespaces (ce_Spec ce)) cfg ;;
  mret None.

(** [ce.Spec.EnvironmentName == serviceCatalog.Name] *)
Definition environments_of (sc : ServiceCatalog) (items : list ClusterEnvironment)
    : list ClusterEnvironment :=
  filter (λ ce, ces_EnvironmentName (ce_Spec ce) = om_Name (scat_meta sc)) items.

Definition Reconcile (req : NamespacedName) : M (option gerr) :=
  got ← api (CGet Manager KServiceCatalog req);
  match got with
  | Err err => if IsNotFound (Some err) then mret None else mret (Some err)
  | Ok serviceCatalog =>
      items ← api (CList Manager KClusterEnvironment (InNamespace (nn_Namespace req)));
      match items with
      | Err err => mret (IgnoreNotFound (Some err))
      | Ok items =>
          collect_errors (environments_of serviceCatalog items) (PushServiceCatalog serviceCatalog)
      end
  end.

(** ** Properties *)

(** The listed cluster environments whose environment bears the catalog's name. *)
Definition bearing_name (sc : ServiceCatalog) (items : list ClusterEnvironment) : list ClusterEnvironment :=
  filter (λ ce, ces_EnvironmentName (ce_Spec ce) = om_Name (scat_meta sc)) items.

(** A write of a catalog of [sc]'s name in an application namespace of one of the
    environments [ff], with the configuration of that environment. *)
Definition catalog_write (sc : ServiceCatalog) (ff : list ClusterEnvironment)
    (t : list kevent) (ev : kevent) : Prop :=
  writes_at KServiceCatalog (λ cl key, nn_Name key = om_Name (scat_meta sc) ∧
    ∃ ce cfg, ce ∈ ff ∧ cl = ForConfig cfg ∧ env_config ce cfg t ∧
      nn_Namespace key ∈ ces_ApplicationNamespaces (ce_Spec ce)) (projT1 ev).

Lemma catalog_write_grows sc ff : grows (catalog_write sc ff).
Proof.
  intros t t' ev Hsub. apply writes_at_mono.
  intros cl key (Hn & ce & cfg & Hin & Hcl & Hc & Hns). split; [done|]. exists ce, cfg.
  do 2 (split; [done|]). split; [by eapply env_config_mono|done].
Qed.

Definition pushed_in (sc : ServiceCatalog) (ce : ClusterEnvironment) (t : list kevent) : Prop :=
  ∃ cfg, env_config ce cfg t ∧
    ∀ ns, ns ∈ ces_ApplicationNamespaces (ce_Spec ce) → catalog_pushed (ForConfig cfg) sc ns t.

Lemma pushed_in_part sc ce t : part (pushed_in sc ce) t → pushed_in sc ce t.
Proof.
  intros (t1 & u & t2 & -> & cfg & Hcfg & Hns). exists cfg.
  split; [eapply env_config_mono; [|exact Hcfg]; set_solver|].
  intros ns Hin. by apply part_app_r, part_app_l, Hns.
Qed.

Lemma reads_catalog_write sc ff t :
  Forall (λ ev : kevent, ¬ is_write (projT1 ev)) t → traced (catalog_write sc ff) t.
Proof. intros Ht. eapply Forall_impl; [exact Ht|]. intros ev Hev Hw. done. Qed.

Lemma wp_PushServiceCatalog_env sc ff ce :
  ce ∈ ff → kwp (PushServiceCatalog sc ce) (λ t out,
    traced (catalog_write sc ff) t ∧ (out = Done None → pushed_in sc ce t)).
Proof.
  intros Hce. unfold PushServiceCatalog.
  eapply (wp_bind_spec legal); [apply wp_GetClusterRESTConfig| |].
  2: { intros t h [Ht _]. split; [by apply reads_catalog_write|done]. }
  intros t [cfg|e] [Ht Hcfg].
  2: { wflow. rewrite app_nil_r. split; [by apply reads_catalog_write|done]. }
  specialize (Hcfg cfg eq_refl).
  assert (Hw : ∀ t', Forall (λ ev : kevent, writes_at KServiceCatalog
     (catalog_keys (ForConfig cfg) sc (ces_ApplicationNamespaces (ce_Spec ce))) (projT1 ev)) t' →
     traced (catalog_write sc ff) (t ++ t')).
  { intros t' Ht'. apply Forall_app. split.
    - eapply Forall_impl; [exact Ht|]. intros ev Hev Hw. done.
    - eapply Forall_impl; [exact Ht'|]. intros ev. apply writes_at_mono.
      intros cl key (-> & Hn & Hns). split; [done|]. exists ce, cfg.
      do 2 (split; [done|]). split; [|done]. eapply env_config_mono; [|exact Hcfg]. set_solver. }
  eapply (wp_bind_spec legal).
  { apply wp_and; [apply only_calls_PushServiceCatalog|apply wp_PushServiceCatalog]. }
  - intros t' [e|] [Ht' Hp]; wflow; rewrite app_nil_r; (split; [by apply Hw|]); [done|].
    intros _. exists cfg. split; [eapply env_config_mono; [|exact Hcfg]; set_solver|].
    intros ns Hns. by apply part_app_r, Hp.
  - intros t' h [Ht' _]. split; [by apply Hw|done].
Qed.

(** A run of the service catalog controller writes only copies of the catalog it
    read, in application namespaces of the cluster environments of the catalog's
    environment in its own namespace, each through the configuration in that
    environment's cluster context secret; and when it returns no error the catalog's
    content was left in all those namespaces. *)
Theorem servicecatalog_pushed req :
  kwp (Reconcile req) (λ t out,
    (∃ e, t = [KEv (CGet Manager KServiceCatalog req) (Err e)] ∧
          (out = Done None ↔ IsNotFound (Some e) = true)) ∨
    ∃ sc r u, t = KEv (CGet Manager KServiceCatalog req) (Ok sc) ::
                  KEv (CList Manager KClusterEnvironment (InNamespace (nn_Namespace req))) r :: u ∧
      match r with
      | Err e => u = [] ∧ out = Done (IgnoreNotFound (Some e))
      | Ok items =>
          traced (catalog_write sc (bearing_name sc items)) u ∧
          (out = Done None → ∀ ce, ce ∈ bearing_name sc items → pushed_in sc ce u)
      end).
Proof.
  unfold Reconcile. wcall got Hgot. cbv beta. destruct got as [sc|e].
  2: { destruct (IsNotFound _) eqn:He; wflow; left; exists e; (split; [done|]); by rewrite He. }
  wcall r Hr. cbv beta. destruct r as [items|e].
  2: { wflow. right. by eexists sc, (Err e), []. }
  eapply wp_mono; [apply wp_and|].
  - apply (wp_traced_collect_errors (catalog_write sc (bearing_name sc items)));
      [apply catalog_write_grows|].
    intros ce Hce. eapply wp_mono; [by apply wp_PushServiceCatalog_env|]. by intros t out [? _].
  - apply (wp_collect_errors _ _ (pushed_in sc)). intros ce Hce.
    eapply wp_mono; [by apply wp_PushServiceCatalog_env|]. by intros t out [_ ?].
  - intros t out [Ht Hall]. right. eexists sc, (Ok items), t. split; [done|]. split; [done|].
    intros Hd ce Hce. by apply pushed_in_part, Hall.
Qed.
End ServiceCatalogReconciler.
