(* ===== verification/Informers.v ===== *)
(** * The informers of the cluster environment controller

    controllers/clusterenvironment_controller_svcinformers.go and
    clusterenvironment_controller_appinformers.go: with the Pull strategy the control
    plane watches the registered services and the service claims of a worker cluster,
    and copies them to its own namespace.  The reconciler's maps of informers are
    sets of keys, passed through the functions that change them under their mutex;
    starting, cancelling and syncing an informer are calls; the event handlers are
    functions of the object they are given and of the [synced] flag.  The unstructured
    converter is a parameter. *)

From S2P Require Import Prelude Prog GoErr GoStr Json Types Kube WorkerCluster.

#[local] Open Scope string_scope.
#[local] Open Scope list_scope.
#[local] Open Scope primaza_scope.

(** k8s.io/apimachinery's runtime.DefaultUnstructuredConverter, at two types *)
Class ConverterLib := {
  FromUnstructured_RegisteredService : json → result RegisteredService;
  FromUnstructured_ServiceClaim : json → result ServiceClaim }.

(** What an informer hands to its handlers: an unstructured object or something else
    (the tombstone of a missed deletion). *)
Inductive InformerObject := Unstructured (u : json) | OtherObject.

Section Informers.
Context `{KubeconfigLib} `{ConverterLib}.

(** ** Which informers run *)

Definition informer_key (ceName namespace : string) : string := ceName +++ "/" +++ namespace.

(** "declared" minus "failed" *)
Definition namespaces_to_watch (declared failed : list string) : gset string :=
  list_to_set declared ∖ list_to_set failed.

(** The body [RunSvcInformer] and [RunAppInformer] have in common: the running
    informers afterwards, and the error. *)
Definition run_informer (what : string) (gvk : GroupVersionKind) (running : gset string)
    (config : RestConfig) (inf : string) : M (gset string * option gerr) :=
  if ⟪ inf ∈ running ⟫ then mret (running, None)
  else
    err ← api (CNewClientset config);
    match err with
    | Some err => mret (running, Some err)
    | None =>
        err ← api (CRESTMapping gvk);
        match err with
        | Some err => mret (running, Some err)
        | None =>
            err ← api (CAddEventHandler what inf);
            match err with
            | Some err => _ ← api (CCancelInformer what inf); mret (running, Some err)
            | None =>
                _ ← api (CStartInformer what inf);
                synced ← api (CWaitForCacheSync what inf);
                if synced : bool then mret ({[ inf ]} ∪ running, None)
                else
                  _ ← api (CCancelInformer what inf);
                  mret (running ∖ {[ inf ]}, Some (ENew "could not sync cache"))
            end
        end
    end.

Definition RegisteredServiceGVK : GroupVersionKind :=
  {| gvk_G := "primaza.io"; gvk_V := "v1alpha1"; gvk_K := "RegisteredService" |}.
Definition ServiceClaimGVK : GroupVersionKind :=
  {| gvk_G := "primaza.io"; gvk_V := "v1alpha1"; gvk_K := "ServiceClaim" |}.

Definition RunSvcInformer (running : gset string) (config : RestConfig) (ceName namespace : string)
    : M (gset string * option gerr) :=
  run_informer "registeredservices" RegisteredServiceGVK running config (informer_key ceName namespace).

Definition RunAppInformer (running : gset string) (config : RestConfig) (ce : ClusterEnvironment)
    (namespace : string) : M (gset string * option gerr) :=
  run_informer "serviceclaims" ServiceClaimGVK running config
    (informer_key (om_Name (ce_meta ce)) namespace).

(** [r.informers[n].cancelFunc(); delete(r.informers, n)] for the running informers
    that are not to be watched, then one informer for each namespace to watch. *)
Definition stop_informers (what : string) (running d : gset string) : M (gset string) :=
  ns ← api (CMapKeys (elements d));
  for_each ns running (λ n running,
    _ ← api (CCancelInformer what n);
    mret (running ∖ {[ n ]})).

Definition run_informers (what : string) (snn running : gset string)
    (run : gset string → string → M (gset string * option gerr)) : M (gset string * option gerr) :=
  running ← stop_informers what running (running ∖ snn);
  ns ← api (CMapKeys (elements snn));
  '(running, errs) ← for_each ns (running, []) (λ n '(running, errs),
    '(running, err) ← run running n;
    mret (running, match err with Some e => errs ++ [Some e] | None => errs end));
  mret (running, errors_join errs).

Definition RunSvcInformers (running : gset string) (cfg : RestConfig) (ce : ClusterEnvironment)
    (failedServiceNamespaces : list string) : M (gset string * option gerr) :=
  run_informers "registeredservices"
    (namespaces_to_watch (ces_ServiceNamespaces (ce_Spec ce)) failedServiceNamespaces) running
    (λ running n, RunSvcInformer running cfg (om_Name (ce_meta ce)) n).

Definition RunAppInformers (running : gset string) (cfg : RestConfig) (ce : ClusterEnvironment)
    (failedApplicationNamespaces : list string) : M (gset string * option gerr) :=
  run_informers "serviceclaims"
    (namespaces_to_watch (ces_ApplicationNamespaces (ce_Spec ce)) failedApplicationNamespaces) running
    (λ running n, RunAppInformer running cfg ce n).

(** ** The handlers of registered services *)

Definition parseRegisteredService (obj : InformerObject) : result RegisteredService :=
  match obj with
  | OtherObject => Err (ENew "obj is not an instance of unstructured.Unstructured")
  | Unstructured u => FromUnstructured_RegisteredService u
  end.

Definition bakeClient (ceName ceNamespace : string) : M (result Client) :=
  let! ce := api (CGet Manager KClusterEnvironment {| nn_Namespace := ceNamespace; nn_Name := ceName |}) ;;
  let! cli := ClusterContext.CreateClient Manager ce ;;
  mret (Ok cli).

Definition empty_RegisteredServiceSpec : RegisteredServiceSpec :=
  {| rss_Constraints := None; rss_HealthCheck := None; rss_SLA := "";
     rss_ServiceClassIdentity := NilSlice; rss_ServiceEndpointDefinition := NilSlice |}.

(** The control plane's copy before anything is known of it. *)
Definition blank_service (namespace name : string) : RegisteredService :=
  {| rs_meta := named name namespace; rs_Spec := empty_RegisteredServiceSpec;
     rs_Status := {| rsst_State := "" |} |}.

Definition copy_service (rs curs : RegisteredService) : RegisteredService :=
  {| rs_meta := om_set_Labels (om_set_Annotations (rs_meta curs) (om_Annotations (rs_meta rs)))
                  (om_Labels (rs_meta rs));
     rs_Spec := rs_Spec rs; rs_Status := rs_Status curs |}.

Definition descriptor (name : string) : string := name +++ "-descriptor".

Definition blank_secret (namespace name : string) : Secret :=
  {| sec_meta := named name namespace; sec_Data := ∅; sec_StringData := ∅ |}.

Definition copy_secret (s cs : Secret) : Secret :=
  {| sec_meta := sec_meta cs; sec_Data := sec_Data s; sec_StringData := sec_StringData cs |}.

Definition createUpdate (rs : RegisteredService) (ceName ceNamespace : string) : M () :=
  '(_, op) ← CreateOrUpdate Manager KRegisteredService
               (blank_service ceNamespace (om_Name (rs_meta rs))) (mutates (copy_service rs));
  match op with
  | Err _ => mret ()
  | Ok _ =>
      cli ← bakeClient ceName ceNamespace;
      match cli with
      | Err _ => mret ()
      | Ok cli =>
          s ← api (CGet cli KSecret {| nn_Namespace := om_Namespace (rs_meta rs);
                                       nn_Name := descriptor (om_Name (rs_meta rs)) |});
          match s with
          | Err _ => mret ()
          | Ok s =>
              '(_, _) ← CreateOrUpdate Manager KSecret
                          (blank_secret ceNamespace (om_Name (sec_meta s))) (mutates (copy_secret s));
              mret ()
          end
      end
  end.

(** [AddFunc] and [UpdateFunc], which differ in what they log. *)
Definition svc_AddFunc (synced : bool) (ceName ceNamespace : string) (obj : InformerObject) : M () :=
  match parseRegisteredService obj with
  | Err _ => mret ()
  | Ok rs => if negb synced then mret () else createUpdate rs ceName ceNamespace
  end.
Definition svc_UpdateFunc (synced : bool) (ceName ceNamespace : string)
    (past future : InformerObject) : M () := svc_AddFunc synced ceName ceNamespace future.

Definition svc_DeleteFunc (synced : bool) (ceNamespace : string) (obj : InformerObject) : M () :=
  match parseRegisteredService obj with
  | Err _ => mret ()
  | Ok rs =>
      if negb synced then mret ()
      else
        err ← api (CDelete Manager KRegisteredService
                     {| nn_Namespace := ceNamespace; nn_Name := om_Name (rs_meta rs) |});
        match err with
        | Some _ => mret ()
        | None =>
            _ ← api (CDelete Manager KSecret
                       {| nn_Namespace := ceNamespace; nn_Name := descriptor (om_Name (rs_meta rs)) |});
            mret ()
        end
  end.

(** ** The handlers of service claims *)

Definition parseServiceClaim (obj : InformerObject) : result ServiceClaim :=
  match obj with
  | OtherObject => Err (ENew "obj is not an instance of unstructured.Unstructured")
  | Unstructured u => FromUnstructured_ServiceClaim u
  end.

Definition blank_claim (namespace name : string) : ServiceClaim :=
  {| sc_meta := named name namespace;
     sc_Spec := {| scs_ServiceClassIdentity := NilSlice; scs_ServiceEndpointDefinitionKeys := NilSlice;
                   scs_Application := {| as_APIVersion := ""; as_Kind := ""; as_Name := "";
                                         as_Selector := None |};
                   scs_Target := None; scs_Envs := [] |};
     sc_Status := {| scst_State := ""; scst_ClaimID := ""; scst_RegisteredService := None;
                     scst_Conditions := [] |} |}.

(** The claim of an application namespace, targeted at that namespace. *)
Definition copy_claim (ceName namespace : string) (sc csc : ServiceClaim) : ServiceClaim :=
  {| sc_meta := sc_meta csc;
     sc_Spec := {| scs_ServiceClassIdentity := scs_ServiceClassIdentity (sc_Spec sc);
                   scs_ServiceEndpointDefinitionKeys := scs_ServiceEndpointDefinitionKeys (sc_Spec sc);
                   scs_Application := scs_Application (sc_Spec sc);
                   scs_Target := Some {| tgt_EnvironmentTag := "";
                     tgt_ApplicationClusterContext :=
                       Some {| acc_ClusterEnvironmentName := ceName; acc_Namespace := namespace |} |};
                   scs_Envs := scs_Envs (sc_Spec sc) |};
     sc_Status := sc_Status csc |}.

Definition has_environment_tag (sc : ServiceClaim) : bool :=
  match scs_Target (sc_Spec sc) with
  | Some t => ⟪ tgt_EnvironmentTag t ≠ "" ⟫
  | None => false
  end.

Definition app_AddFunc (synced : bool) (ce : ClusterEnvironment) (namespace : string)
    (obj : InformerObject) : M () :=
  if negb synced then mret ()
  else
    match parseServiceClaim obj with
    | Err _ => mret ()
    | Ok sc =>
        if has_environment_tag sc then mret ()
        else
          '(_, _) ← CreateOrUpdate Manager KServiceClaim
             (blank_claim (om_Namespace (ce_meta ce)) (om_Name (sc_meta sc)))
             (mutates (copy_claim (om_Name (ce_meta ce)) namespace sc));
          mret ()
    end.

Definition app_DeleteFunc (synced : bool) (ce : ClusterEnvironment) (obj : InformerObject) : M () :=
  if negb synced then mret ()
  else
    match parseServiceClaim obj with
    | Err _ => mret ()
    | Ok sc =>
        _ ← api (CDelete Manager KServiceClaim
                   {| nn_Namespace := om_Namespace (ce_meta ce); nn_Name := om_Name (sc_meta sc) |});
        mret ()
    end.

(** ** Properties: which informers run *)

Lemma wp_stop_informers what running d :
  kwp (stop_informers what running d) (λ t out,
    out = Done (running ∖ d) ∧ ∀ n, n ∈ d → KEv (CCancelInformer what n) tt ∈ t).
Proof.
  unfold stop_informers. wcall ns Hns. cbv beta. simpl in Hns.
  set (I := λ (l : list string) (t : list kevent) (r : gset string), ∃ l0, ns = l0 ++ l ∧
     r = running ∖ list_to_set l0 ∧ ∀ n, n ∈ l0 → KEv (CCancelInformer what n) tt ∈ t).
  apply (wp_for_each legal _ _ _ I).
  - exists []. split; [done|]. split; [set_solver|]. set_solver.
  - intros n l t r (l0 & Hl & -> & Hev). wcall u Hu. destruct u. cbv beta. wflow.
    exists (l0 ++ [n]). rewrite <- app_assoc. split; [done|]. split; [set_solver|].
    set_solver.
  - intros t r (l0 & Hl & -> & Hev). rewrite app_nil_r in Hl. subst l0. split.
    + f_equal. rewrite <- Hns. by rewrite list_to_set_elements_L.
    + intros n Hn. apply elem_of_cons. right. apply Hev. rewrite <- Hns. by apply elem_of_elements.
Qed.

(** What one informer adds to or takes from the running ones. *)
Definition one_informer (inf : string) (running : gset string) (out : outcome (gset string * option gerr)) : Prop :=
  ∃ running' err, out = Done (running', err) ∧
    running' ⊆ running ∪ {[ inf ]} ∧ running ⊆ running' ∪ {[ inf ]} ∧ (err = None → inf ∈ running').

Lemma one_informer_intro inf running running' err :
  running' ⊆ running ∪ {[ inf ]} → running ⊆ running' ∪ {[ inf ]} → (err = None → inf ∈ running') →
  one_informer inf running (Done (running', err)).
Proof. intros. by exists running', err. Qed.

Lemma wp_run_informer what gvk running cfg inf :
  kwp (run_informer what gvk running cfg inf) (λ _ out, one_informer inf running out).
Proof.
  assert (Hkeep : ∀ err, (err = None → inf ∈ running) →
            one_informer inf running (Done (running, err))).
  { intros err Herr. apply one_informer_intro; set_solver. }
  unfold run_informer. case_bool_decide as Hin; [wflow; by apply Hkeep|].
  wnext; [by apply Hkeep|]. wnext; [by apply Hkeep|]. wnext; [wnext; by apply Hkeep|].
  wcall u Hu. cbv beta. wcall synced Hs. cbv beta. wflow.
  - apply one_informer_intro; set_solver.
  - wnext. apply one_informer_intro; [set_solver| |done].
    intros x Hx. destruct (decide (x = inf)); set_solver.
Qed.

(** The keys the informers of a pass have. *)
Definition keys_of (ceName : string) (snn : gset string) : gset string :=
  set_map (informer_key ceName) snn.
(** A pass with the informers [running] for the namespaces [snn] of [ceName]. *)
Definition pass_spec (what ceName : string) (snn running : gset string)
    (t : list kevent) (out : outcome (gset string * option gerr)) : Prop :=
  ∃ running' err, out = Done (running', err) ∧
    (∀ k, k ∈ running → k ∉ snn → KEv (CCancelInformer what k) tt ∈ t) ∧
    running' ⊆ (running ∩ snn) ∪ keys_of ceName snn ∧
    (err = None → keys_of ceName snn ⊆ running').

Lemma wp_run_informers what ceName snn running run :
  (∀ running n, kwp (run running n) (λ _ out, one_informer (informer_key ceName n) running out)) →
  kwp (run_informers what snn running run) (pass_spec what ceName snn running).
Proof.
  intros Hrun. unfold run_informers.
  eapply (wp_bind_spec legal); [apply wp_stop_informers| |by intros t h [[=] _]].
  intros t0 r0 [[= ->] Hcancel]. wcall ns Hns. cbv beta. simpl in Hns.
  assert (Hel : ∀ n, n ∈ ns ↔ n ∈ snn) by (intros n; rewrite <- Hns; apply elem_of_elements).
  set (I := λ (l : list string) (t : list kevent) (st : gset string * list (option gerr)),
    ∃ l0, ns = l0 ++ l ∧ st.1 ⊆ (running ∩ snn) ∪ keys_of ceName snn ∧ Forall is_Some st.2 ∧
      (st.2 = [] → ∀ n, n ∈ l0 → informer_key ceName n ∈ st.1)).
  eapply (wp_bind_spec legal (λ t out, ∃ st, out = Done st ∧ I [] t st)).
  - apply (wp_for_each legal _ _ _ I).
    + exists []. split; [done|]. cbn [fst snd]. split; [|split; [constructor|set_solver]].
      intros x [Hx Hd]%elem_of_difference. apply elem_of_union_l, elem_of_intersection.
      split; [done|]. destruct (decide (x ∈ snn)) as [|Hs]; [done|].
      destruct Hd. by apply elem_of_difference.
    + intros n l t [r errs] (l0 & -> & Hsub & Hsome & Hin). cbn [fst snd] in *.
      assert (Hn : informer_key ceName n ∈ keys_of ceName snn).
      { apply elem_of_map. exists n. split; [done|]. apply Hel. set_solver. }
      eapply (wp_bind_spec legal); [apply Hrun| |by intros t' h (? & ? & [=] & _)].
      intros t' [r' err] (r'' & err' & [= <- <-] & Hup & Hdown & Hok). wflow.
      exists (l0 ++ [n]). rewrite <- app_assoc. cbn [fst snd].
      split; [done|]. split.
      { intros x Hx%Hup. apply elem_of_union in Hx as [Hx|Hx]; [by apply Hsub|].
        apply elem_of_singleton in Hx as ->. by apply elem_of_union_r. }
      destruct err as [e|].
      * split; [apply Forall_app; split; [done|]; repeat constructor; eauto|].
        intros He. by apply app_nil in He as [_ ?].
      * split; [done|]. intros He x [Hx|Hx%list_elem_of_singleton]%elem_of_app; [|subst; auto].
        specialize (Hin He x Hx). apply Hdown, elem_of_union in Hin as [?|Hin]; [done|].
        apply elem_of_singleton in Hin as ->. auto.
    + intros t st HI. by exists st.
  - intros t st (st' & [= <-] & l0 & Hl & Hsub & Hsome & Hin). rewrite app_nil_r in Hl. subst l0.
    destruct st as [r errs]. wflow. eexists _, _. split; [done|]. split.
    { intros k Hk Hks. apply elem_of_app. left. apply Hcancel. set_solver. }
    split; [done|]. intros He k (n & -> & Hn)%elem_of_map. apply Hin; [|by apply Hel].
    apply errors_join_None in He. destruct errs as [|e errs]; [done|].
    apply Forall_cons in He as [-> _]. by apply Forall_cons in Hsome as [[? [=]] _].
  - by intros t h (st & [=] & _).
Qed.

(** C38: after a pass over the service namespaces of an environment, every informer
    that was running is cancelled unless its key is literally the name of a namespace
    to watch: keys are "environment/namespace", so the informers of the environment
    itself and of all the others are stopped.  Only informers of this environment
    remain, and without an error there is one for each of its namespaces. *)
Theorem RunSvcInformers_running running cfg ce failed :
  kwp (RunSvcInformers running cfg ce failed)
    (pass_spec "registeredservices" (om_Name (ce_meta ce))
       (namespaces_to_watch (ces_ServiceNamespaces (ce_Spec ce)) failed) running).
Proof. apply wp_run_informers. intros running' n. apply wp_run_informer. Qed.

(** The same of service claims. *)
Lemma wp_RunAppInformers running cfg ce failed :
  kwp (RunAppInformers running cfg ce failed)
    (pass_spec "serviceclaims" (om_Name (ce_meta ce))
       (namespaces_to_watch (ces_ApplicationNamespaces (ce_Spec ce)) failed) running).
Proof. apply wp_run_informers. intros running' n. apply wp_run_informer. Qed.

(** ** Properties: what the handlers copy *)

Lemma wp_copy {k} (o : kobj k) f :
  (∀ x, ObjectKeyFromObject (f x) = ObjectKeyFromObject x) →
  kwp ('(_, _) ← CreateOrUpdate Manager k o (mutates f); mret ())
    (λ t out, out = Done () ∧ ∃ p, CoU Manager k o f t p).
Proof.
  intros Hf. eapply (wp_bind_spec legal); [by apply wp_CreateOrUpdate| |by intros t h (p & [=] & _)].
  intros t [o' op] (p & [= <-] & Hp). wflow. rewrite app_nil_r. eauto.
Qed.

(** The secret of a service, copied from the worker cluster. *)
Definition secret_copied (rs : RegisteredService) (ceName ceNamespace : string) (t : list kevent) : Prop :=
  ∃ cfg s u v p,
    t = u ++ KEv (CGet (ForConfig cfg) KSecret {| nn_Namespace := om_Namespace (rs_meta rs);
                                                 nn_Name := descriptor (om_Name (rs_meta rs)) |}) (Ok s) :: v ∧
    (∃ ce, env_config ce cfg u ∧ KEv (CGet Manager KClusterEnvironment
        {| nn_Namespace := ceNamespace; nn_Name := ceName |}) (Ok ce) ∈ u) ∧
    Forall (λ ev : kevent, ¬ is_write (projT1 ev)) u ∧
    CoU Manager KSecret (blank_secret ceNamespace (descriptor (om_Name (rs_meta rs)))) (copy_secret s) v p.

Lemma wp_bakeClient ceName ceNamespace :
  kwp (bakeClient ceName ceNamespace) (λ t out,
    Forall (λ ev : kevent, ¬ is_write (projT1 ev)) t ∧
    ∀ cli, out = Done (Ok cli) → ∃ cfg ce, cli = ForConfig cfg ∧ env_config ce cfg t ∧
      KEv (CGet Manager KClusterEnvironment {| nn_Namespace := ceNamespace; nn_Name := ceName |}) (Ok ce) ∈ t).
Proof.
  unfold bakeClient. wcall ce Hce. cbv beta. destruct ce as [ce|e]; wflow.
  2: { split; [each_event; not_event|done]. }
  eapply (wp_bind_spec legal); [apply wp_CreateClient| |].
  - intros t [cli|e] [Ht Hcli]; wflow; rewrite app_nil_r; (split; [apply Forall_cons_2; [not_event|done]|]); [|done].
    intros cli' [= <-]. destruct (Hcli cli eq_refl) as (cfg & -> & Hcfg). exists cfg, ce.
    split; [done|]. split; [eapply env_config_mono; [|exact Hcfg]; set_solver|left].
  - intros t h [Ht _]. split; [apply Forall_cons_2; [not_event|done]|done].
Qed.

(** Fetching a client returns. *)
Lemma wp_bakeClient_returns ceName ceNamespace :
  kwp (bakeClient ceName ceNamespace) (λ _ out, ∃ r, out = Done r).
Proof.
  unfold bakeClient, ClusterContext.CreateClient, ClusterContext.GetClusterRESTConfig,
    ClusterContext.getSecret.
  wflow. repeat first [wnext | wflow]; eauto.
Qed.

(** When a registered service of a worker cluster is created or updated there, its
    annotations, labels and specification are left in the control plane's service of
    that name, whose status is kept; and only if that succeeds, its descriptor secret
    is read with the environment's own configuration and its data copied.  Nothing is
    written in the worker cluster. *)
Theorem createUpdate_copies rs ceName ceNamespace :
  kwp (createUpdate rs ceName ceNamespace) (λ t out, out = Done () ∧ ∃ t1 t2 o op,
    t = t1 ++ t2 ∧
    CoU Manager KRegisteredService (blank_service ceNamespace (om_Name (rs_meta rs))) (copy_service rs)
      t1 (o, op) ∧
    match op with
    | Err _ => t2 = []
    | Ok _ => Forall (λ ev : kevent, ¬ is_write (projT1 ev)) t2 ∨ secret_copied rs ceName ceNamespace t2
    end).
Proof.
  unfold createUpdate.
  eapply (wp_bind_spec legal); [by apply wp_CreateOrUpdate| |by intros t h (p & [=] & _)].
  intros t1 [o op] (p & [= <-] & Hp). destruct op as [op|e].
  2: { wflow. split; [done|]. exists t1, [], o, (Err e). done. }
  eapply wp_mono with (Q := λ t out, out = Done () ∧
    (Forall (λ ev : kevent, ¬ is_write (projT1 ev)) t ∨ secret_copied rs ceName ceNamespace t)).
  2: { intros t2 out [-> Ht2]. split; [done|]. by exists t1, t2, o, (Ok op). }
  eapply (wp_bind_spec legal); [apply wp_and; [apply wp_bakeClient|apply wp_bakeClient_returns]| |].
  2: { by intros t h [_ (r & [=])]. }
  intros u [cli|e] [[Hu Hcli] _].
  2: { wflow. rewrite app_nil_r. auto. }
  destruct (Hcli cli eq_refl) as (cfg & ce & -> & Hcfg & Hce).
  wcall s Hs. cbv beta. destruct s as [s|e].
  2: { wflow. split; [done|]. left. by apply Forall_app_cons; [done|not_event|constructor]. }
  simpl in Hs. assert (Hn : om_Name (sec_meta s) = descriptor (om_Name (rs_meta rs))).
  { exact (f_equal nn_Name Hs). }
  rewrite Hn. eapply wp_mono; [by apply wp_copy|]. intros v out [-> (p & Hp')]. split; [done|].
  right. exists cfg, s, u, v, p. eauto 10.
Qed.

(** A service claim added in an application namespace is copied to the control
    plane when the informer has synced and the claim names no environment; the copy
    has the claim's specification but is targeted at that namespace of that
    environment.  A claim that was there before the informer synced is not copied. *)
Theorem app_AddFunc_copies synced ce namespace obj :
  kwp (app_AddFunc synced ce namespace obj) (λ t out, out = Done () ∧
    match parseServiceClaim obj with
    | Ok sc =>
        if synced && negb (has_environment_tag sc) then
          ∃ p, CoU Manager KServiceClaim (blank_claim (om_Namespace (ce_meta ce)) (om_Name (sc_meta sc)))
                 (copy_claim (om_Name (ce_meta ce)) namespace sc) t p
        else t = []
    | Err _ => t = []
    end).
Proof.
  unfold app_AddFunc. destruct synced; cbn [negb andb].
  - destruct (parseServiceClaim obj) as [sc|e]; [|by wflow].
    destruct (has_environment_tag sc); cbn [negb]; [by wflow|]. by apply wp_copy.
  - wflow. split; [done|]. by destruct (parseServiceClaim obj).
Qed.
End Informers.
