(* ===== verification/Webhook.v ===== *)
(** * The validating webhook of service classes

    api/v1alpha1/serviceclass_webhook.go.  A validator either fails with an error of
    its own, or returns a list of field errors; the request is rejected exactly when
    that list is not empty ([ErrorList.ToAggregate] is nil on the empty list only).
    The JSON path parser is the parameter of [Sed]. *)

From S2P Require Import Prelude Prog GoErr GoStr Json Types Kube Sed.

#[local] Open Scope string_scope.
#[local] Open Scope list_scope.
#[local] Open Scope primaza_scope.

(** k8s.io/apimachinery's field.Error: its type, field and detail (the text of the bad
    value is left out). *)
Inductive FieldError :=
| FieldInvalid (field detail : string)
| FieldDuplicate (field value : string)
| FieldForbidden (field detail : string).

(** The runtime.Object a validator is given. *)
Inductive RuntimeObject := ServiceClassObject (sc : ServiceClass) | OtherRuntimeObject.

Section Webhook.
Context `{JsonPathLib}.

Definition resource_path : string := "spec.resource".

(** The path of the i-th mapping. *)
Definition mapping_path (i : nat) : string :=
  resource_path +++ ".serviceEndpointDefinitionMapping[" +++ pretty i +++ "]".

(** What the loop appends for the i-th mapping, [names] being those before it. *)
Definition mapping_errors (i : nat) (mapping : ServiceClassResourceFieldMapping) (names : gset string)
    : list FieldError :=
  match parse_path (rfm_JsonPath mapping) with
  | Err _ => [FieldInvalid (mapping_path i +++ ".jsonPath") "Invalid JSONPath"]
  | Ok _ => []
  end ++
  if ⟪ rfm_Name mapping ∈ names ⟫ then [FieldDuplicate (mapping_path i +++ ".name") (rfm_Name mapping)]
  else [].

Fixpoint validate_mappings (i : nat) (names : gset string) (ms : list ServiceClassResourceFieldMapping)
    : list FieldError :=
  match ms with
  | [] => []
  | m :: ms' => mapping_errors i m names ++ validate_mappings (S i) ({[ rfm_Name m ]} ∪ names) ms'
  end.

Definition ValidateMapping (r : ServiceClassResource) : list FieldError :=
  validate_mappings 0 ∅ (sedm_ResourceFields (scr_ServiceEndpointDefinitionMappings r)).

(** Another class of the same kind and API version. *)
Definition same_resource (sc item : ServiceClass) : bool :=
  ⟪ om_Name (scl_meta sc) ≠ om_Name (scl_meta item) ⟫ &&
  ⟪ scr_Kind (scls_Resource (scl_Spec sc)) = scr_Kind (scls_Resource (scl_Spec item)) ⟫ &&
  ⟪ scr_APIVersion (scls_Resource (scl_Spec sc)) = scr_APIVersion (scls_Resource (scl_Spec item)) ⟫.

Definition IsDuplicateClass (sc : ServiceClass) : M (result (list FieldError)) :=
  let! items := api (CList Manager KServiceClass (InNamespace "")) ;;
  mret (Ok match find_first (same_resource sc) items with
           | Some item =>
               [FieldForbidden resource_path
                  ("Service Class " +++ om_Name (scl_meta item) +++ " already manages services of type "
                   +++ scr_Kind (scls_Resource (scl_Spec item)) +++ "."
                   +++ scr_APIVersion (scls_Resource (scl_Spec item)))]
           | None => []
           end).

Definition ValidateCreate (obj : RuntimeObject) : M (result (list FieldError)) :=
  match obj with
  | OtherRuntimeObject => mret (Err (ENew "Object is not a Service Class"))
  | ServiceClassObject r =>
      let! errs := IsDuplicateClass r ;;
      mret (Ok (errs ++ ValidateMapping (scls_Resource (scl_Spec r))))
  end.

Definition ValidateDelete (obj : RuntimeObject) : M (result (list FieldError)) :=
  match obj with
  | OtherRuntimeObject => mret (Err (ENew "Object is not a Service Class"))
  | ServiceClassObject _ => mret (Ok [])
  end.

(** The keys of the maps [oldMappings] and [newMappings]. *)
Definition mapping_set (r : ServiceClassResource) : gset ServiceClassResourceFieldMapping :=
  list_to_set (sedm_ResourceFields (scr_ServiceEndpointDefinitionMappings r)).

Definition immutable_errors (old new : ServiceClassResource) : list FieldError :=
  (if ⟪ scr_APIVersion old ≠ scr_APIVersion new ⟫
   then [FieldInvalid (resource_path +++ ".apiVersion") "APIVersion is immutable"] else []) ++
  (if ⟪ scr_Kind old ≠ scr_Kind new ⟫
   then [FieldInvalid (resource_path +++ ".kind") "Kind is immutable"] else []) ++
  (if ⟪ mapping_set old ≠ mapping_set new ⟫
   then [FieldInvalid (resource_path +++ ".serviceEndpointDefinitionMapping")
           "ServiceEndpointDefinitionMapping is immutable"] else []).

Definition ValidateUpdate (oldObj newObj : RuntimeObject) : M (result (list FieldError)) :=
  match newObj with
  | OtherRuntimeObject => mret (Err (ENew "Object is not a Service Class"))
  | ServiceClassObject newClass =>
      match oldObj with
      | OtherRuntimeObject => mret (Err (ENew "Old object is not a ServiceClass"))
      | ServiceClassObject oldServiceClass =>
          let errs := immutable_errors (scls_Resource (scl_Spec oldServiceClass))
                        (scls_Resource (scl_Spec newClass))
                      ++ ValidateMapping (scls_Resource (scl_Spec newClass)) in
          let! list := IsDuplicateClass newClass ;;
          mret (Ok (errs ++ list))
      end
  end.

(** ** Properties *)

(** The resource fields parse and have distinct names. *)
Definition mappings_valid (r : ServiceClassResource) : Prop :=
  let ms := sedm_ResourceFields (scr_ServiceEndpointDefinitionMappings r) in
  NoDup (rfm_Name <$> ms) ∧ Forall (λ m, ∃ p, parse_path (rfm_JsonPath m) = Ok p) ms.

Lemma validate_mappings_nil i names ms :
  validate_mappings i names ms = [] ↔
  NoDup (rfm_Name <$> ms) ∧ (∀ n, n ∈ rfm_Name <$> ms → n ∉ names) ∧
  Forall (λ m, ∃ p, parse_path (rfm_JsonPath m) = Ok p) ms.
Proof.
  revert i names. induction ms as [|m ms IH]; intros i names; simpl.
  { split; [intros _; split; [constructor|split; [set_solver|constructor]]|done]. }
  rewrite app_nil, IH, NoDup_cons, Forall_cons. unfold mapping_errors. rewrite app_nil.
  assert (Hp : (match parse_path (rfm_JsonPath m) with
                | Ok _ => [] | Err _ => [FieldInvalid (mapping_path i +++ ".jsonPath") "Invalid JSONPath"]
                end = []) ↔ ∃ p, parse_path (rfm_JsonPath m) = Ok p).
  { destruct (parse_path _); [split; eauto|split; [done|by intros [? [=]]]]. }
  rewrite Hp. case_bool_decide as Hn; simpl; split; set_solver.
Qed.

Lemma ValidateMapping_nil r : ValidateMapping r = [] ↔ mappings_valid r.
Proof. unfold ValidateMapping, mappings_valid. rewrite validate_mappings_nil. set_solver. Qed.

Lemma immutable_errors_nil old new :
  immutable_errors old new = [] ↔
  scr_APIVersion old = scr_APIVersion new ∧ scr_Kind old = scr_Kind new ∧ mapping_set old = mapping_set new.
Proof.
  unfold immutable_errors. rewrite !app_nil. repeat case_bool_decide; naive_solver.
Qed.

(** No listed class of another name has the same kind and API version. *)
Definition unique_resource (sc : ServiceClass) (items : list ServiceClass) : Prop :=
  ∀ item, item ∈ items → om_Name (scl_meta item) ≠ om_Name (scl_meta sc) →
    scr_Kind (scls_Resource (scl_Spec item)) = scr_Kind (scls_Resource (scl_Spec sc)) →
    scr_APIVersion (scls_Resource (scl_Spec item)) ≠ scr_APIVersion (scls_Resource (scl_Spec sc)).

Lemma wp_IsDuplicateClass sc :
  kwp (IsDuplicateClass sc) (λ t out, ∃ r, t = [KEv (CList Manager KServiceClass (InNamespace "")) r] ∧
    match r with
    | Err e => out = Done (Err e)
    | Ok items => ∃ errs, out = Done (Ok errs) ∧ (errs = [] ↔ unique_resource sc items)
    end).
Proof.
  unfold IsDuplicateClass. wcall r Hr. cbv beta. destruct r as [items|e]; wflow; [|by eexists (Err e)].
  exists (Ok items). split; [done|]. eexists. split; [done|].
  destruct (find_first (same_resource sc) items) as [item|] eqn:Hf.
  - apply find_first_elem in Hf as [Hin Hs]. unfold same_resource in Hs. bools.
    split; [done|]. intros Hu. exfalso. apply (Hu item Hin); congruence.
  - split; [intros _|done]. apply find_first_None in Hf. rewrite Forall_forall in Hf.
    intros item Hin Hn Hk Hv. specialize (Hf item Hin). unfold same_resource in Hf.
    rewrite !bool_decide_true in Hf by congruence. done.
Qed.

(** C40: an update of a service class is accepted exactly when the API version, the
    kind and the set of resource fields are unchanged, the new resource fields parse
    and have distinct names, and no other listed class manages that kind and API
    version.  The secret reference fields are free to change. *)
Theorem ValidateUpdate_accepts old new :
  kwp (ValidateUpdate (ServiceClassObject old) (ServiceClassObject new)) (λ t out,
    ∃ r, t = [KEv (CList Manager KServiceClass (InNamespace "")) r] ∧
    match r with
    | Err e => out = Done (Err e)
    | Ok items => ∃ errs, out = Done (Ok errs) ∧
        (errs = [] ↔
         scr_APIVersion (scls_Resource (scl_Spec old)) = scr_APIVersion (scls_Resource (scl_Spec new)) ∧
         scr_Kind (scls_Resource (scl_Spec old)) = scr_Kind (scls_Resource (scl_Spec new)) ∧
         mapping_set (scls_Resource (scl_Spec old)) = mapping_set (scls_Resource (scl_Spec new)) ∧
         mappings_valid (scls_Resource (scl_Spec new)) ∧ unique_resource new items)
    end).
Proof.
  unfold ValidateUpdate. eapply (wp_bind_spec legal); [apply wp_IsDuplicateClass| |].
  - intros t res (r & -> & Hr). destruct r as [items|e].
    + destruct Hr as (errs & [= ->] & He). wflow. exists (Ok items). split; [done|].
      eexists. split; [done|]. rewrite !app_nil, immutable_errors_nil, ValidateMapping_nil, He. tauto.
    + injection Hr as ->. wflow. by exists (Err e).
  - intros t h (r & -> & Hr). destruct r as [items|e]; [by destruct Hr as (? & [=] & _)|done].
Qed.
End Webhook.
