(* ===== verification/ClusterEnvCtrl.v ===== *)
(** * The cluster environment controller of the control plane

    controllers/clusterenvironment_controller.go: a cluster environment is reached
    through its cluster context secret, its connection and the permissions of its
    namespaces are tested and published in its status, its namespaces are bound and
    unbound, service classes, bindings and the catalog of the environment are pushed
    to those whose permissions are granted, and with the Pull strategy informers are
    run.  The [*ClusterEnvironment] the functions of the source share is passed and
    returned as they mutate it, and so are the reconciler's maps of informers. *)

From S2P Require Import Prelude Prog GoErr GoStr Json Types Kube EnvTag Authz WorkerCluster.
From S2P Require Import Namespaces AppNamespaces ServiceClaimCtrl RegisteredServiceCtrl Informers.

#[local] Open Scope string_scope.
#[local] Open Scope list_scope.
#[local] Open Scope primaza_scope.

Definition applicationNamespaceType : string := "Application".
Definition serviceNamespaceType : string := "Service".
Definition permissionRequiredReason (t : string) : string := t +++ "NamespacePermissionsRequired".

Definition PermissionsGrantedReason : string := "PermissionsGranted".
Definition ClientCreationErrorReason : string := "ClientCreationError".
Definition PermissionsNotGrantedReason : string := "PermissionsNotGranted".
Definition ErrorDuringHealthCheckReason : string := "ErrorDuringHealthCheck".
Definition HealthCheckFailedReason : string := "HealthCheckFailed".

Record ClusterEnvironmentReconcilerConfig := {
  cfg_ControlPlaneNamespace : string;
  cfg_AppAgentImage : string; cfg_SvcAgentImage : string;
  cfg_AppAgentManifest : string; cfg_SvcAgentManifest : string;
  cfg_AppAgentConfigManifest : string; cfg_SvcAgentConfigManifest : string }.

(** The reconciler: its running informers and its configuration. *)
Record ClusterEnvironmentReconciler := {
  cer_appInformers : gset string; cer_svcInformers : gset string;
  cer_config : ClusterEnvironmentReconcilerConfig }.

Definition NewClusterEnvironmentReconciler (config : ClusterEnvironmentReconcilerConfig)
    : ClusterEnvironmentReconciler :=
  {| cer_appInformers := ∅; cer_svcInformers := ∅; cer_config := config |}.

Definition ce_set_Status (ce : ClusterEnvironment) (state : string) (cs : list Condition) : ClusterEnvironment :=
  {| ce_meta := ce_meta ce; ce_Spec := ce_Spec ce;
     ce_Status := {| cest_State := state; cest_Conditions := cs |} |}.
Definition ce_set_Conditions (ce : ClusterEnvironment) (cs : list Condition) : ClusterEnvironment :=
  ce_set_Status ce (cest_State (ce_Status ce)) cs.
Definition ce_set_State (ce : ClusterEnvironment) (state : string) : ClusterEnvironment :=
  ce_set_Status ce state (cest_Conditions (ce_Status ce)).

(** [meta.SetStatusCondition(&ce.Status.Conditions, c)] *)
Definition set_condition (ce : ClusterEnvironment) (c : Condition) : M ClusterEnvironment :=
  cs ← SetStatusCondition (cest_Conditions (ce_Status ce)) c;
  mret (ce_set_Conditions ce cs).

Definition new_condition (type status reason message : string) : Condition :=
  {| c_Type := type; c_Status := status; c_ObservedGeneration := 0;
     c_LastTransitionTime := 0; c_Reason := reason; c_Message := message |}.

Section ClusterEnvironments.
Context `{KubeconfigLib} `{ManifestLib} `{LabelLib}.

(** ** The connection and the status *)

Definition updateClusterEnvironmentStatus (ce : ClusterEnvironment) (cs : ConnectionStatus)
    : M ClusterEnvironment :=
  set_condition (ce_set_State ce (cs_State cs)) (ConnectionStatus_Condition cs).

(** [r.Client.Status().Update(ctx, ce)] *)
Definition update_status (ce : ClusterEnvironment) : M (ClusterEnvironment * option gerr) :=
  r ← api (CStatusUpdate Manager KClusterEnvironment ce);
  mret (match r with Ok ce' => (ce', None) | Err e => (ce, Some e) end).

(** The environment is set offline and its status written. *)
Definition publish_offline (ce : ClusterEnvironment) (reason message : string)
    : M (ClusterEnvironment * option gerr) :=
  ce ← updateClusterEnvironmentStatus ce
         {| cs_State := ClusterEnvironmentStateOffline; cs_Reason := reason; cs_Message := message |};
  update_status ce.

Definition getClusterContextSecret (ce : ClusterEnvironment) : M (ClusterEnvironment * result Secret) :=
  s ← ClusterContext.GetClusterContextSecret Manager ce;
  match s with
  | Ok s => mret (ce, Ok s)
  | Err err =>
      '(ce, uerr) ← publish_offline ce ClientCreationErrorReason
         ("error retrieving the ClusterContext secret: " +++ err_msg err);
      mret (ce, Err (default err uerr))
  end.

Definition ensureOwnershipOfClusterContextSecret (ce : ClusterEnvironment) (s : Secret) : M Secret :=
  let '(s, err) := SetControllerReference (ko := KClusterEnvironment) (k := KSecret) ce s in
  match err with
  | Some _ => mret s
  | None =>
      r ← api (CUpdate Manager KSecret s);
      mret (match r with Ok s' => s' | Err _ => s end)
  end.

Definition extractClusterContextRESTConfig (ce : ClusterEnvironment) (s : Secret)
    : M (ClusterEnvironment * result RestConfig) :=
  match ClusterContext.ExtractClusterRESTConfig s with
  | Ok cfg => mret (ce, Ok cfg)
  | Err err =>
      '(ce, uerr) ← publish_offline ce ClientCreationErrorReason
         ("error creating the client: " +++ err_msg err);
      mret (ce, Err (default err uerr))
  end.

Definition retrieveClusterContextSecret (ce : ClusterEnvironment)
    : M (ClusterEnvironment * result RestConfig) :=
  '(ce, s) ← getClusterContextSecret ce;
  match s with
  | Err err => mret (ce, Err err)
  | Ok s =>
      s ← ensureOwnershipOfClusterContextSecret ce s;
      extractClusterContextRESTConfig ce s
  end.

Definition testConnection (cfg : RestConfig) (ce : ClusterEnvironment)
    : M (ClusterEnvironment * option gerr) :=
  cr ← TestConnection cfg;
  ce ← updateClusterEnvironmentStatus ce cr;
  if ⟪ cs_Reason cr ≠ ConnectionSuccessful ⟫ then
    mret (ce, Some (ENew "can not connect to target cluster"))
  else mret (ce, None).

(** ** Permissions *)

(** One half of [checkExcessPermissions]. *)
Definition check_excess (ce : ClusterEnvironment) (pc : agentPermissionsChecker)
    (namespaces : list string) (c : Condition) : M (ClusterEnvironment * option gerr) :=
  ep ← CheckExcessPermission pc namespaces;
  match ep with
  | Err err => mret (ce, Some err)
  | Ok ep =>
      if ⟪ (0 < length ep)%nat ⟫ then ce ← set_condition ce c; mret (ce, None)
      else mret (ce, None)
  end.

Definition checkExcessPermissions (cfg : RestConfig) (ce : ClusterEnvironment)
    : M (ClusterEnvironment * option gerr) :=
  '(ce, aerr) ← check_excess ce (NewAgentAppPermissionsChecker cfg) (ces_ApplicationNamespaces (ce_Spec ce))
     (new_condition "ExcessPermissionsInApplicationNamespaces" "True" "ExcessPermissions"
        "More permissions than required granted for Application Namespaces");
  '(ce, serr) ← check_excess ce (NewAgentSvcPermissionsChecker cfg) (ces_ServiceNamespaces (ce_Spec ce))
     (new_condition "ExcessPermissionsInServiceNamespaces" "False" "ExcessPermissions"
        "More permissions than required granted for Service Namespaces");
  mret (ce, errors_join [aerr; serr]).

Definition buildPermissionCondition (nsType : string) (failedNamespaces : list string) : Condition :=
  if ⟪ (0 < length failedNamespaces)%nat ⟫ then
    new_condition (permissionRequiredReason nsType) ConditionTrue PermissionsNotGrantedReason
      ("namespaces missing required permissions: " +++ sprint_strings failedNamespaces)
  else
    new_condition (permissionRequiredReason nsType) ConditionFalse PermissionsGrantedReason
      "all required permissions are granted".

(** [!rp.AllSatisfied()] of the report of a namespace. *)
Definition unsatisfied (pr : gmap string NamespacedPermissionsReport) (ns : string) : bool :=
  match pr !! ns with Some rp => negb (AllSatisfied rp) | None => false end.

Definition testTypedNamespacesPermissions (ce : ClusterEnvironment) (nsType : string)
    (pc : agentPermissionsChecker) (namespaces : list string)
    : M (ClusterEnvironment * result (list string)) :=
  pr ← TestPermissions pc namespaces;
  match pr with
  | Err err => mret (ce, Err err)
  | Ok pr =>
      ks ← api (CMapKeys (elements (dom pr)));
      let failed := filter (λ ns, unsatisfied pr ns = true) ks in
      ce ← set_condition ce (buildPermissionCondition nsType failed);
      mret (ce, Ok failed)
  end.

Definition testNamespacesPermissions (cfg : RestConfig) (ce : ClusterEnvironment)
    : M (ClusterEnvironment * result (list string * list string)) :=
  '(ce, ansp) ← testTypedNamespacesPermissions ce applicationNamespaceType
     (NewAgentAppPermissionsChecker cfg) (ces_ApplicationNamespaces (ce_Spec ce));
  match ansp with
  | Err err => mret (ce, Err err)
  | Ok ansp =>
      '(ce, snsp) ← testTypedNamespacesPermissions ce serviceNamespaceType
         (NewAgentSvcPermissionsChecker cfg) (ces_ServiceNamespaces (ce_Spec ce));
      match snsp with
      | Err err => mret (ce, Err err)
      | Ok snsp =>
          let ce := if ⟪ (0 < length ansp)%nat ⟫ || ⟪ (0 < length snsp)%nat ⟫
                    then ce_set_State ce ClusterEnvironmentStatePartial else ce in
          mret (ce, Ok (ansp, snsp))
      end
  end.

(** ** Pushing to the namespaces *)

Definition environment_state (r : ClusterEnvironmentReconciler) (ce : ClusterEnvironment)
    (cfg : RestConfig) (ans sns : list string) : ClusterEnvironmentState :=
  let c := cer_config r in
  {| st_Name := om_Name (ce_meta ce); st_Namespace := om_Namespace (ce_meta ce);
     st_ClusterConfig := cfg; st_ApplicationNamespaces := ans; st_ServiceNamespaces := sns;
     st_AppAgentImage := cfg_AppAgentImage c; st_SvcAgentImage := cfg_SvcAgentImage c;
     st_AppAgentManifest := cfg_AppAgentManifest c; st_SvcAgentManifest := cfg_SvcAgentManifest c;
     st_AppAgentConfigManifest := cfg_AppAgentConfigManifest c;
     st_SvcAgentConfigManifest := cfg_SvcAgentConfigManifest c;
     st_Strategy := ces_SynchronizationStrategy (ce_Spec ce) |}.

Definition reconcileNamespaces (r : ClusterEnvironmentReconciler) (cfg : RestConfig)
    (ce : ClusterEnvironment) (failedApplicationNamespaces failedServiceNamespaces : list string)
    : M (option gerr) :=
  ans ← Subtract (ces_ApplicationNamespaces (ce_Spec ce)) failedApplicationNamespaces;
  sns ← Subtract (ces_ServiceNamespaces (ce_Spec ce)) failedServiceNamespaces;
  let! nr := NewNamespaceReconciler (environment_state r ce cfg ans sns) ;;
  do! ReconcileNamespaces nr ;;
  mret None.

(** [Constraints != nil && envtag.Match(...)] *)
Definition class_for_environment (ce : ClusterEnvironment) (sc : ServiceClass) : bool :=
  negb (is_nil (scls_Constraints (scl_Spec sc))) &&
  Match (ces_EnvironmentName (ce_Spec ce)) (scls_GetEnvironmentConstraints (scl_Spec sc)).

(** One iteration of the loop of [reconcileServiceNamespaces]. *)
Definition push_class (ce : ClusterEnvironment) (serviceNamespaces : list string) (sc : ServiceClass)
    : M (option gerr) :=
  let! cli := ClusterContext.CreateClient Manager ce ;;
  err ← PushServiceClassToNamespaces cli sc serviceNamespaces;
  match err with
  | Some e =>
      if negb (IsAlreadyExists (Some e)) then
        mret (Some (EWrap ("error pushing service class '" +++ om_Name (scl_meta sc)
               +++ "' to cluster environment '" +++ om_Name (ce_meta ce) +++ "': ") e))
      else mret None
  | None => mret None
  end.

Definition reconcileServiceNamespaces (ce : ClusterEnvironment) (failedServiceNamespaces : list string)
    : M (option gerr) :=
  items ← api (CList Manager KServiceClass (InNamespace (om_Namespace (ce_meta ce))));
  match items with
  | Err err => mret (IgnoreNotFound (Some err))
  | Ok items =>
      serviceNamespaces ← Subtract (ces_ServiceNamespaces (ce_Spec ce)) failedServiceNamespaces;
      collect_errors (filter (λ sc, class_for_environment ce sc = true) items)
        (push_class ce serviceNamespaces)
  end.

(** The claims whose target's environment is that of [ce]; a claim without target
    is a nil dereference. *)
Definition claims_of_environment (ce : ClusterEnvironment) (items : list ServiceClaim)
    : M (list ServiceClaim) :=
  for_each items [] (λ sclaim fl,
    tgt ← deref (scs_Target (sc_Spec sclaim));
    mret (if ⟪ ces_EnvironmentName (ce_Spec ce) = tgt_EnvironmentTag tgt ⟫ then fl ++ [sclaim] else fl)).

(** One iteration of the loop of [reconcileServiceBindingApplicationNamespaces]. *)
Definition push_binding (cfg : RestConfig) (ce : ClusterEnvironment) (applicationNamespaces : list string)
    (sclaim : ServiceClaim) : M (option gerr) :=
  let secret := put_identity (scs_ServiceClassIdentity (sc_Spec sclaim)) (claim_secret sclaim) in
  tgt ← deref (scs_Target (sc_Spec sclaim));
  if ⟪ tgt_EnvironmentTag tgt = "" ⟫ then
    match tgt_ApplicationClusterContext tgt with
    | Some cc =>
        if ⟪ om_Name (ce_meta ce) = acc_ClusterEnvironmentName cc ⟫ then
          '(_, err) ← PushServiceBinding sclaim secret (Some (acc_Namespace cc)) applicationNamespaces cfg;
          mret err
        else mret None
    | None => mret None
    end
  else if ⟪ ces_EnvironmentName (ce_Spec ce) ≠ tgt_EnvironmentTag tgt ⟫ then mret None
  else
    '(_, err) ← PushServiceBinding sclaim secret None applicationNamespaces cfg;
    mret err.

Definition reconcileServiceBindingApplicationNamespaces (cfg : RestConfig) (ce : ClusterEnvironment)
    (applicationNamespaces : list string) : M (option gerr) :=
  items ← api (CList Manager KServiceClaim (InNamespace (om_Namespace (ce_meta ce))));
  match items with
  | Err err => mret (IgnoreNotFound (Some err))
  | Ok items =>
      fl ← claims_of_environment ce items;
      collect_errors fl (push_binding cfg ce applicationNamespaces)
  end.

(** A service that the catalog of the environment lists when it is created. *)
Definition catalogued (ce : ClusterEnvironment) (rs : RegisteredService) : bool :=
  ⟪ rsst_State (rs_Status rs) = RegisteredServiceStateAvailable ⟫ &&
  match rss_Constraints (rs_Spec rs) with
  | None => true
  | Some c => Match (ces_EnvironmentName (ce_Spec ce)) (rsc_Environments c)
  end.

Definition environment_catalog (ce : ClusterEnvironment) (items : list RegisteredService) : ServiceCatalog :=
  {| scat_meta := named (ces_EnvironmentName (ce_Spec ce)) (om_Namespace (ce_meta ce));
     scat_Spec := {| scats_Services := service_entry <$> filter (λ rs, catalogued ce rs = true) items;
                     scats_ClaimedByLabels := [] |} |}.

Definition CreateServiceCatalog (ce : ClusterEnvironment) : M (option gerr) :=
  let! items := api (CList Manager KRegisteredService (InNamespace (om_Namespace (ce_meta ce)))) ;;
  r ← api (CCreate Manager KServiceCatalog (environment_catalog ce items));
  if negb (IsAlreadyExists (result_err r)) then mret (result_err r) else mret None.

Definition catalog_key (ce : ClusterEnvironment) : NamespacedName :=
  {| nn_Namespace := om_Namespace (ce_meta ce); nn_Name := ces_EnvironmentName (ce_Spec ce) |}.

Definition reconcileServiceCatalogApplicationNamespaces (cfg : RestConfig) (ce : ClusterEnvironment)
    (applicationNamespaces : list string) : M (option gerr) :=
  r ← api (CGet Manager KServiceCatalog (catalog_key ce));
  do! (if IsNotFound (result_err r) then CreateServiceCatalog ce else mret None) ;;
  let! servicecatalog := api (CGet Manager KServiceCatalog (catalog_key ce)) ;;
  do! PushServiceCatalogToApplicationNamespaces servicecatalog applicationNamespaces cfg ;;
  mret None.

Definition reconcileApplicationNamespaces (cfg : RestConfig) (ce : ClusterEnvironment)
    (failedApplicationNamespaces : list string) : M (option gerr) :=
  nns ← Subtract (ces_ApplicationNamespaces (ce_Spec ce)) failedApplicationNamespaces;
  errcm ← reconcileServiceBindingApplicationNamespaces cfg ce nns;
  errct ← reconcileServiceCatalogApplicationNamespaces cfg ce nns;
  mret (errors_join [errcm; errct]).

(** ** Informers *)

Definition runInformers (r : ClusterEnvironmentReconciler) (cfg : RestConfig) (ce : ClusterEnvironment)
    (fsnn fann : list string) : M (ClusterEnvironmentReconciler * option gerr) :=
  '(svc, serr) ← RunSvcInformers (cer_svcInformers r) cfg ce fsnn;
  '(app, aerr) ← RunAppInformers (cer_appInformers r) cfg ce fann;
  mret ({| cer_appInformers := app; cer_svcInformers := svc; cer_config := cer_config r |},
        errors_join [serr; aerr]).

(** ** Finalizing *)

(** [ce.Spec.EnvironmentName == environmentName && !ce.HasDeletionTimestamp()] *)
Definition filterClusterEnvironments (environmentName : string) (clusterEnvironments : list ClusterEnvironment)
    : list ClusterEnvironment :=
  filter (λ ce, ces_EnvironmentName (ce_Spec ce) = environmentName ∧
                HasDeletionTimestamp (ce_meta ce) = false) clusterEnvironments.

Definition getRelatedClusterEnvironments (namespace envname : string)
    : M (result (list ClusterEnvironment)) :=
  let! items := api (CList Manager KClusterEnvironment (InNamespace namespace)) ;;
  mret (Ok (filterClusterEnvironments envname items)).

Definition removeServiceCatalogOnDeletedClusterEnvironment (ce : ClusterEnvironment) : M (option gerr) :=
  let! ff := getRelatedClusterEnvironments (om_Namespace (ce_meta ce)) (ces_EnvironmentName (ce_Spec ce)) ;;
  if ⟪ length ff = 0%nat ⟫ then
    err ← api (CDelete Manager KServiceCatalog (catalog_key ce));
    match err with
    | Some e => if negb (IsNotFound (Some e)) then mret (Some e) else mret None
    | None => mret None
    end
  else mret None.

Definition finalizeClusterEnvironmentInNamespaces (r : ClusterEnvironmentReconciler)
    (ce : ClusterEnvironment) : M (ClusterEnvironment * option gerr) :=
  '(ce, kcfg) ← retrieveClusterContextSecret ce;
  match kcfg with
  | Err err => mret (ce, Some err)
  | Ok kcfg =>
      nr ← NewNamespaceReconciler (environment_state r ce kcfg [] []);
      match nr with
      | Err err => mret (ce, Some err)
      | Ok nr => err ← ReconcileNamespaces nr; mret (ce, err)
      end
  end.

Definition finalizeClusterEnvironment (r : ClusterEnvironmentReconciler) (ce : ClusterEnvironment)
    : M (ClusterEnvironment * option gerr) :=
  '(ce, errnamespace) ← finalizeClusterEnvironmentInNamespaces r ce;
  errcatalog ← removeServiceCatalogOnDeletedClusterEnvironment ce;
  mret (ce, errors_join [errnamespace; errcatalog]).
(** ** Reconcile *)

(** The three reconciliations of namespaces are all made; their errors are joined. *)
Definition reconcile_all (r : ClusterEnvironmentReconciler) (cfg : RestConfig) (ce : ClusterEnvironment)
    (fann fsnn : list string) : M (option gerr) :=
  errns ← reconcileNamespaces r cfg ce fann fsnn;
  errsns ← reconcileServiceNamespaces ce fsnn;
  errans ← reconcileApplicationNamespaces cfg ce fann;
  mret (errors_join [errns; errsns; errans]).

(** From the permissions on, with the connection tested. *)
Definition reconcile_connected (r : ClusterEnvironmentReconciler) (cfg : RestConfig)
    (ce : ClusterEnvironment) : M (ClusterEnvironmentReconciler * option gerr) :=
  '(ce, failed) ← testNamespacesPermissions cfg ce;
  match failed with
  | Err err => mret (r, Some err)
  | Ok (fann, fsnn) =>
      '(ce, err) ← update_status ce;
      match err with
      | Some err => mret (r, Some err)
      | None =>
          err ← reconcile_all r cfg ce fann fsnn;
          match err with
          | Some err => mret (r, Some err)
          | None =>
              '(ce, err) ← update_status ce;
              match err with
              | Some err => mret (r, Some err)
              | None =>
                  '(r, err) ← (if ⟪ ces_SynchronizationStrategy (ce_Spec ce) = SynchronizationStrategyPull ⟫
                               then runInformers r cfg ce fsnn fann else mret (r, None));
                  match err with
                  | Some err => mret (r, Some err)
                  | None =>
                      '(_, err) ← update_status ce;
                      mret (r, err)
                  end
              end
          end
      end
  end.

Definition reconcile_live (r : ClusterEnvironmentReconciler) (ce : ClusterEnvironment)
    : M (ClusterEnvironmentReconciler * option gerr) :=
  '(ce, cfg) ← retrieveClusterContextSecret ce;
  match cfg with
  | Err err => mret (r, Some err)
  | Ok cfg =>
      '(ce, err) ← testConnection cfg ce;
      match err with
      | Some err => mret (r, Some err)
      | None =>
          '(ce, _) ← checkExcessPermissions cfg ce;
          reconcile_connected r cfg ce
      end
  end.

Definition Reconcile (r : ClusterEnvironmentReconciler) (req : NamespacedName)
    : M (ClusterEnvironmentReconciler * option gerr) :=
  got ← api (CGet Manager KClusterEnvironment req);
  match got with
  | Err err =>
      if IsNotFound (Some err) then mret (r, IgnoreNotFound (Some err)) else mret (r, Some err)
  | Ok ce =>
      if HasDeletionTimestamp (ce_meta ce) then
        if ContainsFinalizer (k := KClusterEnvironment) ce clusterEnvironmentFinalizer then
          '(ce, err) ← finalizeClusterEnvironment r ce;
          if negb (is_nil (IgnoreNotFound err)) then mret (r, err)
          else
            u ← api (CUpdate Manager KClusterEnvironment
                       (RemoveFinalizer (k := KClusterEnvironment) ce clusterEnvironmentFinalizer).1);
            mret (r, result_err u)
        else mret (r, None)
      else
        let '(ce, added) := AddFinalizer (k := KClusterEnvironment) ce clusterEnvironmentFinalizer in
        u ← (if added then api (CUpdate Manager KClusterEnvironment ce) else mret (Ok ce));
        match u with
        | Err err => mret (r, Some err)
        | Ok ce => reconcile_live r ce
        end
  end.

(** ** MonitorHealth *)

(** The permission and excess checks of one environment of the health monitor; a
    status that cannot be written is a [continue]. *)
Definition monitor_connected (cfg : RestConfig) (ce : ClusterEnvironment) : M () :=
  '(ce, failed) ← testNamespacesPermissions cfg ce;
  '(ce, skip) ←
    match failed with
    | Err err =>
        publish_offline ce HealthCheckFailedReason ("permission test failed: " +++ err_msg err)
    | Ok _ => mret (ce, None)
    end;
  match skip with
  | Some _ => mret ()
  | None =>
      '(ce, _) ← checkExcessPermissions cfg ce;
      '(_, _) ← update_status ce;
      mret ()
  end.

Definition monitor_environment (ce : ClusterEnvironment) : M () :=
  '(ce, cfg) ← retrieveClusterContextSecret ce;
  match cfg with
  | Err err =>
      ce ← (if errors_is err ClusterContext.ErrSecretNotFound then
              '(ce, _) ← publish_offline ce ErrorDuringHealthCheckReason
                           ("error creating the client: " +++ err_msg err);
              mret ce
            else mret ce);
      '(_, _) ← publish_offline ce ErrorDuringHealthCheckReason "kubeclient config is empty";
      mret ()
  | Ok cfg =>
      '(ce, err) ← testConnection cfg ce;
      '(ce, skip) ←
        match err with
        | Some err =>
            publish_offline ce HealthCheckFailedReason ("connection test failed: " +++ err_msg err)
        | None => mret (ce, None)
        end;
      match skip with
      | Some _ => mret ()
      | None => monitor_connected cfg ce
      end
  end.

(** One turn of the endless loop of [MonitorHealth], between two sleeps. *)
Definition MonitorHealth_turn (ns : string) : M () :=
  items ← api (CList Manager KClusterEnvironment (InNamespace ns));
  for_each (match items with Ok items => items | Err _ => [] end) ()
    (λ ce _, monitor_environment ce).
(** ** Properties: where the namespaces are reconciled *)

(** A call of the reconciliation of namespaces: it writes through the manager's client
    catalogs only; through other clients it deletes, writes role bindings (in the
    control plane), or writes in a namespace for which [ok] holds. *)
Definition env_call (ok : string → Prop) (c : Call) : Prop :=
  match write_target c with
  | None => True
  | Some (Manager, _) => write_kind c = Some KServiceCatalog
  | Some (ForConfig _, key) =>
      match c with
      | CDelete _ _ _ => True
      | _ => write_kind c = Some KRoleBinding ∨ ok (nn_Namespace key)
      end
  end.

Lemma env_call_mono (ok ok' : string → Prop) c : (∀ ns, ok ns → ok' ns) → env_call ok c → env_call ok' c.
Proof.
  intros Hok. unfold env_call. destruct (write_target c) as [[[] key]|]; try done.
  destruct c; naive_solver.
Qed.

Lemma env_call_writes_at ok k cfg (P : Client → NamespacedName → Prop) c :
  (∀ cl key, P cl key → cl = ForConfig cfg ∧ ok (nn_Namespace key)) →
  writes_at k P c → env_call ok c.
Proof.
  intros HP Hc. unfold env_call. destruct (write_target c) as [[cl key]|] eqn:Ht; [|done].
  assert (Hw : is_write c) by (by destruct c).
  destruct (Hc Hw) as (_ & cl' & key' & Heq & Hp). rewrite Ht in Heq. injection Heq as <- <-.
  destruct (HP _ _ Hp) as [-> Hok]. destruct c; auto.
Qed.

Lemma env_call_reads {A} ok (p : M A) :
  only_calls legal (λ c, ¬ is_write c) p → only_calls legal (env_call ok) p.
Proof. intros Hp. eapply only_calls_mono; [exact Hp|]. intros c Hc.
  unfold env_call. destruct c; try done; by destruct Hc.
Qed.

Lemma env_call_bind b ceName ceNamespace nss cfg0 cfg :
  nb_pcli b = ForConfig cfg0 → nb_wcli b = ForConfig cfg →
  only_calls legal (env_call (λ ns, ns ∈ nss)) (BindNamespaces b ceName ceNamespace nss).
Proof.
  intros Hp Hw. unfold BindNamespaces, collect_failing, bindNamespace, createRoleBindings,
    createRoleBinding, PushAgent, createAgentDeployment, createAgentConfigMap.
  rewrite Hp, Hw. calls; unfold env_call; simpl; auto.
Qed.

Lemma env_call_unbind ok r ub ty nss cfg0 cfg :
  nr_pcli r = ForConfig cfg0 → nu_pcli ub = ForConfig cfg0 → nu_wcli ub = ForConfig cfg →
  only_calls legal (env_call ok) (unbindOrphanNamespacesForType r ub ty nss).
Proof.
  intros Hr Hp Hw. unfold unbindOrphanNamespacesForType, getOrphanNamespaces, getAuthorizedNamespaces,
    getRoleBindingsLabelSelectorOrDie, Subtract, UnbindNamespaces, collect_failing, unbindNamespace,
    deleteRoleBinding, ignoring_not_found, DeleteAgent.
  rewrite Hp, Hw. calls; unfold env_call; simpl; auto.
Qed.

Lemma wp_NewNamespaceReconciler e :
  kwp (NewNamespaceReconciler e) (λ t out, Forall (λ ev : kevent, ¬ is_write (projT1 ev)) t ∧
    ∀ nr, out = Done (Ok nr) → ∃ cfg0, nr_env nr = e ∧ nr_pcli nr = ForConfig cfg0 ∧
      (nb_pcli (nr_appBinder nr) = ForConfig cfg0 ∧ nb_wcli (nr_appBinder nr) = ForConfig (st_ClusterConfig e)) ∧
      (nb_pcli (nr_svcBinder nr) = ForConfig cfg0 ∧ nb_wcli (nr_svcBinder nr) = ForConfig (st_ClusterConfig e)) ∧
      (nu_pcli (nr_appUnbinder nr) = ForConfig cfg0 ∧ nu_wcli (nr_appUnbinder nr) = ForConfig (st_ClusterConfig e)) ∧
      (nu_pcli (nr_svcUnbinder nr) = ForConfig cfg0 ∧ nu_wcli (nr_svcUnbinder nr) = ForConfig (st_ClusterConfig e))).
Proof.
  unfold NewNamespaceReconciler, getInClusterClient.
  wflow. wnext. 2: { split; [each_event; not_event|done]. }
  wcall u Hu. cbv beta. wret. destruct u as [e'|]; wflow.
  { split; [each_event; not_event|done]. }
  wnext; (split; [each_event; not_event|]); [done|].
  intros nr [= <-]. exists a. simpl. auto 10.
Qed.
(** Reads first, then a program about what was read. *)
Lemma wp_reads_bind {A B} (Q : outcome A → Prop) (P : Call → Prop) (p : M A) (f : A → M B) :
  (∀ c, ¬ is_write c → P c) →
  kwp p (λ t out, Forall (λ ev : kevent, ¬ is_write (projT1 ev)) t ∧ Q out) →
  (∀ a, Q (Done a) → only_calls legal P (f a)) →
  only_calls legal P (p ≫= f).
Proof.
  intros HP Hp Hf.
  assert (Hr : ∀ t, Forall (λ ev : kevent, ¬ is_write (projT1 ev)) t → Forall (λ ev : kevent, P (projT1 ev)) t).
  { intros t Ht. eapply Forall_impl; [exact Ht|]. intros ev. apply HP. }
  eapply (wp_bind_spec legal); [exact Hp| |].
  - intros t a [Ht Ha]. eapply wp_mono; [by apply Hf|]. intros t' o Ht'. apply Forall_app. auto.
  - intros t h [Ht _]. auto.
Qed.

Lemma env_call_read ok c : ¬ is_write c → env_call ok c.
Proof. intros Hc. unfold env_call. destruct c; try done; by destruct Hc. Qed.

Lemma wp_Subtract_reads o s :
  kwp (Subtract o s) (λ t out, Forall (λ ev : kevent, ¬ is_write (projT1 ev)) t ∧
    ∀ r, out = Done r → ∀ ns, ns ∈ r ↔ ns ∈ o ∧ ns ∉ s).
Proof.
  unfold Subtract. wcall r Hr. simpl in *. split; [each_event; not_event|].
  intros r' [= <-] ns. rewrite <- Hr. apply elem_of_subtracted.
Qed.

Lemma env_call_ReconcileNamespaces ok nr cfg0 cfg :
  nr_pcli nr = ForConfig cfg0 →
  nb_pcli (nr_appBinder nr) = ForConfig cfg0 ∧ nb_wcli (nr_appBinder nr) = ForConfig cfg →
  nb_pcli (nr_svcBinder nr) = ForConfig cfg0 ∧ nb_wcli (nr_svcBinder nr) = ForConfig cfg →
  nu_pcli (nr_appUnbinder nr) = ForConfig cfg0 ∧ nu_wcli (nr_appUnbinder nr) = ForConfig cfg →
  nu_pcli (nr_svcUnbinder nr) = ForConfig cfg0 ∧ nu_wcli (nr_svcUnbinder nr) = ForConfig cfg →
  (∀ ns, ns ∈ st_ApplicationNamespaces (nr_env nr) → ok ns) →
  (∀ ns, ns ∈ st_ServiceNamespaces (nr_env nr) → ok ns) →
  only_calls legal (env_call ok) (ReconcileNamespaces nr).
Proof.
  intros Hp [] [] [] [] Ha Hs. unfold ReconcileNamespaces, bindNamespaces, unbindOrphanNamespaces.
  calls.
  - eapply only_calls_mono; [by eapply env_call_bind|]. intros c. by apply env_call_mono.
  - eapply only_calls_mono; [by eapply env_call_bind|]. intros c. by apply env_call_mono.
  - by eapply env_call_unbind.
  - by eapply env_call_unbind.
Qed.

(** A namespace that is declared and did not fail. *)
Definition remaining (declared failed : list string) (ns : string) : Prop := ns ∈ declared ∧ ns ∉ failed.

Definition reconcilable (ce : ClusterEnvironment) (fann fsnn : list string) (ns : string) : Prop :=
  remaining (ces_ApplicationNamespaces (ce_Spec ce)) fann ns ∨
  remaining (ces_ServiceNamespaces (ce_Spec ce)) fsnn ns.

Lemma env_call_reconcileNamespaces r cfg ce fann fsnn :
  only_calls legal (env_call (reconcilable ce fann fsnn)) (reconcileNamespaces r cfg ce fann fsnn).
Proof.
  unfold reconcileNamespaces.
  eapply wp_reads_bind; [apply env_call_read|apply wp_Subtract_reads|]. intros ans Hans. cbv beta in Hans.
  eapply wp_reads_bind; [apply env_call_read|apply wp_Subtract_reads|]. intros sns Hsns. cbv beta in Hsns.
  eapply wp_reads_bind; [apply env_call_read|apply wp_NewNamespaceReconciler|].
  intros [nr|e] Hnr; [|apply only_calls_ret].
  destruct (Hnr nr eq_refl) as (cfg0 & He & Hp & Hab & Hsb & Hau & Hsu).
  apply only_calls_bind; [|intros [e|]; apply only_calls_ret].
  eapply env_call_ReconcileNamespaces; try done; rewrite He; simpl; intros ns Hns.
  - left. by apply (Hans ans).
  - right. by apply (Hsns sns).
Qed.

Lemma env_call_push_class ok ce nss sc :
  (∀ ns, ns ∈ nss → ok ns) → only_calls legal (env_call ok) (push_class ce nss sc).
Proof.
  intros Hok. unfold push_class.
  eapply (wp_reads_bind (λ out, ∀ cli, out = Done (Ok cli) → ∃ cfg, cli = ForConfig cfg));
    [apply env_call_read| |].
  { eapply wp_mono; [apply wp_CreateClient|]. intros t out [Ht Hcli]. split; [done|].
    intros cli Hout. destruct (Hcli cli Hout) as (cfg & -> & _). eauto. }
  intros [cli|e] Hcli; [|apply only_calls_ret].
  destruct (Hcli cli eq_refl) as (cfg & ->). apply only_calls_bind; [|intros err; calls].
  eapply only_calls_mono; [apply only_calls_PushServiceClass|]. intros c.
  apply (env_call_writes_at _ _ cfg). intros cl key (-> & _ & Hns). auto.
Qed.

Lemma env_call_reconcileServiceNamespaces ce fann fsnn :
  only_calls legal (env_call (reconcilable ce fann fsnn)) (reconcileServiceNamespaces ce fsnn).
Proof.
  unfold reconcileServiceNamespaces. apply only_calls_bind; [by calls|].
  intros [items|e]; [|apply only_calls_ret].
  eapply wp_reads_bind; [apply env_call_read|apply wp_Subtract_reads|].
  intros nss Hnss. cbv beta in Hnss. calls. apply env_call_push_class.
  intros ns Hns. right. by apply (Hnss nss).
Qed.

Lemma writes_env_call (ok : string → Prop) cfg (P : Client → NamespacedName → Prop) c :
  (∀ cl key, P cl key → cl = ForConfig cfg ∧ ok (nn_Namespace key)) →
  writes P c → env_call ok c.
Proof.
  intros HP. unfold writes, env_call. destruct (write_target c) as [[cl key]|]; [|done].
  intros Hp. destruct (HP _ _ Hp) as [-> Hok]. destruct c; auto.
Qed.

Lemma env_call_PushServiceBinding (ok : string → Prop) sc secret nspace nss cfg :
  (∀ ns, ns ∈ nss → ok ns) → only_calls legal (env_call ok) (PushServiceBinding sc secret nspace nss cfg).
Proof.
  intros Hok. unfold PushServiceBinding. calls; [done|].
  eapply only_calls_mono; [apply only_calls_pushServiceBindingToNamespace|]. intros c.
  apply (writes_env_call _ cfg). intros cl key [-> <-]. auto.
Qed.

Lemma env_call_reconcileApplicationNamespaces cfg ce fann fsnn :
  only_calls legal (env_call (reconcilable ce fann fsnn)) (reconcileApplicationNamespaces cfg ce fann).
Proof.
  unfold reconcileApplicationNamespaces.
  eapply wp_reads_bind; [apply env_call_read|apply wp_Subtract_reads|].
  intros nns Hnns. cbv beta in Hnns.
  assert (Hok : ∀ ns, ns ∈ nns → reconcilable ce fann fsnn ns).
  { intros ns Hns. left. by apply (Hnns nns). }
  unfold reconcileServiceBindingApplicationNamespaces, claims_of_environment,
    reconcileServiceCatalogApplicationNamespaces, CreateServiceCatalog, push_binding.
  calls; try by apply env_call_PushServiceBinding. all: try done.
  eapply only_calls_mono; [apply only_calls_PushServiceCatalog|]. intros c.
  apply (env_call_writes_at _ _ cfg). intros cl key (-> & _ & Hns). auto.
Qed.

(** C15: the reconciliation of an environment's namespaces creates and updates
    objects of its worker cluster only in declared namespaces that did not fail the
    permission test; in the control plane it writes role bindings and the catalog. *)
Theorem reconcile_all_places r cfg ce fann fsnn :
  only_calls legal (env_call (reconcilable ce fann fsnn)) (reconcile_all r cfg ce fann fsnn).
Proof.
  unfold reconcile_all. calls.
  - apply env_call_reconcileNamespaces.
  - apply env_call_reconcileServiceNamespaces.
  - apply env_call_reconcileApplicationNamespaces.
Qed.
(** ** Properties: the permission test and the state it sets *)

Lemma wp_set_condition ce c :
  kwp (set_condition ce c) (λ t out, Forall (λ ev, projT1 ev = CNow) t ∧
    ∃ cs, out = Done (ce_set_Conditions ce cs) ∧
      condition_set (cest_Conditions (ce_Status ce)) c cs).
Proof.
  unfold set_condition. eapply (wp_bind_spec legal); [apply wp_SetStatusCondition| |].
  - intros t cs [Ht (cs' & [= <-] & Hcs)]. wflow. rewrite app_nil_r. eauto.
  - by intros t h [_ (cs' & [=] & _)].
Qed.

(** The namespaces that failed, as the condition and the answers have it. *)
Definition failing_ok (namespaces failed : list string) (t : list kevent) : Prop :=
  (∀ ns, ns ∈ failed → ns ∈ namespaces ∧ denied_in ns t) ∧
  (NoDup namespaces → ∀ ns, ns ∈ namespaces → denied_in ns t → ns ∈ failed).

Lemma wp_TestPermissions pc nss :
  kwp (TestPermissions pc nss) (λ t out,
    (∃ e, out = Done (Err e)) ∨
    ∃ rr, out = Done (Ok rr) ∧ dom rr = (list_to_set nss : gset string) ∧
      ∀ ns r, rr !! ns = Some r →
        (AllSatisfied r = false → denied_in ns t) ∧
        (NoDup nss → AllSatisfied r = true → ¬ denied_in ns t)).
Proof.
  unfold TestPermissions, TestResourcePermissions. wcall u Hu. cbv beta. wflow; [left; eauto|].
  eapply (wp_bind_spec legal); [apply wp_checkPermissions| |by intros t h (rr & [=] & _)].
  intros t rr (rr' & [= <-] & Hdom & Hrr). wflow. right. exists rr. rewrite app_nil_r.
  split; [done|]. split; [done|]. intros ns r Hl. destruct (Hrr ns r Hl) as [H2 H3].
  split; [exact H2|]. intros Hnd Ha. exact (H3 Hnd Ha).
Qed.

Lemma failing_of_report nss rr ks t t' :
  dom rr = (list_to_set nss : gset string) → elements (dom rr) ≡ₚ ks →
  (∀ ns r, rr !! ns = Some r →
     (AllSatisfied r = false → denied_in ns t) ∧ (NoDup nss → AllSatisfied r = true → ¬ denied_in ns t)) →
  omap access_reviewed t' = [] →
  failing_ok nss (filter (λ ns, unsatisfied rr ns = true) ks) (t ++ t').
Proof.
  intros Hdom Hks Hrr Ht'.
  assert (Hmem : ∀ ns, ns ∈ ks ↔ ns ∈ nss).
  { intros ns. rewrite <- Hks, elem_of_elements, Hdom. set_solver. }
  assert (Hd : ∀ ns, denied_in ns (t ++ t') ↔ denied_in ns t).
  { intros ns. rewrite denied_in_app. split; [|auto]. intros [?|(attrs & a & Hin & _)]; [done|].
    rewrite Ht' in Hin. by apply elem_of_nil in Hin. }
  split; [intros ns|intros Hnd ns]; rewrite list_elem_of_filter, Hd; unfold unsatisfied.
  - intros [Hu Hin%Hmem]. split; [done|]. destruct (rr !! ns) as [r|] eqn:Hl; [|done].
    apply (proj1 (Hrr ns r Hl)). by apply negb_true_iff.
  - intros Hin Hdn. assert (Hrn : ns ∈ dom rr) by (rewrite Hdom; set_solver).
    apply elem_of_dom in Hrn as [r Hl]. rewrite Hl. split; [|by apply Hmem].
    destruct (AllSatisfied r) eqn:Ha; [|done]. by destruct (proj2 (Hrr ns r Hl) Hnd Ha).
Qed.

Lemma reviews_CNow t : Forall (λ ev : kevent, projT1 ev = CNow) t → omap access_reviewed t = [].
Proof. induction 1 as [|[c r] t Hc _ IH]; [done|]. simpl in Hc. by subst c. Qed.

(** The environment with the conditions of a typed test. *)
Definition tested (ce ce' : ClusterEnvironment) (nsType : string) (failed : list string) : Prop :=
  ∃ cs, ce' = ce_set_Conditions ce cs ∧
    condition_set (cest_Conditions (ce_Status ce)) (buildPermissionCondition nsType failed) cs.

Lemma wp_testTyped ce nsType pc nss :
  kwp (testTypedNamespacesPermissions ce nsType pc nss) (λ t out,
    (∃ e, out = Done (ce, Err e)) ∨
    ∃ ce' failed, out = Done (ce', Ok failed) ∧ tested ce ce' nsType failed ∧ failing_ok nss failed t).
Proof.
  unfold testTypedNamespacesPermissions. eapply (wp_bind_spec legal); [apply wp_TestPermissions| |].
  2: { by intros t h [(e & [=])|(rr & [=] & _)]. }
  intros t [rr|e] Hrr; [|wflow; left; eauto].
  destruct Hrr as [(e & [=])|(rr' & [= <-] & Hdom & Hrr)].
  wcall ks Hks. cbv beta. simpl in Hks.
  eapply (wp_bind_spec legal); [apply wp_set_condition| |by intros t' h [_ (cs & [=] & _)]].
  intros t' ce' [Ht' (cs & [= ->] & Hcs)]. wflow. right. rewrite app_nil_r.
  eexists _, _. split; [done|]. split; [by exists cs|].
  apply failing_of_report; try done. simpl. by apply reviews_CNow.
Qed.

(** The condition a typed test leaves says whether a namespace failed. *)
Definition says_required (cs : list Condition) (nsType : string) (failed : list string) : Prop :=
  ∃ c, FindStatusCondition cs (permissionRequiredReason nsType) = Some c ∧
    c_Status c = if ⟪ failed = [] ⟫ then ConditionFalse else ConditionTrue.

Lemma build_type nsType failed :
  c_Type (buildPermissionCondition nsType failed) = permissionRequiredReason nsType.
Proof. unfold buildPermissionCondition. by case_bool_decide. Qed.

Lemma build_says cs cs' nsType failed :
  condition_set cs (buildPermissionCondition nsType failed) cs' → says_required cs' nsType failed.
Proof.
  intros [(c & Hc & Hs & _) _ _ _]. exists c.
  rewrite build_type in Hc. split; [done|]. rewrite Hs. unfold buildPermissionCondition.
  destruct failed as [|n failed]; [done|]. by rewrite bool_decide_true by (simpl; lia).
Qed.

(** What the permission test found and left in the environment. *)
Record permissions_tested (ce ce' : ClusterEnvironment) (fann fsnn : list string) (t : list kevent) : Prop := {
  pt_failing : ∃ t1 t2, t = t1 ++ t2 ∧
    failing_ok (ces_ApplicationNamespaces (ce_Spec ce)) fann t1 ∧
    failing_ok (ces_ServiceNamespaces (ce_Spec ce)) fsnn t2;
  pt_status : ∃ cs, ce' = ce_set_Status ce
      (if ⟪ fann = [] ∧ fsnn = [] ⟫ then cest_State (ce_Status ce) else ClusterEnvironmentStatePartial) cs ∧
    says_required cs applicationNamespaceType fann ∧ says_required cs serviceNamespaceType fsnn }.

Lemma wp_testNamespacesPermissions cfg ce :
  kwp (testNamespacesPermissions cfg ce) (λ t out,
    (∃ e cs, out = Done (ce_set_Conditions ce cs, Err e)) ∨
    ∃ ce' fann fsnn, out = Done (ce', Ok (fann, fsnn)) ∧ permissions_tested ce ce' fann fsnn t).
Proof.
  unfold testNamespacesPermissions.
  eapply (wp_bind_spec legal); [apply wp_testTyped| |by intros t h [(e & [=])|(? & ? & [=] & _)]].
  intros t1 [ce1 r1] [(e & [= -> ->])|(? & fann & [= <- ->] & (cs1 & -> & Hcs1) & Hf1)]; [by wflow; left; exists e, (cest_Conditions (ce_Status ce)); destruct ce as [? ? []]|].
  wflow.
  eapply (wp_bind_spec legal); [apply wp_testTyped| |by intros t h [(e & [=])|(? & ? & [=] & _)]].
  intros t2 [ce2 r2] [(e & [= -> ->])|(? & fsnn & [= <- ->] & (cs2 & -> & Hcs2) & Hf2)]; [by wflow; left; exists e, cs1|].
  refine (wp_ret legal _ _ _). right. eexists _, fann, fsnn. split; [done|]. rewrite app_nil_r.
  split; [by exists t1, t2|]. exists cs2. split.
  { destruct fann, fsnn; reflexivity. }
  split; [|by eapply build_says].
  apply build_says in Hcs1 as (c & Hc & Hs). exists c. split; [|done].
  rewrite (cset_others _ _ _ Hcs2); [done|].
  rewrite build_type. discriminate.
Qed.
(** C25: the permission test fails a declared namespace only when some required access
    there was not allowed, and fails all of those (no namespace being listed twice);
    the environment becomes Partial when a namespace failed and keeps its state
    otherwise, and the two conditions say whether an application or a service
    namespace failed. *)
Theorem testNamespacesPermissions_state cfg ce :
  kwp (testNamespacesPermissions cfg ce) (λ t out,
    ∀ ce' fann fsnn, out = Done (ce', Ok (fann, fsnn)) → permissions_tested ce ce' fann fsnn t).
Proof.
  eapply wp_mono; [apply wp_testNamespacesPermissions|].
  intros t out [(e & cs & ->)|(ce' & fann & fsnn & -> & Ht)]; [done|]. by intros ? ? ? [= <- <- <-].
Qed.
(** ** Properties: the published status *)

(** The cluster environment whose status a call of the manager writes. *)
Definition ce_status_written (c : Call) : option ClusterEnvironment :=
  match c with
  | CStatusUpdate Manager k o =>
      match k return kobj k → option ClusterEnvironment with
      | KClusterEnvironment => Some
      | _ => λ _, None
      end o
  | _ => None
  end.

(** A status that is published is one that [K] allows after what came before. *)
Definition status_step (K : list kevent → ClusterEnvironment → Prop) (t : list kevent) (ev : kevent) : Prop :=
  ∀ o, ce_status_written (projT1 ev) = Some o → K t o.

(** After the calls [t0], the statuses that a program publishes are allowed. *)
Definition publishes {A} (K : list kevent → ClusterEnvironment → Prop) (t0 : list kevent) (p : M A) : Prop :=
  after legal (status_step K) t0 p.

(** The environment was answered to an update of a status. *)
Definition answered (t : list kevent) (ce : ClusterEnvironment) : Prop :=
  ∃ o, KEv (CStatusUpdate Manager KClusterEnvironment o) (Ok ce) ∈ t.

Definition no_status (c : Call) : Prop := ce_status_written c = None.

Lemma env_call_no_status ok c : env_call ok c → no_status c.
Proof. unfold env_call, no_status. destruct c; try done. destruct cl; [|done]. by destruct k. Qed.

Lemma reads_no_status t :
  Forall (λ ev : kevent, ¬ is_write (projT1 ev)) t → Forall (λ ev : kevent, no_status (projT1 ev)) t.
Proof. intros Ht. eapply Forall_impl; [exact Ht|]. intros [c r] Hc. destruct c; try done; by destruct Hc. Qed.

Lemma CNow_no_status t :
  Forall (λ ev : kevent, projT1 ev = CNow) t → Forall (λ ev : kevent, no_status (projT1 ev)) t.
Proof. intros Ht. eapply Forall_impl; [exact Ht|]. intros ev Hev. by rewrite Hev. Qed.

(** Offline, because no client can be made from the cluster context secret. *)
Definition offline_unreadable (o : ClusterEnvironment) : Prop :=
  cest_State (ce_Status o) = ClusterEnvironmentStateOffline ∧
  ∃ c, FindStatusCondition (cest_Conditions (ce_Status o)) "Online" = Some c ∧
       c_Reason c = ClientCreationErrorReason.

Lemma wp_update_status ce :
  kwp (update_status ce) (λ t out, ∃ ce' err, out = Done (ce', err) ∧
    (ce' = ce ∨ answered t ce') ∧ (err = None → answered t ce')).
Proof.
  unfold update_status. wcall r Hr. cbv beta. wflow.
  destruct r as [ce'|e]; eexists _, _; (split; [done|]).
  - assert (answered [KEv (CStatusUpdate Manager KClusterEnvironment ce) (Ok ce')] ce').
    { exists ce. apply list_elem_of_here. }
    by split; [right|].
  - split; [by left|done].
Qed.

Lemma wp_publish_offline ce reason message :
  kwp (publish_offline ce reason message) (λ t out, ∀ ce', out = Done (ce', None) → answered t ce').
Proof.
  unfold publish_offline, updateClusterEnvironmentStatus.
  eapply (wp_bind_spec legal); [apply wp_set_condition| |done].
  intros t ce' _. eapply wp_mono; [apply wp_update_status|].
  intros t' out (ce1 & err & -> & _ & Ha) ? [= <- ->]. destruct (Ha eq_refl) as [o Ho].
  exists o. apply elem_of_app. by right.
Qed.

Section Publishing.
Context (K : list kevent → ClusterEnvironment → Prop).

Lemma publishes_quiet {A} t0 (p : M A) : only_calls legal no_status p → publishes K t0 p.
Proof.
  intros Hp. eapply after_calls; [exact Hp|]. intros t ev Hn o Ho. unfold no_status in Hn. congruence.
Qed.

Lemma publishes_bind {A B} t0 (p : M A) (f : A → M B) :
  publishes K t0 p → (∀ t a, publishes K (t0 ++ t) (f a)) → publishes K t0 (p ≫= f).
Proof.
  intros Hp Hf. apply (after_bind legal (status_step K) t0 p f (λ _ _, True)); [by intros t o _|done|].
  intros t a _. apply Hf.
Qed.

(** What a part that publishes nothing is known to have done is known afterwards. *)
Lemma publishes_quiet_bind {A B} (Q : list kevent → outcome A → Prop) t0 (p : M A) (f : A → M B) :
  kwp p (λ t out, Forall (λ ev : kevent, no_status (projT1 ev)) t ∧ Q t out) →
  (∀ t a, Q t (Done a) → publishes K (t0 ++ t) (f a)) → publishes K t0 (p ≫= f).
Proof.
  intros Hp Hf. eapply (after_bind legal); [exact Hp| |intros t a [_ Ha]; by apply Hf].
  apply publishes_quiet. eapply wp_mono; [exact Hp|]. by intros t out [? _].
Qed.

Lemma publishes_ret {A} t0 (a : A) : publishes K t0 (mret a).
Proof. apply after_ret. Qed.

Lemma publishes_update t0 ce : K t0 ce → publishes K t0 (update_status ce).
Proof.
  intros HK. unfold update_status. apply (after_call legal); [|intros; apply publishes_ret].
  by intros r _ o [= <-].
Qed.

Lemma publishes_offline t0 ce reason message :
  (∀ t cs c, FindStatusCondition cs "Online" = Some c → c_Reason c = reason →
     K t (ce_set_Status ce ClusterEnvironmentStateOffline cs)) →
  publishes K t0 (publish_offline ce reason message).
Proof.
  intros HK. unfold publish_offline, updateClusterEnvironmentStatus.
  eapply (publishes_quiet_bind (λ _ out, ∀ ce', out = Done ce' → ∀ t, K t ce')).
  - eapply wp_mono; [apply wp_set_condition|]. intros t out [Ht (cs & -> & Hcs)].
    split; [by apply CNow_no_status|]. intros ? [= <-] t'.
    destruct (cset_found _ _ _ Hcs) as (c & Hc & _ & Hr & _). by eapply HK.
  - intros t ce' Hce'. apply publishes_update. by apply Hce'.
Qed.

Lemma publishes_retrieve t0 ce :
  (∀ t o, offline_unreadable o → K t o) → publishes K t0 (retrieveClusterContextSecret ce).
Proof.
  intros HK.
  assert (Hoff : ∀ t0 ce message, publishes K t0 (publish_offline ce ClientCreationErrorReason message)).
  { intros t1 ce' message. apply publishes_offline. intros t cs c Hc Hr. apply HK. split; [done|eauto]. }
  unfold retrieveClusterContextSecret. apply publishes_bind.
  - unfold getClusterContextSecret. apply publishes_bind.
    { apply publishes_quiet. unfold ClusterContext.GetClusterContextSecret, ClusterContext.getSecret.
      calls; reflexivity. }
    intros t [s|e]; [apply publishes_ret|]. apply publishes_bind; [apply Hoff|]. intros ? []. apply publishes_ret.
  - intros t [ce' [s|e]]; [|apply publishes_ret]. apply publishes_bind.
    { apply publishes_quiet. unfold ensureOwnershipOfClusterContextSecret. calls; reflexivity. }
    intros t' s'. unfold extractClusterContextRESTConfig. destruct (ClusterContext.ExtractClusterRESTConfig s'); [apply publishes_ret|].
    apply publishes_bind; [apply Hoff|]. intros ? []. apply publishes_ret.
Qed.
End Publishing.

Lemma wp_testConnection cfg ce :
  kwp (testConnection cfg ce) (λ t out, Forall (λ ev : kevent, no_status (projT1 ev)) t ∧
    ∃ ce' err, out = Done (ce', err) ∧
      (err = None → cest_State (ce_Status ce') = ClusterEnvironmentStateOnline ∧
                    ∃ v, KEv (CServerVersion cfg) (Ok v) ∈ t)).
Proof.
  unfold testConnection, updateClusterEnvironmentStatus.
  eapply (wp_bind_spec legal); [apply wp_TestConnection| |by intros t h (? & [=] & _)].
  intros t cs (cs' & [= <-] & _ & _ & Hs & Ht).
  eapply (wp_bind_spec legal); [apply wp_set_condition| |by intros t' h [_ (? & [=] & _)]].
  intros t' ce' [Ht' (conds & [= ->] & _)].
  assert (Hn : Forall (λ ev : kevent, no_status (projT1 ev)) (t ++ t')).
  { apply Forall_app. split; [by apply reads_no_status|by apply CNow_no_status]. }
  case_bool_decide as Hr; wflow; rewrite app_nil_r; (split; [done|]); eexists _, _; (split; [done|]).
  - done.
  - intros _. destruct Hs as [Hst (v & Hv)]; [done|]. split; [done|].
    exists v. apply elem_of_app. by left.
Qed.

Lemma wp_check_excess ce pc nss c :
  kwp (check_excess ce pc nss c) (λ t out, Forall (λ ev : kevent, no_status (projT1 ev)) t ∧
    ∀ ce' err, out = Done (ce', err) → ∃ cs, ce' = ce_set_Conditions ce cs).
Proof.
  assert (Hno : ∀ us pl, only_calls legal no_status (AccessList_loop (apc_cfg pc) nss pl us)).
  { intros us pl. revert us. induction nss as [|ns nss' IH]; intros us; cbn [AccessList_loop];
      unfold createUnwantedPermissionsList; calls; try apply IH; done. }
  assert (Hce : ∃ cs, ce = ce_set_Conditions ce cs).
  { exists (cest_Conditions (ce_Status ce)). by destruct ce as [? ? []]. }
  unfold check_excess, CheckExcessPermission, AccessList.
  eapply (wp_bind_spec legal); [apply Hno| |done].
  intros t [ep|e] Ht; [|wflow; rewrite app_nil_r; split; [done|by intros ce' err [= <- <-]]].
  case_bool_decide; [|wflow; rewrite app_nil_r; split; [done|by intros ce' err [= <- <-]]].
  eapply (wp_bind_spec legal); [apply wp_set_condition| |by intros t' h [_ (? & [=] & _)]].
  intros t' ce' [Ht' (cs & [= ->] & _)]. wflow. rewrite app_nil_r.
  split; [apply Forall_app; split; [done|by apply CNow_no_status]|].
  intros ce' err [= <- <-]. eauto.
Qed.

Lemma ce_set_Conditions_twice ce cs cs' :
  ce_set_Conditions (ce_set_Conditions ce cs) cs' = ce_set_Conditions ce cs'.
Proof. reflexivity. Qed.

Lemma wp_checkExcessPermissions cfg ce :
  kwp (checkExcessPermissions cfg ce) (λ t out, Forall (λ ev : kevent, no_status (projT1 ev)) t ∧
    ∀ ce' err, out = Done (ce', err) → ∃ cs, ce' = ce_set_Conditions ce cs).
Proof.
  unfold checkExcessPermissions.
  eapply (wp_bind_spec legal); [apply wp_check_excess| |by intros t h [? _]].
  intros t [ce1 e1] [Ht Hc1]. destruct (Hc1 _ _ eq_refl) as (cs1 & ->).
  eapply (wp_bind_spec legal); [apply wp_check_excess| |].
  2: { intros t' h [Ht' _]. split; [by apply Forall_app|done]. }
  intros t' [ce2 e2] [Ht' Hc2]. destruct (Hc2 _ _ eq_refl) as (cs2 & ->). wflow. rewrite app_nil_r.
  split; [by apply Forall_app|]. intros ce' err [= <- <-]. by exists cs2.
Qed.

Lemma only_calls_testPermissions cfg ce :
  only_calls legal no_status (testNamespacesPermissions cfg ce).
Proof.
  unfold testNamespacesPermissions, testTypedNamespacesPermissions, TestPermissions,
    TestResourcePermissions, checkPermissions, checkPermissionsInNamespace, checkAccess, set_condition.
  calls; reflexivity.
Qed.
Lemma reconcile_all_no_status r cfg ce fann fsnn :
  only_calls legal no_status (reconcile_all r cfg ce fann fsnn).
Proof.
  unfold reconcile_all. calls; (eapply only_calls_mono; [|intros c; apply (env_call_no_status (reconcilable ce fann fsnn))]).
  - apply env_call_reconcileNamespaces.
  - apply env_call_reconcileServiceNamespaces.
  - apply env_call_reconcileApplicationNamespaces.
Qed.

Lemma runInformers_no_status r cfg ce fsnn fann :
  only_calls legal no_status (runInformers r cfg ce fsnn fann).
Proof.
  unfold runInformers, RunSvcInformers, RunAppInformers, run_informers, stop_informers,
    RunSvcInformer, RunAppInformer, run_informer.
  calls; reflexivity.
Qed.

Definition online_or_partial (o : ClusterEnvironment) : Prop :=
  cest_State (ce_Status o) = ClusterEnvironmentStateOnline ∨
  cest_State (ce_Status o) = ClusterEnvironmentStatePartial.

(** The version request was answered. *)
Definition connected (t : list kevent) : Prop := ∃ cfg v, KEv (CServerVersion cfg) (Ok v) ∈ t.

Lemma connected_app t t' : connected t → connected (t ++ t').
Proof. intros (cfg & v & ?). exists cfg, v. apply elem_of_app. by left. Qed.
Lemma answered_app t t' ce : answered t ce → answered (t ++ t') ce.
Proof. intros (o & ?). exists o. apply elem_of_app. by left. Qed.
Lemma answered_app_r t t' ce : answered t' ce → answered (t ++ t') ce.
Proof. intros (o & ?). exists o. apply elem_of_app. by right. Qed.

(** What [Reconcile] may publish: offline when no client can be made; online or
    partial when the API server has answered; or what a status update has answered. *)
Definition state_published (t : list kevent) (o : ClusterEnvironment) : Prop :=
  offline_unreadable o ∨ (online_or_partial o ∧ connected t) ∨ answered t o.

Lemma publishes_update_bind {A} t0 ce (f : ClusterEnvironment * option gerr → M A) :
  state_published t0 ce →
  (∀ t ce' err, state_published (t0 ++ t) ce' → publishes state_published (t0 ++ t) (f (ce', err))) →
  publishes state_published t0 (update_status ce ≫= f).
Proof.
  intros Hce Hf. eapply (after_bind legal); [apply wp_update_status|by apply publishes_update|].
  intros t a (ce' & err & [= ->] & Hor & _). apply Hf.
  destruct Hor as [->|Ha]; [|by right; right; apply answered_app_r].
  destruct Hce as [?|[[? ?]|?]]; [by left|right; left|right; right].
  - split; [done|by apply connected_app].
  - by apply answered_app.
Qed.

Lemma publishes_reconcile_connected t0 r cfg ce :
  connected t0 → online_or_partial ce →
  publishes state_published t0 (reconcile_connected r cfg ce).
Proof.
  intros Ht0 Hce. unfold reconcile_connected.
  eapply publishes_quiet_bind; [apply wp_and; [apply only_calls_testPermissions|apply wp_testNamespacesPermissions]|].
  intros t a Hr. cbv beta in Hr.
  destruct Hr as [(e & cs & [= ->])|(ce' & fann & fsnn & [= ->] & [_ (cs & -> & _)])].
  { apply publishes_ret. }
  cbv beta iota. apply publishes_update_bind.
  { right; left. split; [|by apply connected_app]. unfold online_or_partial. simpl.
    case_bool_decide; [exact Hce|by right]. }
  intros t1 ce1 [err|] Hce1; [apply publishes_ret|].
  apply publishes_bind; [apply publishes_quiet, reconcile_all_no_status|].
  assert (Hgrow : ∀ t t' o, state_published t o → state_published (t ++ t') o).
  { intros u u' o [?|[[? ?]|?]]; [by left|right; left|right; right].
    - split; [done|by apply connected_app].
    - by apply answered_app. }
  intros t2 [err|]; [apply publishes_ret|].
  apply publishes_update_bind; [by apply Hgrow|]. intros t3 ce2 [err|] Hce2; [apply publishes_ret|].
  apply publishes_bind.
  { case_bool_decide; [apply publishes_quiet, runInformers_no_status|apply publishes_ret]. }
  intros t4 [r' [err|]]; [apply publishes_ret|].
  apply publishes_update_bind; [by apply Hgrow|]. intros t5 ce3 err _. apply publishes_ret.
Qed.

Lemma publishes_reconcile_live t0 r ce : publishes state_published t0 (reconcile_live r ce).
Proof.
  unfold reconcile_live. apply publishes_bind; [by apply publishes_retrieve; left|].
  intros t1 [ce' [cfg|err]]; [|apply publishes_ret].
  eapply publishes_quiet_bind; [apply wp_testConnection|].
  intros t2 a (ce1 & err & [= ->] & Hok).
  destruct err as [err|]; [apply publishes_ret|].
  destruct (Hok eq_refl) as [Hst (v & Hv)]. cbv beta iota.
  eapply publishes_quiet_bind; [apply wp_checkExcessPermissions|].
  intros t3 [ce2 e2] Hcs. destruct (Hcs _ _ eq_refl) as (cs & ->).
  apply publishes_reconcile_connected; [|by left].
  apply connected_app. exists cfg, v. apply elem_of_app. by right.
Qed.

Lemma publishes_finalize t0 r ce : publishes state_published t0 (finalizeClusterEnvironment r ce).
Proof.
  unfold finalizeClusterEnvironment, finalizeClusterEnvironmentInNamespaces.
  apply publishes_bind.
  - apply publishes_bind; [by apply publishes_retrieve; left|].
    intros t1 [ce' [cfg|err]]; [|apply publishes_ret]. apply publishes_quiet.
    eapply wp_reads_bind; [|apply wp_NewNamespaceReconciler|].
    { intros c Hc. by apply (env_call_no_status (λ _, True)), env_call_read. }
    intros [nr|e] Hnr; [|apply only_calls_ret].
    destruct (Hnr nr eq_refl) as (cfg0 & He & Hp & Hab & Hsb & Hau & Hsu).
    apply only_calls_bind; [|intros err; apply only_calls_ret].
    eapply only_calls_mono; [|apply (env_call_no_status (λ _, True))].
    by eapply env_call_ReconcileNamespaces.
  - intros t1 [ce' err]. apply publishes_quiet.
    unfold removeServiceCatalogOnDeletedClusterEnvironment, getRelatedClusterEnvironments.
    calls; reflexivity.
Qed.

Lemma publishes_Reconcile r req : publishes state_published [] (Reconcile r req).
Proof.
  unfold Reconcile. apply publishes_bind; [apply publishes_quiet; by calls|].
  intros t0 [ce|e]; [|cbv beta iota; destruct (IsNotFound _); apply publishes_ret].
  destruct (HasDeletionTimestamp _).
  - destruct (ContainsFinalizer _ _); [|apply publishes_ret].
    apply publishes_bind; [apply publishes_finalize|]. intros t1 [ce' err].
    destruct (negb _); [apply publishes_ret|]. apply publishes_quiet. calls. done.
  - destruct (AddFinalizer _ _) as [ce' added].
    apply publishes_bind; [destruct added; [apply publishes_quiet; by calls|apply publishes_ret]|].
    intros t1 [ce1|e1]; [apply publishes_reconcile_live|apply publishes_ret].
Qed.

(** *** The health monitor *)

(** Offline, with the reason the health monitor gives. *)
Definition offline_reported (o : ClusterEnvironment) : Prop :=
  cest_State (ce_Status o) = ClusterEnvironmentStateOffline ∧
  ∃ c, FindStatusCondition (cest_Conditions (ce_Status o)) "Online" = Some c ∧
       c_Reason c ∈ [ClientCreationErrorReason; ErrorDuringHealthCheckReason; HealthCheckFailedReason].

(** On what evidence the monitor publishes a state: online when the API server has
    answered; partial when an access was not allowed, or its review had no answer; any
    state that a status update has answered. *)
Definition state_evident (t : list kevent) (state : string) : Prop :=
  (state = ClusterEnvironmentStateOnline ∧ connected t) ∨
  (state = ClusterEnvironmentStatePartial ∧ ∃ ns, denied_in ns t) ∨
  ∃ ce, answered t ce ∧ cest_State (ce_Status ce) = state.

Definition monitor_published (t : list kevent) (o : ClusterEnvironment) : Prop :=
  offline_reported o ∨ state_evident t (cest_State (ce_Status o)).

Lemma state_evident_app t t' state : state_evident t state → state_evident (t ++ t') state.
Proof.
  intros [[? ?]|[[? (ns & ?)]|(ce & ? & ?)]]; [left|right; left|right; right].
  - split; [done|by apply connected_app].
  - split; [done|]. exists ns. rewrite denied_in_app. by left.
  - exists ce. split; [by apply answered_app|done].
Qed.

Lemma monitor_offline t0 ce reason message :
  reason ∈ [ClientCreationErrorReason; ErrorDuringHealthCheckReason; HealthCheckFailedReason] →
  publishes monitor_published t0 (publish_offline ce reason message).
Proof. intros Hr. apply publishes_offline. intros t cs c Hc <-. left. split; [done|eauto]. Qed.

(** A status that could be set to offline is what was answered. *)
Lemma monitor_offline_bind {A} t0 ce reason message (f : ClusterEnvironment * option gerr → M A) :
  reason ∈ [ClientCreationErrorReason; ErrorDuringHealthCheckReason; HealthCheckFailedReason] →
  (∀ t ce' err, (err = None → state_evident (t0 ++ t) (cest_State (ce_Status ce'))) →
     publishes monitor_published (t0 ++ t) (f (ce', err))) →
  publishes monitor_published t0 (publish_offline ce reason message ≫= f).
Proof.
  intros Hr Hf. eapply (after_bind legal); [apply wp_publish_offline|by apply monitor_offline|].
  intros t [ce' err] Ha. apply Hf. intros ->. right; right. exists ce'.
  split; [by apply answered_app_r, Ha|done].
Qed.

Lemma failed_denied nss failed t : failing_ok nss failed t → failed ≠ [] → ∃ ns, denied_in ns t.
Proof. intros [Hf _]. destruct failed as [|ns failed]; [done|]. intros _. exists ns. apply Hf. by left. Qed.

(** The end of a check: the excess permissions, and the status that results. *)
Lemma publishes_monitor_rest t0 cfg ce :
  state_evident t0 (cest_State (ce_Status ce)) →
  publishes monitor_published t0
    ('(ce, _) ← checkExcessPermissions cfg ce; '(_, _) ← update_status ce; mret ()).
Proof.
  intros Hs. eapply publishes_quiet_bind; [apply wp_checkExcessPermissions|].
  intros t [ce2 e2] Hcs. destruct (Hcs _ _ eq_refl) as (cs & ->).
  apply publishes_bind; [|by intros ? []; apply publishes_ret].
  apply publishes_update. right. by apply state_evident_app.
Qed.

Lemma publishes_monitor_connected t0 cfg ce :
  state_evident t0 (cest_State (ce_Status ce)) →
  publishes monitor_published t0 (monitor_connected cfg ce).
Proof.
  intros Hs. unfold monitor_connected.
  eapply publishes_quiet_bind; [apply wp_and; [apply only_calls_testPermissions|apply wp_testNamespacesPermissions]|].
  intros t a Hr. cbv beta in Hr.
  destruct Hr as [(e & cs & [= ->])|(ce' & fann & fsnn & [= ->] & [(t1 & t2 & -> & Hf1 & Hf2) (cs & -> & _)])].
  - apply monitor_offline_bind; [set_solver|]. intros t' ce' [e'|] Ha; [apply publishes_ret|].
    by apply publishes_monitor_rest, Ha.
  - apply after_ret_bind. apply publishes_monitor_rest. simpl. case_bool_decide as Hnone.
    + by apply state_evident_app.
    + right; left. split; [done|].
      assert (Hd : ∃ ns, denied_in ns (t1 ++ t2)).
      { destruct (decide (fann = [])) as [->|Hfa].
        - assert (Hfs : fsnn ≠ []) by naive_solver.
          destruct (failed_denied _ _ _ Hf2 Hfs) as [ns ?]. exists ns. rewrite denied_in_app. by right.
        - destruct (failed_denied _ _ _ Hf1 Hfa) as [ns ?]. exists ns. rewrite denied_in_app. by left. }
      destruct Hd as [ns ?]. exists ns. rewrite denied_in_app. by right.
Qed.

Lemma publishes_monitor_environment t0 ce :
  publishes monitor_published t0 (monitor_environment ce).
Proof.
  unfold monitor_environment. apply publishes_bind.
  { apply publishes_retrieve. intros t o (? & c & ? & Hr). left. split; [done|]. exists c. rewrite Hr.
    split; [done|set_solver]. }
  intros t1 [ce1 [cfg|err]].
  - eapply publishes_quiet_bind; [apply wp_testConnection|].
    intros t2 a (ce2 & err & [= ->] & Hok). destruct err as [err|].
    + apply monitor_offline_bind; [set_solver|]. intros t3 ce3 [e|] Ha; [apply publishes_ret|].
      by apply publishes_monitor_connected, Ha.
    + apply after_ret_bind. apply publishes_monitor_connected.
      destruct (Hok eq_refl) as [-> (v & Hv)]. left. split; [done|]. exists cfg, v. apply elem_of_app. by right.
  - apply publishes_bind.
    { destruct (errors_is _ _); [|apply publishes_ret].
      apply publishes_bind; [apply monitor_offline; set_solver|by intros ? []; apply publishes_ret]. }
    intros t2 ce2. apply publishes_bind; [apply monitor_offline; set_solver|by intros ? []; apply publishes_ret].
Qed.

Lemma publishes_MonitorHealth_turn ns : publishes monitor_published [] (MonitorHealth_turn ns).
Proof.
  unfold MonitorHealth_turn. apply publishes_bind; [apply publishes_quiet; by calls|].
  intros t0 r. generalize (match r with Ok items => items | Err _ => [] end) as items, ([] ++ t0) as t.
  induction items as [|ce items IH]; intros t; [apply publishes_ret|].
  apply publishes_bind; [apply publishes_monitor_environment|]. intros t' []. apply IH.
Qed.


(** ** Properties: the finalizer *)

(** The manager writes back a cluster environment without its finalizer. *)
Definition drops_env_finalizer (ev : kevent) : Prop :=
  on_Update KClusterEnvironment (λ cl o _, cl = Manager ∧
    ContainsFinalizer (k := KClusterEnvironment) o clusterEnvironmentFinalizer = false) ev.

Definition not_env_update (c : Call) : Prop :=
  match c with CUpdate Manager k _ => k ≠ KClusterEnvironment | _ => True end.

Lemma env_call_not_env_update ok c : env_call ok c → not_env_update c.
Proof. unfold env_call, not_env_update. destruct c; try done. destruct cl; [|done]. by destruct k. Qed.

Lemma not_env_update_no_drop t :
  Forall (λ ev : kevent, not_env_update (projT1 ev)) t → Forall (λ ev, ¬ drops_env_finalizer ev) t.
Proof.
  intros Ht. eapply Forall_impl; [exact Ht|]. intros [c r] Hc Hd. destruct c; try done.
  destruct cl; [by destruct k|]. destruct k; try done. by destruct Hd.
Qed.

Lemma retrieve_not_env_update ce : only_calls legal not_env_update (retrieveClusterContextSecret ce).
Proof.
  unfold retrieveClusterContextSecret, getClusterContextSecret, ClusterContext.GetClusterContextSecret,
    ClusterContext.getSecret, ensureOwnershipOfClusterContextSecret, extractClusterContextRESTConfig,
    publish_offline, updateClusterEnvironmentStatus, set_condition, update_status.
  calls; done.
Qed.

(** The calls of a run but for those that read the cluster context secret: calls of the
    reconciliation of namespaces, and status updates. *)
Section EnvironmentCalls.
  Context (P : Call → Prop) (Henv : ∀ c, env_call (λ _, True) c → P c).
  Context (Hstatus : ∀ ce, P (CStatusUpdate Manager KClusterEnvironment ce)).

Ltac env_calls := calls; first [done|by apply Hstatus|by apply Henv].

Lemma environment_call ok {A} (p : M A) : only_calls legal (env_call ok) p → only_calls legal P p.
Proof.
  intros Hp. eapply only_calls_mono; [exact Hp|]. intros c Hc. apply Henv. by eapply env_call_mono.
Qed.

Lemma environment_calls_finalize r ce :
  only_calls legal P (retrieveClusterContextSecret ce) → only_calls legal P (finalizeClusterEnvironment r ce).
Proof.
  intros Hret. unfold finalizeClusterEnvironment. apply only_calls_bind.
  - unfold finalizeClusterEnvironmentInNamespaces. apply only_calls_bind; [exact Hret|].
    intros [ce' [cfg|err]]; [|apply only_calls_ret].
    eapply wp_reads_bind; [|apply wp_NewNamespaceReconciler|].
    { intros c Hc. by apply Henv, env_call_read. }
    intros [nr|e] Hnr; [|apply only_calls_ret].
    destruct (Hnr nr eq_refl) as (cfg0 & He & Hp & Hab & Hsb & Hau & Hsu).
    apply only_calls_bind; [|intros err; apply only_calls_ret].
    apply (environment_call (λ _, True)). by eapply env_call_ReconcileNamespaces.
  - intros [ce' err]. unfold removeServiceCatalogOnDeletedClusterEnvironment, getRelatedClusterEnvironments.
    env_calls.
Qed.

Lemma environment_calls_live r ce :
  only_calls legal P (retrieveClusterContextSecret ce) → only_calls legal P (reconcile_live r ce).
Proof.
  intros Hret.
  assert (Hall : ∀ cfg ce fann fsnn, only_calls legal P (reconcile_all r cfg ce fann fsnn)).
  { intros cfg ce' fann fsnn. unfold reconcile_all.
    calls; apply (environment_call (reconcilable ce' fann fsnn)); [apply env_call_reconcileNamespaces
      |apply env_call_reconcileServiceNamespaces|apply env_call_reconcileApplicationNamespaces]. }
  assert (Hal : ∀ cfg nss pl us, only_calls legal P (AccessList_loop cfg nss pl us)).
  { intros cfg nss pl. induction nss as [|ns nss' IH]; intros us; cbn [AccessList_loop];
      unfold createUnwantedPermissionsList; calls; try apply IH; by apply Henv. }
  assert (Htest : ∀ cfg ce, only_calls legal P (testNamespacesPermissions cfg ce)).
  { intros. unfold testNamespacesPermissions, testTypedNamespacesPermissions, TestPermissions,
      TestResourcePermissions, checkPermissions, checkPermissionsInNamespace, checkAccess, set_condition.
    env_calls. }
  assert (Hexc : ∀ cfg ce, only_calls legal P (checkExcessPermissions cfg ce)).
  { intros. unfold checkExcessPermissions, check_excess, CheckExcessPermission, AccessList, set_condition.
    calls; try apply Hal; by apply Henv. }
  assert (Hinf : ∀ r cfg ce fsnn fann, only_calls legal P (runInformers r cfg ce fsnn fann)).
  { intros. unfold runInformers, RunSvcInformers, RunAppInformers, run_informers, stop_informers,
      RunSvcInformer, RunAppInformer, run_informer. env_calls. }
  unfold reconcile_live, reconcile_connected, testConnection, TestConnection,
    updateClusterEnvironmentStatus, set_condition, update_status.
  calls; first [exact Hret|apply Hexc|apply Htest|apply Hall|apply Hinf|by apply Hstatus|by apply Henv].
Qed.
End EnvironmentCalls.

Lemma finalize_not_env_update r ce : only_calls legal not_env_update (finalizeClusterEnvironment r ce).
Proof.
  apply environment_calls_finalize; [apply env_call_not_env_update|apply retrieve_not_env_update].
Qed.

Lemma live_not_env_update r ce : only_calls legal not_env_update (reconcile_live r ce).
Proof.
  apply environment_calls_live; [apply env_call_not_env_update|done|apply retrieve_not_env_update].
Qed.

(** The finalizer of a cluster environment is removed only from one that is being
    deleted, by the last call of the run, after its namespaces were unbound and its
    catalog removed as far as the error tells: the joined error is nil, or counts as
    "not found". *)
Theorem clusterenvironment_finalizer r req :
  kwp (Reconcile r req) (λ t _, Exists drops_env_finalizer t →
    ∃ ce ce' err u ans,
      t = KEv (CGet Manager KClusterEnvironment req) (Ok ce) :: u ++
          [KEv (CUpdate Manager KClusterEnvironment
                  (RemoveFinalizer (k := KClusterEnvironment) ce' clusterEnvironmentFinalizer).1) ans] ∧
      HasDeletionTimestamp (ce_meta ce) = true ∧
      kexec (finalizeClusterEnvironment r ce) u (Done (ce', err)) ∧ IgnoreNotFound err = None).
Proof.
  unfold Reconcile. wcall got Hgot. cbv beta. destruct got as [ce|e].
  2: { destruct (IsNotFound _); wflow; intros Hd;
         by apply Exists_cons in Hd as [[]|Hd%Exists_nil]. }
  assert (Hfirst : ∀ u (P : Prop), Forall (λ ev, ¬ drops_env_finalizer ev) u →
    Exists drops_env_finalizer (KEv (CGet Manager KClusterEnvironment req) (Ok ce) :: u) → P).
  { intros u P Hu [[]|Hd]%Exists_cons. by destruct (Forall_not_Exists _ _ Hu Hd). }
  destruct (HasDeletionTimestamp _) eqn:Hdel.
  - destruct (ContainsFinalizer _ _); [|wflow; apply Hfirst; constructor].
    eapply (wp_bind_spec legal (λ t out, kexec (finalizeClusterEnvironment r ce) t out ∧
              Forall (λ ev, ¬ drops_env_finalizer ev) t)).
    { intros t out Hex. split; [done|]. by apply not_env_update_no_drop, (finalize_not_env_update r ce t out). }
    2: { intros t h [_ Ht]. by apply Hfirst. }
    intros u [ce' err] [Hex Hu]. destruct (is_nil (IgnoreNotFound err)) eqn:Hn; cbn [negb].
    2: { wflow. rewrite app_nil_r. by apply Hfirst. }
    wcall ans Hans. cbv beta. wflow. intros _. exists ce, ce', err, u, ans.
    do 3 (split; [done|]). by apply is_nil_true.
  - pose proof (AddFinalizer_contains (k := KClusterEnvironment) ce clusterEnvironmentFinalizer) as Hadd.
    destruct (AddFinalizer _ _) as [ce1 added]. cbn [fst] in Hadd.
    assert (Hkeep : ∀ a, ¬ drops_env_finalizer (KEv (CUpdate Manager KClusterEnvironment ce1) a)).
    { intros a Hd. assert (Hc := proj2 Hd : ContainsFinalizer (k := KClusterEnvironment) ce1 _ = false).
      congruence. }
    assert (Hlive : ∀ ce, kwp (reconcile_live r ce) (λ t _, Forall (λ ev, ¬ drops_env_finalizer ev) t)).
    { intros ce2. eapply wp_mono; [apply live_not_env_update|]. intros t out. apply not_env_update_no_drop. }
    destruct added.
    + wcall a Ha. cbv beta. destruct a as [ce2|e2].
      * eapply wp_mono; [apply Hlive|]. intros t out Ht. apply Hfirst. by constructor.
      * wflow. apply Hfirst. by repeat constructor.
    + wret. eapply wp_mono; [apply Hlive|]. intros t out Ht. by apply Hfirst.
Qed.
(** ** Properties: the catalog of an environment *)

(** The catalog a call creates. *)
Definition catalog_created (c : Call) : option ServiceCatalog :=
  match c with CCreate _ KServiceCatalog o => Some o | _ => None end.

(** The catalog created for an environment bears its name, in its namespace, and
    lists exactly the available services of the tenant whose constraints accept the
    environment: the criterion by which the registered service controller keeps a
    catalog up to date. *)
Theorem CreateServiceCatalog_services ce :
  kwp (CreateServiceCatalog ce) (λ t _, Forall (λ ev : kevent, ∀ o, catalog_created (projT1 ev) = Some o →
    ObjectKeyFromObject (k := KServiceCatalog) o = catalog_key ce ∧
    ∃ items, KEv (CList Manager KRegisteredService (InNamespace (om_Namespace (ce_meta ce)))) (Ok items) ∈ t ∧
      ∀ entry, entry ∈ scats_Services (scat_Spec o) ↔
        ∃ rs, rs ∈ items ∧ entry = service_entry rs ∧
          rsst_State (rs_Status rs) = RegisteredServiceStateAvailable ∧
          Match (ces_EnvironmentName (ce_Spec ce)) (rss_GetEnvironmentConstraints (rs_Spec rs)) = true) t).
Proof.
  unfold CreateServiceCatalog. wcall items Hitems. cbv beta. destruct items as [items|e].
  2: { wflow. each_event. by intros o. }
  wcall r Hr. cbv beta. wflow; each_event; (try by intros o).
  all: intros o [= <-]; (split; [done|]); exists items; (split; [left|]).
  all: intros entry; simpl; rewrite list_elem_of_fmap; setoid_rewrite list_elem_of_filter.
  all: unfold catalogued, rss_GetEnvironmentConstraints; split.
  1,3: intros (rs & -> & [Hav Hm]%andb_true_iff & Hin); exists rs; do 2 (split; [done|]);
       (split; [by bools|]); by destruct (rss_Constraints (rs_Spec rs)).
  1,2: intros (rs & Hin & -> & Hav & Hm); exists rs; (split; [done|]); (split; [|done]);
       rewrite bool_decide_true by done; by destruct (rss_Constraints (rs_Spec rs)).
Qed.

(** When a cluster environment is finalized, only the catalog of its environment
    may be deleted, and only when no other cluster environment of that environment
    that is not being deleted was listed; without an error it is gone or was left to
    such an environment. *)
Theorem removeServiceCatalog_last ce :
  kwp (removeServiceCatalogOnDeletedClusterEnvironment ce) (λ t out,
    ∃ r u, t = KEv (CList Manager KClusterEnvironment (InNamespace (om_Namespace (ce_meta ce)))) r :: u ∧
      match r with
      | Err e => u = [] ∧ out = Done (Some e)
      | Ok items =>
          ((∃ ce', ce' ∈ items ∧ ces_EnvironmentName (ce_Spec ce') = ces_EnvironmentName (ce_Spec ce) ∧
                   HasDeletionTimestamp (ce_meta ce') = false) ∧ u = [] ∧ out = Done None) ∨
          ((∀ ce', ce' ∈ items → ces_EnvironmentName (ce_Spec ce') = ces_EnvironmentName (ce_Spec ce) →
                   HasDeletionTimestamp (ce_meta ce') = true) ∧
           ∃ err, u = [KEv (CDelete Manager KServiceCatalog (catalog_key ce)) err] ∧
                  out = Done (IgnoreNotFound err))
      end).
Proof.
  unfold removeServiceCatalogOnDeletedClusterEnvironment, getRelatedClusterEnvironments.
  wflow. wcall r Hr. cbv beta. destruct r as [items|e]; wflow; [| |match goal with Hx : fail_with _ = Err _ |- _ => injection Hx as <- end; by exists (Err e), []].
  - wcall err Herr. cbv beta.
    assert (Hf : filterClusterEnvironments (ces_EnvironmentName (ce_Spec ce)) items = []).
    { apply length_zero_iff_nil. by apply bool_decide_eq_true in Heqb. }
    assert (Hall : ∀ ce', ce' ∈ items → ces_EnvironmentName (ce_Spec ce') = ces_EnvironmentName (ce_Spec ce) →
              HasDeletionTimestamp (ce_meta ce') = true).
    { intros ce' Hin Hn. apply not_false_iff_true. intros Hd.
      assert (Hx : ce' ∈ filterClusterEnvironments (ces_EnvironmentName (ce_Spec ce)) items).
      { by apply list_elem_of_filter. }
      rewrite Hf in Hx. by apply elem_of_nil in Hx. }
    unfold IgnoreNotFound. destruct err as [e|]; [|wflow; eexists (Ok items), _; split; [done|]; right; eauto].
    destruct (IsNotFound (Some e)) eqn:He; wflow; eexists (Ok items), _; (split; [done|]); right; split; try done;
      eexists; (split; [done|]); by rewrite He.
  - exists (Ok items), []. split; [done|]. left. split; [|done].
    destruct (filterClusterEnvironments _ items) as [|ce' l] eqn:Hf; [done|].
    assert (Hx : ce' ∈ filterClusterEnvironments (ces_EnvironmentName (ce_Spec ce)) items).
    { rewrite Hf. left. }
    apply list_elem_of_filter in Hx as [[Hn Hd] Hin]. eauto.
Qed.
(** ** Properties: claims without a service *)

(** A read of a service binding that was answered, be it by "not found". *)
Definition binding_readable (ev : kevent) : Prop :=
  match ev with
  | existT c r =>
      match c return Answer c → Prop with
      | CGet _ KServiceBinding _ => λ r,
          match r with Ok _ => True | Err e => IsNotFound (Some e) = true end
      | _ => λ _, False
      end r
  end.

(** A nil dereference, or a return before which no binding could be looked up. *)
Definition panics_on_read {A} (t : list kevent) (out : outcome A) : Prop :=
  out = Halted (GoPanic nil_dereference) ∨ (¬ Exists binding_readable t ∧ ∃ r, out = Done r).

Lemma panics_ret {A} (a : A) : kwp (mret a) (panics_on_read (A := A)).
Proof. apply wp_ret. right. split; [by intros ?%Exists_nil|eauto]. Qed.

Lemma panics_bind {A B} (p : M A) (f : A → M B) :
  kwp p panics_on_read → (∀ a, kwp (f a) panics_on_read) → kwp (p ≫= f) panics_on_read.
Proof.
  intros Hp Hf. eapply (wp_bind_spec legal); [exact Hp| |].
  - intros t a [[=]|[Ht _]]. eapply wp_mono; [apply Hf|].
    intros t' out [->|[Ht' Hr]]; [by left|right]. split; [|done].
    intros [?|?]%Exists_app; done.
  - intros t h [[= ->]|[_ (r & [=])]]. by left.
Qed.

Lemma panics_call c : (∀ r, ¬ binding_readable (KEv c r)) → kwp (api c) panics_on_read.
Proof.
  intros Hc. apply wp_call. intros r _. right. split; [|eauto].
  intros [Hx|Hx%Exists_nil]%Exists_cons; [by destruct (Hc r)|done].
Qed.

Lemma wp_push_unbound cli ns sc secret :
  scst_RegisteredService (sc_Status sc) = None →
  kwp (pushServiceBindingToNamespace cli ns sc secret) panics_on_read.
Proof.
  intros Hrs. unfold pushServiceBindingToNamespace, mutate_binding, CreateOrUpdate, mutate.
  rewrite Hrs. unfold deref. wflow. wcall r Hr. cbv beta. destruct r as [sb|e].
  { wflow. by left. }
  destruct (IsNotFound (Some e)) eqn:He; wflow; [by left|]. right. split; [|eauto].
  intros [Hx|Hx%Exists_nil]%Exists_cons; [|done]. simpl in Hx. congruence.
Qed.

Lemma wp_PushServiceBinding_unbound sc secret nspace nss cfg :
  scst_RegisteredService (sc_Status sc) = None →
  kwp (PushServiceBinding sc secret nspace nss cfg) panics_on_read.
Proof.
  intros Hrs. unfold PushServiceBinding. apply panics_bind; [refine (panics_call (CNewClient cfg) _); intros r []|].
  intros [e|]; [apply panics_ret|]. apply panics_bind; [|intros [s errs]; apply panics_ret].
  generalize ((secret, []) : Secret * list (option gerr)).
  induction nss as [|ns nss IH]; intros [s errs]; cbn [for_each]; [apply panics_ret|].
  apply panics_bind; [|apply IH]. destruct (selected nspace ns); [|apply panics_ret].
  apply panics_bind; [by apply wp_push_unbound|]. intros [s' err]. apply panics_ret.
Qed.

(** Pushing a claim that has no registered service yet, as the reconciliation of
    an environment does with every claim that targets it, panics at the first
    namespace where the binding can be looked up. *)
Theorem push_binding_unclaimed_panics cfg ce nss sclaim :
  kwp (push_binding cfg ce nss sclaim) (λ t out,
    scst_RegisteredService (sc_Status sclaim) = None → Exists binding_readable t →
    out = Halted (GoPanic nil_dereference)).
Proof.
  cut (scst_RegisteredService (sc_Status sclaim) = None → kwp (push_binding cfg ce nss sclaim) (λ t out,
    Exists binding_readable t → out = Halted (GoPanic nil_dereference))).
  { intros Hp t out Hex Hrs. by apply (Hp Hrs t out Hex). }
  intros Hrs. eapply (wp_mono legal _ panics_on_read).
  2: { intros t out [?|[Ht _]] Hx; [done|]. by destruct Ht. }
  assert (Hb : ∀ secret nspace, kwp ('(_, err) ← PushServiceBinding sclaim secret nspace nss cfg; mret err)
                                  (panics_on_read (A := option gerr))).
  { intros secret nspace. apply panics_bind; [by apply wp_PushServiceBinding_unbound|].
    intros [s err]. apply panics_ret. }
  unfold push_binding, deref. destruct (scs_Target _) as [tgt|]; [|wflow; by left]. wret.
  case_bool_decide; [|case_bool_decide; [exact (panics_ret None)|apply Hb]].
  destruct (tgt_ApplicationClusterContext tgt); [|exact (panics_ret None)].
  case_bool_decide; [apply Hb|exact (panics_ret None)].
Qed.
End ClusterEnvironments.

(** ** A health check of an unreachable cluster *)

Module Unreachable.

#[local] Instance kubeconfig : KubeconfigLib :=
  {| RESTConfigFromKubeConfig := λ data, Ok {| cfg_Host := data; cfg_Rest := "" |} |}.

(** A cluster environment with one application namespace. *)
Definition environment : ClusterEnvironment :=
  {| ce_meta := named "worker" "primaza-mytenant";
     ce_Spec := {| ces_EnvironmentName := "dev"; ces_ClusterContextSecret := "kw"; ces_Description := "";
                   ces_Labels := []; ces_ApplicationNamespaces := ["applications"];
                   ces_ServiceNamespaces := []; ces_ContactInfo := "";
                   ces_SynchronizationStrategy := SynchronizationStrategyPush |};
     ce_Status := {| cest_State := ClusterEnvironmentStateOnline; cest_Conditions := [] |} |}.

Definition timeout : gerr := ENew "dial tcp: i/o timeout".

(** The control plane answers, the worker cluster does not. *)
Definition answer (c : Call) : Answer c :=
  match c return Answer c with
  | CGet _ k key =>
      match k return result (kobj k) with
      | KSecret => Ok {| sec_meta := named (nn_Name key) (nn_Namespace key);
                         sec_Data := <["kubeconfig" := "worker"]> ∅; sec_StringData := ∅ |}
      | _ => Err timeout
      end
  | CCreate _ _ o | CUpdate _ _ o | CStatusUpdate _ _ o => Ok o
  | CDelete _ _ _ | CDeleteAllOf _ _ _ => None
  | CNewClient _ | CNewClientset _ => None
  | CNow => 1%Z
  | c => Kube.failing timeout c
  end.

Lemma answer_legal c : legal c (answer c).
Proof.
  destruct c; try done; [|exact (Permutation_refl _)]. destruct k; try done. by destruct key.
Qed.

Definition trace : list kevent :=
  run_trace (λ c (w : ()), (answer c, w)) (monitor_environment environment) ().

(** The states published, in order. *)
Definition published_states (t : list kevent) : list string :=
  omap (λ ev, (λ o, cest_State (ce_Status o)) <$> ce_status_written (projT1 ev)) t.

(** The health check of a cluster environment that cannot be reached first
    publishes Offline, but goes on to the permission test, whose failed reviews make
    it publish Partial: Partial is what remains. *)
Theorem unreachable_becomes_partial :
  ∃ t, kexec (monitor_environment environment) t (Done ()) ∧
    Forall (λ ev, ∀ r, version_answer ev = Some r → ∃ e, r = Err e) t ∧
    published_states t = [ClusterEnvironmentStateOffline; ClusterEnvironmentStatePartial].
Proof.
  exists trace. split.
  - assert (Hrun := run_exec legal (λ c (w : ()), (answer c, w)) (monitor_environment environment) ()
                      (λ c _, answer_legal c)).
    exact Hrun.
  - split; [|by vm_compute].
    vm_compute. repeat constructor; by intros r [= <-]; eexists.
Qed.
End Unreachable.
