(* ===== verification/Workload.v ===== *)
(** * Injecting a binding into a workload

    The part of controllers/agents/app/servicebinding_controller.go that rewrites the
    workload objects of a worker cluster: the volume with the service endpoint
    definition secret, the volume mounts and the environment variables of the
    containers, put in by [prepareContainerWithMounts] and taken out by
    [removeVolumeMountAndEnvironment].  A workload is an unstructured object; the
    conversion of its containers to v1.Container and back is a parameter.

    [remove_ranging] models [for i, x := range s { if p(x) { s = append(s[:i],
    s[i+1:]...) } }], which shifts the array it ranges over. *)

From S2P Require Import Prelude Prog GoErr GoStr Json Types Kube.

#[local] Open Scope string_scope.
#[local] Open Scope list_scope.
#[local] Open Scope primaza_scope.

(** ** v1.Container: the fields the source reads or writes, and the others *)

Record SecretKeySelector := { sks_Name : string; sks_Key : string; sks_Optional : option bool }.
Record EnvVarSource := {
  evs_FieldRef : option json; evs_ResourceFieldRef : option json;
  evs_ConfigMapKeyRef : option json; evs_SecretKeyRef : option SecretKeySelector }.
Record EnvVar := { ev_Name : string; ev_Value : string; ev_ValueFrom : option EnvVarSource }.
Record VolumeMount := {
  vm_Name : string; vm_ReadOnly : bool; vm_MountPath : string; vm_SubPath : string;
  vm_MountPropagation : option string; vm_SubPathExpr : string }.
#[export] Instance SecretKeySelector_eq_dec : EqDecision SecretKeySelector.
Proof. solve_decision. Defined.
#[export] Instance EnvVarSource_eq_dec : EqDecision EnvVarSource.
Proof. solve_decision. Defined.
#[export] Instance EnvVar_eq_dec : EqDecision EnvVar.
Proof. solve_decision. Defined.
#[export] Instance VolumeMount_eq_dec : EqDecision VolumeMount.
Proof. solve_decision. Defined.

(** [Other] is what a v1.Container holds beside its environment and its mounts. *)
Record Container {Other : Type} := {
  ctr_Env : list EnvVar; ctr_VolumeMounts : list VolumeMount; ctr_Other : Other }.
Arguments Container : clear implicits.

(** k8s.io/apimachinery's runtime.DefaultUnstructuredConverter at v1.Container *)
Class ContainerLib := {
  ContainerOther : Type;
  FromUnstructured_Container : json → result (Container ContainerOther);
  ToUnstructured_Container : Container ContainerOther → result json }.

Definition ServiceBindingRoot : string := "SERVICE_BINDING_ROOT".

Definition volumesPath : list string := ["spec"; "template"; "spec"; "volumes"].
Definition containersPaths : list (list string) :=
  [["spec"; "template"; "spec"; "containers"]; ["spec"; "template"; "spec"; "initContainers"]].

(** The [v1.Volume] of a binding, as an unstructured object; [0444] is 292. *)
Definition volumeProjection (sb : ServiceBinding) : json :=
  JObj [("name", JStr (om_Name (sb_meta sb)));
        ("secret", JObj [("secretName", JStr (sbs_ServiceEndpointDefinitionSecret (sb_Spec sb)));
                         ("defaultMode", JInt 292); ("optional", JBool false)])].

(** [volume.(map[string]interface{})["name"].(string)]: [None] is a panic. *)
Definition volume_name (volume : json) : option string :=
  match volume with
  | JObj fs => match obj_get fs "name" with Some (JStr s) => Some s | _ => None end
  | _ => None
  end.

Definition interface_conversion : string := "interface conversion".
Definition slice_bounds : string := "slice bounds out of range".

(** ** The loops on slices *)

(** [for i, x := range s { if p(x) { s[i] = y; found = true; break } }] and
    [if !found { s = append(s, y) }] *)
Fixpoint set_or_append {A} (p : A → option bool) (y : A) (s : list A) : M (list A) :=
  match s with
  | [] => mret [y]
  | x :: s' =>
      match p x with
      | None => panic interface_conversion
      | Some true => mret (y :: s')
      | Some false => s'' ← set_or_append p y s'; mret (x :: s'')
      end
  end.

(** The turns from [i] on of the loop that removes while ranging: [arr] is the array
    ranged over, of which the slice has the first [len] elements; a removal moves the
    elements after [i] and leaves those past the new end where they are. *)
Fixpoint remove_ranging_from {A} (p : A → option bool) (turns i len : nat) (arr : list A)
    : M (list A) :=
  match turns with
  | 0%nat => mret (take len arr)
  | S turns' =>
      match arr !! i with
      | None => panic slice_bounds
      | Some x =>
          match p x with
          | None => panic interface_conversion
          | Some true =>
              if ⟪ (S i ≤ len)%nat ⟫ then
                remove_ranging_from p turns' (S i) (len - 1)
                  (take i arr ++ take (len - S i) (drop (S i) arr) ++ drop (len - 1) arr)
              else panic slice_bounds
          | Some false => remove_ranging_from p turns' (S i) len arr
          end
      end
  end.

Definition remove_ranging {A} (p : A → option bool) (s : list A) : M (list A) :=
  remove_ranging_from p (length s) 0 (length s) s.

(** ** Containers *)

Definition refers_other_secret (sb : ServiceBinding) (val : EnvVar) : bool :=
  match ev_ValueFrom val with
  | Some src =>
      match evs_SecretKeyRef src with
      | Some ref => ⟪ sks_Name ref ≠ sbs_ServiceEndpointDefinitionSecret (sb_Spec sb) ⟫
      | None => false
      end
  | None => false
  end.

Fixpoint removeServiceBindingEnvironments (envList : list EnvVar) (sb : ServiceBinding)
    : list EnvVar :=
  match envList with
  | [] => []
  | val :: envList' =>
      if refers_other_secret sb val then val :: removeServiceBindingEnvironments envList' sb
      else removeServiceBindingEnvironments envList' sb
  end.

(** The variable of a binding that reads a key of its secret. *)
Definition secret_env (psSecret : Secret) (e : Environment) : EnvVar :=
  {| ev_Name := env_Name e; ev_Value := "";
     ev_ValueFrom := Some {| evs_FieldRef := None; evs_ResourceFieldRef := None;
       evs_ConfigMapKeyRef := None;
       evs_SecretKeyRef := Some {| sks_Name := om_Name (sec_meta psSecret); sks_Key := env_Key e;
                                   sks_Optional := None |} |} |}.

Definition root_env : EnvVar :=
  {| ev_Name := ServiceBindingRoot; ev_Value := "/bindings"; ev_ValueFrom := None |}.

(** The mount path: from the first [SERVICE_BINDING_ROOT], [""] without one. *)
Definition root_path (env : list EnvVar) (mountPathDir : string) : string :=
  match find_first (λ e, ⟪ ev_Name e = ServiceBindingRoot ⟫) env with
  | Some e => path_Join [ev_Value e; mountPathDir]
  | None => ""
  end.

Fixpoint set_volume_mount (m : VolumeMount) (ms : list VolumeMount) : list VolumeMount :=
  match ms with
  | [] => [m]
  | vm :: ms' => if ⟪ vm_Name vm = vm_Name m ⟫ then m :: ms' else vm :: set_volume_mount m ms'
  end.

Definition update_container (sb : ServiceBinding) (mountPathDir volumeName : string)
    (psSecret : Secret) {Other} (c : Container Other) : Container Other :=
  let env := removeServiceBindingEnvironments (ctr_Env c) sb
             ++ (secret_env psSecret <$> sbs_Envs (sb_Spec sb)) in
  let '(env, mountPath) :=
    if ⟪ root_path env mountPathDir = "" ⟫ then
      (env ++ [root_env], path_Join ["/bindings"; mountPathDir])
    else (env, root_path env mountPathDir) in
  let volumeMount := {| vm_Name := volumeName; vm_ReadOnly := true; vm_MountPath := mountPath;
                        vm_SubPath := ""; vm_MountPropagation := None; vm_SubPathExpr := "" |} in
  {| ctr_Env := env; ctr_VolumeMounts := set_volume_mount volumeMount (ctr_VolumeMounts c);
     ctr_Other := ctr_Other c |}.

Definition remove_from_container (sb : ServiceBinding) (volumeName : string) {Other} (c : Container Other)
    : M (Container Other) :=
  ms ← remove_ranging (λ vm, Some ⟪ vm_Name vm = volumeName ⟫) (ctr_VolumeMounts c);
  env ← remove_ranging (λ e, Some ⟪ ev_Name e = ServiceBindingRoot ⟫) (ctr_Env c);
  mret {| ctr_Env := removeServiceBindingEnvironments env sb; ctr_VolumeMounts := ms;
          ctr_Other := ctr_Other c |}.

Section Workload.
  Context `{ContainerLib}.

(** [for i := range containers { ... containers[i] = nu }], with the conversions
    around what is done to each container. *)
Fixpoint convert_containers (f : Container ContainerOther → M (Container ContainerOther)) (containers : list json)
    : M (result (list json)) :=
  match containers with
  | [] => mret (Ok [])
  | container :: containers' =>
      match container with
      | JObj u =>
          match FromUnstructured_Container (JObj u) with
          | Err e => mret (Err e)
          | Ok c =>
              c' ← f c;
              match ToUnstructured_Container c' with
              | Err e => mret (Err e)
              | Ok nu =>
                  let! nus := convert_containers f containers' ;;
                  mret (Ok (nu :: nus))
              end
          end
      | _ => panic interface_conversion
      end
  end.

Definition updateContainerInfo (containers : list json) (sb : ServiceBinding)
    (mountPathDir volumeName : string) (psSecret : Secret) : M (result (list json)) :=
  convert_containers (λ c, mret (update_container sb mountPathDir volumeName psSecret c)) containers.

(** Its caller gives the two names, which are both the binding's, in the other order. *)
Definition removeBindingInformationFromContainer (sb : ServiceBinding) (containers : list json)
    (volumeName mountPathDir secretName : string) : M (result (list json)) :=
  convert_containers (remove_from_container sb volumeName) containers.

(** ** The whole object *)

(** Reads the containers at each path, changes them and sets them. *)
Fixpoint at_paths (f : list json → M (result (list json))) (paths : list (list string))
    (application : json) : M (result json) :=
  match paths with
  | [] => mret (Ok application)
  | path :: paths' =>
      match NestedSlice application path with
      | Err e => mret (Err e)
      | Ok (containers, _) =>
          let! containers' := f containers ;;
          match SetNestedSlice application containers' path with
          | Err e => mret (Err e)
          | Ok application' => at_paths f paths' application'
          end
      end
  end.

Definition prepareContainerWithMounts (sb : ServiceBinding) (psSecret : Secret)
    (mountPathDir volumeName : string) (unstructuredVolume application : json)
    : M (option gerr) :=
  match NestedSlice application volumesPath with
  | Err e => mret (Some e)
  | Ok (volumes, _) =>
      volumes' ← set_or_append (λ v, (λ n, ⟪ n = volumeName ⟫) <$> volume_name v)
                   unstructuredVolume volumes;
      match SetNestedSlice application volumes' volumesPath with
      | Err e => mret (Some e)
      | Ok application' =>
          let! application'' :=
            at_paths (λ cs, updateContainerInfo cs sb mountPathDir volumeName psSecret)
              containersPaths application' ;;
          r ← api (CUpdateUnstructured Manager application'');
          mret (result_err r)
      end
  end.

Definition removeVolumeMountAndEnvironment (sb : ServiceBinding) (application : json)
    (volumeName mountPathDir secretName : string) : M (option gerr) :=
  match NestedSlice application volumesPath with
  | Err e => mret (Some e)
  | Ok (volumes, found) =>
      if negb found then mret None
      else
        volumes' ← remove_ranging (λ v, (λ n, ⟪ n = volumeName ⟫) <$> volume_name v) volumes;
        match SetNestedSlice application volumes' volumesPath with
        | Err e => mret (Some e)
        | Ok application' =>
            let! application'' :=
              at_paths (λ cs, removeBindingInformationFromContainer sb cs mountPathDir volumeName
                                secretName) containersPaths application' ;;
            r ← api (CUpdateUnstructured Manager application'');
            mret (result_err r)
        end
  end.
End Workload.

(** ** Removing while ranging *)

Section Ranging.
  Context {A : Type}.
  Implicit Types (p : A → option bool) (s arr : list A).

(** No turn from [i] on removes anything. *)
Lemma remove_ranging_from_none p turns i len arr :
  (i + turns = length arr)%nat →
  Forall (λ x, p x = Some false) (drop i arr) →
  remove_ranging_from p turns i len arr = mret (take len arr).
Proof.
  revert i. induction turns as [|turns IH]; intros i Hi Hf; simpl; [done|].
  destruct (lookup_lt_is_Some_2 arr i) as [x Hx]; [lia|]. rewrite Hx.
  rewrite (drop_S _ _ _ Hx) in Hf. apply Forall_cons in Hf as [-> Hf]. apply IH; [lia|done].
Qed.

(** The elements before the first that is removed are passed over. *)
Lemma remove_ranging_from_skip p s1 turns len s2 :
  Forall (λ x, p x = Some false) s1 →
  remove_ranging_from p (length s1 + turns) 0 len (s1 ++ s2) =
  remove_ranging_from p turns (length s1) len (s1 ++ s2).
Proof.
  intros Hf.
  cut (∀ k s0 s', s1 = s0 ++ s' → k = length s' →
         remove_ranging_from p (k + turns) (length s0) len (s1 ++ s2) =
         remove_ranging_from p turns (length s1) len (s1 ++ s2)).
  { intros Hc. apply (Hc (length s1) [] s1); done. }
  intros k. induction k as [|k IH]; intros s0 s' -> Hk.
  { destruct s'; [|done]. by rewrite app_nil_r. }
  destruct s' as [|x s']; [done|]. simpl.
  assert (((s0 ++ x :: s') ++ s2) !! length s0 = Some x) as ->.
  { rewrite <- app_assoc, lookup_app_r by lia. by rewrite Nat.sub_diag. }
  assert (p x = Some false) as ->.
  { apply Forall_app in Hf as [_ [? _]%Forall_cons]. done. }
  specialize (IH (s0 ++ [x]) s'). rewrite length_app in IH. simpl in IH.
  rewrite Nat.add_1_r in IH. apply IH; [by rewrite <- app_assoc|by injection Hk].
Qed.

Lemma remove_ranging_none p s :
  Forall (λ x, p x = Some false) s → remove_ranging p s = mret s.
Proof.
  intros Hf. unfold remove_ranging. rewrite remove_ranging_from_none; [|done|done].
  by rewrite firstn_all.
Qed.

(** The removal at [i], in the array. *)
Lemma remove_ranging_from_hit p s1 x s2 turns :
  p x = Some true →
  remove_ranging_from p (S turns) (length s1) (length (s1 ++ x :: s2)) (s1 ++ x :: s2) =
  remove_ranging_from p turns (S (length s1)) (length (s1 ++ s2)) (s1 ++ s2 ++ [List.last s2 x]).
Proof.
  intros Hx. simpl.
  assert ((s1 ++ x :: s2) !! length s1 = Some x) as ->.
  { rewrite lookup_app_r by lia. by rewrite Nat.sub_diag. }
  rewrite Hx, bool_decide_true by (rewrite length_app; simpl; lia).
  f_equal; [rewrite !length_app; simpl; lia|].
  rewrite take_app_length. f_equal.
  assert (drop (S (length s1)) (s1 ++ x :: s2) = s2) as ->.
  { rewrite drop_app_ge by lia. by replace (S (length s1) - length s1)%nat with 1%nat by lia. }
  rewrite take_ge by (rewrite length_app; simpl; lia). f_equal.
  rewrite length_app, drop_app_ge by (simpl; lia).
  replace (length s1 + length (x :: s2) - 1 - length s1)%nat with (length s2) by (simpl; lia).
  clear. revert x. induction s2 as [|y s2 IH]; intros x; [done|].
  change (drop (length s2) (y :: s2) = [List.last (y :: s2) x]). rewrite IH. f_equal.
  destruct s2 as [|z s2]; [done|]. clear. simpl. revert z.
  induction s2 as [|w s2 IH]; intros z; [done|]. simpl. apply IH.
Qed.

(** One element is removed: the slice is left without it. *)
Lemma remove_ranging_one p s1 x s2 :
  Forall (λ y, p y = Some false) (s1 ++ s2) → p x = Some true →
  remove_ranging p (s1 ++ x :: s2) = mret (s1 ++ s2).
Proof.
  intros [Hs1 Hs2]%Forall_app Hx. unfold remove_ranging.
  rewrite length_app at 1. rewrite remove_ranging_from_skip by done.
  change (length (x :: s2)) with (S (length s2)). rewrite remove_ranging_from_hit by done.
  rewrite remove_ranging_from_none.
  - f_equal. rewrite (assoc_L (++)). by rewrite take_app_length.
  - rewrite !length_app. simpl. lia.
  - rewrite drop_app_ge by lia. replace (S (length s1) - length s1)%nat with 1%nat by lia.
    destruct s2 as [|y s2]; [constructor|]. simpl. rewrite drop_0. apply Forall_app.
    apply Forall_cons in Hs2 as [Hy Hs2]. split; [done|]. constructor; [|done].
    change (p (List.last (y :: s2) x) = Some false). clear -Hy Hs2.
    revert y Hy. induction s2 as [|z s2 IH]; intros y Hy; [done|].
    apply Forall_cons in Hs2 as [Hz Hs2]. simpl. by apply (IH Hs2 z).
Qed.

(** Two elements to remove at the end of the slice: the second turn indexes the
    slice past its end. *)
Lemma remove_ranging_two_last p s1 x y :
  Forall (λ z, p z = Some false) s1 → p x = Some true → p y = Some true →
  remove_ranging p (s1 ++ [x; y]) = panic slice_bounds.
Proof.
  intros Hs1 Hx Hy. unfold remove_ranging.
  rewrite length_app at 1. rewrite remove_ranging_from_skip by done.
  change (length [x; y]) with 2%nat. rewrite remove_ranging_from_hit by done. simpl.
  assert ((s1 ++ [y; y]) !! S (length s1) = Some y) as ->.
  { rewrite lookup_app_r by lia. by replace (S (length s1) - length s1)%nat with 1%nat by lia. }
  rewrite Hy, bool_decide_false; [done|]. rewrite length_app. simpl. lia.
Qed.

(** Two in a row elsewhere: the second one stays. *)
Lemma remove_ranging_two_adjacent p s1 x y z :
  Forall (λ z, p z = Some false) (s1 ++ [z]) → p x = Some true → p y = Some true →
  remove_ranging p (s1 ++ [x; y; z]) = mret (s1 ++ [y; z]).
Proof.
  intros [Hs1 [Hz _]%Forall_cons]%Forall_app Hx Hy. unfold remove_ranging.
  rewrite length_app at 1. rewrite remove_ranging_from_skip by done.
  change (length [x; y; z]) with 3%nat. rewrite remove_ranging_from_hit by done.
  rewrite remove_ranging_from_none.
  - f_equal. rewrite (assoc_L (++)). by rewrite take_app_length.
  - rewrite !length_app. simpl. lia.
  - rewrite drop_app_ge by lia. replace (S (length s1) - length s1)%nat with 1%nat by lia.
    by repeat constructor.
Qed.
End Ranging.

Lemma M_ret_bind {A B} (a : A) (f : A → M B) : (mret a ≫= f) = f a.
Proof. reflexivity. Qed.

(** At most one element of a slice satisfies [P]. *)
Definition at_most_one {A} (P : A → Prop) `{∀ x, Decision (P x)} (s : list A) : Prop :=
  (length (filter P s) ≤ 1)%nat.

Lemma filter_none {A} (P : A → Prop) `{∀ x, Decision (P x)} (s : list A) :
  Forall (λ x, ¬ P x) s → filter P s = [].
Proof.
  induction s as [|x s IH]; [done|]. intros [? ?]%Forall_cons.
  rewrite filter_cons_False by done. auto.
Qed.

(** A slice without an element satisfying [P], or the parts around its first one. *)
Lemma first_split {A} (P : A → Prop) `{∀ x, Decision (P x)} (s : list A) :
  Forall (λ x, ¬ P x) s ∨
  ∃ s1 x s2, s = s1 ++ x :: s2 ∧ Forall (λ x, ¬ P x) s1 ∧ P x.
Proof.
  induction s as [|x s IH]; [by left|]. destruct (decide (P x)) as [Hx|Hx].
  - right. by exists [], x, s.
  - destruct IH as [IH|(s1 & y & s2 & -> & ? & ?)]; [left; by constructor|].
    right. exists (x :: s1), y, s2. split_and!; [done|by constructor|done].
Qed.

Lemma Forall_filter_id {A} (P : A → Prop) `{∀ x, Decision (P x)} (s : list A) :
  Forall P s → filter P s = s.
Proof.
  induction s as [|x s IH]; [done|]. intros [? ?]%Forall_cons.
  rewrite filter_cons_True by done. f_equal. auto.
Qed.

Lemma remove_ranging_at_most_one {A} (P : A → Prop) `{∀ x, Decision (P x)} (s : list A) :
  at_most_one P s → remove_ranging (λ x, Some ⟪ P x ⟫) s = mret (filter (λ x, ¬ P x) s).
Proof.
  intros Hs. assert (∀ s', Forall (λ x, ¬ P x) s' → Forall (λ x, Some ⟪ P x ⟫ = Some false) s') as Hno.
  { intros s' Hs'. eapply Forall_impl; [exact Hs'|]. intros x Hx. f_equal. by apply bool_decide_eq_false. }
  destruct (first_split P s) as [Hf|(s1 & x & s2 & -> & Hs1 & Hx)].
  - rewrite remove_ranging_none by auto. by rewrite Forall_filter_id.
  - unfold at_most_one in Hs. rewrite filter_app, (filter_none P s1), filter_cons_True in Hs by done.
    simpl in Hs. destruct (filter P s2) eqn:Hs2; [|simpl in Hs; lia].
    assert (Forall (λ x, ¬ P x) s2) as Hs2'.
    { apply Forall_forall. intros y Hy HP. assert (y ∈ filter P s2) as Hin by by apply list_elem_of_filter.
      rewrite Hs2 in Hin. set_solver. }
    rewrite remove_ranging_one.
    + rewrite filter_app, (Forall_filter_id (λ x, ¬ P x) s1), filter_cons_False, (Forall_filter_id (λ x, ¬ P x) s2); auto.
    + apply Hno. by apply Forall_app.
    + f_equal. by apply bool_decide_eq_true.
Qed.

(** ** What binding and unbinding do to a container *)

(** The variables of a container that binding keeps. *)
Definition kept_env (sb : ServiceBinding) {Other} (c : Container Other) : list EnvVar :=
  filter (λ e, refers_other_secret sb e = true) (ctr_Env c).

Lemma removeServiceBindingEnvironments_filter env sb :
  removeServiceBindingEnvironments env sb = filter (λ e, refers_other_secret sb e = true) env.
Proof.
  induction env as [|e env IH]; [done|]. simpl. destruct (refers_other_secret sb e) eqn:He.
  - rewrite filter_cons_True by done. by f_equal.
  - rewrite filter_cons_False by congruence. done.
Qed.

Lemma refers_other_secret_env sb psSecret e :
  om_Name (sec_meta psSecret) = sbs_ServiceEndpointDefinitionSecret (sb_Spec sb) →
  refers_other_secret sb (secret_env psSecret e) = false.
Proof.
  intros Hs. unfold refers_other_secret, secret_env. simpl. rewrite bool_decide_eq_false. tauto.
Qed.

Lemma filter_bound_env sb psSecret es :
  om_Name (sec_meta psSecret) = sbs_ServiceEndpointDefinitionSecret (sb_Spec sb) →
  filter (λ e, refers_other_secret sb e = true) (secret_env psSecret <$> es) = [].
Proof.
  intros Hs. apply filter_none, Forall_fmap, Forall_true. intros e. simpl.
  by rewrite refers_other_secret_env.
Qed.

Lemma set_volume_mount_idemp m ms : set_volume_mount m (set_volume_mount m ms) = set_volume_mount m ms.
Proof.
  induction ms as [|vm ms IH]; simpl; [by rewrite bool_decide_true|].
  case_bool_decide as Hvm; simpl; [by rewrite bool_decide_true|].
  rewrite bool_decide_false by done. by f_equal.
Qed.

(** The other mounts are left alone; the one given is there. *)
Lemma set_volume_mount_others m ms :
  at_most_one (λ vm, vm_Name vm = vm_Name m) ms →
  filter (λ vm, vm_Name vm ≠ vm_Name m) (set_volume_mount m ms) =
    filter (λ vm, vm_Name vm ≠ vm_Name m) ms ∧
  filter (λ vm, vm_Name vm = vm_Name m) (set_volume_mount m ms) = [m].
Proof.
  unfold at_most_one. induction ms as [|vm ms IH]; simpl.
  - intros _. rewrite filter_cons_False by auto. by rewrite filter_cons_True by done.
  - case_bool_decide as Hvm; intros Hl.
    + rewrite filter_cons_True in Hl by done. simpl in Hl.
      rewrite !filter_cons_False by auto. rewrite filter_cons_True by done.
      split; [done|]. f_equal. apply length_zero_iff_nil. lia.
    + rewrite filter_cons_False in Hl by done. destruct (IH Hl) as [Ho Hm].
      by rewrite !(filter_cons_True (λ vm, vm_Name vm ≠ vm_Name m)), Ho,
        (filter_cons_False (λ vm, vm_Name vm = vm_Name m)) by done.
Qed.

Section UpdateContainer.
  Context {Other : Type}.
  Context (sb : ServiceBinding) (mountPathDir volumeName : string) (psSecret : Secret).
  Implicit Types c : Container Other.

(** The variables before a default root is added. *)
Definition bound_env (c : Container Other) : list EnvVar :=
  kept_env sb c ++ (secret_env psSecret <$> sbs_Envs (sb_Spec sb)).

Definition binding_mount (path : string) : VolumeMount :=
  {| vm_Name := volumeName; vm_ReadOnly := true; vm_MountPath := path;
     vm_SubPath := ""; vm_MountPropagation := None; vm_SubPathExpr := "" |}.

Definition with_root (c : Container Other) : list EnvVar * string :=
  if ⟪ root_path (bound_env c) mountPathDir = "" ⟫ then
    (bound_env c ++ [root_env], path_Join ["/bindings"; mountPathDir])
  else (bound_env c, root_path (bound_env c) mountPathDir).

Lemma update_container_eq c :
  update_container sb mountPathDir volumeName psSecret c =
  {| ctr_Env := (with_root c).1;
     ctr_VolumeMounts := set_volume_mount (binding_mount (with_root c).2) (ctr_VolumeMounts c);
     ctr_Other := ctr_Other c |}.
Proof.
  unfold update_container. rewrite removeServiceBindingEnvironments_filter.
  fold (kept_env sb c). fold (bound_env c). unfold with_root. by case_bool_decide.
Qed.

Lemma kept_env_of_bound c c' :
  om_Name (sec_meta psSecret) = sbs_ServiceEndpointDefinitionSecret (sb_Spec sb) →
  ctr_Env c' = (with_root c).1 → kept_env sb c' = kept_env sb c.
Proof.
  intros Hs Hc'. unfold kept_env at 1. rewrite Hc'.
  assert (filter (λ e, refers_other_secret sb e = true) (bound_env c) = kept_env sb c) as Hb.
  { unfold bound_env. rewrite filter_app, filter_bound_env, app_nil_r by done.
    apply Forall_filter_id. apply Forall_forall. intros e. unfold kept_env.
    rewrite list_elem_of_filter. tauto. }
  unfold with_root. case_bool_decide; simpl; [|done].
  by rewrite filter_app, Hb, app_nil_r.
Qed.

(** Binding again changes nothing. *)
Lemma update_container_idemp c :
  om_Name (sec_meta psSecret) = sbs_ServiceEndpointDefinitionSecret (sb_Spec sb) →
  let c' := update_container sb mountPathDir volumeName psSecret c in
  update_container sb mountPathDir volumeName psSecret c' = c'.
Proof.
  intros Hs c'. assert (Hb : bound_env c' = bound_env c).
  { unfold bound_env. f_equal. apply kept_env_of_bound; [done|].
    unfold c'. by rewrite update_container_eq. }
  assert (Hw : with_root c' = with_root c) by (unfold with_root; by rewrite Hb).
  rewrite (update_container_eq c'), Hw. unfold c'. rewrite update_container_eq. simpl.
  by rewrite set_volume_mount_idemp.
Qed.

(** No variable of the binding or kept is a root: the default is added. *)
Lemma root_path_none env :
  Forall (λ e, ev_Name e ≠ ServiceBindingRoot) env → root_path env mountPathDir = "".
Proof.
  intros Hf. unfold root_path. destruct (find_first _ env) as [e|] eqn:He; [|done].
  apply find_first_elem in He as [He Hn]. apply bool_decide_eq_true in Hn.
  rewrite Forall_forall in Hf. by destruct (Hf e He).
Qed.

(** What unbinding leaves of a bound container. *)
Definition unbound (c : Container Other) : Container Other :=
  {| ctr_Env := kept_env sb c;
     ctr_VolumeMounts := filter (λ vm, vm_Name vm ≠ volumeName) (ctr_VolumeMounts c);
     ctr_Other := ctr_Other c |}.

Lemma remove_update_container c :
  om_Name (sec_meta psSecret) = sbs_ServiceEndpointDefinitionSecret (sb_Spec sb) →
  at_most_one (λ vm, vm_Name vm = volumeName) (ctr_VolumeMounts c) →
  Forall (λ e, ev_Name e ≠ ServiceBindingRoot) (bound_env c) →
  remove_from_container sb volumeName (update_container sb mountPathDir volumeName psSecret c)
  = mret (unbound c).
Proof.
  intros Hs Hvm Hroot. rewrite update_container_eq. unfold remove_from_container. simpl.
  unfold with_root. rewrite root_path_none, bool_decide_true by done. simpl.
  edestruct (set_volume_mount_others (binding_mount (path_Join ["/bindings"; mountPathDir])))
    as [Ho Hm]; [exact Hvm|]. simpl in Ho, Hm.
  rewrite (remove_ranging_at_most_one (λ vm, vm_Name vm = volumeName))
    by (unfold at_most_one; rewrite Hm; simpl; lia).
  rewrite Ho, M_ret_bind, (remove_ranging_at_most_one (λ e, ev_Name e = ServiceBindingRoot)).
  - rewrite !M_ret_bind. f_equal. unfold unbound. f_equal.
    rewrite removeServiceBindingEnvironments_filter.
    rewrite filter_app, (Forall_filter_id (λ e, ev_Name e ≠ ServiceBindingRoot)) by done.
    rewrite (filter_cons_False (λ e, ev_Name e ≠ ServiceBindingRoot)) by (intros Hn; by apply Hn).
    rewrite filter_nil, app_nil_r.
    unfold bound_env. rewrite filter_app, filter_bound_env, app_nil_r by done.
    apply Forall_filter_id, Forall_forall. intros e. unfold kept_env. rewrite list_elem_of_filter. tauto.
  - unfold at_most_one. rewrite filter_app, filter_none by done. simpl. lia.
Qed.
End UpdateContainer.

(** ** Lists of containers and whole objects *)

(** What the conversion back and forth preserves: a container is converted to an
    object that is converted to the same container. *)
Class ContainerLaws `{ContainerLib} : Prop :=
  container_round_trip c :
    ∃ fs, ToUnstructured_Container c = Ok (JObj fs) ∧
          FromUnstructured_Container (JObj fs) = Ok c.

Section WorkloadProperties.
  Context `{ContainerLib}.

(** [j'] is [j] with its container changed by [g]. *)
Definition converted (g : Container ContainerOther → Container ContainerOther) (j j' : json) : Prop :=
  ∃ c, FromUnstructured_Container j = Ok c ∧ ToUnstructured_Container (g c) = Ok j'.

Lemma wp_convert_containers f (R : json → json → Prop) cs :
  (∀ j c, FromUnstructured_Container j = Ok c →
     kwp (f c) (λ t out, t = [] ∧ ∀ c' j', out = Done c' → ToUnstructured_Container c' = Ok j' → R j j')) →
  kwp (convert_containers f cs)
    (λ t out, t = [] ∧ ∀ cs', out = Done (Ok cs') → Forall2 R cs cs').
Proof.
  intros Hf. induction cs as [|j cs IH]; simpl.
  { wflow. split; [done|]. intros cs' [= <-]. constructor. }
  destruct j as [| | | | |u]; try (by wflow).
  destruct (FromUnstructured_Container (JObj u)) as [c|e] eqn:Hc; [|by wflow].
  eapply (wp_bind_spec legal); [by apply (Hf (JObj u))| |by intros t h [-> _]].
  intros t c' [-> Hc']. destruct (ToUnstructured_Container c') as [nu|e] eqn:Hnu; [|by wflow].
  eapply (wp_bind_spec legal); [exact IH| |by intros t h [-> _]].
  intros t r [-> Hr]. destruct r as [nus|e]; wflow; (split; [done|]); [|done].
  intros cs' [= <-]. constructor; eauto.
Qed.

Lemma wp_updateContainerInfo cs sb mountPathDir volumeName psSecret :
  kwp (updateContainerInfo cs sb mountPathDir volumeName psSecret)
    (λ t out, t = [] ∧ ∀ cs', out = Done (Ok cs') →
       Forall2 (converted (update_container sb mountPathDir volumeName psSecret)) cs cs').
Proof.
  apply wp_convert_containers. intros j c Hc. wflow. split; [done|].
  intros c' j' [= <-] Hj'. by exists c.
Qed.

(** Paths that part from one another. *)
Fixpoint parting (paths : list (list string)) : Prop :=
  match paths with
  | [] => True
  | p :: ps => p ≠ [] ∧ Forall (λ q, parts_from p q ∧ parts_from q p) ps ∧ parting ps
  end.

Definition at_each (R : list json → list json → Prop) (o o' : json) (path : list string) : Prop :=
  ∃ l b l', NestedSlice o path = Ok (l, b) ∧ NestedSlice o' path = Ok (l', true) ∧ R l l'.

Lemma wp_at_paths f (R : list json → list json → Prop) paths o :
  (∀ l, kwp (f l) (λ t out, t = [] ∧ ∀ l', out = Done (Ok l') → R l l')) →
  parting paths →
  kwp (at_paths f paths o) (λ t out, t = [] ∧ ∀ o', out = Done (Ok o') →
    Forall (at_each R o o') paths ∧
    ∀ q, Forall (λ p, parts_from p q) paths → NestedField o' q = NestedField o q).
Proof.
  intros Hf. revert o. induction paths as [|p paths IH]; intros o Hp; simpl.
  { wflow. split; [done|]. by intros o' [= <-]. }
  destruct Hp as (Hne & Hps & Hp).
  destruct (NestedSlice o p) as [[l b]|e] eqn:Hl; [|by wflow].
  eapply (wp_bind_spec legal); [apply Hf| |by intros t h [-> _]].
  intros t r [-> Hr]. destruct r as [l'|e]; [|by wflow].
  destruct (SetNestedSlice o l' p) as [o1|e] eqn:Ho1; [|by wflow].
  eapply wp_mono; [by apply (IH o1)|]. intros t out [-> Hout]. split; [done|].
  intros o' Ho'. destruct (Hout o' Ho') as [Hpaths Hother]. split.
  - constructor.
    + exists l, b, l'. split_and!; [done| |by apply Hr]. unfold NestedSlice. rewrite Hother.
      * by apply SetNestedSlice_get in Ho1.
      * eapply Forall_impl; [exact Hps|]. by intros q [_ ?].
    + rewrite Forall_forall in Hps, Hpaths |- *. intros q Hq.
      destruct (Hpaths q Hq) as (m & b' & m' & Hm & Hm' & HR). exists m, b', m'. split_and!; [|done..].
      rewrite <- Hm. symmetry. eapply SetNestedSlice_other; [|exact Ho1]. by apply Hps.
  - intros q [Hpq Hq]%Forall_cons. rewrite Hother by done.
    by eapply SetNestedSlice_field.
Qed.

Lemma parts_from_head f g p q : f ≠ g → parts_from (f :: p) (g :: q).
Proof. intros Hfg. by exists [], f, p, g, q. Qed.
Lemma parts_from_cons f p q : parts_from p q → parts_from (f :: p) (f :: q).
Proof. intros (pre & a & p' & b & q' & -> & -> & ?). by exists (f :: pre), a, p', b, q'. Qed.

Ltac parted := repeat first [apply parts_from_head; discriminate | apply parts_from_cons].

Lemma containersPaths_parting : parting containersPaths.
Proof. repeat constructor; try discriminate; parted. Qed.

Lemma wp_set_or_append {A} (p : A → option bool) y s :
  kwp (set_or_append p y s) (λ t out, t = [] ∧ ∀ s', out = Done s' → y ∈ s').
Proof.
  induction s as [|x s IH]; simpl; [wflow; split; [done|]; intros s' [= <-]; set_solver|].
  destruct (p x) as [[]|]; [wflow; split; [done|]; intros s' [= <-]; set_solver| |by wflow].
  eapply (wp_bind_spec legal); [exact IH| |by intros t h [-> _]].
  intros t s' [-> Hs']. wflow. split; [done|]. intros s'' [= <-]. apply elem_of_cons. eauto.
Qed.

(** [o'] is the workload [o] bound: the volume of the binding is there, every
    container is updated, and it is the same object. *)
Definition injected (sb : ServiceBinding) (psSecret : Secret) (mountPathDir volumeName : string)
    (vol o o' : json) : Prop :=
  (∃ vs, NestedSlice o' volumesPath = Ok (vs, true) ∧ vol ∈ vs) ∧
  Forall (at_each (Forall2 (converted (update_container sb mountPathDir volumeName psSecret))) o o')
    containersPaths ∧
  GetName o' = GetName o ∧ GetNamespace o' = GetNamespace o.

(** Either nothing is written and there is an error or a panic, or the one call is
    the update of the bound workload, and its error is returned. *)
Definition one_update (P : json → Prop) (t : list kevent) (out : outcome (option gerr)) : Prop :=
  (t = [] ∧ out ≠ Done None) ∨
  (∃ o' r, t = [KEv (CUpdateUnstructured Manager o') r] ∧ out = Done (result_err r) ∧ P o').

(** The volumes and the containers of a workload are rewritten. *)
Lemma rewritten o vs o1 o2 (R : list json → list json → Prop) :
  SetNestedSlice o vs volumesPath = Ok o1 →
  Forall (at_each R o1 o2) containersPaths →
  (∀ q, Forall (λ p, parts_from p q) containersPaths → NestedField o2 q = NestedField o1 q) →
  NestedSlice o2 volumesPath = Ok (vs, true) ∧ Forall (at_each R o o2) containersPaths ∧
  GetName o2 = GetName o ∧ GetNamespace o2 = GetNamespace o.
Proof.
  intros Ho1 Hpaths Hother. split_and!.
  - unfold NestedSlice. rewrite Hother by (repeat constructor; parted).
    by apply SetNestedSlice_get in Ho1.
  - rewrite Forall_forall in Hpaths |- *. intros p Hp.
    destruct (Hpaths p Hp) as (l & b' & l' & Hl & Hl' & HR). exists l, b', l'.
    split_and!; [|done..]. rewrite <- Hl. symmetry. eapply SetNestedSlice_other; [|exact Ho1].
    unfold containersPaths in Hp. set_unfold in Hp. destruct_or?; subst; try done; parted.
  - apply GetName_field. rewrite Hother by (repeat constructor; parted).
    eapply SetNestedSlice_field; [|exact Ho1]. parted.
  - apply GetNamespace_field. rewrite Hother by (repeat constructor; parted).
    eapply SetNestedSlice_field; [|exact Ho1]. parted.
Qed.

Lemma wp_prepareContainerWithMounts sb psSecret mountPathDir volumeName vol o :
  kwp (prepareContainerWithMounts sb psSecret mountPathDir volumeName vol o)
    (one_update (injected sb psSecret mountPathDir volumeName vol o)).
Proof.
  unfold prepareContainerWithMounts.
  destruct (NestedSlice o volumesPath) as [[vs b]|e]; [|by wflow; left].
  eapply (wp_bind_spec legal); [apply wp_set_or_append| |by intros t h [-> _]; left].
  intros t vs' [-> Hvs]. specialize (Hvs vs' eq_refl).
  destruct (SetNestedSlice o vs' volumesPath) as [o1|e] eqn:Ho1; [|by wflow; left].
  eapply (wp_bind_spec legal); [apply wp_at_paths; [|apply containersPaths_parting]| |].
  - intros l. apply wp_updateContainerInfo.
  - intros t r [-> Hr]. destruct r as [o2|e]; [|by wflow; left].
    destruct (Hr o2 eq_refl) as [Hpaths Hother].
    destruct (rewritten _ _ _ _ _ Ho1 Hpaths Hother) as (Hv & Hc & Hn & Hns).
    wcall r Hr'. wflow; right; eexists o2, _; (split; [done|]); (split; [done|]);
      (split_and!; try done); by exists vs'.
  - intros t h [-> _]. by left.
Qed.
(** Unbinding. *)
Lemma wp_remove_ranging_from {A} (p : A → option bool) turns i len arr :
  kwp (remove_ranging_from p turns i len arr) (λ t _, t = []).
Proof.
  revert i len arr. induction turns as [|turns IH]; intros i len arr; simpl; [by wflow|].
  destruct (arr !! i) as [x|]; [|by wflow]. destruct (p x) as [[]|]; [|apply IH|by wflow].
  case_bool_decide; [apply IH|by wflow].
Qed.

Lemma wp_remove_from_container {Other} sb volumeName (c : Container Other) :
  kwp (remove_from_container sb volumeName c) (λ t _, t = []).
Proof.
  unfold remove_from_container.
  eapply (wp_bind_spec legal); [apply wp_remove_ranging_from| |done]. intros t ms ->.
  eapply (wp_bind_spec legal); [apply wp_remove_ranging_from| |done]. intros t env ->. by wflow.
Qed.

(** [j'] is [j] with its container rid of the binding. *)
Definition removed_from (sb : ServiceBinding) (volumeName : string) (j j' : json) : Prop :=
  ∃ c c', FromUnstructured_Container j = Ok c ∧ remove_from_container sb volumeName c = mret c' ∧
          ToUnstructured_Container c' = Ok j'.

(** [o'] is the workload [o] unbound: the volume of the binding is removed, so are the
    mounts and the variables of its containers, and it is the same object. *)
Definition ejected (sb : ServiceBinding) (volumeName : string) (o o' : json) : Prop :=
  (∃ vs vs', NestedSlice o volumesPath = Ok (vs, true) ∧
     remove_ranging (λ v, (λ n, ⟪ n = volumeName ⟫) <$> volume_name v) vs = mret vs' ∧
     NestedSlice o' volumesPath = Ok (vs', true)) ∧
  Forall (at_each (Forall2 (removed_from sb volumeName)) o o') containersPaths ∧
  GetName o' = GetName o ∧ GetNamespace o' = GetNamespace o.

Lemma wp_removeBinding sb cs volumeName mountPathDir secretName :
  kwp (removeBindingInformationFromContainer sb cs volumeName mountPathDir secretName)
    (λ t out, t = [] ∧ ∀ cs', out = Done (Ok cs') → Forall2 (removed_from sb volumeName) cs cs').
Proof.
  apply wp_convert_containers. intros j c Hc.
  eapply wp_mono; [apply wp_silent, wp_remove_from_container|].
  intros t out [-> Hp]. split; [done|]. intros c' j' Hout Hj'. exists c, c'.
  split_and!; [done|by apply Hp|done].
Qed.

Lemma wp_removeVolumeMountAndEnvironment sb o name secretName :
  kwp (removeVolumeMountAndEnvironment sb o name name secretName) (λ t out,
    (t = [] ∧ NestedSlice o volumesPath = Ok ([], false)) ∨ one_update (ejected sb name o) t out).
Proof.
  unfold removeVolumeMountAndEnvironment.
  destruct (NestedSlice o volumesPath) as [[vs b]|e] eqn:Hvs; [|by wflow; right; left].
  destruct b; cbn [negb].
  2: { wflow. left. split; [done|]. unfold NestedSlice in Hvs.
       destruct (NestedField o volumesPath) as [[[]|]|]; by simplify_eq. }
  eapply (wp_bind_spec legal); [apply wp_silent, wp_remove_ranging_from| |by intros t h [-> _]; right; left].
  intros t vs' [-> Hvs']. specialize (Hvs' vs' eq_refl).
  destruct (SetNestedSlice o vs' volumesPath) as [o1|e] eqn:Ho1; [|by wflow; right; left].
  eapply (wp_bind_spec legal); [apply wp_at_paths; [|apply containersPaths_parting]| |].
  - intros l. apply wp_removeBinding.
  - intros t r [-> Hr]. destruct r as [o2|e]; [|by wflow; right; left].
    destruct (Hr o2 eq_refl) as [Hpaths Hother].
    destruct (rewritten _ _ _ _ _ Ho1 Hpaths Hother) as (Hv & Hc & Hn & Hns).
    wcall r Hr'. wflow; right; right; eexists o2, _; (split; [done|]); (split; [done|]);
      (split_and!; try done); by exists vs, vs'.
  - intros t h [-> _]. by right; left.
Qed.
End WorkloadProperties.

(** ** Properties *)

Lemma find_first_app {A} (p : A → bool) l1 l2 :
  find_first p (l1 ++ l2) = match find_first p l1 with Some x => Some x | None => find_first p l2 end.
Proof. induction l1 as [|x l1 IH]; simpl; [done|]. by destruct (p x). Qed.

(** C27: a bound container has the variables it had that read other secrets, those of
    the binding and, unless one of these is [SERVICE_BINDING_ROOT], that variable with
    the value [/bindings]; nothing else of its environment is left, in particular no
    variable with a literal value, [SERVICE_BINDING_ROOT] included.  It has one
    mount of the binding's volume, read-only, under the directory that the first
    [SERVICE_BINDING_ROOT] of its environment holds; its other mounts and its other
    fields are as they were. *)
Theorem update_container_spec {Other} sb mountPathDir volumeName psSecret (c : Container Other) :
  mountPathDir ≠ "" →
  at_most_one (λ vm, vm_Name vm = volumeName) (ctr_VolumeMounts c) →
  let c' := update_container sb mountPathDir volumeName psSecret c in
  let bound := kept_env sb c ++ (secret_env psSecret <$> sbs_Envs (sb_Spec sb)) in
  ctr_Env c' = bound ++ (if ⟪ Forall (λ e, ev_Name e ≠ ServiceBindingRoot) bound ⟫
                         then [root_env] else []) ∧
  (∃ root, find_first (λ e, ⟪ ev_Name e = ServiceBindingRoot ⟫) (ctr_Env c') = Some root ∧
     filter (λ vm, vm_Name vm = volumeName) (ctr_VolumeMounts c') =
       [binding_mount volumeName (path_Join [ev_Value root; mountPathDir])]) ∧
  filter (λ vm, vm_Name vm ≠ volumeName) (ctr_VolumeMounts c') =
    filter (λ vm, vm_Name vm ≠ volumeName) (ctr_VolumeMounts c) ∧
  ctr_Other c' = ctr_Other c.
Proof.
  intros Hdir Hvm c' bound. unfold c'. rewrite update_container_eq. cbn [ctr_Env ctr_VolumeMounts ctr_Other].
  destruct (set_volume_mount_others (binding_mount volumeName
    (with_root sb mountPathDir psSecret c).2) (ctr_VolumeMounts c) Hvm) as [Ho Hm].
  cbn [binding_mount vm_Name] in Ho, Hm. rewrite Ho, Hm.
  unfold with_root. fold (bound_env sb psSecret c) in bound. fold bound.
  destruct (decide (Forall (λ e, ev_Name e ≠ ServiceBindingRoot) bound)) as [Hb|Hb].
  - rewrite (bool_decide_true _ Hb), root_path_none, bool_decide_true by done.
    split_and!; try done. exists root_env. split; [|done]. cbn [fst].
    rewrite find_first_app. destruct (find_first _ bound) as [e|] eqn:He; [|done].
    apply find_first_elem in He as [He Hn]. apply bool_decide_eq_true in Hn.
    rewrite Forall_forall in Hb. by destruct (Hb e He).
  - rewrite (bool_decide_false (Forall _ _)) by done. rewrite app_nil_r.
    assert (∃ e, find_first (λ e, ⟪ ev_Name e = ServiceBindingRoot ⟫) bound = Some e) as [e He].
    { destruct (find_first _ bound) as [e|] eqn:He; [by eexists|]. exfalso. apply Hb.
      apply find_first_None in He. eapply Forall_impl; [exact He|]. intros e He'.
      by apply bool_decide_eq_false in He'. }
    unfold root_path. rewrite He, bool_decide_false by by apply (path_Join_nonempty [_]).
    split_and!; try done. by exists e.
Qed.

(** C32: binding a workload again changes nothing: the containers that were updated
    for a binding and its secret are updated to themselves. *)
Theorem updateContainerInfo_idempotent `{ContainerLaws} cs cs' sb mountPathDir volumeName psSecret :
  om_Name (sec_meta psSecret) = sbs_ServiceEndpointDefinitionSecret (sb_Spec sb) →
  updateContainerInfo cs sb mountPathDir volumeName psSecret = mret (Ok cs') →
  updateContainerInfo cs' sb mountPathDir volumeName psSecret = mret (Ok cs').
Proof.
  intros Hs Hcs.
  destruct (wp_updateContainerInfo cs sb mountPathDir volumeName psSecret [] (Done (Ok cs')))
    as [_ Hcs']; [by rewrite Hcs|].
  specialize (Hcs' cs' eq_refl). clear Hcs. unfold updateContainerInfo.
  induction Hcs' as [|j j' cs cs' (c & Hc & Hj') _ IH]; [done|]. cbn [convert_containers].
  set (u := update_container sb mountPathDir volumeName psSecret) in *.
  destruct (container_round_trip (u c)) as (fs & Hto & Hfrom).
  assert (j' = JObj fs) as -> by congruence. rewrite Hfrom, M_ret_bind.
  rewrite (update_container_idemp sb mountPathDir volumeName psSecret c Hs : u (u c) = u c), Hto, IH.
  done.
Qed.

(** C19: unbinding a workload that was bound gives the containers back, without the
    variables that do not read another secret: each ends with the environment it had
    restricted to those, its mounts of other volumes and its other fields, when it
    mounts the binding's volume once at most and none of the variables that are kept
    or bound is [SERVICE_BINDING_ROOT]. *)
Theorem unbind_after_bind `{ContainerLaws} cs cs' sb mountPathDir volumeName psSecret secretName :
  om_Name (sec_meta psSecret) = sbs_ServiceEndpointDefinitionSecret (sb_Spec sb) →
  Forall (λ j, ∀ c, FromUnstructured_Container j = Ok c →
    at_most_one (λ vm, vm_Name vm = volumeName) (ctr_VolumeMounts c) ∧
    Forall (λ e, ev_Name e ≠ ServiceBindingRoot) (bound_env sb psSecret c)) cs →
  updateContainerInfo cs sb mountPathDir volumeName psSecret = mret (Ok cs') →
  ∃ cs'', removeBindingInformationFromContainer sb cs' volumeName mountPathDir secretName
            = mret (Ok cs'') ∧
    Forall2 (converted (unbound sb volumeName)) cs cs''.
Proof.
  intros Hs Hcond Hcs.
  destruct (wp_updateContainerInfo cs sb mountPathDir volumeName psSecret [] (Done (Ok cs')))
    as [_ Hcs']; [by rewrite Hcs|].
  specialize (Hcs' cs' eq_refl). clear Hcs. unfold removeBindingInformationFromContainer.
  induction Hcs' as [|j j' cs cs' (c & Hc & Hj') _ IH]; [by exists []|].
  apply Forall_cons in Hcond as [Hj Hcond]. destruct (IH Hcond) as (cs'' & Hcs'' & Hf).
  destruct (Hj c Hc) as [Hvm Hroot].
  set (u := update_container sb mountPathDir volumeName psSecret) in *.
  destruct (container_round_trip (u c)) as (fs & Hto & Hfrom).
  assert (j' = JObj fs) as -> by congruence.
  destruct (container_round_trip (unbound sb volumeName c)) as (fs' & Hto' & _).
  exists (JObj fs' :: cs''). split; [|constructor; [by exists c|done]].
  cbn [convert_containers]. rewrite Hfrom.
  rewrite (remove_update_container sb mountPathDir volumeName psSecret c Hs Hvm Hroot
            : remove_from_container sb volumeName (u c) = _).
  rewrite M_ret_bind, Hto', Hcs''. done.
Qed.

(** The loops that remove the volume, the mounts and [SERVICE_BINDING_ROOT] while
    they range over the slice are right when at most one element is to be removed:
    with two at the end of the slice they panic, and with two in a row elsewhere the
    second one stays. *)
Theorem remove_ranging_spec {A} (P : A → Prop) `{∀ x, Decision (P x)} (s : list A) :
  (at_most_one P s → remove_ranging (λ x, Some ⟪ P x ⟫) s = mret (filter (λ x, ¬ P x) s)) ∧
  (∀ s1 x y, s = s1 ++ [x; y] → Forall (λ z, ¬ P z) s1 → P x → P y →
     remove_ranging (λ x, Some ⟪ P x ⟫) s = panic slice_bounds) ∧
  (∀ s1 x y z, s = s1 ++ [x; y; z] → Forall (λ z, ¬ P z) (s1 ++ [z]) → P x → P y →
     remove_ranging (λ x, Some ⟪ P x ⟫) s = mret (s1 ++ [y; z])).
Proof.
  assert (∀ x, P x → Some ⟪ P x ⟫ = Some true) as Hyes.
  { intros x Hx. f_equal. by apply bool_decide_eq_true. }
  assert (∀ s', Forall (λ x, ¬ P x) s' → Forall (λ x, Some ⟪ P x ⟫ = Some false) s') as Hno.
  { intros s' Hs'. eapply Forall_impl; [exact Hs'|]. intros x Hx. f_equal. by apply bool_decide_eq_false. }
  split_and!.
  - apply remove_ranging_at_most_one.
  - intros s1 x y -> Hs1 Hx Hy. apply remove_ranging_two_last; auto.
  - intros s1 x y z -> Hs1 Hx Hy. apply remove_ranging_two_adjacent; auto.
Qed.

(** ** A converter, and a container *)

Module Example.
(** The name and the image of a container are what it has beside its environment and
    its mounts. *)
Record NameImage := { ni_name : string; ni_image : string }.

Definition opt_field {A} (k : string) (f : A → json) (o : option A) : list (string * json) :=
  match o with Some a => [(k, f a)] | None => [] end.
Definition get_str (fs : list (string * json)) (k : string) : string :=
  match obj_get fs k with Some (JStr s) => s | _ => "" end.
Definition get_bool (fs : list (string * json)) (k : string) : option bool :=
  match obj_get fs k with Some (JBool b) => Some b | _ => None end.
Definition fields (j : json) : list (string * json) :=
  match j with JObj fs => fs | _ => [] end.
Definition get_list (fs : list (string * json)) (k : string) : list json :=
  match obj_get fs k with Some (JArr l) => l | _ => [] end.

Definition key_ref_json (s : SecretKeySelector) : json :=
  JObj ([("name", JStr (sks_Name s)); ("key", JStr (sks_Key s))]
        ++ opt_field "optional" JBool (sks_Optional s)).
Definition key_ref_of (j : json) : SecretKeySelector :=
  {| sks_Name := get_str (fields j) "name"; sks_Key := get_str (fields j) "key";
     sks_Optional := get_bool (fields j) "optional" |}.

Definition source_json (s : EnvVarSource) : json :=
  JObj (opt_field "fieldRef" id (evs_FieldRef s)
        ++ opt_field "resourceFieldRef" id (evs_ResourceFieldRef s)
        ++ opt_field "configMapKeyRef" id (evs_ConfigMapKeyRef s)
        ++ opt_field "secretKeyRef" key_ref_json (evs_SecretKeyRef s)).
Definition source_of (j : json) : EnvVarSource :=
  {| evs_FieldRef := obj_get (fields j) "fieldRef";
     evs_ResourceFieldRef := obj_get (fields j) "resourceFieldRef";
     evs_ConfigMapKeyRef := obj_get (fields j) "configMapKeyRef";
     evs_SecretKeyRef := key_ref_of <$> obj_get (fields j) "secretKeyRef" |}.

Definition env_json (e : EnvVar) : json :=
  JObj ([("name", JStr (ev_Name e)); ("value", JStr (ev_Value e))]
        ++ opt_field "valueFrom" source_json (ev_ValueFrom e)).
Definition env_of (j : json) : EnvVar :=
  {| ev_Name := get_str (fields j) "name"; ev_Value := get_str (fields j) "value";
     ev_ValueFrom := source_of <$> obj_get (fields j) "valueFrom" |}.

Definition mount_json (m : VolumeMount) : json :=
  JObj ([("name", JStr (vm_Name m)); ("readOnly", JBool (vm_ReadOnly m));
         ("mountPath", JStr (vm_MountPath m)); ("subPath", JStr (vm_SubPath m));
         ("subPathExpr", JStr (vm_SubPathExpr m))]
        ++ opt_field "mountPropagation" JStr (vm_MountPropagation m)).
Definition mount_of (j : json) : VolumeMount :=
  {| vm_Name := get_str (fields j) "name"; vm_ReadOnly := default false (get_bool (fields j) "readOnly");
     vm_MountPath := get_str (fields j) "mountPath"; vm_SubPath := get_str (fields j) "subPath";
     vm_MountPropagation :=
       match obj_get (fields j) "mountPropagation" with Some (JStr s) => Some s | _ => None end;
     vm_SubPathExpr := get_str (fields j) "subPathExpr" |}.

Definition container_json (c : Container NameImage) : json :=
  JObj [("name", JStr (ni_name (ctr_Other c))); ("image", JStr (ni_image (ctr_Other c)));
        ("env", JArr (env_json <$> ctr_Env c)); ("volumeMounts", JArr (mount_json <$> ctr_VolumeMounts c))].
Definition container_of (j : json) : Container NameImage :=
  {| ctr_Env := env_of <$> get_list (fields j) "env";
     ctr_VolumeMounts := mount_of <$> get_list (fields j) "volumeMounts";
     ctr_Other := {| ni_name := get_str (fields j) "name"; ni_image := get_str (fields j) "image" |} |}.

#[export] Instance example_lib : ContainerLib := {|
  ContainerOther := NameImage;
  FromUnstructured_Container := λ j, Ok (container_of j);
  ToUnstructured_Container := λ c, Ok (container_json c) |}.

Lemma env_of_json e : env_of (env_json e) = e.
Proof.
  destruct e as [n v [[[?|] [?|] [?|] [[sn sk [?|]]|]]|]]; reflexivity.
Qed.
Lemma mount_of_json m : mount_of (mount_json m) = m.
Proof. by destruct m as [? ? ? ? [?|] ?]. Qed.

Lemma list_of_list {A B} (f : A → B) (g : B → A) (l : list A) : (∀ x, g (f x) = x) → g <$> (f <$> l) = l.
Proof. intros Hg. induction l as [|x l IH]; [done|]. by rewrite !fmap_cons, Hg, IH. Qed.

#[export] Instance example_laws : ContainerLaws.
Proof.
  intros c. exists (fields (container_json c)). split; [reflexivity|].
  change (@Ok (Container NameImage) (container_of (container_json c)) = Ok c). f_equal.
  destruct c as [env ms [n i]]. unfold container_of.
  change (get_list _ "env") with (env_json <$> env).
  change (get_list _ "volumeMounts") with (mount_json <$> ms).
  by rewrite (list_of_list _ _ _ env_of_json), (list_of_list _ _ _ mount_of_json).
Qed.

Definition example_secret : Secret :=
  {| sec_meta := named "db" "apps"; sec_Data := ∅; sec_StringData := ∅ |}.
Definition example_binding : ServiceBinding :=
  {| sb_meta := named "binding" "apps";
     sb_Spec := {| sbs_ServiceEndpointDefinitionSecret := "db";
       sbs_Application := {| as_APIVersion := "apps/v1"; as_Kind := "Deployment"; as_Name := "web";
                             as_Selector := None |};
       sbs_Envs := [{| env_Name := "DB_HOST"; env_Key := "host" |}] |};
     sb_Status := {| sbst_Conditions := []; sbst_State := ""; sbst_Connections := [] |} |}.

(** A container with a literal variable, one of another secret and one mount. *)
Definition example_container : Container NameImage :=
  {| ctr_Env := [{| ev_Name := ServiceBindingRoot; ev_Value := "/mine"; ev_ValueFrom := None |};
                 {| ev_Name := "TOKEN"; ev_Value := "";
                    ev_ValueFrom := Some {| evs_FieldRef := None; evs_ResourceFieldRef := None;
                      evs_ConfigMapKeyRef := None;
                      evs_SecretKeyRef := Some {| sks_Name := "token"; sks_Key := "t"; sks_Optional := None |} |} |}];
     ctr_VolumeMounts := [{| vm_Name := "data"; vm_ReadOnly := false; vm_MountPath := "/data"; vm_SubPath := "";
                             vm_MountPropagation := None; vm_SubPathExpr := "" |}];
     ctr_Other := {| ni_name := "web"; ni_image := "web:1" |} |}.

Definition example_bound : Container NameImage :=
  update_container example_binding "binding" "binding" example_secret example_container.

Lemma update_container_spec_witness :
  "binding" ≠ "" ∧ at_most_one (λ vm, vm_Name vm = "binding") (ctr_VolumeMounts example_container) ∧
  ctr_Other example_bound = ctr_Other example_container.
Proof.
  assert (H : at_most_one (λ vm, vm_Name vm = "binding") (ctr_VolumeMounts example_container)).
  { unfold at_most_one. vm_compute. lia. }
  split; [discriminate|]. split; [exact H|].
  exact (proj2 (proj2 (proj2 (update_container_spec example_binding "binding" "binding" example_secret
    example_container ltac:(discriminate) H)))).
Defined.

(** The root that the container set is gone: the mount is under the default one. *)
Lemma literal_root_is_ignored :
  vm_MountPath <$> ctr_VolumeMounts example_bound = ["/data"; "/bindings/binding"] ∧
  ev_Name <$> ctr_Env example_bound = ["TOKEN"; "DB_HOST"; ServiceBindingRoot].
Proof. split; vm_compute; reflexivity. Qed.

(** Unbinding does not give the literal variable back. *)
Lemma literal_env_is_lost :
  remove_from_container example_binding "binding" example_bound =
  mret (unbound example_binding "binding" example_container) ∧
  ev_Name <$> ctr_Env (unbound example_binding "binding" example_container) = ["TOKEN"].
Proof. split; vm_compute; reflexivity. Qed.

Lemma updateContainerInfo_idempotent_witness :
  updateContainerInfo [container_json example_bound] example_binding "binding" "binding" example_secret
  = mret (Ok [container_json example_bound]).
Proof.
  apply (updateContainerInfo_idempotent [container_json example_container]); vm_compute; reflexivity.
Defined.

Lemma unbind_after_bind_witness :
  ∃ cs, removeBindingInformationFromContainer example_binding [container_json example_bound]
          "binding" "binding" "db" = mret (Ok cs) ∧
    Forall2 (converted (unbound example_binding "binding")) [container_json example_container] cs.
Proof.
  apply (unbind_after_bind _ _ _ _ _ example_secret).
  - reflexivity.
  - constructor; [|constructor]. intros c Hc.
    assert (c = example_container) as -> by (injection Hc as <-; vm_compute; reflexivity).
    split; [unfold at_most_one; vm_compute; lia|].
    repeat constructor; discriminate.
  - vm_compute. reflexivity.
Defined.

Lemma remove_ranging_spec_witness :
  remove_ranging (λ x, Some ⟪ x = 1%nat ⟫) [0; 1; 2]%nat = mret [0; 2]%nat ∧
  remove_ranging (λ x, Some ⟪ x = 1%nat ⟫) [0; 1; 1]%nat = panic slice_bounds ∧
  remove_ranging (λ x, Some ⟪ x = 1%nat ⟫) [1; 1; 0]%nat = mret [1; 0]%nat.
Proof.
  split; [|split].
  - refine (proj1 (remove_ranging_spec (λ x, x = 1%nat) [0; 1; 2]%nat) _).
    unfold at_most_one. vm_compute. lia.
  - refine (proj1 (proj2 (remove_ranging_spec (λ x, x = 1%nat) [0; 1; 1]%nat)) [0%nat] 1%nat 1%nat eq_refl _ eq_refl eq_refl).
    repeat constructor; discriminate.
  - refine (proj2 (proj2 (remove_ranging_spec (λ x, x = 1%nat) [1; 1; 0]%nat)) [] 1%nat 1%nat 0%nat eq_refl _ eq_refl eq_refl).
    repeat constructor; discriminate.
Defined.
End Example.
