(* ===== verification/ServiceBindingCtrl.v ===== *)
(** * The service binding controller of the application agent

    controllers/agents/app/servicebinding_controller.go and
    servicebinding_controller_informers.go: a service binding of an application
    namespace is injected into the workloads it names or selects ([Workload.v]), its
    status tells what was bound, its secret is owned by it, and an informer per
    binding binds the workloads that appear later.  The reconciler's map of informers
    is the set of its keys, passed and returned; the [*ServiceBinding] whose status is
    set is passed and returned too. *)

From S2P Require Import Prelude Prog GoErr GoStr Json Types Kube WorkerCluster Informers Workload.

#[local] Open Scope string_scope.
#[local] Open Scope list_scope.
#[local] Open Scope primaza_scope.

Definition conditionGetAppsFailureReason : string := "NoMatchingWorkloads".
Definition conditionGetSecretFailureReason : string := "ErrorFetchSecret".
Definition conditionBindingSuccessful : string := "Successful".
Definition conditionBindingFailure : string := "Binding Failure".
Definition ServiceBindingFinalizer : string := "servicebindings.primaza.io/finalizer".

(** What the informers of bindings are called in the calls. *)
Definition workloads : string := "workloads".

Section ServiceBindingReconciler.
  Context `{ContainerLib}.

(** ** The status *)

Definition sb_set_Status (sb : ServiceBinding) (st : ServiceBindingStatus) : ServiceBinding :=
  {| sb_meta := sb_meta sb; sb_Spec := sb_Spec sb; sb_Status := st |}.
Definition sb_set_Connections (sb : ServiceBinding) (cs : list BoundWorkload) : ServiceBinding :=
  sb_set_Status sb {| sbst_Conditions := sbst_Conditions (sb_Status sb);
                      sbst_State := sbst_State (sb_Status sb); sbst_Connections := cs |}.

Definition bound_condition (now : Z) (status reason message : string) : Condition :=
  {| c_Type := ServiceBindingBoundCondition; c_Status := status; c_ObservedGeneration := 0;
     c_LastTransitionTime := now; c_Reason := reason; c_Message := message |}.

Definition updateServiceBindingStatus (sb : ServiceBinding) (condition : Condition) (state : string)
    : M (ServiceBinding * option gerr) :=
  cs ← SetStatusCondition (sbst_Conditions (sb_Status sb)) condition;
  let sb := sb_set_Status sb {| sbst_Conditions := cs; sbst_State := state;
                                sbst_Connections := sbst_Connections (sb_Status sb) |} in
  r ← api (CStatusUpdate Manager KServiceBinding sb);
  mret (match r with Ok sb' => (sb', None) | Err e => (sb, Some e) end).

Definition updateServiceBindingStatusWithBindingResult (sb : ServiceBinding)
    (bindingErrors : list gerr) : M (ServiceBinding * option gerr) :=
  now ← api CNow;
  match bindingErrors with
  | [] =>
      updateServiceBindingStatus sb
        (bound_condition now ConditionTrue conditionBindingSuccessful "") ServiceBindingStateReady
  | _ =>
      updateServiceBindingStatus sb
        (bound_condition now ConditionFalse conditionBindingFailure (err_msg (EJoin bindingErrors)))
        ServiceBindingStateMalformed
  end.

(** ** Binding and unbinding workloads *)

(** A turn of the loop of [bindApplications]. *)
Definition bind_workload (psSecret : Secret) (mountPathDir volumeName : string)
    (unstructuredVolume application : json) (s : ServiceBinding * list gerr)
    : M (ServiceBinding * list gerr) :=
  let '(sb, el) := s in
  err ← prepareContainerWithMounts sb psSecret mountPathDir volumeName unstructuredVolume application;
  let el := match err with Some e => el ++ [e] | None => el end in
  let b := {| bw_Name := GetName application |} in
  mret (sb_set_Connections sb (sbst_Connections (sb_Status sb) ++ [b]), el).

Definition bindApplications (sb : ServiceBinding) (psSecret : Secret)
    (mountPathDir volumeName : string) (unstructuredVolume : json) (applications : list json)
    : M (ServiceBinding * option gerr) :=
  let sb := sb_set_Connections sb [] in
  '(sb, el) ← for_each applications (sb, [])
    (bind_workload psSecret mountPathDir volumeName unstructuredVolume);
  '(sb, err) ← updateServiceBindingStatusWithBindingResult sb el;
  match err with
  | Some e => mret (sb, Some e)
  | None => mret (sb, errors_join (Some <$> el))
  end.

(** The conversion of the volume to an unstructured object does not fail. *)
Definition PrepareBinding (sb : ServiceBinding) (psSecret : Secret) (applications : list json)
    : M (ServiceBinding * option gerr) :=
  bindApplications sb psSecret (om_Name (sb_meta sb)) (om_Name (sb_meta sb)) (volumeProjection sb)
    applications.

Definition unbindApplications (sb : ServiceBinding) (applications : list json) : M (option gerr) :=
  let volumeName := om_Name (sb_meta sb) in
  let mountPathDir := om_Name (sb_meta sb) in
  let secretName := sbs_ServiceEndpointDefinitionSecret (sb_Spec sb) in
  collect_errors applications (λ application,
    removeVolumeMountAndEnvironment sb application volumeName mountPathDir secretName).

(** ** Reading *)

Definition application_gvk (sb : ServiceBinding) : GroupVersionKind :=
  FromAPIVersionAndKind (as_APIVersion (sbs_Application (sb_Spec sb)))
    (as_Kind (sbs_Application (sb_Spec sb))).

Definition GetSecret (sb : ServiceBinding) (applications : list json) : M (result Secret) :=
  got ← api (CGet Manager KSecret
               {| nn_Namespace := om_Namespace (sb_meta sb);
                  nn_Name := sbs_ServiceEndpointDefinitionSecret (sb_Spec sb) |});
  match got with
  | Ok psSecret => mret (Ok psSecret)
  | Err secErr =>
      now ← api CNow;
      '(sb, err) ← updateServiceBindingStatus sb
        (bound_condition now ConditionFalse conditionGetSecretFailureReason (err_msg secErr))
        ServiceBindingStateMalformed;
      match err with
      | Some e => mret (Err e)
      | None =>
          do! unbindApplications sb applications ;;
          mret (Err secErr)
      end
  end.

Definition lookupWorkload (sb : ServiceBinding) (name : string) : M (result json) :=
  api (CGetUnstructured Manager (application_gvk sb)
         {| nn_Namespace := om_Namespace (sb_meta sb); nn_Name := name |}).

Definition getBoundApplications (sb : ServiceBinding) : M (list json * list gerr) :=
  for_each (sbst_Connections (sb_Status sb)) ([], []) (λ bw '(applications, errs),
    r ← lookupWorkload sb (bw_Name bw);
    mret (match r with
          | Err e => (applications, errs ++ [e])
          | Ok w => (applications ++ [w], errs)
          end)).

(** [labels.Set(MatchLabels).AsSelector()]: the match expressions are left aside. *)
Definition match_labels (s : LabelSelector) : LabelSelector :=
  {| ls_MatchLabels := ls_MatchLabels s; ls_MatchExpressions := [] |}.

Definition getApplication (sb : ServiceBinding) : M (result (list json)) :=
  let app := sbs_Application (sb_Spec sb) in
  let! applications :=
    (if ⟪ as_Name app ≠ "" ⟫ then
       let! application := lookupWorkload sb (as_Name app) ;;
       mret (Ok [application])
     else
       match as_Selector app with
       | Some s => api (CListUnstructured Manager (application_gvk sb) (om_Namespace (sb_meta sb))
                          (Some (match_labels s)))
       | None => mret (Ok [])
       end) ;;
  match applications with
  | [] => mret (Err (ENew "applications not found"))
  | _ => mret (Ok applications)
  end.

Definition verifyApplicationSatisfiesServiceBindingSpec (obj : json) (sb : ServiceBinding) : bool :=
  let app := sbs_Application (sb_Spec sb) in
  if ⟪ as_Name app = GetName obj ⟫ then true
  else
    match as_Selector app with
    | Some s =>
        existsb (λ lv, match ls_MatchLabels s !! lv.1 with Some val => ⟪ lv.2 = val ⟫ | None => false end)
          (GetLabels obj)
    | None => false
    end.

(** ** Informers *)

Definition prepareAddFunc (synced : bool) (sb : ServiceBinding) (obj : InformerObject) : M () :=
  if negb synced then mret ()
  else
    match obj with
    | OtherObject => panic interface_conversion
    | Unstructured applicationResource =>
        if negb (verifyApplicationSatisfiesServiceBindingSpec applicationResource sb) then mret ()
        else
          s ← GetSecret sb [applicationResource];
          match s with
          | Err _ => mret ()
          | Ok psSecret =>
              got ← api (CGet Manager KServiceBinding
                           {| nn_Namespace := om_Namespace (sb_meta sb);
                              nn_Name := om_Name (sb_meta sb) |});
              match got with
              | Err _ => mret ()
              | Ok sb => _ ← PrepareBinding sb psSecret [applicationResource]; mret ()
              end
          end
    end.

(** The same function of the object it is given last. *)
Definition prepareUpdateFunc (synced : bool) (sb : ServiceBinding) (past future : InformerObject)
    : M () :=
  prepareAddFunc synced sb future.

Definition prepareDeleteFunc (synced : bool) (sb : ServiceBinding) (obj : InformerObject) : M () :=
  if negb synced then mret ()
  else
    got ← api (CGet Manager KServiceBinding
                 {| nn_Namespace := om_Namespace (sb_meta sb); nn_Name := om_Name (sb_meta sb) |});
    match got with
    | Err _ => mret ()
    | Ok sb =>
        match obj with
        | OtherObject => panic interface_conversion
        | Unstructured applicationResource =>
            let name := GetName applicationResource in
            let connections := sbst_Connections (sb_Status sb) in
            if negb (existsb (λ w, ⟪ bw_Name w = name ⟫) connections) then mret ()
            else
              let sb := sb_set_Connections sb (filter (λ b, bw_Name b ≠ name) connections) in
              now ← api CNow;
              _ ← updateServiceBindingStatus sb
                (bound_condition now ConditionFalse conditionGetAppsFailureReason
                   "application was bound with the secret but the application got deleted")
                ServiceBindingStateReady;
              mret ()
        end
    end.

Definition ensureInformerIsRunningForResource (running : gset string) (sb : ServiceBinding)
    : M (gset string * option gerr) :=
  let name := om_Name (sb_meta sb) in
  if ⟪ name ∈ running ⟫ then mret (running, None)
  else
    cfg ← api CInClusterConfig;
    match cfg with
    | Err e => mret (running, Some e)
    | Ok cfg =>
        err ← api (CNewClientset cfg);
        match err with
        | Some e => mret (running, Some e)
        | None =>
            err ← api (CAddEventHandler workloads name);
            match err with
            | Some e => _ ← api (CCancelInformer workloads name); mret (running, Some e)
            | None =>
                _ ← api (CStartInformer workloads name);
                synced ← api (CWaitForCacheSync workloads name);
                if synced : bool then mret ({[ name ]} ∪ running, None)
                else
                  _ ← api (CCancelInformer workloads name);
                  mret (running ∖ {[ name ]}, Some (ENew "could not sync cache"))
            end
        end
    end.

Definition ensureInformerIsRunningForServiceBinding (running : gset string) (sb : ServiceBinding)
    : M (gset string * option gerr) :=
  err ← api (CRESTMapping (application_gvk sb));
  match err with
  | Some e => mret (running, Some e)
  | None => ensureInformerIsRunningForResource running sb
  end.

(** ** Reconciliation *)

Definition finalizeServiceBinding (running : gset string) (sb : ServiceBinding)
    : M (gset string * option gerr) :=
  let name := om_Name (sb_meta sb) in
  running ← (if ⟪ name ∈ running ⟫ then
               _ ← api (CCancelInformer workloads name); mret (running ∖ {[ name ]})
             else mret running);
  '(applications, errs) ← getBoundApplications sb;
  err ← unbindApplications sb applications;
  match err with
  | Some e => mret (running, Some e)
  | None => mret (running, errors_join (Some <$> errs))
  end.

(** The binding of the workloads found, from [getApplication] on. *)
Definition bind_found (sb : ServiceBinding) : M (option gerr) :=
  found ← getApplication sb;
  match found with
  | Err err =>
      now ← api CNow;
      '(_, uerr) ← updateServiceBindingStatus sb
        (bound_condition now ConditionFalse conditionGetAppsFailureReason (err_msg err))
        ServiceBindingStateReady;
      mret (match uerr with Some e => Some e | None => Some err end)
  | Ok applications =>
      let! psSecret := GetSecret sb applications ;;
      '(sb, err) ← PrepareBinding sb psSecret applications;
      match err with
      | Some e => mret (Some e)
      | None =>
          let '(psSecret, err) := SetControllerReference (ko := KServiceBinding) (k := KSecret) sb psSecret in
          match err with
          | Some e => mret (Some e)
          | None => r ← api (CUpdate Manager KSecret psSecret); mret (result_err r)
          end
      end
  end.

Definition Reconcile (running : gset string) (req : NamespacedName)
    : M (gset string * option gerr) :=
  got ← api (CGet Manager KServiceBinding req);
  match got with
  | Err err => mret (running, IgnoreNotFound (Some err))
  | Ok sb =>
      if HasDeletionTimestamp (sb_meta sb) then
        if ContainsFinalizer (k := KServiceBinding) sb ServiceBindingFinalizer then
          '(running, err) ← finalizeServiceBinding running sb;
          match err with
          | Some e => mret (running, Some e)
          | None =>
              let '(sb, removed) := RemoveFinalizer (k := KServiceBinding) sb ServiceBindingFinalizer in
              if negb removed then
                mret (running, Some (ENew "Finalizer not removed for service binding"))
              else
                r ← api (CUpdate Manager KServiceBinding sb);
                mret (running, result_err r)
          end
        else mret (running, None)
      else
        let sb := (AddFinalizer (k := KServiceBinding) sb ServiceBindingFinalizer).1 in
        '(running, err) ← ensureInformerIsRunningForServiceBinding running sb;
        match err with
        | Some e => mret (running, Some e)
        | None => err ← bind_found sb; mret (running, err)
        end
  end.
End ServiceBindingReconciler.

(** ** What the status of a binding says *)

Section StatusProperties.
  Context `{ContainerLib}.

(** The binding says that it is bound. *)
Definition bound_true (sb : ServiceBinding) : Prop :=
  ∃ c, FindStatusCondition (sbst_Conditions (sb_Status sb)) ServiceBindingBoundCondition = Some c ∧
       c_Status c = ConditionTrue.

Definition is_status_update (ev : kevent) : Prop :=
  on_StatusUpdate KServiceBinding (λ _ _ _, True) ev.

(** [updateServiceBindingStatus] makes one status update, its last call, of the binding
    with the condition and the state given. *)
Lemma wp_updateServiceBindingStatus sb c state :
  c_Type c = ServiceBindingBoundCondition →
  kwp (updateServiceBindingStatus sb c state) (λ t _, ∃ t1 sb' r,
    t = t1 ++ [KEv (CStatusUpdate Manager KServiceBinding sb') r] ∧
    Forall (λ ev, projT1 ev = CNow) t1 ∧
    sb_meta sb' = sb_meta sb ∧ sb_Spec sb' = sb_Spec sb ∧
    sbst_Connections (sb_Status sb') = sbst_Connections (sb_Status sb) ∧
    (bound_true sb' ↔ c_Status c = ConditionTrue)).
Proof.
  intros Hc. unfold updateServiceBindingStatus.
  eapply (wp_bind_spec legal); [apply wp_SetStatusCondition| |].
  - intros t cs [Ht (cs' & [= <-] & Hcs)]. wcall r Hr. wflow; rewrite ?app_nil_r; eexists t, _, _;
      (split; [done|]); (split_and!; try done); unfold bound_true; simpl;
      destruct Hcs as [(c' & Hf & Hst & _) _ _ _]; rewrite Hc in Hf; rewrite Hf.
    all: split; [intros (c0 & [= <-] & Hs)|intros Hs; exists c'; split]; congruence.
  - intros t h [_ (? & [=] & _)].
Qed.

(** [injected] looks at the name and the specification of the binding only. *)
Lemma injected_same sb sb' psSecret mountPathDir volumeName vol app o' :
  sb_Spec sb' = sb_Spec sb →
  injected sb psSecret mountPathDir volumeName vol app o' →
  injected sb' psSecret mountPathDir volumeName vol app o'.
Proof.
  intros Hs. unfold injected. intros (? & Hp & ?). split_and!; try done; [|naive_solver..].
  eapply Forall_impl; [exact Hp|]. intros p (l & b & l' & ? & ? & HR). exists l, b, l'. split_and!; try done.
  eapply Forall2_impl; [exact HR|]. intros j j' (c & ? & ?). exists c. split; [done|].
  assert (update_container sb' mountPathDir volumeName psSecret c =
          update_container sb mountPathDir volumeName psSecret c) as ->; [|done].
  unfold update_container. rewrite Hs.
  assert (∀ env, removeServiceBindingEnvironments env sb' = removeServiceBindingEnvironments env sb)
    as Henv; [|by rewrite Henv].
  induction env as [|e env IH]; [done|]. simpl. rewrite IH. unfold refers_other_secret. by rewrite Hs.
Qed.

(** An update of a workload. *)
Definition workload_update (c : Call) : Prop :=
  match c with CUpdateUnstructured Manager _ => True | _ => False end.
Definition is_workload_update (ev : kevent) : Prop := workload_update (projT1 ev).

Definition updated_in (sb : ServiceBinding) (psSecret : Secret) (app : json) (t : list kevent) : Prop :=
  ∃ o' r, KEv (CUpdateUnstructured Manager o') (Ok r) ∈ t ∧
    injected sb psSecret (om_Name (sb_meta sb)) (om_Name (sb_meta sb)) (volumeProjection sb) app o'.

Lemma updated_in_app sb psSecret app t t' t'' :
  updated_in sb psSecret app t → updated_in sb psSecret app (t' ++ t ++ t'').
Proof. intros (o' & r & ? & ?). exists o', r. split; [|done]. set_solver. Qed.

Lemma wp_bind_loop sb0 psSecret apps :
  let name := om_Name (sb_meta sb0) in
  kwp (for_each apps (sb_set_Connections sb0 [], [])
         (bind_workload psSecret name name (volumeProjection sb0)))
    (λ t out, Forall is_workload_update t ∧ ∀ sb el, out = Done (sb, el) →
       sb_meta sb = sb_meta sb0 ∧ sb_Spec sb = sb_Spec sb0 ∧
       sbst_Connections (sb_Status sb) = (λ app, {| bw_Name := GetName app |}) <$> apps ∧
       (el = [] → ∀ app, app ∈ apps → updated_in sb0 psSecret app t)).
Proof.
  intros name.
  apply (wp_for_each legal _ _ _ (λ rest t '(sb, el), Forall is_workload_update t ∧
    sb_meta sb = sb_meta sb0 ∧ sb_Spec sb = sb_Spec sb0 ∧
    ∃ done_, apps = done_ ++ rest ∧
      sbst_Connections (sb_Status sb) = (λ app, {| bw_Name := GetName app |}) <$> done_ ∧
      (el = [] → ∀ app, app ∈ done_ → updated_in sb0 psSecret app t))).
  - split_and!; try done. exists []. split_and!; [done..|]. set_solver.
  - intros app rest t [sb el] (Ht & Hm & Hs & done_ & -> & Hc & Hd). unfold bind_workload.
    eapply (wp_bind_spec legal); [apply wp_prepareContainerWithMounts| |].
    + intros t' err [[-> Herr]|(o' & r & -> & [= ->] & Ho')].
      * destruct err as [e|]; [|done]. wflow. rewrite app_nil_r.
        split_and!; try done. exists (done_ ++ [app]).
        split_and!; [by rewrite <- app_assoc|simpl; by rewrite Hc, fmap_app|].
        intros Hel. by destruct el.
      * wflow. split_and!; [apply Forall_app; split; [done|by repeat constructor]|done..|].
        exists (done_ ++ [app]).
        split_and!; [by rewrite <- app_assoc|simpl; by rewrite Hc, fmap_app|].
        destruct r as [r|e]; simpl; [|intros Hel; by destruct el].
        intros Hel app' [Ha|Ha%list_elem_of_singleton]%elem_of_app.
        -- apply (updated_in_app _ _ _ _ []). by apply Hd.
        -- subst app'. exists o', r. split; [set_solver|].
           eapply injected_same; [|exact Ho']. done.
    + intros t' h [[-> _]|(o' & r & _ & [=] & _)]. rewrite app_nil_r. done.
  - intros t [sb el] (Ht & Hm & Hs & done_ & -> & Hc & Hd). split; [done|].
    intros sb' el' [= <- <-]. rewrite app_nil_r. done.
Qed.

(** What a status update of this binding is to publish. *)
Definition publishes (P : list kevent → ServiceBinding → Prop) (t1 : list kevent) (ev : kevent) : Prop :=
  when_StatusUpdate KServiceBinding (P t1) (projT1 ev).

Lemma publishes_impl (P P' : list kevent → ServiceBinding → Prop) t t' ev :
  (∀ sb, P t sb → P' t' sb) → publishes P t ev → publishes P' t' ev.
Proof.
  intros HP. unfold publishes, when_StatusUpdate. destruct (projT1 ev); try done. unfold when_kind.
  destruct (decide _) as [<-|]; [|done]. apply HP.
Qed.

(** Calls that publish nothing. *)
Definition unpublished (c : Call) : Prop :=
  match c with CStatusUpdate _ _ _ => False | _ => True end.

Lemma publishes_none P t :
  Forall (λ ev : kevent, unpublished (projT1 ev)) t → justified (publishes P) t.
Proof.
  intros Ht. apply justified_all. eapply Forall_impl; [exact Ht|].
  intros [c r] Hc t1. by destruct c.
Qed.

(** One status update after calls that publish nothing. *)
Lemma publishes_last (P : list kevent → ServiceBinding → Prop) t sb r :
  Forall (λ ev : kevent, unpublished (projT1 ev)) t → P t sb →
  justified (publishes P) (t ++ [KEv (CStatusUpdate Manager KServiceBinding sb) r]).
Proof.
  intros Ht HP. apply justified_app; [by apply publishes_none|]. apply justified_one.
  by rewrite app_nil_r.
Qed.

Lemma workload_update_unpublished t :
  Forall is_workload_update t → Forall (λ ev : kevent, unpublished (projT1 ev)) t.
Proof. intros Ht. eapply Forall_impl; [exact Ht|]. intros [c r]. by destruct c. Qed.

Lemma now_unpublished (t : list kevent) :
  Forall (λ ev, projT1 ev = CNow) t → Forall (λ ev : kevent, unpublished (projT1 ev)) t.
Proof. intros Ht. eapply Forall_impl; [exact Ht|]. by intros ev ->. Qed.

(** The binding published by [PrepareBinding]. *)
Lemma wp_PrepareBinding sb psSecret apps :
  kwp (PrepareBinding sb psSecret apps) (λ t _, justified (publishes (λ t1 sb',
    sb_meta sb' = sb_meta sb ∧ sb_Spec sb' = sb_Spec sb ∧
    sbst_Connections (sb_Status sb') = (λ app, {| bw_Name := GetName app |}) <$> apps ∧
    (bound_true sb' → ∀ app, app ∈ apps → updated_in sb psSecret app t1))) t).
Proof.
  unfold PrepareBinding, bindApplications.
  eapply (wp_bind_spec legal); [apply wp_bind_loop| |].
  2: { intros t h [Ht _]. by apply publishes_none, workload_update_unpublished. }
  intros t [sb1 el] [Ht Hsb]. destruct (Hsb sb1 el eq_refl) as (Hm & Hs & Hc & Hinj).
  eapply (wp_bind_spec legal (λ t' _, justified (publishes (λ t1 sb',
    sb_meta sb' = sb_meta sb ∧ sb_Spec sb' = sb_Spec sb ∧
    sbst_Connections (sb_Status sb') = (λ app, {| bw_Name := GetName app |}) <$> apps ∧
    (bound_true sb' → ∀ app, app ∈ apps → updated_in sb psSecret app t1))) (t ++ t'))); [|by intros ? [? [?|]] Ht'; wflow; rewrite app_nil_r|done].
  unfold updateServiceBindingStatusWithBindingResult. wcall now Hnow. cbv beta.
  destruct el as [|e el]; (eapply wp_mono; [by apply wp_updateServiceBindingStatus|]);
    intros t' out (t1 & sb' & r & -> & Ht1 & Hm' & Hs' & Hc' & Hb);
    rewrite app_comm_cons, (assoc_L (++)); apply publishes_last.
  1,3: apply Forall_app; split; [by apply workload_update_unpublished|];
       constructor; [done|by apply now_unpublished].
  all: split_and!; try congruence.
  - intros _ app Ha. apply (updated_in_app _ _ _ _ []). by apply Hinj.
  - intros Hbt%Hb. done.
Qed.

(** The workloads are all those the binding designates, as they were read: the one it
    names, or those the API server lists for its selector. *)
Definition found_all (sb : ServiceBinding) (apps : list json) (t : list kevent) : Prop :=
  let app := sbs_Application (sb_Spec sb) in
  if ⟪ as_Name app ≠ "" ⟫ then
    ∃ w, apps = [w] ∧
      KEv (CGetUnstructured Manager (application_gvk sb)
             {| nn_Namespace := om_Namespace (sb_meta sb); nn_Name := as_Name app |}) (Ok w) ∈ t
  else
    ∃ s, as_Selector app = Some s ∧
      KEv (CListUnstructured Manager (application_gvk sb) (om_Namespace (sb_meta sb))
             (Some (match_labels s))) (Ok apps) ∈ t.

Lemma found_all_app sb apps t t' t'' : found_all sb apps t → found_all sb apps (t' ++ t ++ t'').
Proof.
  unfold found_all. case_bool_decide; intros (w & ? & ?); exists w; (split; [done|]); set_solver.
Qed.

Lemma wp_getApplication sb :
  kwp (getApplication sb) (λ t out, Forall (λ ev : kevent, unpublished (projT1 ev)) t ∧
    ∀ apps, out = Done (Ok apps) → apps ≠ [] ∧ found_all sb apps t).
Proof.
  unfold getApplication, found_all, lookupWorkload.
  case_bool_decide as Hn; [|destruct (as_Selector _) as [s|] eqn:Hs].
  - wcall r Hr. cbv beta. destruct r as [w|e]; wflow; (split; [by repeat constructor|]); [|done].
    intros apps [= <-]. split; [done|]. exists w. split; [done|]. set_solver.
  - wcall r Hr. cbv beta. destruct r as [[|w ws]|e]; wflow; (split; [by repeat constructor|]); try done.
    intros apps [= <-]. split; [done|]. exists s. split; [done|]. set_solver.
  - wflow. by split.
Qed.

(** Unbinding only updates workloads. *)
Lemma wp_unbindApplications_calls sb apps :
  kwp (unbindApplications sb apps) (λ t _, Forall is_workload_update t).
Proof.
  change (only_calls legal workload_update (unbindApplications sb apps)).
  unfold unbindApplications. calls.
  eapply wp_mono; [apply wp_removeVolumeMountAndEnvironment|].
  intros t o [[-> _]|[[-> _]|(o' & r & -> & _)]]; by repeat constructor.
Qed.

(** The status set without a secret does not say that the binding is bound. *)
Lemma wp_GetSecret sb apps :
  kwp (GetSecret sb apps) (λ t _, justified (publishes (λ _ sb', ¬ bound_true sb')) t).
Proof.
  unfold GetSecret. wcall got Hgot. destruct got as [psSecret|secErr]; wflow.
  { by apply publishes_none; repeat constructor. }
  wcall now Hnow. cbv beta.
  eapply (wp_bind_spec legal); [by apply wp_updateServiceBindingStatus| |].
  2: { intros t h (t1 & sb' & r & -> & Ht1 & _ & _ & _ & Hb). rewrite !app_comm_cons. apply publishes_last.
       - do 2 (constructor; [done|]). by apply now_unpublished.
       - by intros [=]%Hb. }
  intros t [sb1 err] (t1 & sb' & r & -> & Ht1 & _ & _ & _ & Hb).
  assert (Hj : ∀ t2, Forall (λ ev : kevent, unpublished (projT1 ev)) t2 →
    justified (publishes (λ _ sb', ¬ bound_true sb'))
      (KEv (CGet Manager KSecret {| nn_Namespace := om_Namespace (sb_meta sb);
              nn_Name := sbs_ServiceEndpointDefinitionSecret (sb_Spec sb) |}) (Err secErr)
       :: KEv CNow now :: (t1 ++ [KEv (CStatusUpdate Manager KServiceBinding sb') r]) ++ t2)).
  { intros t2 Ht2. rewrite !app_comm_cons. apply justified_app.
    - apply publishes_last; [|by intros [=]%Hb].
      do 2 (constructor; [done|]). by apply now_unpublished.
    - eapply justified_mono; [|by apply (publishes_none (λ _ sb', ¬ bound_true sb'))]. by intros ? [[]]. }
  destruct err as [e|]; [wflow; by apply Hj|].
  eapply (wp_bind_spec legal); [apply wp_unbindApplications_calls| |].
  - intros t' err Ht'. wflow; rewrite app_nil_r; by apply Hj, workload_update_unpublished.
  - intros t' h Ht'. by apply Hj, workload_update_unpublished.
Qed.

(** What justifies publishing that a binding is bound: every workload it designates was
    read, and then updated without an error. *)
Definition bound_justified (t : list kevent) (sb : ServiceBinding) : Prop :=
  bound_true sb → ∃ psSecret apps, apps ≠ [] ∧ found_all sb apps t ∧
    sbst_Connections (sb_Status sb) = (λ app, {| bw_Name := GetName app |}) <$> apps ∧
    ∀ app, app ∈ apps → updated_in sb psSecret app t.

Lemma bound_justified_app t t' sb : bound_justified t sb → bound_justified (t' ++ t) sb.
Proof.
  intros Ht (psSecret & apps & Hne & Hf & Hc & Hu)%Ht. exists psSecret, apps.
  rewrite <- (app_nil_r (t' ++ t)), <- app_assoc.
  split_and!; [done|by apply found_all_app|done|]. intros app Ha. by apply updated_in_app, Hu.
Qed.

Lemma publishes_bound_app t t' ev :
  publishes bound_justified t ev → publishes bound_justified (t' ++ t) ev.
Proof. apply publishes_impl. intros sb. apply bound_justified_app. Qed.

Lemma publishes_not_bound t ev :
  publishes (λ _ sb', ¬ bound_true sb') t ev → publishes bound_justified t ev.
Proof. apply publishes_impl. by intros sb Hb ?%Hb. Qed.

(** Parts that publish nothing in front of a program whose bindings are justified. *)
Lemma wp_bound_bind {A B} (p : M A) (f : A → M B) :
  only_calls legal unpublished p →
  (∀ a, kwp (f a) (λ t _, justified (publishes bound_justified) t)) →
  kwp (p ≫= f) (λ t _, justified (publishes bound_justified) t).
Proof.
  intros Hp Hf. apply (wp_justified_bind legal _ (λ ev, unpublished (projT1 ev))); [| |done..].
  - intros t t' ev. apply publishes_bound_app.
  - intros t [c r]. by destruct c.
Qed.

Lemma injected_publishes t sb psSecret apps sb0 ev :
  found_all sb0 apps t → apps ≠ [] →
  sb_meta sb = sb_meta sb0 → sb_Spec sb = sb_Spec sb0 → ∀ t1,
  publishes (λ t1 sb',
    sb_meta sb' = sb_meta sb ∧ sb_Spec sb' = sb_Spec sb ∧
    sbst_Connections (sb_Status sb') = (λ app, {| bw_Name := GetName app |}) <$> apps ∧
    (bound_true sb' → ∀ app, app ∈ apps → updated_in sb psSecret app t1)) t1 ev →
  publishes bound_justified (t ++ t1) ev.
Proof.
  intros Hf Hne Hm Hs t1. apply publishes_impl. intros o (Hm' & Hs' & Hc & Hu) Hb. exists psSecret, apps. split_and!; [done| |done|].
  - apply (found_all_app _ _ _ [] t1). unfold found_all, application_gvk in *.
    by rewrite Hm', Hs', Hm, Hs.
  - intros app Ha. destruct (Hu Hb app Ha) as (o' & r & Hin & Hi). exists o', r.
    split; [set_solver|]. rewrite Hm'. unfold volumeProjection in *. rewrite Hm', Hs'.
    by eapply injected_same.
Qed.

Lemma wp_bind_found sb :
  kwp (bind_found sb) (λ t _, justified (publishes bound_justified) t).
Proof.
  unfold bind_found. eapply (wp_bind_spec legal); [apply wp_getApplication| |].
  2: { intros t h [Ht _]. by apply publishes_none. }
  intros t found [Ht Hfound]. destruct found as [apps|err].
  - destruct (Hfound apps eq_refl) as [Hne Hf].
    apply (wp_mono legal _ (λ t' _, justified (λ t1 ev, publishes bound_justified (t ++ t1) ev) t')).
    2: { intros t' _ Ht'. apply justified_app; [by apply publishes_none|done]. }
    eapply (wp_bind_spec legal); [apply wp_GetSecret| |].
    2: { intros t' h Ht'. eapply justified_mono; [|exact Ht'].
         intros t1 ev Hev. by apply publishes_bound_app, publishes_not_bound. }
    intros t' r Ht'.
    assert (justified (λ t1 ev, publishes bound_justified (t ++ t1) ev) t') as Hj.
    { eapply justified_mono; [|exact Ht']. intros t1 ev Hev. by apply publishes_bound_app, publishes_not_bound. }
    destruct r as [psSecret|e]; [|wflow; by rewrite app_nil_r].
    apply (wp_mono legal _ (λ t'' _, justified (λ t1 ev, publishes bound_justified ((t ++ t') ++ t1) ev) t'')).
    2: { intros t'' _ Ht''. apply justified_app; [done|]. eapply justified_mono; [|exact Ht''].
         intros t1 ev. by rewrite (assoc_L (++)). }
    eapply (wp_bind_spec legal (λ t'' _, justified (λ t1 ev, publishes bound_justified ((t ++ t') ++ t1) ev) t'')).
    + eapply wp_mono; [apply wp_PrepareBinding|]. intros t'' o Ht''. eapply justified_mono; [|exact Ht''].
      intros t1 ev Hev. eapply (injected_publishes (t ++ t') sb psSecret apps sb); try done.
      by apply (found_all_app _ _ _ []).
    + intros t'' [sb1 err] Ht''.
      assert (∀ t2, Forall (λ ev : kevent, unpublished (projT1 ev)) t2 →
        justified (λ t1 ev, publishes bound_justified ((t ++ t') ++ t1) ev) (t'' ++ t2)) as Hend.
      { intros t2 Ht2. apply justified_app; [done|]. apply justified_all.
        eapply Forall_impl; [exact Ht2|]. intros [c r] Hc t1. by destruct c. }
      destruct err as [e|]; [wflow; by apply Hend|].
      destruct (SetControllerReference _ _) as [s' [e|]]; [wflow; by apply Hend|].
      wcall r Hr. wflow; by apply Hend; repeat constructor.
    + done.
  - wcall now Hnow. cbv beta. eapply (wp_bind_spec legal); [by apply wp_updateServiceBindingStatus| |].
    + intros t' [sb1 uerr] (t1 & sb' & r & -> & Ht1 & _ & _ & _ & Hb).
      destruct uerr; wflow; rewrite ?app_nil_r, app_comm_cons, (assoc_L (++)); apply publishes_last.
      1,3: apply Forall_app; split; [done|]; constructor; [done|by apply now_unpublished].
      all: by intros [=]%Hb.
    + intros t' h (t1 & sb' & r & -> & Ht1 & _ & _ & _ & Hb).
      rewrite app_comm_cons, (assoc_L (++)); apply publishes_last; [|by intros [=]%Hb].
      apply Forall_app; split; [done|]; constructor; [done|by apply now_unpublished].
Qed.

Lemma only_calls_finalizeServiceBinding P running sb :
  (∀ c, workload_update c → P c) →
  (∀ cl gvk key, P (CGetUnstructured cl gvk key)) → P (CCancelInformer workloads (om_Name (sb_meta sb))) →
  only_calls legal P (finalizeServiceBinding running sb).
Proof.
  intros Hu Hg Hc. unfold finalizeServiceBinding, getBoundApplications, lookupWorkload. calls; try done.
  eapply only_calls_mono; [apply wp_unbindApplications_calls|done].
Qed.

Lemma only_calls_ensureInformer P running sb :
  (∀ c, ¬ is_write c → P c) →
  only_calls legal P (ensureInformerIsRunningForServiceBinding running sb).
Proof.
  intros HP. unfold ensureInformerIsRunningForServiceBinding, ensureInformerIsRunningForResource.
  calls; apply HP; intros [].
Qed.

(** C12: the application agent publishes that a binding is bound only after it has read
    every workload the binding names or selects, at least one, and has updated each of
    them, without an error, to the workload with the binding injected: the volume of
    its secret, and in every container the mount and the variables.  The connections
    published are then these workloads. *)
Theorem Reconcile_bound running req :
  kwp (Reconcile running req) (λ t _, justified (publishes bound_justified) t).
Proof.
  unfold Reconcile. apply wp_bound_bind; [by calls|]. intros [sb|e]; [|wflow; apply justified_nil].
  destruct (HasDeletionTimestamp _).
  - apply (wp_mono legal _ (λ t _, Forall (λ ev : kevent, unpublished (projT1 ev)) t));
      [|intros t o Ht; by apply publishes_none].
    lazymatch goal with |- wp _ ?p _ => change (only_calls legal unpublished p) end.
    calls; try done. apply only_calls_finalizeServiceBinding; try done. by intros [].
  - apply wp_bound_bind; [apply only_calls_ensureInformer; by intros []|].
    intros [running' [e|]]; [wflow; apply justified_nil|].
    eapply (wp_bind_spec legal); [apply wp_bind_found| |done].
    intros t err Ht. wflow. by rewrite app_nil_r.
Qed.

(** ** The finalizer of a binding *)

(** The workload was rid of the binding, or had no volume to take out. *)
Definition ejected_in (sb : ServiceBinding) (w : json) (t : list kevent) : Prop :=
  NestedSlice w volumesPath = Ok ([], false) ∨
  ∃ o' r, KEv (CUpdateUnstructured Manager o') (Ok r) ∈ t ∧ ejected sb (om_Name (sb_meta sb)) w o'.

Definition read_workload (sb : ServiceBinding) (bw : BoundWorkload) (w : json) (t : list kevent) : Prop :=
  KEv (CGetUnstructured Manager (application_gvk sb)
         {| nn_Namespace := om_Namespace (sb_meta sb); nn_Name := bw_Name bw |}) (Ok w) ∈ t.

Lemma wp_getBoundApplications sb :
  kwp (getBoundApplications sb) (λ t out, ∀ apps errs, out = Done (apps, errs) →
    errs = [] → ∀ bw, bw ∈ sbst_Connections (sb_Status sb) →
      ∃ w, w ∈ apps ∧ read_workload sb bw w t).
Proof.
  unfold getBoundApplications. set (l := sbst_Connections (sb_Status sb)).
  apply (wp_for_each legal _ _ _ (λ rest t '(apps, errs), errs = [] →
    ∀ bw, bw ∈ l → bw ∈ rest ∨ ∃ w, w ∈ apps ∧ read_workload sb bw w t)).
  - auto.
  - intros bw rest t [apps errs] HI. unfold lookupWorkload. wcall r Hr. cbv beta.
    destruct r as [w|e]; wflow; [|by intros []%app_nil].
    intros He bw' Hbw'. destruct (HI He bw' Hbw') as [[->|?]%elem_of_cons|(w' & ? & ?)].
    + right. exists w. unfold read_workload. split; set_solver.
    + by left.
    + right. exists w'. unfold read_workload in *. split; set_solver.
  - intros t [apps errs] HI apps' errs' [= <- <-] He bw Hbw.
    destruct (HI He bw Hbw) as [?%elem_of_nil|?]; [done|done].
Qed.

Lemma wp_unbindApplications sb apps :
  kwp (unbindApplications sb apps) (λ t out, out = Done None →
    ∀ w, w ∈ apps → part (ejected_in sb w) t).
Proof.
  unfold unbindApplications. apply wp_collect_errors. intros w _.
  eapply wp_mono; [apply wp_removeVolumeMountAndEnvironment|].
  intros t out [[-> Hw]|[[-> Hne]|(o' & r & -> & -> & Ho')]] Hout.
  - by left.
  - done.
  - right. destruct r as [r|e]; [|done]. exists o', r. split; [set_solver|done].
Qed.

Lemma ejected_in_part sb w t : part (ejected_in sb w) t → ejected_in sb w t.
Proof.
  intros (t1 & u & t2 & -> & [?|(o' & r & ? & ?)]); [by left|].
  right. exists o', r. split; [set_solver|done].
Qed.

(** Every connection of the binding was read and unbound. *)
Definition all_ejected (sb : ServiceBinding) (t : list kevent) : Prop :=
  ∀ bw, bw ∈ sbst_Connections (sb_Status sb) → ∃ w, read_workload sb bw w t ∧ ejected_in sb w t.

Lemma wp_finalizeServiceBinding running sb :
  kwp (finalizeServiceBinding running sb) (λ t out,
    ∀ running', out = Done (running', None) → all_ejected sb t).
Proof.
  unfold finalizeServiceBinding.
  eapply (wp_bind_spec legal (λ _ _, True)); [done| |done]. intros t0 running1 _.
  eapply (wp_bind_spec legal); [apply wp_getBoundApplications| |done].
  intros t1 [apps errs] Hgot. specialize (Hgot apps errs eq_refl).
  eapply (wp_bind_spec legal); [apply wp_unbindApplications| |done].
  intros t2 err Hun. destruct err as [e|]; wflow; [done|].
  intros running' [= _ He] bw Hbw.
  assert (errs = []) as ->. { rewrite errors_join_somes in He. by destruct errs. }
  destruct (Hgot eq_refl bw Hbw) as (w & Hw & Hr). exists w. split.
  - unfold read_workload in *. set_solver.
  - apply ejected_in_part. rewrite app_nil_r. by apply part_app_r, part_app_r, Hun.
Qed.

Lemma only_calls_PrepareBinding P sb psSecret apps :
  (∀ c, workload_update c → P c) → P CNow → (∀ sb', P (CStatusUpdate Manager KServiceBinding sb')) →
  only_calls legal P (PrepareBinding sb psSecret apps).
Proof.
  intros Hu Hn Hs. unfold PrepareBinding, bindApplications. apply only_calls_bind.
  - eapply only_calls_mono; [|exact Hu]. eapply wp_mono; [apply wp_bind_loop|]. by intros t o [Ht _].
  - intros [sb' el]. unfold updateServiceBindingStatusWithBindingResult, updateServiceBindingStatus.
    calls; auto.
Qed.

Lemma no_update_bind_found sb : only_calls legal (no_Update KServiceBinding) (bind_found sb).
Proof.
  unfold bind_found, getApplication, lookupWorkload, GetSecret, updateServiceBindingStatus.
  calls; try done.
  - eapply only_calls_mono; [apply wp_unbindApplications_calls|by intros []].
  - apply only_calls_PrepareBinding; try done. by intros [].
Qed.

(** What justifies updating a binding to [sb']. *)
Definition removal_justified (req : NamespacedName) (t : list kevent) (sb' : ServiceBinding) : Prop :=
  ∃ sb, KEv (CGet Manager KServiceBinding req) (Ok sb) ∈ t ∧
    HasDeletionTimestamp (sb_meta sb) = true ∧
    sb' = (RemoveFinalizer (k := KServiceBinding) sb ServiceBindingFinalizer).1 ∧
    all_ejected sb t.

(** C23: the agent updates a service binding, apart from its status, only to remove its
    finalizer, when the binding is being deleted and each workload among its connections
    was read and unbound without an error.  In particular it never stores the finalizer
    it adds to the bindings that are not being deleted. *)
Theorem binding_finalizer running req :
  kwp (Reconcile running req) (λ t _, justified (λ t1 ev,
    when_Update KServiceBinding (removal_justified req t1) (projT1 ev)) t).
Proof.
  assert (Hno : ∀ t, Forall (λ ev : kevent, no_Update KServiceBinding (projT1 ev)) t →
    justified (λ t1 ev, when_Update KServiceBinding (removal_justified req t1) (projT1 ev)) t).
  { intros t Ht. apply justified_all. eapply Forall_impl; [exact Ht|]. intros ev Hev t1.
    by apply when_Update_none. }
  unfold Reconcile. wcall got Hgot. cbv beta. destruct got as [sb|e]; [|wflow; by apply Hno; repeat constructor].
  destruct (HasDeletionTimestamp _) eqn:Hdel.
  - destruct (ContainsFinalizer _ _); [|wflow; by apply Hno; repeat constructor].
    eapply (wp_bind_spec legal); [apply wp_and; [apply wp_finalizeServiceBinding|
      apply (only_calls_finalizeServiceBinding (no_Update KServiceBinding)); try done; by intros []]| |].
    2: { intros t h [_ Ht]. apply Hno. by constructor. }
    intros t [running' err] [Hall Ht]. destruct err as [e|]; [wflow; apply Hno; rewrite app_nil_r; by constructor|].
    specialize (Hall running' eq_refl).
    destruct (RemoveFinalizer _ _) as [sb1 b] eqn:Hrm. destruct (negb b);
      [wflow; apply Hno; rewrite app_nil_r; by constructor|].
    wcall r Hr. wflow. rewrite app_comm_cons. apply justified_app; [apply Hno; by constructor|].
    apply justified_one, when_Update_same. rewrite app_nil_r. exists sb. split_and!; [set_solver|done|by rewrite Hrm|].
    intros bw Hbw. destruct (Hall bw Hbw) as (w & Hw & He). exists w. unfold read_workload in *. split; [set_solver|].
    destruct He as [He|(o' & r' & ? & ?)]; [by left|]. right. exists o', r'. split; [set_solver|done].
  - apply (wp_mono legal _ (λ t _, Forall (λ ev : kevent, no_Update KServiceBinding (projT1 ev)) t));
      [|intros t o Ht; apply Hno; by constructor].
    lazymatch goal with |- wp _ ?p _ => change (only_calls legal (no_Update KServiceBinding) p) end.
    apply only_calls_bind; [apply only_calls_ensureInformer; by intros []|].
    intros [running' [e|]]; [calls|]. apply only_calls_bind; [|intros; calls].
    apply no_update_bind_found.
Qed.

(** ** The informers' handlers *)

(** What a handler given a workload may publish. *)
Definition handler_justified (sb : ServiceBinding) (app : json) (_ : list kevent) (sb' : ServiceBinding)
    : Prop :=
  bound_true sb' →
  verifyApplicationSatisfiesServiceBindingSpec app sb = true ∧
  sbst_Connections (sb_Status sb') = [{| bw_Name := GetName app |}].

(** When an informer reports a workload that was added or updated, and the handler
    publishes that the binding is bound, the workload satisfies the binding's
    specification as the handler tests it, and it is the only connection published: the
    workloads that were bound before are no longer among the connections, by which the
    finalizer of the binding finds what to unbind. *)
Theorem handler_connections synced sb past app :
  kwp (prepareUpdateFunc synced sb past (Unstructured app))
    (λ t _, justified (publishes (handler_justified sb app)) t).
Proof.
  unfold prepareUpdateFunc, prepareAddFunc. destruct synced; cbn [negb]; [|wflow; apply justified_nil].
  destruct (verifyApplicationSatisfiesServiceBindingSpec app sb) eqn:Hv; cbn [negb]; [|wflow; apply justified_nil].
  assert (Hsec : ∀ t, justified (publishes (λ _ sb', ¬ bound_true sb')) t →
                 justified (publishes (handler_justified sb app)) t).
  { intros t Ht. eapply justified_mono; [|exact Ht]. intros t1 ev. apply publishes_impl.
    by intros sb' Hb ?%Hb. }
  eapply (wp_bind_spec legal); [apply wp_GetSecret| |by intros t h Ht; apply Hsec].
  intros t [psSecret|e] Ht%Hsec; [|wflow; by rewrite app_nil_r].
  wcall got Hgot. cbv beta. destruct got as [sb1|e];
    [|wflow; apply justified_app; [done|]; by apply publishes_none; repeat constructor].
  eapply (wp_bind_spec legal (λ t _, justified (publishes (λ _ sb', sbst_Connections (sb_Status sb') =
    [{| bw_Name := GetName app |}])) t)).
  { eapply wp_mono; [apply wp_PrepareBinding|]. intros t' o Ht'. eapply justified_mono; [|exact Ht'].
    intros t1 ev. apply publishes_impl. by intros sb' (_ & _ & ? & _). }
  all: intros t' x Ht'; wflow; rewrite ?app_nil_r; apply justified_app; [done|];
       rewrite (app_comm_cons [] t'); apply (justified_app _ [_]); [by apply publishes_none; repeat constructor|].
  all: eapply justified_mono; [|exact Ht']; intros t1 ev; apply publishes_impl; by split.
Qed.
End StatusProperties.

(** ** What the informers match *)

(** [labels.Set.AsSelector()]: every label of the selector is there with its value. *)
Definition selects (s : LabelSelector) (labels : list (string * string)) : bool :=
  ⟪ map_Forall (λ k v, (k, v) ∈ labels) (ls_MatchLabels s) ⟫.

Definition two_labels : LabelSelector :=
  {| ls_MatchLabels := {["app" := "web"; "tier" := "front"]}; ls_MatchExpressions := [] |}.
Definition any_app (s : LabelSelector) : ServiceBinding :=
  {| sb_meta := named "binding" "apps";
     sb_Spec := {| sbs_ServiceEndpointDefinitionSecret := "secret";
       sbs_Application := {| as_APIVersion := "apps/v1"; as_Kind := "Deployment"; as_Name := "";
                             as_Selector := Some s |}; sbs_Envs := [] |};
     sb_Status := {| sbst_Conditions := []; sbst_State := ""; sbst_Connections := [] |} |}.
Definition one_label : json :=
  JObj [("metadata", JObj [("name", JStr "other"); ("namespace", JStr "apps");
                           ("labels", JObj [("app", JStr "web"); ("tier", JStr "back")])])].

(** The handlers bind a workload that has one of the labels of the selector, which the
    list of the reconciliation leaves out. *)
Lemma one_label_is_bound :
  verifyApplicationSatisfiesServiceBindingSpec one_label (any_app two_labels) = true ∧
  selects two_labels (GetLabels one_label) = false.
Proof. split; vm_compute; reflexivity. Qed.
