(* ===== verification/AppAgent.v ===== *)
(** * The application agent

    The other controllers of src/controllers/agents/app, which run in an application
    namespace of a worker cluster beside the one of [ServiceBindingCtrl.v]: service
    claims are copied to the control plane ([ServiceClaims]), the service catalog is
    owned by the agent's deployment ([Catalogs]), and the deletion of that deployment
    removes the resources of Primaza first ([Agent]). *)

From S2P Require Import Prelude Prog GoErr GoStr Json Types Kube WorkerCluster.

#[local] Open Scope string_scope.
#[local] Open Scope list_scope.
#[local] Open Scope primaza_scope.

(** The agent's own deployment, without which the agent exits. *)
Definition own_deployment (name namespace : string) : M (result Deployment) :=
  got ← api (CGet Manager KDeployment {| nn_Namespace := namespace; nn_Name := name |});
  match got with
  | Err err => if IsNotFound (Some err) then Halt (OsExit 1) else mret (Err err)
  | Ok deployment => mret (Ok deployment)
  end.

(** ** serviceclaim_controller.go *)

Module ServiceClaims.

Definition ServiceClaimFinalizer : string := "serviceclaims.primaza.io/finalizer".
Definition quote : string := String (Ascii.ascii_of_nat 34) "".
Definition webhook_denied : string :=
  "admission webhook " +++ quote +++ "vserviceclaim.kb.io" +++ quote +++ " denied the request".

Definition agent_target (deployment : Deployment) (namespace : string) : ServiceClaimTarget :=
  {| tgt_EnvironmentTag := "";
     tgt_ApplicationClusterContext := Some
       {| acc_ClusterEnvironmentName :=
            gomap_get (om_Labels (dep_meta deployment)) PrimazaClusterEnvironmentLabel;
          acc_Namespace := namespace |} |}.

Definition createServiceClaimCopy (sclaim : ServiceClaim) (deployment : Deployment)
    (remote_namespace : string) : ServiceClaim :=
  let spec := sc_Spec sclaim in
  {| sc_meta := om_set_ResourceVersion (om_set_Namespace (sc_meta sclaim) remote_namespace) "";
     sc_Spec := {| scs_ServiceClassIdentity := scs_ServiceClassIdentity spec;
                   scs_ServiceEndpointDefinitionKeys := scs_ServiceEndpointDefinitionKeys spec;
                   scs_Application := scs_Application spec;
                   scs_Target := Some (agent_target deployment (om_Namespace (sc_meta sclaim)));
                   scs_Envs := scs_Envs spec |};
     sc_Status := sc_Status sclaim |}.

Definition deleteExternalResources (sclaim : ServiceClaim) (cli : Client) : M (option gerr) :=
  api (CDelete cli KServiceClaim (ObjectKeyFromObject (k := KServiceClaim) sclaim)).

Definition sc_with_Spec (spec : ServiceClaimSpec) (sc : ServiceClaim) : ServiceClaim :=
  {| sc_meta := sc_meta sc; sc_Spec := spec; sc_Status := sc_Status sc |}.

(** The claim is being deleted, or the agent is. *)
Definition under_deletion (sclaim : ServiceClaim) (remote_client : Client) (deployment : Deployment)
    (remote_namespace : string) : M (option gerr) :=
  if ContainsFinalizer (k := KServiceClaim) sclaim ServiceClaimFinalizer then
    do! deleteExternalResources (createServiceClaimCopy sclaim deployment remote_namespace)
          remote_client ;;
    r ← api (CUpdate Manager KServiceClaim
               (RemoveFinalizer (k := KServiceClaim) sclaim ServiceClaimFinalizer).1);
    mret (result_err r)
  else mret None.

(** Creates or updates the copy on the control plane. *)
Definition push_copy (sclaim : ServiceClaim) (remote_client : Client) (deployment : Deployment)
    (remote_namespace : string) : M (option gerr) :=
  let sclaimCopy := createServiceClaimCopy sclaim deployment remote_namespace in
  let spec := sc_Spec sclaimCopy in
  '(_, op) ← CreateOrUpdate remote_client KServiceClaim sclaimCopy (mutates (sc_with_Spec spec));
  match op with
  | Ok _ => mret None
  | Err err =>
      if Contains (err_msg err) webhook_denied then
        now ← api CNow;
        conditions ← SetStatusCondition (scst_Conditions (sc_Status sclaim))
          {| c_Type := ServiceClaimConditionReady; c_Status := ConditionFalse; c_ObservedGeneration := 0;
             c_LastTransitionTime := now; c_Reason := ValidationErrorReason; c_Message := err_msg err |};
        r ← api (CStatusUpdate Manager KServiceClaim
              {| sc_meta := sc_meta sclaim; sc_Spec := sc_Spec sclaim;
                 sc_Status := {| scst_State := ServiceClaimStateInvalid;
                                 scst_ClaimID := scst_ClaimID (sc_Status sclaim);
                                 scst_RegisteredService := scst_RegisteredService (sc_Status sclaim);
                                 scst_Conditions := conditions |} |});
        mret (result_err r)
      else mret (Some err)
  end.

Definition Reconcile (req : NamespacedName) : M (option gerr) :=
  got ← api (CGet Manager KServiceClaim req);
  match got with
  | Err err => if IsNotFound (Some err) then mret None else mret (Some err)
  | Ok sclaim =>
      let! primaza := GetPrimazaKubeconfig ;;
      do! api (CNewClient primaza.1) ;;
      let! deployment := own_deployment ApplicationAgentDeploymentName (nn_Namespace req) ;;
      if negb (HasDeletionTimestamp (sc_meta sclaim)) && negb (HasDeletionTimestamp (dep_meta deployment))
      then
        let! sclaim :=
          (if negb (ContainsFinalizer (k := KServiceClaim) sclaim ServiceClaimFinalizer) then
             api (CUpdate Manager KServiceClaim
                    (AddFinalizer (k := KServiceClaim) sclaim ServiceClaimFinalizer).1)
           else mret (Ok sclaim)) ;;
        push_copy sclaim (ForConfig primaza.1) deployment primaza.2
      else under_deletion sclaim (ForConfig primaza.1) deployment primaza.2
  end.

(** What the agent has read before it writes: where the control plane is, and its own
    deployment. *)
Definition agent_reads (req : NamespacedName) (cfg : RestConfig) (rns : string) (dep : Deployment)
    (t : list kevent) : Prop :=
  KEv (CBuildConfigFromFlags "/etc/primaza/kubeconfig") (Ok cfg) ∈ t ∧
  KEv (CReadFile "/etc/primaza/namespace") (Ok rns) ∈ t ∧
  KEv (CGet Manager KDeployment
         {| nn_Namespace := nn_Namespace req; nn_Name := ApplicationAgentDeploymentName |}) (Ok dep) ∈ t.

Definition remote_key (req : NamespacedName) (rns : string) : NamespacedName :=
  {| nn_Namespace := rns; nn_Name := nn_Name req |}.

(** The copy of the claim, targeted at the namespace of the claim in the environment
    that the deployment's label names. *)
Definition targeted_copy (req : NamespacedName) (rns : string) (dep : Deployment) (o : ServiceClaim) : Prop :=
  ObjectKeyFromObject (k := KServiceClaim) o = remote_key req rns ∧
  scs_Target (sc_Spec o) = Some (agent_target dep (nn_Namespace req)).

(** What a write of the agent may be, after [t]. *)
Definition claim_write (req : NamespacedName) (t : list kevent) (c : Call) : Prop :=
  is_write c → ∃ cfg rns dep, agent_reads req cfg rns dep t ∧
  match c with
  | CCreate cl k o => cl = ForConfig cfg ∧ at_kind KServiceClaim (targeted_copy req rns dep) k o
  | CUpdate cl k o => at_kind KServiceClaim (λ o : ServiceClaim,
      (cl = ForConfig cfg ∧ targeted_copy req rns dep o) ∨
      (cl = Manager ∧ ObjectKeyFromObject (k := KServiceClaim) o = req ∧
       (ContainsFinalizer (k := KServiceClaim) o ServiceClaimFinalizer = true ∨
        KEv (CDelete (ForConfig cfg) KServiceClaim (remote_key req rns)) None ∈ t))) k o
  | CStatusUpdate cl k o => cl = Manager ∧ at_kind KServiceClaim (λ o : ServiceClaim,
      ObjectKeyFromObject (k := KServiceClaim) o = req ∧
      scst_State (sc_Status o) = ServiceClaimStateInvalid) k o
  | CDelete cl k key => cl = ForConfig cfg ∧ k = KServiceClaim ∧ key = remote_key req rns
  | _ => False
  end.

Lemma claim_write_app req t t' c : claim_write req t c → claim_write req (t ++ t') c.
Proof.
  intros Hw Hc. destruct (Hw Hc) as (cfg & rns & dep & (? & ? & ?) & HP).
  exists cfg, rns, dep. split; [unfold agent_reads; set_solver|].
  destruct c; try done. unfold at_kind in *. destruct (decide _) as [<-|]; [|done]. set_solver.
Qed.

Lemma copy_key req sclaim dep rns :
  ObjectKeyFromObject (k := KServiceClaim) sclaim = req →
  targeted_copy req rns dep (createServiceClaimCopy sclaim dep rns).
Proof. intros <-. by split. Qed.

(** The writes of [push_copy]. *)
Lemma wp_push_copy req t sclaim cfg rns dep :
  agent_reads req cfg rns dep t → ObjectKeyFromObject (k := KServiceClaim) sclaim = req →
  only_calls legal (claim_write req t) (push_copy sclaim (ForConfig cfg) dep rns).
Proof.
  intros Hr Hk. unfold push_copy. apply only_calls_bind.
  - destruct (copy_key req sclaim dep rns Hk) as [Hck Htgt].
    eapply wp_mono; [apply wp_CreateOrUpdate; done|]. intros t' out (p & -> & Hp).
    assert (∀ x : ServiceClaim, ObjectKeyFromObject (k := KServiceClaim) x =
        ObjectKeyFromObject (k := KServiceClaim) (createServiceClaimCopy sclaim dep rns) →
      targeted_copy req rns dep (sc_with_Spec (sc_Spec (createServiceClaimCopy sclaim dep rns)) x)) as Hx.
    { intros x Hx. split; [|done]. by rewrite <- Hck, <- Hx. }
    assert (∀ x, ObjectKeyFromObject (k := KServiceClaim) x =
        ObjectKeyFromObject (k := KServiceClaim) (createServiceClaimCopy sclaim dep rns) →
      claim_write req t (CUpdate (ForConfig cfg) KServiceClaim
        (sc_with_Spec (sc_Spec (createServiceClaimCopy sclaim dep rns)) x))) as Hu.
    { intros x Hxk _. exists cfg, rns, dep. split; [done|]. apply at_kind_same. left. auto. }
    assert (claim_write req t (CCreate (ForConfig cfg) KServiceClaim
        (sc_with_Spec (sc_Spec (createServiceClaimCopy sclaim dep rns)) (createServiceClaimCopy sclaim dep rns)))) as Hc.
    { intros _. exists cfg, rns, dep. split; [done|]. split; [done|]. apply at_kind_same. auto. }
    destruct Hp; repeat constructor; simpl; auto; by intros [].
  - intros [x op]. calls; try (by intros []). intros _. exists cfg, rns, dep. split; [done|].
    split; [done|]. by apply at_kind_same.
Qed.

Lemma claim_update_write req t cfg rns dep (o : ServiceClaim) :
  agent_reads req cfg rns dep t → ObjectKeyFromObject (k := KServiceClaim) o = req →
  ContainsFinalizer (k := KServiceClaim) o ServiceClaimFinalizer = true ∨
    KEv (CDelete (ForConfig cfg) KServiceClaim (remote_key req rns)) None ∈ t →
  claim_write req t (CUpdate Manager KServiceClaim o).
Proof.
  intros Hr Hk Hf _. exists cfg, rns, dep. split; [done|]. apply at_kind_same. by right.
Qed.

(** Neither the claim nor the agent is being deleted. *)
Lemma wp_live req t sclaim cfg rns dep :
  agent_reads req cfg rns dep t → ObjectKeyFromObject (k := KServiceClaim) sclaim = req →
  kwp (let! sclaim :=
         (if negb (ContainsFinalizer (k := KServiceClaim) sclaim ServiceClaimFinalizer) then
            api (CUpdate Manager KServiceClaim
                   (AddFinalizer (k := KServiceClaim) sclaim ServiceClaimFinalizer).1)
          else mret (Ok sclaim)) ;;
       push_copy sclaim (ForConfig cfg) dep rns)
    (λ t' _, justified (λ t1 ev, claim_write req (t ++ t1) (projT1 ev)) t').
Proof.
  intros Hr Hk. refine (wp_mono legal _ (λ t' _, Forall (λ ev, claim_write req t (projT1 ev)) t') _ _ _);
    [|intros t' _; apply justified_after; apply claim_write_app].
  destruct (negb _).
  - wcall r Hr'. cbv beta.
    assert (claim_write req t (CUpdate Manager KServiceClaim
      (AddFinalizer (k := KServiceClaim) sclaim ServiceClaimFinalizer).1)) as Hu.
    { eapply claim_update_write; [done| |left; apply AddFinalizer_contains]. by rewrite key_AddFinalizer. }
    destruct r as [sclaim'|e]; [|wflow; by constructor].
    eapply wp_mono; [apply (wp_push_copy req t)|]; [done| |intros t' out Ht'; by constructor].
    assert (ObjectKeyFromObject (k := KServiceClaim) sclaim' = ObjectKeyFromObject
      (AddFinalizer (k := KServiceClaim) sclaim ServiceClaimFinalizer).1) as -> by exact Hr'.
    by rewrite key_AddFinalizer.
  - wret. by apply wp_push_copy.
Qed.

Lemma wp_under_deletion req t sclaim cfg rns dep :
  agent_reads req cfg rns dep t → ObjectKeyFromObject (k := KServiceClaim) sclaim = req →
  kwp (under_deletion sclaim (ForConfig cfg) dep rns)
    (λ t' _, justified (λ t1 ev, claim_write req (t ++ t1) (projT1 ev)) t').
Proof.
  intros Hr Hk. unfold under_deletion, deleteExternalResources.
  destruct (ContainsFinalizer _ _); [|wflow; apply justified_nil].
  destruct (copy_key req sclaim dep rns Hk) as [Hck _]. rewrite Hck.
  assert (∀ t1, claim_write req (t ++ t1) (CDelete (ForConfig cfg) KServiceClaim (remote_key req rns))) as Hd.
  { intros t1. apply claim_write_app. intros _. by exists cfg, rns, dep. }
  wcall err Herr. cbv beta. destruct err as [e|]; [wflow; by apply justified_one|].
  wcall r Hr'. wflow; apply (justified_app _ [_]); (by apply justified_one) ||
    (apply justified_one; eapply (claim_update_write _ _ cfg rns dep); [|by rewrite key_RemoveFinalizer|right; set_solver];
     unfold agent_reads in *; set_solver).
Qed.

Lemma wp_claim_writes req :
  kwp (Reconcile req) (λ t _, justified (λ t1 ev, claim_write req t1 (projT1 ev)) t).
Proof.
  assert (Hno : ∀ t : list kevent, Forall (λ ev, ¬ is_write (projT1 ev)) t →
    justified (λ t1 ev, claim_write req t1 (projT1 ev)) t).
  { intros t Ht. apply justified_all. eapply Forall_impl; [exact Ht|]. by intros ev Hev t1 ?%Hev. }
  unfold Reconcile. wcall got Hgot. cbv beta. destruct got as [sclaim|e]; [|wflow; apply Hno; by repeat constructor; intros []].
  unfold GetPrimazaKubeconfig. wcall cfg Hcfg. cbv beta. destruct cfg as [cfg|e]; [|wflow; apply Hno; by repeat constructor; intros []].
  wcall rns Hrns. cbv beta. destruct rns as [rns|e]; [|wflow; apply Hno; by repeat constructor; intros []].
  wret. cbn [fst snd]. wcall err Herr. cbv beta. destruct err as [e|]; [wflow; apply Hno; by repeat constructor; intros []|].
  unfold own_deployment. wcall dep Hdep. cbv beta.
  destruct dep as [dep|e]; [|wflow; apply Hno; by repeat constructor; intros []].
  wret. set (t0 := [KEv (CGet Manager KServiceClaim req) (Ok sclaim);
    KEv (CBuildConfigFromFlags "/etc/primaza/kubeconfig") (Ok cfg);
    KEv (CReadFile "/etc/primaza/namespace") (Ok rns); KEv (CNewClient cfg) None;
    KEv (CGet Manager KDeployment {| nn_Namespace := nn_Namespace req;
                                     nn_Name := ApplicationAgentDeploymentName |}) (Ok dep)]).
  assert (Hreads : ∀ t, agent_reads req cfg rns dep (t0 ++ t)) by (intros t; unfold agent_reads, t0; set_solver).
  refine (wp_mono legal _ (λ t _, justified (λ t1 ev, claim_write req (t0 ++ t1) (projT1 ev)) t) _ _ _).
  2: { intros t out Ht. change (justified (λ t1 ev, claim_write req t1 (projT1 ev)) (t0 ++ t)).
       apply justified_app; [apply Hno; by repeat constructor; intros []|done]. }
  specialize (Hreads []). rewrite app_nil_r in Hreads. clearbody t0.
  destruct (negb _ && negb _).
  - apply wp_live; [done|done].
  - by apply wp_under_deletion.
Qed.

(** C26: the application agent copies a claim to the control plane and writes nothing
    else: in the namespace and through the configuration that its files give, it creates,
    updates and deletes the claim of the same name only, targeted at the claim's
    namespace in the cluster environment its deployment is labelled with, and no
    environment tag.  In its own cluster it updates the claim only, sets its status to
    Invalid only, and removes its finalizer only after the copy was deleted without an
    error. *)
Theorem claim_agent_writes req :
  kwp (Reconcile req) (λ t _, justified (λ t1 ev, claim_write req t1 (projT1 ev)) t).
Proof. exact (wp_claim_writes req). Qed.
End ServiceClaims.

(** ** servicecatalog_controller.go *)

Module Catalogs.

(** The catalog as the function leaves it, and the error. *)
Definition setOwnerReference (scat : ServiceCatalog) (namespace : string)
    : M (ServiceCatalog * option gerr) :=
  got ← api (CGet Manager KDeployment
               {| nn_Namespace := namespace; nn_Name := ApplicationAgentDeploymentName |});
  match got with
  | Err err => mret (scat, IgnoreNotFound (Some err))
  | Ok deployment =>
      mret (SetControllerReference (ko := KDeployment) (k := KServiceCatalog) deployment scat)
  end.

(** Every error of the first read is dropped. *)
Definition Reconcile (req : NamespacedName) : M (option gerr) :=
  got ← api (CGet Manager KServiceCatalog req);
  match got with
  | Err _ => mret None
  | Ok scat =>
      '(scat, err) ← setOwnerReference scat (nn_Namespace req);
      match err with
      | Some e => mret (Some e)
      | None => r ← api (CUpdate Manager KServiceCatalog scat); mret (result_err r)
      end
  end.
End Catalogs.

(** ** agentapp_controller.go *)

Module Agent.
Definition agentappfinalizer : string := "agentapp.primaza.io/finalizer".

Definition remove_all (k : Kind) (req : NamespacedName) : M (option gerr) :=
  err ← api (CDeleteAllOf Manager k (nn_Namespace req));
  mret (IgnoreNotFound err).
Definition removeServiceCatalog : NamespacedName → M (option gerr) := remove_all KServiceCatalog.
Definition removeServiceBinding : NamespacedName → M (option gerr) := remove_all KServiceBinding.

Definition removePrimazaResources (req : NamespacedName) : M (option gerr) :=
  cerr ← removeServiceCatalog req;
  berr ← removeServiceBinding req;
  mret (errors_join [cerr; berr]).

Definition Reconcile (req : NamespacedName) : M (option gerr) :=
  let! d := own_deployment ApplicationAgentDeploymentName (nn_Namespace req) ;;
  if HasDeletionTimestamp (dep_meta d) then
    do! removePrimazaResources req ;;
    let '(d, removed) := RemoveFinalizer (k := KDeployment) d agentappfinalizer in
    if removed then r ← api (CUpdate Manager KDeployment d); mret (result_err r) else mret None
  else if negb (ContainsFinalizer (k := KDeployment) d agentappfinalizer) then
    r ← api (CUpdate Manager KDeployment (AddFinalizer (k := KDeployment) d agentappfinalizer).1);
    mret (result_err r)
  else mret None.
End Agent.
