(* ===== verification/ClaimRouting.v ===== *)
(** * Where the claims of an application namespace go

    The application agent ([AppAgent.v]) copies a claim to the control plane under a
    target that names its environment and namespace; the service claim controller
    ([ServiceClaimCtrl.v]) reads the copy and writes in worker clusters.  This file
    follows the target from one to the other: what a run of the controller writes in a
    worker cluster is where a claim it read points, and with the API server of
    [ApiServer.v] in between, where the agent said. *)

From S2P Require Import Prelude Prog GoErr Types Kube WorkerCluster AppNamespaces ServiceClaimCtrl ApiServer ClaimRace AppAgent.

#[local] Open Scope string_scope.
#[local] Open Scope list_scope.
#[local] Open Scope primaza_scope.

(** ** The target of a claim *)

Definition claim_key (sc : ServiceClaim) : NamespacedName := ObjectKeyFromObject (k := KServiceClaim) sc.

(** The claim that the control plane answers, to a read of one claim or to a write. *)
Definition claim_answer (ev : kevent) : option ServiceClaim :=
  match request_of KServiceClaim ev with
  | Some (RGet _ (Ok sc)) | Some (RUpdate _ (Ok sc)) | Some (RStatus _ (Ok sc)) => Some sc
  | _ => None
  end.

(** The claim [req] was seen with the target. *)
Definition claim_seen (req : NamespacedName) (tgt : ServiceClaimTarget) (t : list kevent) : Prop :=
  ∃ ev sc, ev ∈ t ∧ claim_answer ev = Some sc ∧ claim_key sc = req ∧ scs_Target (sc_Spec sc) = Some tgt.

(** The claim that a call creates or updates in the control plane. *)
Definition claim_written (c : Call) : option ServiceClaim :=
  match c with
  | CCreate Manager KServiceClaim o | CUpdate Manager KServiceClaim o => Some o
  | _ => None
  end.

Lemma claim_answer_event ev sc : claim_answer ev = Some sc → ∃ q : request KServiceClaim, ev = event_of q ∧ sc ∈ answered q.
Proof.
  unfold claim_answer. destruct (request_of KServiceClaim ev) as [q|] eqn:Hq; [|done].
  apply request_of_Some in Hq. intros Hsc. exists q. split; [done|].
  destruct q as [? [|]|?|?|? [|]|? [|]|]; try done; injection Hsc as ->; by left.
Qed.

Section Routing.
Context `{KubeconfigLib}.
Context (req : NamespacedName).

(** The environment that a target means: the named one, in the tenant's namespace, or
    any with the tag. *)
Definition target_environment (tgt : ServiceClaimTarget) (ce : ClusterEnvironment) (t : list kevent) : Prop :=
  match tgt_ApplicationClusterContext tgt with
  | Some acc =>
      KEv (CGet Manager KClusterEnvironment
             {| nn_Namespace := nn_Namespace req; nn_Name := acc_ClusterEnvironmentName acc |}) (Ok ce) ∈ t
  | None =>
      ces_EnvironmentName (ce_Spec ce) = tgt_EnvironmentTag tgt ∧
      ∃ items, KEv (CList Manager KClusterEnvironment (InNamespace "")) (Ok items) ∈ t ∧ ce ∈ items
  end.

(** The namespaces of that environment that a target means. *)
Definition target_namespace (tgt : ServiceClaimTarget) (ce : ClusterEnvironment) (ns : string) : Prop :=
  match tgt_ApplicationClusterContext tgt with
  | Some acc => ns = acc_Namespace acc
  | None => ns ∈ ces_ApplicationNamespaces (ce_Spec ce)
  end.

(** What is written in a worker cluster is written where a target of the claim points:
    through the configuration of an environment it means, in a namespace it means; and
    bindings and secrets in a declared application namespace only. *)
Definition routed (t : list kevent) (ev : kevent) : Prop :=
  ∀ cfg key, write_target (projT1 ev) = Some (ForConfig cfg, key) →
    ∃ tgt ce, claim_seen req tgt t ∧ target_environment tgt ce t ∧ env_config ce cfg t ∧
      target_namespace tgt ce (nn_Namespace key) ∧
      (pushes (projT1 ev) → nn_Namespace key ∈ ces_ApplicationNamespaces (ce_Spec ce)).

(** Of the claim in the control plane only metadata and status are changed. *)
Definition kept (t : list kevent) (ev : kevent) : Prop :=
  ∀ o, claim_written (projT1 ev) = Some o →
    ∃ ev' sc, ev' ∈ t ∧ claim_answer ev' = Some sc ∧ claim_key o = claim_key sc ∧ sc_Spec o = sc_Spec sc.

Definition sound (t : list kevent) (ev : kevent) : Prop := routed t ev ∧ kept t ev.

(** A call that writes in no worker cluster, nor the claim. *)
Definition local (c : Call) : Prop :=
  (∀ cfg key, write_target c ≠ Some (ForConfig cfg, key)) ∧ claim_written c = None.

Lemma local_read c : ¬ is_write c → local c.
Proof. destruct c; simpl; try tauto; intros _; by split; [intros ? ?|]. Qed.

Lemma local_sound t ev : local (projT1 ev) → sound t ev.
Proof. intros [Hl Hn]. split; [intros cfg key Hw; by destruct (Hl cfg key)|]. intros o. by rewrite Hn. Qed.

Lemma after_local {A} t0 (p : M A) : only_calls legal local p → after legal sound t0 p.
Proof. intros Hp. eapply after_calls; [exact Hp|]. intros t ev. apply local_sound. Qed.

Lemma after_reads {A} t0 (p : M A) : only_calls legal (λ c, ¬ is_write c) p → after legal sound t0 p.
Proof. intros Hp. apply after_local. eapply only_calls_mono; [exact Hp|]. apply local_read. Qed.

(** Knowledge is kept. *)
Lemma sound_mono t t' ev : (∀ e, e ∈ t → e ∈ t') → sound t ev → sound t' ev.
Proof.
  intros Hsub [Hr Hk]. split.
  - intros cfg key Hw. destruct (Hr cfg key Hw) as (tgt & ce & (ev' & sc & ? & ?) & Hce & Hcfg & Hns).
    exists tgt, ce. split; [exists ev', sc; auto|]. split; [|split; [by eapply env_config_mono|done]].
    unfold target_environment in *. destruct (tgt_ApplicationClusterContext tgt); [by apply Hsub|].
    destruct Hce as (? & items & ? & ?). split; [done|]. exists items. auto.
  - intros o Ho. destruct (Hk o Ho) as (ev' & sc & ? & ?). exists ev', sc. auto.
Qed.

Lemma claim_seen_mono tgt t t' : (∀ e, e ∈ t → e ∈ t') → claim_seen req tgt t → claim_seen req tgt t'.
Proof. intros Hsub (ev & sc & Hev & Hsc). exists ev, sc. split; [by apply Hsub|done]. Qed.

Lemma target_environment_mono tgt ce t t' :
  (∀ e, e ∈ t → e ∈ t') → target_environment tgt ce t → target_environment tgt ce t'.
Proof.
  intros Hsub. unfold target_environment. destruct (tgt_ApplicationClusterContext tgt); [apply Hsub|].
  intros (? & items & Hit & ?). split; [done|]. exists items. auto.
Qed.

Lemma elem_app_l {A} (e : A) l l' : e ∈ l → e ∈ l ++ l'.
Proof. intros He. apply elem_of_app. by left. Qed.
Lemma elem_app_r {A} (e : A) l l' : e ∈ l' → e ∈ l ++ l'.
Proof. intros He. apply elem_of_app. by right. Qed.

(** The claim a run works with, all of whose targets were seen. *)
Definition held (t : list kevent) (sc : ServiceClaim) : Prop :=
  claim_key sc = req ∧ ∀ tgt, scs_Target (sc_Spec sc) = Some tgt → claim_seen req tgt t.

Lemma held_app t u sc : held t sc → held (t ++ u) sc.
Proof.
  intros [Hk Ht]. split; [done|]. intros tgt Htgt. eapply claim_seen_mono; [|by apply Ht].
  intros e. apply elem_app_l.
Qed.

(** An answer about the claim. *)
Lemma held_answer t ev sc : claim_answer ev = Some sc → claim_key sc = req → held (t ++ [ev]) sc.
Proof.
  intros Hev Hk. split; [done|]. intros tgt Htgt. exists ev, sc. split; [|done].
  apply elem_app_r. by left.
Qed.

(** Only the status of the claim changes. *)
Lemma held_status t sc sc' : sc_meta sc' = sc_meta sc → sc_Spec sc' = sc_Spec sc → held t sc → held t sc'.
Proof.
  intros Hm Hs [Hk Ht]. split; [|by rewrite Hs]. rewrite <- Hk. unfold claim_key, ObjectKeyFromObject.
  unfold obj_Namespace, obj_Name. simpl. by rewrite Hm.
Qed.

(** ** What the parts of a run write *)

(** [target] gives a target that was seen. *)
Lemma after_target {A} t0 sc (f : ServiceClaimTarget → M A) :
  held t0 sc →
  (∀ tgt, scs_Target (sc_Spec sc) = Some tgt → claim_seen req tgt t0 → after legal sound t0 (f tgt)) →
  after legal sound t0 (target sc ≫= f).
Proof.
  intros [Hk Ht] Hf. unfold target, deref. destruct (scs_Target (sc_Spec sc)) as [tgt|].
  - apply wp_ret_bind. by apply Hf; [|apply Ht].
  - apply wp_halt, justified_nil.
Qed.

(** The configuration of an environment, if it is found. *)
Lemma after_rest_config {A} t0 ce (f : result RestConfig → M A) :
  (∀ t e, after legal sound (t0 ++ t) (f (Err e))) →
  (∀ t cfg, env_config ce cfg (t0 ++ t) → after legal sound (t0 ++ t) (f (Ok cfg))) →
  after legal sound t0 (ClusterContext.GetClusterRESTConfig Manager (om_Namespace (ce_meta ce))
    (ces_ClusterContextSecret (ce_Spec ce)) ≫= f).
Proof.
  intros He Hc. eapply after_bind; [apply wp_GetClusterRESTConfig|apply after_reads, only_calls_rest_config|].
  intros t [cfg|e] [_ Hcfg]; [|apply He]. apply Hc. eapply env_config_mono; [|by apply Hcfg].
  intros ev. apply elem_app_r.
Qed.

Lemma after_client {A} t0 ce (f : result Client → M A) :
  (∀ t e, after legal sound (t0 ++ t) (f (Err e))) →
  (∀ t cfg, env_config ce cfg (t0 ++ t) → after legal sound (t0 ++ t) (f (Ok (ForConfig cfg)))) →
  after legal sound t0 (ClusterContext.CreateClient Manager ce ≫= f).
Proof.
  intros He Hc. eapply after_bind; [apply wp_CreateClient| |].
  - eapply after_calls; [eapply wp_mono; [apply wp_CreateClient|by intros t o [Ht _]; exact Ht]|].
    intros t ev Hev. by apply local_sound, local_read.
  - intros t [cli|e] [_ Hcli]; [|apply He]. destruct (Hcli cli eq_refl) as (cfg & -> & Hcfg).
    apply Hc. eapply env_config_mono; [|exact Hcfg]. intros ev. apply elem_app_r.
Qed.

(** The cluster environment that the target's context names. *)
Lemma after_environment {A} t0 sc acc tgt (f : result ClusterEnvironment → M A) :
  held t0 sc → tgt_ApplicationClusterContext tgt = Some acc →
  (∀ t e, after legal sound (t0 ++ t) (f (Err e))) →
  (∀ t ce, target_environment tgt ce (t0 ++ t) → after legal sound (t0 ++ t) (f (Ok ce))) →
  after legal sound t0
    (getEnvironmentFromClusterEnvironment (om_Namespace (sc_meta sc)) (acc_ClusterEnvironmentName acc) ≫= f).
Proof.
  intros [Hk _] Hacc He Hc. unfold getEnvironmentFromClusterEnvironment.
  refine (after_call legal sound t0 (CGet Manager KClusterEnvironment _) f _ _).
  - intros r _. apply local_sound, local_read. not_event.
  - intros [ce|e] Hr; [|apply He]. apply Hc. unfold target_environment. rewrite Hacc.
    apply elem_app_r. rewrite <- Hk. by left.
Qed.

(** Writes in a worker cluster, at targets that are known already. *)
Lemma after_writes {A} t0 tgt ce cfg (p : M A) :
  claim_seen req tgt t0 → target_environment tgt ce t0 → env_config ce cfg t0 →
  only_calls legal (λ c, writes (λ cl key, cl = ForConfig cfg ∧ target_namespace tgt ce (nn_Namespace key) ∧
    (pushes c → nn_Namespace key ∈ ces_ApplicationNamespaces (ce_Spec ce))) c) p →
  after legal sound t0 p.
Proof.
  intros Hs Hce Hcfg Hp. eapply after_calls; [exact Hp|]. intros t ev. unfold writes. intros Hev.
  split.
  2: { intros o Ho. destruct ev as [[] r]; try done; destruct cl; try done; destruct Hev as [[=] _]. }
  intros cfg' key Hw. rewrite Hw in Hev. destruct Hev as ([= ->] & Hns & Hpush).
  exists tgt, ce. assert (Hsub : ∀ e, e ∈ t0 → e ∈ t0 ++ t) by (intros e; apply elem_app_l).
  split; [by eapply claim_seen_mono|]. split; [by eapply target_environment_mono|].
  split; [by eapply env_config_mono|done].
Qed.

(** ** Pushing, publishing and deleting *)

Lemma after_PushServiceBinding t0 tgt ce cfg sc secret nspace :
  claim_seen req tgt t0 → target_environment tgt ce t0 → env_config ce cfg t0 →
  nspace = acc_Namespace <$> tgt_ApplicationClusterContext tgt →
  after legal sound t0 (PushServiceBinding sc secret nspace (ces_ApplicationNamespaces (ce_Spec ce)) cfg).
Proof.
  intros Hs Hce Hcfg Hn. apply (after_writes t0 tgt ce cfg); [done..|].
  eapply only_calls_mono; [apply PushServiceBinding_targets|]. intros c. unfold writes.
  destruct (write_target c) as [[cl key]|]; [|done]. intros (-> & Hin & Hsel). split; [done|]. split; [|done].
  unfold target_namespace. subst nspace. destruct (tgt_ApplicationClusterContext tgt); [|done].
  by destruct Hsel as [|[= ->]].
Qed.

Lemma after_push_environments tgt sc tag ces secret errs t0 :
  claim_seen req tgt t0 → tgt_ApplicationClusterContext tgt = None → tag = tgt_EnvironmentTag tgt →
  (∃ items, KEv (CList Manager KClusterEnvironment (InNamespace "")) (Ok items) ∈ t0 ∧ ces ⊆ items) →
  after legal sound t0 (push_environments sc tag ces secret errs).
Proof.
  intros Hs Hacc Htag. revert t0 secret errs Hs. induction ces as [|ce ces IH]; intros t0 secret errs Hs (items & Hit & Hsub);
    cbn [push_environments]; [apply after_ret|].
  assert (Hsub' : ∀ u, ∃ items, KEv (CList Manager KClusterEnvironment (InNamespace "")) (Ok items) ∈ t0 ++ u ∧ ces ⊆ items).
  { intros u. exists items. split; [by apply elem_app_l|set_solver]. }
  assert (Hs' : ∀ u, claim_seen req tgt (t0 ++ u)).
  { intros u. eapply claim_seen_mono; [|exact Hs]. intros e. apply elem_app_l. }
  apply after_rest_config; [intros t e; apply after_ret|]. intros t cfg Hcfg.
  case_bool_decide as Hname; [by apply IH|].
  eapply (after_bind legal _ _ _ _ (λ _ _, True)); [by intros ? ? ?| |].
  - apply (after_PushServiceBinding _ tgt); [done| |done|by rewrite Hacc].
    unfold target_environment. rewrite Hacc. split; [congruence|]. exists items.
    split; [by apply elem_app_l|]. apply Hsub. by left.
  - intros u [secret' err] _. rewrite <- app_assoc. by apply IH.
Qed.

Lemma after_push t0 sc secret : held t0 sc → after legal sound t0 (pushToClusterEnvironments sc secret).
Proof.
  intros Hheld. unfold pushToClusterEnvironments. apply after_target; [done|]. intros tgt Htgt Hs.
  destruct (tgt_ApplicationClusterContext tgt) as [acc|] eqn:Hacc.
  - eapply after_environment; [done..|intros t e; apply after_ret|]. intros t ce Hce.
    apply after_rest_config; [intros u e; apply after_ret|]. intros u cfg Hcfg.
    eapply (after_bind legal _ _ _ _ (λ _ _, True)); [by intros ? ? ?| |intros ? [? ?] _; apply after_ret].
    apply (after_PushServiceBinding _ tgt); [| |done|by rewrite Hacc].
    + eapply claim_seen_mono; [|exact Hs]. intros e ?. by do 2 apply elem_app_l.
    + eapply target_environment_mono; [|exact Hce]. intros e. apply elem_app_l.
  - refine (after_call legal sound t0 (CList Manager KClusterEnvironment _) _ _ _).
    + intros r _. apply local_sound, local_read. not_event.
    + intros [items|e] _; [|apply after_ret]. apply (after_push_environments tgt); [|done..|].
      * eapply claim_seen_mono; [|exact Hs]. intros e. apply elem_app_l.
      * exists items. split; [|done]. apply elem_app_r. by left.
Qed.

Lemma after_remote_status t0 sc :
  held t0 sc → after legal sound t0 (updateRemoteServiceClaimStatusIfNeeded sc).
Proof.
  intros Hheld. unfold updateRemoteServiceClaimStatusIfNeeded. apply after_target; [done|]. intros tgt Htgt Hs.
  destruct (tgt_ApplicationClusterContext tgt) as [acc|] eqn:Hacc; [|apply after_ret].
  eapply after_environment; [done..|intros t e; apply after_ret|]. intros t ce Hce.
  apply after_rest_config; [intros u e; apply after_ret|]. intros u cfg Hcfg.
  assert (Hs' : claim_seen req tgt ((t0 ++ t) ++ u)).
  { eapply claim_seen_mono; [|exact Hs]. intros e ?. by do 2 apply elem_app_l. }
  assert (Hce' : target_environment tgt ce ((t0 ++ t) ++ u)).
  { eapply target_environment_mono; [|exact Hce]. intros e. apply elem_app_l. }
  revert Hs' Hce' Hcfg. generalize ((t0 ++ t) ++ u). intros v Hs' Hce' Hcfg.
  apply (after_writes v tgt ce cfg); [done..|]. unfold only_calls.
  wcall err Herr. cbv beta. destruct err as [err|]; [wflow; by repeat constructor|].
  wcall got Hgot. cbv beta. wflow; try by repeat constructor.
  all: wcall r Hr; wflow; repeat apply Forall_cons_2; try done.
  all: split; [done|]; split; [|by intros []].
  all: unfold target_namespace; rewrite Hacc; exact (f_equal nn_Namespace Hgot).
Qed.

Lemma after_update {A} t0 sc (f : ServiceClaim * option gerr → M A) :
  held t0 sc → (∀ t sc' err, held (t0 ++ t) sc' → after legal sound (t0 ++ t) (f (sc', err))) →
  after legal sound t0 (updateServiceClaimStatus sc ≫= f).
Proof.
  intros Hheld Hf. unfold updateServiceClaimStatus. apply after_assoc.
  refine (after_call legal sound t0 (CStatusUpdate Manager KServiceClaim sc) _ _ _).
  { intros r _. by apply local_sound; split; [intros ? ?|]. }
  intros [sc'|e] Hr.
  - assert (Hheld' : held (t0 ++ [KEv (CStatusUpdate Manager KServiceClaim sc) (Ok sc')]) sc').
    { apply held_answer; [|transitivity (claim_key sc); [exact Hr|apply Hheld]].
      reflexivity. }
    apply after_assoc. eapply (after_bind legal _ _ _ _ (λ _ _, True)); [by intros ? ? ?|by apply after_remote_status|].
    intros u err _. apply after_ret_bind. rewrite <- app_assoc. apply Hf. rewrite app_assoc. by apply held_app.
  - apply after_ret_bind, Hf. by apply held_app.
Qed.

Lemma changeServiceState_local rs state : only_calls legal local (changeServiceState rs state).
Proof. unfold changeServiceState. calls; by split; [intros ? ?|]. Qed.

(** A part that writes in no worker cluster, in front. *)
Lemma after_local_bind {A B} t0 (p : M A) (f : A → M B) :
  only_calls legal local p → (∀ t a, after legal sound (t0 ++ t) (f a)) → after legal sound t0 (p ≫= f).
Proof.
  intros Hp Hf. eapply (after_bind legal _ _ _ _ (λ _ _, True)); [by intros ? ? ?|by apply after_local|].
  intros t a _. apply Hf.
Qed.

Lemma reads_local {A} (p : M A) : only_calls legal (λ c, ¬ is_write c) p → only_calls legal local p.
Proof. intros Hp. eapply only_calls_mono; [exact Hp|]. apply local_read. Qed.

(** What [processServiceClaim] and [processResolvedServiceClaim] do once the service is
    claimed. *)
Lemma after_claimed t0 sc rs secret (g : gerr → option gerr) :
  held t0 sc → after legal sound t0
    (err ← pushToClusterEnvironments sc secret;
     match err with
     | Some err => _ ← changeServiceState rs RegisteredServiceStateAvailable; mret (g err)
     | None => '(_, err) ← updateServiceClaimStatus sc; mret err
     end).
Proof.
  intros Hheld. eapply (after_bind legal _ _ _ _ (λ _ _, True)); [by intros ? ? ?|by apply after_push|].
  intros t [err|] _.
  - apply after_local_bind; [apply changeServiceState_local|]. intros u r. apply after_ret.
  - apply after_update; [by apply held_app|]. intros u sc' err _. apply after_ret.
Qed.

Lemma after_leave_pending t0 sc message : held t0 sc → after legal sound t0 (leave_pending sc message).
Proof.
  intros Hheld. unfold leave_pending.
  apply after_local_bind; [calls; by split; [intros ? ?|]|]. intros t now.
  apply after_local_bind; [calls; by split; [intros ? ?|]|]. intros u cs.
  apply after_update; [do 2 apply held_app; by apply (held_status _ sc)|].
  intros v sc' [err|] _; apply after_ret.
Qed.

Lemma after_processServiceClaim t0 rsl sc : held t0 sc → after legal sound t0 (processServiceClaim rsl sc).
Proof.
  intros Hheld. unfold processServiceClaim.
  apply after_local_bind; [apply reads_local, only_calls_environment|]. intros t [env|e]; [|apply after_ret].
  destruct (find_first _ _) as [rs|]; [|by apply after_leave_pending, held_app].
  apply after_local_bind; [apply reads_local, only_calls_extract|]. intros u [secret count].
  case_bool_decide; [by apply after_leave_pending; do 2 apply held_app|].
  apply after_update; [do 2 apply held_app; by apply (held_status _ sc)|].
  intros v sc' [err|] Hheld'; [apply after_ret|].
  apply after_local_bind; [apply changeServiceState_local|]. intros w [err|]; [apply after_ret|].
  apply after_claimed. apply held_app. by apply (held_status _ sc').
Qed.

Lemma after_processResolved t0 sc : held t0 sc → after legal sound t0 (processResolvedServiceClaim sc).
Proof.
  intros Hheld. unfold processResolvedServiceClaim.
  destruct (scst_RegisteredService _) as [ref|]; [|apply after_ret].
  apply after_local_bind; [calls; by split; [intros ? ?|]|]. intros t [rs|e]; [|apply after_ret].
  apply after_local_bind; [unfold getServiceEndpointDefinition; calls; apply reads_local, only_calls_extract|].
  intros u secret. apply after_update; [do 2 apply held_app; by apply (held_status _ sc)|].
  intros v sc' [err|] Hheld'; [apply after_ret|].
  apply after_local_bind; [apply changeServiceState_local|]. intros w [err|]; [apply after_ret|].
  apply (after_claimed _ _ _ _ Some). apply held_app. by apply (held_status _ sc').
Qed.

Lemma after_DeleteServiceBindings t0 tgt ce cfg sc nss :
  claim_seen req tgt t0 → target_environment tgt ce t0 → env_config ce cfg t0 →
  (∀ ns, ns ∈ nss → target_namespace tgt ce ns) →
  after legal sound t0 (DeleteServiceBindingAndSecretFromNamespaces (ForConfig cfg) sc nss).
Proof.
  intros Hs Hce Hcfg Hns. apply (after_writes t0 tgt ce cfg); [done..|].
  eapply only_calls_mono; [apply only_calls_DeleteServiceBindings|]. intros c (ns & Hin & ->).
  split; [done|]. split; [by apply Hns|by intros []].
Qed.

Lemma after_delete_environments tgt sc tag ces errs t0 :
  claim_seen req tgt t0 → tgt_ApplicationClusterContext tgt = None → tag = tgt_EnvironmentTag tgt →
  (∃ items, KEv (CList Manager KClusterEnvironment (InNamespace "")) (Ok items) ∈ t0 ∧ ces ⊆ items) →
  after legal sound t0 (delete_environments sc tag ces errs).
Proof.
  intros Hs Hacc Htag. revert t0 errs Hs. induction ces as [|ce ces IH]; intros t0 errs Hs (items & Hit & Hsub);
    cbn [delete_environments]; [apply after_ret|].
  assert (Hsub' : ∀ u, ∃ items, KEv (CList Manager KClusterEnvironment (InNamespace "")) (Ok items) ∈ t0 ++ u ∧ ces ⊆ items).
  { intros u. exists items. split; [by apply elem_app_l|set_solver]. }
  assert (Hs' : ∀ u, claim_seen req tgt (t0 ++ u)).
  { intros u. eapply claim_seen_mono; [|exact Hs]. intros e. apply elem_app_l. }
  apply after_client; [intros t e; apply after_ret|]. intros t cfg Hcfg.
  case_bool_decide as Hname; [by apply IH|].
  eapply (after_bind legal _ _ _ _ (λ _ _, True)); [by intros ? ? ?| |].
  - apply (after_DeleteServiceBindings _ tgt ce); [done| |done|].
    + unfold target_environment. rewrite Hacc. split; [congruence|]. exists items.
      split; [by apply elem_app_l|]. apply Hsub. by left.
    + intros ns. unfold target_namespace. by rewrite Hacc.
  - intros u err _. rewrite <- app_assoc. by apply IH.
Qed.

Lemma after_DeleteServiceBindingsAndSecret t0 sc :
  held t0 sc → after legal sound t0 (DeleteServiceBindingsAndSecret sc).
Proof.
  intros Hheld. unfold DeleteServiceBindingsAndSecret. apply after_target; [done|]. intros tgt Htgt Hs.
  destruct (tgt_ApplicationClusterContext tgt) as [acc|] eqn:Hacc.
  - eapply after_environment; [done..|intros t e; apply after_ret|]. intros t ce Hce.
    apply after_client; [intros u e; apply after_ret|]. intros u cfg Hcfg.
    eapply (after_bind legal _ _ _ _ (λ _ _, True)); [by intros ? ? ?| |intros ? ? _; apply after_ret].
    apply (after_DeleteServiceBindings _ tgt ce); [| |done|].
    + eapply claim_seen_mono; [|exact Hs]. intros e ?. by do 2 apply elem_app_l.
    + eapply target_environment_mono; [|exact Hce]. intros e. apply elem_app_l.
    + intros ns ->%list_elem_of_singleton. unfold target_namespace. by rewrite Hacc.
  - refine (after_call legal sound t0 (CList Manager KClusterEnvironment _) _ _ _).
    + intros r _. apply local_sound, local_read. not_event.
    + intros [items|e] _; [|apply after_ret]. apply (after_delete_environments tgt); [|done..|].
      * eapply claim_seen_mono; [|exact Hs]. intros e. apply elem_app_l.
      * exists items. split; [|done]. apply elem_app_r. by left.
Qed.

Lemma after_processClaimMarkedForDeletion t0 sc :
  held t0 sc → after legal sound t0 (processClaimMarkedForDeletion req sc).
Proof.
  intros Hheld. unfold processClaimMarkedForDeletion.
  apply after_local_bind; [calls; by split; [intros ? ?|]|]. intros t rsl.
  apply after_local_bind; [apply reads_local, find_to_free_reads|]. intros u found.
  eapply (after_bind legal _ _ _ _ (λ _ _, True)); [by intros ? ? ?| |].
  - apply after_DeleteServiceBindingsAndSecret. by do 2 apply held_app.
  - intros v derr _. apply after_local_bind; [|intros w cerr; apply after_ret].
    destruct found; calls. apply changeServiceState_local.
Qed.

(** ** The reconciler *)

Lemma after_live t0 sc :
  held t0 sc → after legal sound t0
    ('(sclaim, err) ← ensureServiceClaimIsInitialized sc;
     match err with
     | Some err => mret (Some err)
     | None => if ⟪ scst_State (sc_Status sclaim) = ServiceClaimStateResolved ⟫
               then processResolvedServiceClaim sclaim else processClaim req sclaim
     end).
Proof.
  intros Hheld.
  assert (Hrest : ∀ t sc', held t sc' → after legal sound t
    (if ⟪ scst_State (sc_Status sc') = ServiceClaimStateResolved ⟫
     then processResolvedServiceClaim sc' else processClaim req sc')).
  { intros t sc' Hheld'. case_bool_decide; [by apply after_processResolved|]. unfold processClaim.
    apply after_local_bind; [calls; by split; [intros ? ?|]|]. intros u [rsl|e]; [|apply after_ret].
    by apply after_processServiceClaim, held_app. }
  unfold ensureServiceClaimIsInitialized. case_bool_decide.
  { apply after_ret_bind. by apply Hrest. }
  apply after_assoc, after_local_bind; [calls; by split; [intros ? ?|]|]. intros t id. apply after_assoc.
  set (sc1 := sc_set_Status sc _).
  refine (after_call legal sound _ (CStatusUpdate Manager KServiceClaim sc1) _ _ _).
  { intros r _. by apply local_sound; split; [intros ? ?|]. }
  intros [sc'|e] Hr; apply after_ret_bind; [|apply after_ret]. apply Hrest, held_answer; [reflexivity|].
  transitivity (claim_key sc1); [exact Hr|]. apply Hheld.
Qed.

Lemma after_Reconcile : after legal sound [] (Reconcile req).
Proof.
  unfold Reconcile. refine (after_call legal sound [] (CGet Manager KServiceClaim req) _ _ _).
  { intros r _. apply local_sound, local_read. not_event. }
  intros [sc|e] Hr; [|apply after_ret].
  assert (Hheld : held ([] ++ [KEv (CGet Manager KServiceClaim req) (Ok sc)]) sc) by by apply held_answer.
  assert (Hread : ∃ ev0, ev0 ∈ [] ++ [KEv (CGet Manager KServiceClaim req) (Ok sc)] ∧ claim_answer ev0 = Some sc).
  { eexists. split; [by left|done]. }
  revert Hheld Hread. generalize ([] ++ [KEv (CGet Manager KServiceClaim req) (Ok sc)]). intros t0 Hheld (ev0 & Hev0 & Hsc).
  assert (Hupd : ∀ t sc1 r, claim_key sc1 = claim_key sc → sc_Spec sc1 = sc_Spec sc →
    sound (t0 ++ t) (KEv (CUpdate Manager KServiceClaim sc1) r)).
  { intros t sc1 r Hk Hsp. split; [by intros ? ?|]. intros o [= <-]. exists ev0, sc.
    split; [by apply elem_app_l|done]. }
  destruct (HasDeletionTimestamp _).
  - destruct (ContainsFinalizer _ _); [|apply after_ret].
    eapply (after_bind legal _ _ _ _ (λ _ _, True)); [by intros ? ? ?|by apply after_processClaimMarkedForDeletion|].
    intros t [err|] _; [apply after_ret|].
    destruct (RemoveFinalizer _ _) as [sc1 removed] eqn:Hrem. destruct (negb removed); [apply after_ret|].
    refine (after_call legal sound _ (CUpdate Manager KServiceClaim sc1) _ _ _); [|intros r _; apply after_ret].
    intros r _. pose proof (key_RemoveFinalizer (k := KServiceClaim) sc ServiceClaimFinalizer) as Hk.
    rewrite Hrem in Hk. apply Hupd; [exact Hk|]. revert Hrem. unfold RemoveFinalizer. by intros [= <- _].
  - destruct (AddFinalizer _ _) as [sc1 added] eqn:Hadd.
    assert (Hk1 : claim_key sc1 = req ∧ sc_Spec sc1 = sc_Spec sc).
    { pose proof (key_AddFinalizer (k := KServiceClaim) sc ServiceClaimFinalizer) as Hk.
      rewrite Hadd in Hk. split; [transitivity (claim_key sc); [exact Hk|apply Hheld]|].
      revert Hadd. unfold AddFinalizer. case_match; by intros [= <- _]. }
    destruct added.
    + refine (after_call legal sound _ (CUpdate Manager KServiceClaim sc1) _ _ _).
      { intros r _. destruct Hk1 as [Hk1 Hs1]. rewrite <- (app_nil_r t0). apply Hupd; [|done].
        rewrite Hk1. symmetry. apply Hheld. }
      intros [sc2|e] Hr2; [|apply after_ret]. apply after_live, held_answer; [reflexivity|].
      transitivity (claim_key sc1); [exact Hr2|apply Hk1].
    + apply after_ret_bind, after_live. destruct Hk1 as [Hk1 Hs1]. split; [done|]. rewrite Hs1. apply Hheld.
Qed.

(** A claim goes where it points: whatever a run writes in a worker cluster is routed by
    a target under which the control plane showed it the claim. *)
Theorem claims_are_routed : kwp (Reconcile req) (λ t _, justified routed t).
Proof.
  eapply wp_mono; [apply after_Reconcile|]. intros t out. apply justified_mono. by intros t1 ev [? _].
Qed.
End Routing.

(** ** From the agent to the worker cluster *)

#[export] Instance stored_claims : Stored KServiceClaim :=
  Build_Stored KServiceClaim
    (λ o o' : ServiceClaim, sc_Spec o = sc_Spec o')
    (λ o o' : ServiceClaim, sc_Status o = sc_Status o').

(** The target that names the environment and the namespace. *)
Definition pointing (env ns : string) : ServiceClaimTarget :=
  {| tgt_EnvironmentTag := "";
     tgt_ApplicationClusterContext := Some {| acc_ClusterEnvironmentName := env; acc_Namespace := ns |} |}.

(** The request is that of a run, about [areq], of an application agent whose deployment
    is labelled with the environment. *)
Definition forwarded (areq : NamespacedName) (env : string) (q : request KServiceClaim) : Prop :=
  ∃ cfg a b out, kexec (ServiceClaims.Reconcile areq) (a ++ event_at (ForConfig cfg) q :: b) out ∧
    ∀ dep, KEv (CGet Manager KDeployment
      {| nn_Namespace := nn_Namespace areq; nn_Name := ApplicationAgentDeploymentName |}) (Ok dep) ∈ a →
    gomap_get (om_Labels (dep_meta dep)) PrimazaClusterEnvironmentLabel = env.

Lemma forwarded_target areq env q o :
  forwarded areq env q → accepted q = Some o → scs_Target (sc_Spec o) = Some (pointing env (nn_Namespace areq)).
Proof.
  intros (cfg & a & b & out & Hex & Hdep) Hq.
  assert (Hw := ServiceClaims.wp_claim_writes areq _ _ Hex a _ b eq_refl). cbv beta in Hw.
  destruct q as [| |x [y|]|x [y|]| |]; try done; injection Hq as ->;
    destruct (Hw I) as (cfg' & rns & dep & (_ & _ & Hread) & Hc); cbn in Hc.
  - destruct Hc as [_ [_ ->]]. unfold pointing. by rewrite <- (Hdep dep Hread).
  - destruct Hc as [[_ [_ ->]]|[[=] _]]. unfold pointing. by rewrite <- (Hdep dep Hread).
Qed.

Section Delivery.
Context `{KubeconfigLib}.
Context (env ns : string).

(** Who writes a claim in the control plane: an application agent of the environment, for
    a claim of the namespace, or a run of the service claim controller. *)
Inductive claim_writer (L : list kevent) (q : request KServiceClaim) : Prop :=
| writer_agent areq : forwarded areq env q → nn_Namespace areq = ns → claim_writer L q
| writer_controller r : made_by (Reconcile r) L (event_of q) → claim_writer L q.

(** The claim under the key, if it is that, points to the namespace. *)
Definition points (key : NamespacedName) : kobj KServiceClaim → Prop := λ o : ServiceClaim,
  claim_key o = key → scs_Target (sc_Spec o) = Some (pointing env ns).

Lemma made_sound r L ev : made_by (Reconcile r) L ev → sound r L ev.
Proof. apply made_justified; [apply after_Reconcile|]. intros t t' e. apply sound_mono. Qed.

(** What the control plane answers about the claim points to the namespace. *)
Lemma answers_point key (s s' : server KServiceClaim) L :
  wf s → served_log s L s' → stores (points key) s →
  (∀ L1 (q : request KServiceClaim) L2 o, L = L1 ++ event_of q :: L2 → accepted q = Some o →
     claim_key o = key → claim_writer L1 q) →
  answers (points key) L.
Proof.
  intros Hwf HL Hs Hw. refine (proj2 (log_stores (points key) _ s L s' Hwf HL Hs _)).
  { intros o o' Hk Hsp Ho Hk'. simpl in Hsp. rewrite Hsp. apply Ho. unfold claim_key in *. congruence. }
  intros L1 q L2 o HL1 Ha Ho Hk. destruct (Hw L1 q L2 o HL1 Ho Hk) as [areq Hf <-|r Hmade].
  { by eapply forwarded_target. }
  destruct (made_sound _ _ _ Hmade) as [_ Hkept].
  destruct (Hkept o) as (ev' & sc & Hin & Hsc & Hke & ->); [by destruct q as [| |? []|? []| |]; try done; injection Ho as ->|].
  destruct (claim_answer_event _ _ Hsc) as (q' & -> & Hin'). apply (Ha q' sc Hin Hin'). congruence.
Qed.

(** C4: a claim is delivered where it was made.  However the runs of the application
    agents and of the service claim controller are interleaved: when a claim in the
    control plane was only written by agents of one environment, for claims of one
    namespace, and by the controller, then whatever a run of the controller for that
    claim writes in a worker cluster, it writes in that namespace, through the
    configuration of that environment; and a binding or a secret only if the environment
    declares the namespace. *)
Theorem claim_is_delivered key (s s' : server KServiceClaim) L ev cfg wkey :
  wf s → served_log s L s' → stores (points key) s →
  (∀ L1 (q : request KServiceClaim) L2 o, L = L1 ++ event_of q :: L2 → accepted q = Some o →
     claim_key o = key → claim_writer L1 q) →
  made_by (Reconcile key) L ev → write_target (projT1 ev) = Some (ForConfig cfg, wkey) →
  nn_Namespace wkey = ns ∧
  ∃ ce, KEv (CGet Manager KClusterEnvironment
               {| nn_Namespace := nn_Namespace key; nn_Name := env |}) (Ok ce) ∈ L ∧
        env_config ce cfg L ∧
        (pushes (projT1 ev) → ns ∈ ces_ApplicationNamespaces (ce_Spec ce)).
Proof.
  intros Hwf HL Hs Hw Hmade Hwt. destruct (made_sound _ _ _ Hmade) as [Hr _].
  destruct (Hr cfg wkey Hwt) as (tgt & ce & (ev' & sc & Hin & Hsc & Hk & Htgt) & Hce & Hcfg & Hns & Hpush).
  destruct (claim_answer_event _ _ Hsc) as (q' & -> & Hin').
  assert (Hp := answers_point key s s' L Hwf HL Hs Hw q' sc Hin Hin' Hk).
  rewrite Hp in Htgt. injection Htgt as <-. unfold target_namespace, target_environment in *. simpl in *.
  split; [done|]. exists ce. split; [done|]. split; [done|]. by rewrite <- Hns.
Qed.
End Delivery.

(** ** A claim from an application namespace to its binding *)

Module Example.

#[local] Existing Instance ClaimRace.Example.kubeconfig.
Import ClaimRace.Example.

Definition application : NamespacedName := {| nn_Namespace := "applications"; nn_Name := "orders" |}.
Definition control_plane : RestConfig := {| cfg_Host := "primaza"; cfg_Rest := "" |}.

(** The claim in the application namespace, and the deployment of its agent. *)
Definition application_claim : ServiceClaim :=
  {| sc_meta := om_set_Finalizers (named "orders" "applications") [ServiceClaimFinalizer];
     sc_Spec := sc_Spec claim; sc_Status := sc_Status claim |}.
Definition agent : Deployment :=
  {| dep_meta := om_set_Labels (named ApplicationAgentDeploymentName "applications")
       (Some {[PrimazaClusterEnvironmentLabel := "worker"]});
     dep_TemplateLabels := None; dep_Images := [] |}.

Definition copy (v : string) : ServiceClaim :=
  let o := ServiceClaims.createServiceClaimCopy application_claim agent tenant in
  {| sc_meta := om_set_ResourceVersion (sc_meta o) v; sc_Spec := sc_Spec o; sc_Status := sc_Status o |}.

(** What the agent finds, and the control plane's answer to the creation. *)
Definition agent_answer (c : Call) : Answer c :=
  match c with
  | CGet cl k key =>
      match k return result (kobj k) with
      | KServiceClaim =>
          if ⟪ cl = Manager ⟫ && ⟪ key = application ⟫ then Ok application_claim
          else Err (EStatus "NotFound" 404 "not found")
      | KDeployment => if ⟪ key = ObjectKeyFromObject (k := KDeployment) agent ⟫ then Ok agent
                       else Err (ENew "not found")
      | _ => Err (ENew "not found")
      end
  | CBuildConfigFromFlags _ => Ok control_plane
  | CReadFile _ => Ok tenant
  | CNewClient _ => None
  | CCreate _ k o =>
      match k return kobj k → result (kobj k) with
      | KServiceClaim => λ o,
          Ok {| sc_meta := om_set_ResourceVersion (sc_meta o) "1"; sc_Spec := sc_Spec o; sc_Status := sc_Status o |}
      | _ => Ok
      end o
  | c => failing (ENew "refused") c
  end.
Definition agent_trace : list kevent :=
  run_trace (λ c (s : unit), (agent_answer c, s)) (ServiceClaims.Reconcile application) tt.

(** What the service claim controller finds; an update of the status makes the version
    one digit longer. *)
Definition control_plane_answer (c : Call) : Answer c :=
  match c with
  | CGet _ k key =>
      match k return result (kobj k) with
      | KServiceClaim => if ⟪ key = claim_key (copy "1") ⟫ then Ok (copy "1") else Err (ENew "not found")
      | KClusterEnvironment => if ⟪ key = ObjectKeyFromObject (k := KClusterEnvironment) environment ⟫
                               then Ok environment else Err (ENew "not found")
      | KSecret => Ok {| sec_meta := named (nn_Name key) (nn_Namespace key);
                         sec_Data := {["kubeconfig" := "worker"]}; sec_StringData := ∅ |}
      | _ => Err (EStatus "NotFound" 404 "not found")
      end
  | CList _ k opts =>
      match k return result (list (kobj k)) with
      | KRegisteredService => if ⟪ lo_Namespace opts = tenant ⟫ then Ok [available "1"] else Ok []
      | _ => Ok []
      end
  | CStatusUpdate _ k o =>
      match k return kobj k → result (kobj k) with
      | KServiceClaim => λ o,
          Ok {| sc_meta := om_set_ResourceVersion (sc_meta o) (om_ResourceVersion (sc_meta o) +++ "1");
                sc_Spec := sc_Spec o; sc_Status := sc_Status o |}
      | _ => Ok
      end o
  | CCreate _ _ o => Ok o
  | CNewClient _ => None
  | CUuid => "123"
  | c => failing (ENew "refused") c
  end.
Definition run_of_controller : list kevent :=
  run_trace (λ c (s : unit), (control_plane_answer c, s)) (Reconcile (claim_key (copy "1"))) tt.

Definition creation : ApiServer.request KServiceClaim := RCreate (k := KServiceClaim) (copy "") (Ok (copy "1")).
(** The agent's creation, and the controller's run up to the creation of the binding. *)
Definition log : list kevent := event_of creation :: take 15 run_of_controller.
Definition binding_created : kevent :=
  let sb := {| sb_meta := om_set_Annotations (named "orders" "applications")
                 (Some {[BoundRegisteredServiceNameAnnotation := "db"; BoundRegisteredServiceUIDAnnotation := ""]});
               sb_Spec := binding_spec (copy "1"); sb_Status := empty_sbstatus |} in
  KEv (CCreate (ForConfig {| cfg_Host := "worker"; cfg_Rest := "" |}) KServiceBinding sb) (Ok sb).

Lemma delivery_served : ∃ s, served_log empty_server log s.
Proof. eval_log log. eexists. repeat serve KServiceClaim. apply log_nil. Qed.

Lemma creation_forwarded : forwarded application "worker" creation.
Proof.
  exists control_plane, (take 6 agent_trace), [],
    (run_outcome (λ c (s : unit), (agent_answer c, s)) (ServiceClaims.Reconcile application) tt).
  split.
  - replace (take 6 agent_trace ++ event_at (ForConfig control_plane) creation :: []) with agent_trace by reflexivity.
    apply run_exec. intros c []. destruct c; simpl; try done; destruct k; simpl; try done.
    + destruct (bool_decide _); [|done]. simpl. by case_bool_decide as Hk; [rewrite Hk|].
    + by case_bool_decide as Hk; [rewrite Hk|].
  - intros dep Hin.
    assert (Hq : RGet (k := KDeployment) (ObjectKeyFromObject (k := KDeployment) agent) (Ok dep) ∈
      omap (request_of KDeployment) (take 6 agent_trace)).
    { apply list_elem_of_omap. eexists. split; [exact Hin|reflexivity]. }
    revert Hq. vm_compute omap. by intros [= ->]%list_elem_of_singleton.
Qed.

Lemma control_plane_answer_legal c : legal c (control_plane_answer c).
Proof.
  destruct c; simpl; try done; destruct k; simpl; try done; try by destruct key.
  - by case_bool_decide as Hk; [rewrite Hk|].
  - by case_bool_decide as Hk; [rewrite Hk|].
  - case_bool_decide as Ht; [|constructor]. rewrite Ht. constructor; [by right|constructor].
Qed.

Lemma claim_is_delivered_witness :
  nn_Namespace (ObjectKeyFromObject (k := KServiceClaim) application_claim) = "applications" ∧
  ∃ ce, KEv (CGet Manager KClusterEnvironment {| nn_Namespace := tenant; nn_Name := "worker" |}) (Ok ce) ∈ log ∧
        env_config ce {| cfg_Host := "worker"; cfg_Rest := "" |} log ∧
        (pushes (projT1 binding_created) → "applications" ∈ ces_ApplicationNamespaces (ce_Spec ce)).
Proof.
  destruct delivery_served as [s Hlog].
  apply (claim_is_delivered "worker" "applications" (claim_key (copy "1")) empty_server s log
           binding_created {| cfg_Host := "worker"; cfg_Rest := "" |} application).
  - apply empty_wf.
  - exact Hlog.
  - by intros o ?%elem_of_nil.
  - intros L1 q L2 o HL Hq _.
    assert (Hev : log !! length L1 = Some (event_of q)) by (by rewrite HL, list_lookup_middle).
    assert (Hr : ((log !! length L1) ≫= request_of KServiceClaim) ≫= accepted = Some o).
    { by rewrite Hev; cbn; rewrite request_of_event. }
    destruct (decide (length L1 = 0)) as [Hlen|Hlen].
    + rewrite Hlen in Hev. injection Hev as Hev%(f_equal (request_of KServiceClaim)).
      rewrite !request_of_event in Hev. injection Hev as <-. apply (writer_agent _ _ _ _ application); [|done].
      exact creation_forwarded.
    + exfalso. clear HL Hev Hq. revert Hr Hlen. generalize (length L1). intros i.
      do 16 (destruct i as [|i]; [by vm_compute|]). by vm_compute.
  - apply (run_made (λ c (s : unit), (control_plane_answer c, s)) _ tt _ 15); [intros c []; apply control_plane_answer_legal|reflexivity|].
    apply sublist_cons. reflexivity.
  - reflexivity.
Defined.
End Example.
