(* ===== verification/SvcAgent.v ===== *)
(** * The service agent

    controllers/agents/svc/serviceclass_controller.go: in a service namespace of a
    worker cluster, the resources of a service class are discovered, their service
    endpoint definition is read with the mappings of [Sed.v], and each becomes a
    registered service, with the secret that holds its confidential values, in the
    control plane (Push) or in the agent's own namespace (Pull).  The reconciler's map
    of informers is the set of its keys; the [*ServiceClass] whose status is set is
    passed and returned. *)

From S2P Require Import Prelude Prog GoErr GoStr Json Types Kube Sed WorkerCluster AppNamespaces.
From S2P Require Import Informers AppAgent.

#[local] Open Scope string_scope.
#[local] Open Scope list_scope.
#[local] Open Scope primaza_scope.

Definition finalizer : string := "serviceclasses.primaza.io/finalizer".

(** pkg/primaza/constants *)
Definition ClusterEnvironmentAnnotation : string := "primaza.io/cluster-environment".
Definition ServiceAPIVersionAnnotation : string := "primaza.io/service-apiversion".
Definition ServiceKindAnnotation : string := "primaza.io/service-kind".
Definition ServiceNameAnnotation : string := "primaza.io/service-name".
Definition ServiceNamespaceAnnotation : string := "primaza.io/service-namespace".
Definition ServiceUIDAnnotation : string := "primaza.io/service-uid".
Definition PrimazaClusterEnvironmentEnvVar : string := "PRIMAZA_CLUSTER_ENVIRONMENT".

(** What the informers of service classes are called in the calls. *)
Definition services_informer : string := "services".

Section SvcAgent.
  Context `{JsonPathLib}.

(** ** From a resource to a registered service *)

(** The mappings of the class for a resource: the plain fields, then the secret ones. *)
Fixpoint resource_mappings (obj : json) (ms : list ServiceClassResourceFieldMapping)
    : result (list SEDMapping) :=
  match ms with
  | [] => Ok []
  | mapping :: ms' =>
      match NewSEDResourceMapping obj mapping with
      | Err e => Err e
      | Ok m =>
          match resource_mappings obj ms' with
          | Err e => Err e
          | Ok rest => Ok (SEDResourceMapping_SEDMapping m :: rest)
          end
      end
  end.
Fixpoint secret_mappings (ns : string) (obj : json) (cli : Client)
    (ms : list ServiceClassSecretRefFieldMapping) : result (list SEDMapping) :=
  match ms with
  | [] => Ok []
  | mapping :: ms' =>
      match NewSEDSecretRefMapping ns obj cli mapping with
      | Err e => Err e
      | Ok m =>
          match secret_mappings ns obj cli ms' with
          | Err e => Err e
          | Ok rest => Ok (SEDSecretRefMapping_SEDMapping m :: rest)
          end
      end
  end.

Definition ServiceEndpointDefinitionMapping (cli : Client) (obj : json) (sc : ServiceClass)
    : result (list SEDMapping) :=
  let ms := scr_ServiceEndpointDefinitionMappings (scls_Resource (scl_Spec sc)) in
  match resource_mappings obj (sedm_ResourceFields ms) with
  | Err e => Err e
  | Ok rs =>
      match secret_mappings (om_Namespace (scl_meta sc)) obj cli (sedm_SecretRefFields ms) with
      | Err e => Err e
      | Ok ss => Ok (rs ++ ss)
      end
  end.

(** The entry of the definition for a mapping and the value it read. *)
Definition sed_item (secret_name : string) (m : SEDMapping) (value : string)
    : ServiceEndpointDefinitionItem :=
  if InSecret m then
    {| sedi_Name := Key m; sedi_Value := "";
       sedi_ValueFromSecret := Some {| sedr_Name := secret_name; sedr_Key := Key m |} |}
  else {| sedi_Name := Key m; sedi_Value := value; sedi_ValueFromSecret := None |}.

(** What the loop of [LookupServiceEndpointDescriptor] accumulates. *)
Record Lookup := {
  lk_items : slice ServiceEndpointDefinitionItem; lk_data : gmap string string;
  lk_errors : list gerr }.

Definition lookup_mapping (secret_name : string) (m : SEDMapping) (s : Lookup) : M Lookup :=
  value ← ReadKey m;
  mret (match value with
        | Err e => {| lk_items := lk_items s; lk_data := lk_data s; lk_errors := lk_errors s ++ [e] |}
        | Ok v => {| lk_items := slice_append (lk_items s) (sed_item secret_name m v);
                     lk_data := if InSecret m then <[Key m := v]> (lk_data s) else lk_data s;
                     lk_errors := lk_errors s |}
        end).

Definition LookupServiceEndpointDescriptor (mappings : list SEDMapping) (service : json)
    : M (result (slice ServiceEndpointDefinitionItem * option Secret)) :=
  let name := descriptor (GetName service) in
  s ← for_each mappings {| lk_items := NilSlice; lk_data := ∅; lk_errors := [] |} (lookup_mapping name);
  match lk_errors s with
  | [] =>
      let secret := {| sec_meta := named name ""; sec_Data := ∅; sec_StringData := lk_data s |} in
      mret (Ok (lk_items s, if ⟪ lk_data s = ∅ ⟫ then None else Some secret))
  | es => mret (Err (EJoin es))
  end.

Definition service_annotations (sc : ServiceClass) (data : json) (environment : string)
    : gmap string string :=
  <[ServiceAPIVersionAnnotation := scr_APIVersion (scls_Resource (scl_Spec sc))]>
    (<[ServiceKindAnnotation := scr_Kind (scls_Resource (scl_Spec sc))]>
      (<[ServiceNameAnnotation := GetName data]>
        (<[ServiceNamespaceAnnotation := GetNamespace data]>
          (<[ServiceUIDAnnotation := GetUID data]>
            {[ClusterEnvironmentAnnotation := environment]})))).

Definition PrepareRegisteredService (sc : ServiceClass) (mappings : list SEDMapping) (data : json)
    (target_namespace : string) : M (result (RegisteredService * option Secret)) :=
  let! looked := LookupServiceEndpointDescriptor mappings data ;;
  environment ← api (CGetenv PrimazaClusterEnvironmentEnvVar);
  let rs :=
    {| rs_meta := om_set_Annotations (named (GetName data) target_namespace)
                    (Some (service_annotations sc data (default "" environment)));
       rs_Spec := {| rss_Constraints := Some {| rsc_Environments :=
                                                  scls_GetEnvironmentConstraints (scl_Spec sc) |};
                     rss_HealthCheck := scls_HealthCheck (scl_Spec sc); rss_SLA := "";
                     rss_ServiceClassIdentity := scls_ServiceClassIdentity (scl_Spec sc);
                     rss_ServiceEndpointDefinition := looked.1 |};
       rs_Status := {| rsst_State := "" |} |} in
  mret (Ok (rs, (λ s, {| sec_meta := om_set_Namespace (sec_meta s) target_namespace;
                         sec_Data := sec_Data s; sec_StringData := sec_StringData s |}) <$> looked.2)).

(** ** Writing to the target *)

Definition rs_with_Spec (spec : RegisteredServiceSpec) (rs : RegisteredService) : RegisteredService :=
  {| rs_meta := rs_meta rs; rs_Spec := spec; rs_Status := rs_Status rs |}.

(** The secret of a registered service, owned by it. *)
Definition write_descriptor (cl : Client) (rs : RegisteredService) (secret : Secret)
    : M (option gerr) :=
  let data := sec_StringData secret in
  '(_, op) ← CreateOrUpdate cl KSecret secret (λ s : Secret,
    mret (SetOwnerReference (ko := KRegisteredService) (k := KSecret) rs (set_StringData data s)));
  mret (result_err op).

Definition updateRegisteredService (cl : Client) (rs : RegisteredService) (secret : option Secret)
    : M (list (option gerr)) :=
  let spec := rs_Spec rs in
  '(rs, op) ← CreateOrUpdate cl KRegisteredService rs (mutates (rs_with_Spec spec));
  let errs := [result_err op] in
  match secret with
  | Some secret => err ← write_descriptor cl rs secret; mret (errs ++ [err])
  | None => mret errs
  end.

Definition deleteRegisteredService (cl : Client) (rs : RegisteredService) (secret : option Secret)
    : M (list (option gerr)) :=
  err ← api (CDelete cl KRegisteredService (ObjectKeyFromObject (k := KRegisteredService) rs));
  match err with
  | Some e => if IsNotFound (Some e) then mret [] else mret [Some e]
  | None => mret []
  end.

Definition getTargetClient (strategy namespace : string) : M (result (RestConfig * string)) :=
  if ⟪ strategy = SynchronizationStrategyPush ⟫ then GetPrimazaKubeconfig
  else if ⟪ strategy = SynchronizationStrategyPull ⟫ then
    let! cfg := api CInClusterConfig ;;
    mret (Ok (cfg, namespace))
  else mret (Err (ENew ("Invalid synchronization strategy " +++ strategy))).

Definition scl_set_Conditions (sc : ServiceClass) (cs : list Condition) : ServiceClass :=
  {| scl_meta := scl_meta sc; scl_Spec := scl_Spec sc; scl_Status := {| sclst_Conditions := cs |} |}.

Definition connection_condition (status : ConnectionStatus) : Condition :=
  {| c_Type := "Connection";
     c_Status := if ⟪ cs_State status = ClusterEnvironmentStateOnline ⟫ then ConditionTrue
                 else if ⟪ cs_State status = ClusterEnvironmentStateOffline ⟫ then ConditionFalse
                 else ConditionUnknown;
     c_ObservedGeneration := 0; c_LastTransitionTime := 0;
     c_Reason := cs_Reason status; c_Message := cs_Message status |}.

(** The loop over the resources: it stops when the mappings of one cannot be made, and
    goes on when one cannot be read. *)
Fixpoint handle_services (sc : ServiceClass) (cl : Client) (target_namespace : string)
    (handleFunc : Client → RegisteredService → option Secret → M (list (option gerr)))
    (items : list json) (errorList : list (option gerr)) : M (option gerr) :=
  match items with
  | [] => mret (errors_join errorList)
  | data :: items' =>
      match ServiceEndpointDefinitionMapping Manager data sc with
      | Err e => mret (Some e)
      | Ok mappings =>
          prepared ← PrepareRegisteredService sc mappings data target_namespace;
          match prepared with
          | Err e =>
              handle_services sc cl target_namespace handleFunc items' (errorList ++ [Some e])
          | Ok (rs, secret) =>
              errs ← handleFunc cl rs secret;
              handle_services sc cl target_namespace handleFunc items' (errorList ++ errs)
          end
      end
  end.

Definition HandleRegisteredServices (strategy : string) (sc : ServiceClass) (services : list json)
    (handleFunc : Client → RegisteredService → option Secret → M (list (option gerr)))
    : M (ServiceClass * option gerr) :=
  target ← getTargetClient strategy (om_Namespace (scl_meta sc));
  match target with
  | Err e => mret (sc, Some e)
  | Ok (config, target_namespace) =>
      status ← TestConnection config;
      cs ← SetStatusCondition (sclst_Conditions (scl_Status sc)) (connection_condition status);
      let sc := scl_set_Conditions sc cs in
      if ⟪ cs_State status = ClusterEnvironmentStateOffline ⟫ then
        mret (sc, Some (ENew "Failed to connect to cluster"))
      else
        err ← api (CNewClient config);
        match err with
        | Some e => mret (sc, Some e)
        | None =>
            err ← handle_services sc (ForConfig config) target_namespace handleFunc services [];
            mret (sc, err)
        end
  end.

(** ** The informers' handlers *)

Definition CreateOrUpdateRegisteredService (strategy : string) (obj : json) (sc : ServiceClass)
    : M (option gerr) :=
  match ServiceEndpointDefinitionMapping Manager obj sc with
  | Err e => mret (Some e)
  | Ok mappings =>
      let! target := getTargetClient strategy (om_Namespace (scl_meta sc)) ;;
      do! api (CNewClient target.1) ;;
      let! prepared := PrepareRegisteredService sc mappings obj target.2 ;;
      let '(rs, secret) := prepared in
      errs ← updateRegisteredService (ForConfig target.1) rs secret;
      mret (errors_join errs)
  end.

Definition DeleteRegisteredService (strategy : string) (sc : ServiceClass) : M (option gerr) :=
  let! target := getTargetClient strategy (om_Namespace (scl_meta sc)) ;;
  do! api (CNewClient target.1) ;;
  err ← api (CDelete (ForConfig target.1) KRegisteredService
               {| nn_Namespace := ""; nn_Name := om_Name (scl_meta sc) |});
  if negb (IsNotFound err) then mret err else mret None.

(** The functions given to the informer; the errors are dropped. *)
Definition handle_AddFunc (synced : bool) (strategy : string) (sc : ServiceClass) (obj : InformerObject)
    : M () :=
  if negb synced then mret ()
  else
    match obj with
    | OtherObject => panic "interface conversion"
    | Unstructured u => _ ← CreateOrUpdateRegisteredService strategy u sc; mret ()
    end.
Definition handle_UpdateFunc (synced : bool) (strategy : string) (sc : ServiceClass)
    (past future : InformerObject) : M () := handle_AddFunc synced strategy sc future.
Definition handle_DeleteFunc (synced : bool) (strategy : string) (sc : ServiceClass)
    (obj : InformerObject) : M () :=
  if negb synced then mret () else _ ← DeleteRegisteredService strategy sc; mret ().

(** ** Watching *)

Definition service_gvk (sc : ServiceClass) : GroupVersionKind :=
  FromAPIVersionAndKind (scr_APIVersion (scls_Resource (scl_Spec sc)))
    (scr_Kind (scls_Resource (scl_Spec sc))).

(** The errors of the configuration and of the client are panics here. *)
Definition RunInformer (running : gset string) (sc : ServiceClass) : M (gset string * option gerr) :=
  let name := om_Name (scl_meta sc) in
  if ⟪ name ∈ running ⟫ then mret (running, None)
  else
    cfg ← api CInClusterConfig;
    match cfg with
    | Err e => panic (err_msg e)
    | Ok cfg =>
        err ← api (CNewClientset cfg);
        match err with
        | Some e => panic (err_msg e)
        | None =>
            err ← api (CAddEventHandler services_informer name);
            match err with
            | Some e => _ ← api (CCancelInformer services_informer name); mret (running, Some e)
            | None =>
                _ ← api (CStartInformer services_informer name);
                synced ← api (CWaitForCacheSync services_informer name);
                if synced : bool then mret ({[ name ]} ∪ running, None)
                else
                  _ ← api (CCancelInformer services_informer name);
                  mret (running ∖ {[ name ]}, Some (ENew "could not sync cache"))
            end
        end
    end.

Definition SetWatchersForResources (running : gset string) (sc : ServiceClass)
    : M (gset string * option gerr) :=
  err ← api (CRESTMapping (service_gvk sc));
  match err with
  | Some e => mret (running, Some e)
  | None => RunInformer running sc
  end.

Definition GetResources (sc : ServiceClass) : M (result (list json)) :=
  do! api (CRESTMapping (service_gvk sc)) ;;
  api (CListUnstructured Manager (service_gvk sc) (om_Namespace (scl_meta sc)) None).

(** ** Reconciliation *)

Definition setOwnerReference (sc : ServiceClass) (owner : Deployment) : M (result ServiceClass) :=
  let '(sc, err) := SetControllerReference (ko := KDeployment) (k := KServiceClass) owner sc in
  match err with
  | Some e => mret (Err e)
  | None => api (CUpdate Manager KServiceClass sc)
  end.

(** The status update that ends both branches. *)
Definition write_status (sc : ServiceClass) (errs : list (option gerr)) : M (option gerr) :=
  r ← api (CStatusUpdate Manager KServiceClass sc);
  mret (errors_join (errs ++ [result_err r])).

Definition reconcile_services (strategy : string) (running : gset string) (sc : ServiceClass)
    (controller : Deployment) (services : list json) : M (gset string * option gerr) :=
  if negb (HasDeletionTimestamp (scl_meta sc)) && negb (HasDeletionTimestamp (dep_meta controller)) then
    let '(sc, added) := AddFinalizer (k := KServiceClass) sc finalizer in
    updated ← (if added then api (CUpdate Manager KServiceClass sc) else mret (Ok sc));
    match updated with
    | Err e => mret (running, Some e)
    | Ok sc =>
        '(sc, err) ← HandleRegisteredServices strategy sc services updateRegisteredService;
        err ← write_status sc [err];
        mret (running, err)
    end
  else if ContainsFinalizer (k := KServiceClass) sc finalizer then
    let name := om_Name (scl_meta sc) in
    running ← (if ⟪ name ∈ running ⟫ then
                 _ ← api (CCancelInformer services_informer name); mret (running ∖ {[ name ]})
               else mret running);
    '(sc, err) ← HandleRegisteredServices strategy sc services deleteRegisteredService;
    let '(sc, removed) := RemoveFinalizer (k := KServiceClass) sc finalizer in
    updated ← (if removed then api (CUpdate Manager KServiceClass sc) else mret (Ok sc));
    match updated with
    | Err e => mret (running, Some e)
    | Ok sc => err ← write_status sc [err]; mret (running, err)
    end
  else mret (running, None).

Definition Reconcile (strategy : string) (running : gset string) (req : NamespacedName)
    : M (gset string * option gerr) :=
  got ← api (CGet Manager KServiceClass req);
  match got with
  | Err e => mret (running, if IsNotFound (Some e) then None else Some e)
  | Ok sc =>
      controller ← own_deployment ServiceAgentDeploymentName (om_Namespace (scl_meta sc));
      match controller with
      | Err e => mret (running, Some e)
      | Ok controller =>
          owned ← setOwnerReference sc controller;
          match owned with
          | Err e => mret (running, Some e)
          | Ok sc =>
              '(running, err) ← SetWatchersForResources running sc;
              match err with
              | Some e => mret (running, Some e)
              | None =>
                  services ← GetResources sc;
                  match services with
                  | Err e => mret (running, Some e)
                  | Ok services => reconcile_services strategy running sc controller services
                  end
              end
          end
      end
  end.
End SvcAgent.

(** ** agentsvc_controller.go *)

Module Agent.
Definition agentsvcfinalizer : string := "agent.primaza.io/finalizer".

Definition removeServiceClasses (req : NamespacedName) : M (option gerr) :=
  err ← api (CDeleteAllOf Manager KServiceClass (nn_Namespace req));
  mret (IgnoreNotFound err).

(** The requeue after five seconds comes with an error, which decides the delay. *)
Definition Reconcile (req : NamespacedName) : M (option gerr) :=
  let! d := own_deployment ServiceAgentDeploymentName (nn_Namespace req) ;;
  if HasDeletionTimestamp (dep_meta d) then
    do! removeServiceClasses req ;;
    let! scc := api (CList Manager KServiceClass (InNamespace (nn_Namespace req))) ;;
    match scc with
    | _ :: _ => mret (Some (ENew "waiting for Service Classes deletion"))
    | [] =>
        let '(d, removed) := RemoveFinalizer (k := KDeployment) d agentsvcfinalizer in
        if removed then r ← api (CUpdate Manager KDeployment d); mret (result_err r) else mret None
    end
  else if negb (ContainsFinalizer (k := KDeployment) d agentsvcfinalizer) then
    r ← api (CUpdate Manager KDeployment (AddFinalizer (k := KDeployment) d agentsvcfinalizer).1);
    mret (result_err r)
  else mret None.
End Agent.

(** ** What a registered service holds *)

Section Descriptor.
  Context `{JsonPathLib}.

(** The mapping was run in the trace, and yielded the value. *)
Definition yielded (m : SEDMapping) (r : result string) (t : list kevent) : Prop :=
  part (λ u, kexec (ReadKey m) u (Done r)) t.

(** The data of the secret: the values of the secret mappings under their keys, the
    last one when a key comes twice. *)
Fixpoint secret_data (d : gmap string string) (ms : list SEDMapping) (vs : list string)
    : gmap string string :=
  match ms, vs with
  | m :: ms', v :: vs' => secret_data (if InSecret m then <[Key m := v]> d else d) ms' vs'
  | _, _ => d
  end.

Lemma secret_data_app d ms ms' vs vs' :
  length ms = length vs →
  secret_data d (ms ++ ms') (vs ++ vs') = secret_data (secret_data d ms vs) ms' vs'.
Proof.
  revert d vs. induction ms as [|m ms IH]; intros d [|v vs] Hl; simplify_eq/=; [done|]. by apply IH.
Qed.

(** A key that the data has stays. *)
Lemma secret_data_grows d ms vs k : is_Some (d !! k) → is_Some (secret_data d ms vs !! k).
Proof.
  revert d vs. induction ms as [|m ms IH]; intros d [|v vs] Hk; simpl; [done..|].
  apply IH. destruct (InSecret m); [|done].
  destruct (decide (Key m = k)) as [->|]; [by rewrite lookup_insert_eq|by rewrite lookup_insert_ne].
Qed.

Lemma secret_data_plain d ms vs :
  Forall (λ m, InSecret m = false) ms → secret_data d ms vs = d.
Proof.
  revert vs. induction ms as [|m ms IH]; intros [|v vs] Hf; simpl; try done.
  apply Forall_cons in Hf as [-> Hf]. by apply IH.
Qed.

(** The secret is empty exactly when no mapping is a secret one. *)
Lemma secret_data_empty ms vs :
  length ms = length vs → secret_data ∅ ms vs = ∅ ↔ Forall (λ m, InSecret m = false) ms.
Proof.
  intros Hl. split; [|apply secret_data_plain].
  revert vs Hl. induction ms as [|m ms IH]; intros [|v vs] Hl He; simplify_eq/=; [constructor|].
  destruct (InSecret m) eqn:Hm; [|constructor; eauto].
  destruct (secret_data_grows (<[Key m := v]> ∅) ms vs (Key m)) as [x Hx].
  { rewrite lookup_insert_eq. eauto. }
  by rewrite He in Hx.
Qed.

Definition looked_up (name : string) (ms : list SEDMapping) (t : list kevent) (s : Lookup) : Prop :=
  (lk_errors s = [] → ∃ vs, Forall2 (λ m v, yielded m (Ok v) t) ms vs ∧
     lk_items s = appended (zip_with (sed_item name) ms vs) ∧ lk_data s = secret_data ∅ ms vs) ∧
  (lk_errors s ≠ [] → ∃ m e, m ∈ ms ∧ yielded m (Err e) t).

Lemma yielded_app_l m r t t' : yielded m r t → yielded m r (t ++ t').
Proof. apply part_app_l. Qed.

Lemma wp_lookup ms name :
  kwp (for_each ms {| lk_items := NilSlice; lk_data := ∅; lk_errors := [] |} (lookup_mapping name))
    (λ t out, ∀ s, out = Done s → looked_up name ms t s).
Proof.
  apply (wp_for_each legal _ _ _ (λ rest t s, ∃ done_, ms = done_ ++ rest ∧ looked_up name done_ t s)).
  - exists []. split; [done|]. split; [|done]. intros _. by exists [].
  - intros m rest t s (done_ & -> & Hok & Herr). unfold lookup_mapping.
    eapply (wp_bind_spec legal (λ t o, kexec (ReadKey m) t o)); [by intros t' o He| |done].
    intros t' r Hr. wflow. rewrite app_nil_r. exists (done_ ++ [m]). split; [by rewrite <- app_assoc|].
    assert (yielded m r (t ++ t')) as Hy by by apply part_app_r, part_here.
    destruct r as [v|e]; simpl; split; simpl.
    + intros (vs & Hvs & Hi & Hd)%Hok. exists (vs ++ [v]).
      assert (Hl := Forall2_length _ _ _ Hvs). split_and!.
      * apply Forall2_app; [|by repeat constructor].
        eapply Forall2_impl; [exact Hvs|]. intros m' v'. apply yielded_app_l.
      * rewrite Hi, slice_append_appended. by rewrite zip_with_app by done.
      * rewrite secret_data_app by done. simpl. by rewrite Hd.
    + intros (m' & e & Hm' & Hy')%Herr. exists m', e. split; [set_solver|by apply yielded_app_l].
    + intros Hn. by apply app_nil in Hn as [_ ?].
    + intros _. exists m, e. split; [set_solver|done].
  - intros t s (done_ & -> & Hs) s' [= <-]. by rewrite app_nil_r.
Qed.

(** The registered service of a resource, from the values its mappings yielded. *)
Record prepared (sc : ServiceClass) (ms : list SEDMapping) (data : json) (ns : string)
    (vs : list string) (rs : RegisteredService) (secret : option Secret) : Prop := {
  prep_key : ObjectKeyFromObject (k := KRegisteredService) rs = {| nn_Namespace := ns; nn_Name := GetName data |};
  prep_class : rss_ServiceClassIdentity (rs_Spec rs) = scls_ServiceClassIdentity (scl_Spec sc) ∧
    rss_HealthCheck (rs_Spec rs) = scls_HealthCheck (scl_Spec sc) ∧
    rss_GetEnvironmentConstraints (rs_Spec rs) = scls_GetEnvironmentConstraints (scl_Spec sc);
  prep_sed : rss_ServiceEndpointDefinition (rs_Spec rs) =
    appended (zip_with (sed_item (descriptor (GetName data))) ms vs);
  prep_secret : match secret with
    | None => Forall (λ m, InSecret m = false) ms
    | Some s => ¬ Forall (λ m, InSecret m = false) ms ∧
        ObjectKeyFromObject (k := KSecret) s = {| nn_Namespace := ns; nn_Name := descriptor (GetName data) |} ∧
        sec_Data s = ∅ ∧ sec_StringData s = secret_data ∅ ms vs
    end }.

Lemma wp_Prepare sc ms data ns :
  kwp (PrepareRegisteredService sc ms data ns) (λ t out,
    match out with
    | Done (Ok (rs, secret)) =>
        ∃ vs, Forall2 (λ m v, yielded m (Ok v) t) ms vs ∧ prepared sc ms data ns vs rs secret
    | Done (Err _) => ∃ m e, m ∈ ms ∧ yielded m (Err e) t
    | Halted _ => True
    end).
Proof.
  unfold PrepareRegisteredService, LookupServiceEndpointDescriptor.
  wassoc. eapply (wp_bind_spec legal); [apply wp_lookup| |done].
  intros t s Hs. destruct (Hs s eq_refl) as [Hok Herr].
  destruct (lk_errors s) as [|e es]; wret.
  2: { wflow. destruct Herr as (m & e' & ? & ?); [done|]. exists m, e'. split; [done|].
       rewrite !app_nil_r. done. }
  destruct Hok as (vs & Hvs & Hi & Hd); [done|]. assert (Hl := Forall2_length _ _ _ Hvs).
  wcall r Hr. wflow. exists vs. split.
  { eapply Forall2_impl; [exact Hvs|]. intros m v. apply yielded_app_l. }
  constructor; try done; simpl.
  case_bool_decide as He; simpl; rewrite Hd, secret_data_empty in He by done; [done|].
  split_and!; done.
Qed.

Lemma wp_Prepare_keys sc ms data ns :
  kwp (PrepareRegisteredService sc ms data ns) (λ _ out, ∀ rs secret, out = Done (Ok (rs, secret)) →
    ObjectKeyFromObject (k := KRegisteredService) rs = {| nn_Namespace := ns; nn_Name := GetName data |} ∧
    ∀ s : Secret, secret = Some s → ObjectKeyFromObject (k := KSecret) s =
      {| nn_Namespace := ns; nn_Name := descriptor (GetName data) |}).
Proof.
  eapply wp_mono; [apply wp_Prepare|]. intros t out Hout rs secret ->.
  destruct Hout as (vs & _ & [Hk _ _ Hs]). split; [done|]. intros s ->. by destruct Hs as (_ & ? & _).
Qed.

(** C31: the registered service the agent makes of a resource has the class's identity,
    health check and constraints, the resource's name, and one entry per mapping, each
    with the value that the mapping yielded (the definition is nil when there is no
    mapping); the value of a secret mapping is not in the
    registered service but only in the secret, which there is exactly when the class has
    such a mapping.  When a mapping cannot be read nothing is made. *)
Theorem PrepareRegisteredService_spec sc ms data ns :
  kwp (PrepareRegisteredService sc ms data ns) (λ t out,
    match out with
    | Done (Ok (rs, secret)) =>
        ∃ vs, Forall2 (λ m v, yielded m (Ok v) t) ms vs ∧ prepared sc ms data ns vs rs secret
    | Done (Err _) => ∃ m e, m ∈ ms ∧ yielded m (Err e) t
    | Halted _ => True
    end).
Proof.
  apply wp_Prepare.
Qed.
End Descriptor.

(** ** Where the agent writes *)

Section Writes.
  Context `{JsonPathLib}.

Definition reads_only {A} (p : M A) : Prop := only_calls legal (λ c, ¬ is_write c) p.

(** A mapping reads secrets at most, with the client it is given. *)
Lemma calls_ReadKey P cli obj sc ms :
  (∀ key, P (CGet cli KSecret key)) →
  ServiceEndpointDefinitionMapping cli obj sc = Ok ms → Forall (λ m, only_calls legal P (ReadKey m)) ms.
Proof.
  intros HP. unfold ServiceEndpointDefinitionMapping. set (fs := sedm_ResourceFields _). set (ss := sedm_SecretRefFields _).
  destruct (resource_mappings obj fs) as [rs|] eqn:Hrs; [|done].
  destruct (secret_mappings _ obj cli ss) as [rs'|] eqn:Hss; [|done]. intros [= <-].
  apply Forall_app. split.
  - clear Hss. revert rs Hrs. induction fs as [|f fs IH]; intros rs Hrs; simpl in Hrs; [by simplify_eq|].
    destruct (NewSEDResourceMapping obj f); [|done]. destruct (resource_mappings obj fs); simplify_eq.
    constructor; [|by apply IH]. simpl. calls.
  - clear Hrs. revert rs' Hss. induction ss as [|f ss IH]; intros rs' Hss; simpl in Hss; [by simplify_eq|].
    destruct (secret_mappings _ obj cli ss); simplify_eq.
    constructor; [|by apply IH]. unfold SEDSecretRefMapping_SEDMapping, SEDSecretRefMapping_ReadKey.
    cbn [ReadKey]. calls. apply HP.
Qed.

Lemma calls_Prepare P sc ms data ns :
  P (CGetenv PrimazaClusterEnvironmentEnvVar) → Forall (λ m, only_calls legal P (ReadKey m)) ms →
  only_calls legal P (PrepareRegisteredService sc ms data ns).
Proof.
  intros Henv Hms. unfold PrepareRegisteredService, LookupServiceEndpointDescriptor.
  calls; try done. unfold lookup_mapping. calls. rewrite Forall_forall in Hms. by apply Hms.
Qed.

Lemma reads_ReadKey cli obj sc ms :
  ServiceEndpointDefinitionMapping cli obj sc = Ok ms → Forall (λ m, reads_only (ReadKey m)) ms.
Proof. apply calls_ReadKey. by intros ? []. Qed.

Lemma reads_Prepare sc ms data ns :
  Forall (λ m, reads_only (ReadKey m)) ms → reads_only (PrepareRegisteredService sc ms data ns).
Proof. apply calls_Prepare. by intros []. Qed.

(** The target of the agent's strategy, as read in the trace. *)
Definition target_read (strategy : string) (req : NamespacedName) (cfg : RestConfig) (tns : string)
    (t : list kevent) : Prop :=
  (strategy = SynchronizationStrategyPush ∧
   KEv (CBuildConfigFromFlags "/etc/primaza/kubeconfig") (Ok cfg) ∈ t ∧
   KEv (CReadFile "/etc/primaza/namespace") (Ok tns) ∈ t) ∨
  (strategy = SynchronizationStrategyPull ∧ KEv CInClusterConfig (Ok cfg) ∈ t ∧ tns = nn_Namespace req).

(** The registered service and the secret of a resource. *)
Definition service_object (tns : string) (data : json) (k : Kind) (key : NamespacedName) : Prop :=
  (k = KRegisteredService ∧ key = {| nn_Namespace := tns; nn_Name := GetName data |}) ∨
  (k = KSecret ∧ key = {| nn_Namespace := tns; nn_Name := descriptor (GetName data) |}).

(** What a write of the agent may be, after [t]. *)
Definition svc_write (strategy : string) (req : NamespacedName) (t : list kevent) (c : Call) : Prop :=
  is_write c → ∃ cl k key, write_target c = Some (cl, key) ∧ write_kind c = Some k ∧
    ((cl = Manager ∧ k = KServiceClass ∧ key = req) ∨
     (∃ cfg tns gvk items data, cl = ForConfig cfg ∧ target_read strategy req cfg tns t ∧
        KEv (CListUnstructured Manager gvk (nn_Namespace req) None) (Ok items) ∈ t ∧
        data ∈ items ∧ service_object tns data k key)).

Lemma svc_write_app strategy req t t' c :
  svc_write strategy req t c → svc_write strategy req (t ++ t') c.
Proof.
  intros Hw Hc. destruct (Hw Hc) as (cl & k & key & Ht & Hk & HP). exists cl, k, key.
  split; [done|]. split; [done|]. destruct HP as [HP|HP]; [by left|right].
  destruct HP as (cfg & tns & gvk & items & data & ? & Hr & ? & ? & ?).
  exists cfg, tns, gvk, items, data. split_and!; try done; [|set_solver].
  unfold target_read in *. set_solver.
Qed.

(** What the two functions given to the loop have in common: they write the objects of
    the resource only. *)
Definition writes_service (P : Call → Prop)
    (handleFunc : Client → RegisteredService → option Secret → M (list (option gerr)))
    (cl : Client) (tns : string) (data : json) : Prop :=
  ∀ (rs : RegisteredService) (secret : option Secret),
    ObjectKeyFromObject (k := KRegisteredService) rs = {| nn_Namespace := tns; nn_Name := GetName data |} →
    (∀ s : Secret, secret = Some s → ObjectKeyFromObject (k := KSecret) s =
       {| nn_Namespace := tns; nn_Name := descriptor (GetName data) |}) →
    only_calls legal P (handleFunc cl rs secret).

Definition object_call (cl : Client) (tns : string) (data : json) (c : Call) : Prop :=
  is_write c → ∃ k key, write_target c = Some (cl, key) ∧ write_kind c = Some k ∧ service_object tns data k key.

Lemma update_writes_service cl tns data :
  writes_service (object_call cl tns data) updateRegisteredService cl tns data.
Proof.
  intros rs secret Hrs Hs. unfold updateRegisteredService, write_descriptor. calls; try (by intros []).
  - split; intros _; eexists _, _; (split; [done|]); (split; [done|]); left; by rewrite Hkey, Hrs.
  - split; intros _; eexists _, _; (split; [done|]); (split; [done|]); right; rewrite Hkey; by rewrite Hs.
Qed.

Lemma delete_writes_service cl tns data :
  writes_service (object_call cl tns data) deleteRegisteredService cl tns data.
Proof.
  intros rs secret Hrs Hs. unfold deleteRegisteredService. calls. intros _. eexists _, _.
  split; [done|]. split; [done|]. left. by rewrite Hrs.
Qed.

Lemma only_calls_handle_services P sc cl tns h items errs :
  P (CGetenv PrimazaClusterEnvironmentEnvVar) → (∀ key, P (CGet Manager KSecret key)) →
  (∀ data, data ∈ items → writes_service P h cl tns data) →
  only_calls legal P (handle_services sc cl tns h items errs).
Proof.
  intros Henv Hr. revert errs. induction items as [|data items IH]; intros errs Hw; cbn [handle_services]; [calls|].
  assert (Hd : writes_service P h cl tns data) by (apply Hw, elem_of_cons; by left).
  assert (Hds : ∀ d, d ∈ items → writes_service P h cl tns d).
  { intros d Hin. apply Hw, elem_of_cons. by right. }
  clear Hw. specialize (λ errs', IH errs' Hds). clear Hds.
  destruct (ServiceEndpointDefinitionMapping _ _ _) as [ms|e] eqn:Hms; [|calls].
  apply (calls_ReadKey P) in Hms; [|exact Hr].
  assert (Hp : kwp (PrepareRegisteredService sc ms data tns) (λ t out,
    Forall (λ ev : kevent, P (projT1 ev)) t ∧ ∀ rs secret, out = Done (Ok (rs, secret)) →
      ObjectKeyFromObject (k := KRegisteredService) rs = {| nn_Namespace := tns; nn_Name := GetName data |} ∧
      (∀ s : Secret, secret = Some s → ObjectKeyFromObject (k := KSecret) s =
         {| nn_Namespace := tns; nn_Name := descriptor (GetName data) |}))).
  { apply wp_and; [by apply calls_Prepare|].
    apply wp_Prepare_keys. }
  unfold only_calls. eapply (wp_bind_spec legal); [exact Hp| |by intros t h' [? _]].
  intros t r [Ht Hk]. destruct r as [[rs secret]|e].
  - destruct (Hk rs secret eq_refl) as [Hrs Hs]. 
    assert (only_calls legal P (errs' ← h cl rs secret;
              handle_services sc cl tns h items (errs ++ errs'))) as Hc.
    { apply only_calls_bind; [by apply Hd|]. intros errs'. apply IH. }
    eapply wp_mono; [exact Hc|]. intros t' o Ht'. by apply Forall_app.
  - eapply wp_mono; [apply IH|]. intros t' o Ht'. by apply Forall_app.
Qed.

Lemma wp_getTargetClient strategy (req : NamespacedName) ns :
  ns = nn_Namespace req →
  kwp (getTargetClient strategy ns) (λ t out, Forall (λ ev : kevent, ¬ is_write (projT1 ev)) t ∧
    ∀ cfg tns, out = Done (Ok (cfg, tns)) → target_read strategy req cfg tns t).
Proof.
  intros ->. unfold getTargetClient, GetPrimazaKubeconfig, target_read.
  case_bool_decide as Hs; [|case_bool_decide as Hs'].
  - wcall cfg Hcfg. cbv beta. destruct cfg as [cfg|e]; [|wflow; split; [repeat constructor; by intros []|done]].
    wcall rns Hrns. cbv beta. destruct rns as [rns|e]; wflow; (split; [repeat constructor; by intros []|]); [|done].
    intros cfg' tns [= <- <-]. left. split_and!; [done|set_solver|set_solver].
  - wcall cfg Hcfg. cbv beta. destruct cfg as [cfg|e]; wflow; (split; [repeat constructor; by intros []|]); [|done].
    intros cfg' tns [= <- <-]. right. split_and!; [done|set_solver|done].
  - wflow. by split.
Qed.

(** The writes of one pass over the resources listed. *)
Lemma wp_HandleRegisteredServices strategy req t gvk items sc h :
  om_Namespace (scl_meta sc) = nn_Namespace req →
  (∀ cl tns data, writes_service (object_call cl tns data) h cl tns data) →
  KEv (CListUnstructured Manager gvk (nn_Namespace req) None) (Ok items) ∈ t →
  kwp (HandleRegisteredServices strategy sc items h) (λ t' out,
    justified (λ t1 ev, svc_write strategy req (t ++ t1) (projT1 ev)) t' ∧
    ∀ sc' err, out = Done (sc', err) → scl_meta sc' = scl_meta sc).
Proof.
  intros Hns Hw Hl. unfold HandleRegisteredServices.
  eapply (wp_bind_spec legal); [by apply (wp_getTargetClient strategy req)| |].
  2: { intros t1 hl [Ht1 _]. split; [|done]. apply justified_all.
       eapply Forall_impl; [exact Ht1|]. by intros ev Hev t2 ?%Hev. }
  intros t1 target [Ht1 Htgt].
  assert (Hj1 : justified (λ u ev, svc_write strategy req (t ++ u) (projT1 ev)) t1).
  { apply justified_all. eapply Forall_impl; [exact Ht1|]. by intros ev Hev t2 ?%Hev. }
  destruct target as [[cfg tns]|e]; [|wflow; rewrite app_nil_r; split; [done|]; by intros sc' err [= <- _]].
  specialize (Htgt cfg tns eq_refl).
  set (W := svc_write strategy req (t ++ t1)).
  assert (Hread : ∀ c, ¬ is_write c → W c) by (intros c Hc Hc'; by destruct (Hc Hc')).
  assert (Hobj : ∀ data c, data ∈ items → object_call (ForConfig cfg) tns data c → W c).
  { intros data c Hd Hc Hc'. destruct (Hc Hc') as (k & key & Htg & Hk & Hso).
    exists (ForConfig cfg), k, key. split; [done|]. split; [done|]. right. exists cfg, tns, gvk, items, data.
    split_and!; try done; [|set_solver]. unfold target_read in *. set_solver. }
  refine (wp_mono legal _ (λ t' out, Forall (λ ev : kevent, W (projT1 ev)) t' ∧
    ∀ sc' err, out = Done (sc', err) → scl_meta sc' = scl_meta sc) _ _ _).
  2: { intros t' out [Ht' Hm]. split; [|done]. apply justified_app; [done|].
       eapply justified_mono; [|by apply (justified_after (svc_write strategy req) (t ++ t1)); [apply svc_write_app|]].
       intros u ev. by rewrite (assoc_L (++)). }
  apply wp_and.
  - lazymatch goal with |- wp _ ?p _ => change (only_calls legal W p) end.
    unfold TestConnection. calls; try (apply Hread; by intros []).
    apply only_calls_handle_services; [by intros []|by intros ? []|]. intros data Hd rs secret Hrs Hs.
    eapply only_calls_mono; [by apply Hw|]. intros c. by apply (Hobj data).
  - eapply (wp_bind_spec legal (λ _ _, True)); [done| |done]. intros u status _.
    eapply (wp_bind_spec legal (λ _ _, True)); [done| |done]. intros u' cs _.
    case_bool_decide; wflow; [by intros sc' err [= <- _]|].
    eapply (wp_bind_spec legal (λ _ _, True)); [done| |done]. intros u2 [e|] _; wflow; [by intros sc' err [= <- _]|].
    eapply (wp_bind_spec legal (λ _ _, True)); [done| |done]. intros u3 err _. wflow. by intros sc' err' [= <- _].
Qed.

Section Reconcile.
  Context (strategy : string) (req : NamespacedName).

(** Every write of the rest is justified, [t] being what came before. *)
Definition justified_from (t t' : list kevent) : Prop :=
  justified (λ t1 ev, svc_write strategy req (t ++ t1) (projT1 ev)) t'.

Lemma justified_from_const t t' :
  Forall (λ ev : kevent, svc_write strategy req t (projT1 ev)) t' → justified_from t t'.
Proof. apply justified_after, svc_write_app. Qed.

Lemma justified_from_app t t1 t2 :
  justified_from t t1 → justified_from (t ++ t1) t2 → justified_from t (t1 ++ t2).
Proof.
  intros H1 H2. apply justified_app; [done|]. eapply justified_mono; [|exact H2].
  intros u ev. by rewrite (assoc_L (++)).
Qed.

Lemma svc_write_read t c : ¬ is_write c → svc_write strategy req t c.
Proof. intros Hc Hc'. by destruct (Hc Hc'). Qed.

(** A part whose calls are justified by what came first, then the rest. *)
Lemma wp_from_bind {A B} t (p : M A) (f : A → M B) :
  only_calls legal (svc_write strategy req t) p →
  (∀ t' a, kexec p t' (Done a) → kwp (f a) (λ t'' _, justified_from (t ++ t') t'')) →
  kwp (p ≫= f) (λ t' _, justified_from t t').
Proof.
  intros Hp Hf. eapply (wp_bind_spec legal (λ t' o, Forall (λ ev : kevent, svc_write strategy req t (projT1 ev)) t' ∧ kexec p t' o)).
  - intros t' o He. split; [by apply (Hp t' o)|done].
  - intros t' a [Ht' He]. eapply wp_mono; [by apply (Hf t')|]. intros t'' o Ht''.
    apply justified_from_app; [by apply justified_from_const|done].
  - intros t' hl [Ht' _]. by apply justified_from_const.
Qed.

Lemma class_write t cl (sc : ServiceClass) :
  cl = Manager → ObjectKeyFromObject (k := KServiceClass) sc = req →
  svc_write strategy req t (CUpdate cl KServiceClass sc) ∧
  svc_write strategy req t (CStatusUpdate cl KServiceClass sc).
Proof.
  intros -> Hk. split; intros _; eexists _, _, _; (split; [done|]); (split; [done|]); left; by rewrite Hk.
Qed.

Lemma only_calls_write_status t sc errs :
  ObjectKeyFromObject (k := KServiceClass) sc = req →
  only_calls legal (svc_write strategy req t) (write_status sc errs).
Proof. intros Hk. unfold write_status. calls. by apply class_write. Qed.

Lemma same_meta_key (sc sc' : ServiceClass) :
  scl_meta sc' = scl_meta sc →
  ObjectKeyFromObject (k := KServiceClass) sc' = ObjectKeyFromObject (k := KServiceClass) sc.
Proof. unfold ObjectKeyFromObject, obj_Namespace, obj_Name. by simpl; intros ->. Qed.

(** The pass over the resources, followed by anything that keeps to the class. *)
Lemma wp_handle_then {B} t gvk items sc h (f : ServiceClass * option gerr → M B) :
  ObjectKeyFromObject (k := KServiceClass) sc = req →
  (∀ cl tns data, writes_service (object_call cl tns data) h cl tns data) →
  KEv (CListUnstructured Manager gvk (nn_Namespace req) None) (Ok items) ∈ t →
  (∀ sc' err t', ObjectKeyFromObject (k := KServiceClass) sc' = req →
     kwp (f (sc', err)) (λ t'' _, justified_from t' t'')) →
  kwp (HandleRegisteredServices strategy sc items h ≫= f) (λ t' _, justified_from t t').
Proof.
  intros Hk Hw Hl Hf. assert (Hns : om_Namespace (scl_meta sc) = nn_Namespace req) by by rewrite <- Hk.
  eapply (wp_bind_spec legal); [by apply (wp_HandleRegisteredServices strategy req t gvk items sc h)| |].
  - intros t' [sc' err] [Ht' Hm]. specialize (Hm sc' err eq_refl).
    eapply wp_mono; [apply (Hf sc' err (t ++ t'))|].
    + by rewrite (same_meta_key _ _ Hm).
    + intros t'' o Ht''. by apply justified_from_app.
  - by intros t' hl [Ht' _].
Qed.

(** An object that may have been updated keeps its key. *)
Lemma updated_key (b : bool) (sc sc' : ServiceClass) t :
  ObjectKeyFromObject (k := KServiceClass) sc = req →
  kexec (if b then api (CUpdate Manager KServiceClass sc) else mret (Ok sc)) t (Done (Ok sc')) →
  ObjectKeyFromObject (k := KServiceClass) sc' = req.
Proof.
  intros Hk. destruct b.
  { intros [_ Hr]%(exec_call_inv legal (CUpdate Manager KServiceClass sc)). simpl in Hr. congruence. }
  intros [_ [= ->]]. done.
Qed.

Lemma wp_reconcile_services t gvk running sc controller items :
  ObjectKeyFromObject (k := KServiceClass) sc = req →
  KEv (CListUnstructured Manager gvk (nn_Namespace req) None) (Ok items) ∈ t →
  kwp (reconcile_services strategy running sc controller items) (λ t' _, justified_from t t').
Proof.
  intros Hk Hl. unfold reconcile_services. destruct (negb _ && negb _); [|destruct (ContainsFinalizer _ _)].
  - assert (Hka := key_AddFinalizer (k := KServiceClass) sc finalizer).
    destruct (AddFinalizer _ _) as [sc1 added]. cbn [fst] in Hka.
    apply wp_from_bind; [destruct added; calls; by apply class_write; rewrite ?Hka|].
    intros t1 [sc2|e] He; [|wflow; apply justified_nil].
    assert (ObjectKeyFromObject (k := KServiceClass) sc2 = req) as Hk2.
    { by eapply (updated_key added); [|exact He]; congruence. }
    apply (wp_handle_then _ gvk items); [done|apply update_writes_service|set_solver|].
    intros sc3 err t' Hk3. apply wp_from_bind; [by apply only_calls_write_status|].
    intros; wflow; apply justified_nil.
  - apply wp_from_bind; [destruct (⟪ _ ⟫); calls; by apply svc_write_read; intros []|].
    intros t1 running' _.
    apply (wp_handle_then _ gvk items); [done|apply delete_writes_service|set_solver|].
    intros sc3 err t' Hk3. assert (Hkr := key_RemoveFinalizer (k := KServiceClass) sc3 finalizer).
    destruct (RemoveFinalizer _ _) as [sc4 removed]. cbn [fst] in Hkr.
    apply wp_from_bind; [destruct removed; calls; by apply class_write; rewrite ?Hkr|].
    intros t2 [sc5|e] He; [|wflow; apply justified_nil].
    assert (ObjectKeyFromObject (k := KServiceClass) sc5 = req) as Hk5.
    { by eapply (updated_key removed); [|exact He]; congruence. }
    apply wp_from_bind; [by apply only_calls_write_status|]. intros; wflow; apply justified_nil.
  - wflow. apply justified_nil.
Qed.
End Reconcile.

(** C21: the service agent writes, in its own cluster, the service class it reconciles
    and nothing else, and in the target of its strategy, the control plane (Push) or its
    own namespace (Pull), only registered services that bear the names of the resources
    it listed in its namespace, and their descriptor secrets, all in the target's
    namespace. *)
Theorem svc_agent_writes strategy running req :
  kwp (Reconcile strategy running req)
    (λ t _, justified (λ t1 ev, svc_write strategy req t1 (projT1 ev)) t).
Proof.
  change (kwp (Reconcile strategy running req) (λ t _, justified_from strategy req [] t)).
  assert (Hr : ∀ t c, ¬ is_write c → svc_write strategy req t c) by apply svc_write_read.
  unfold Reconcile, own_deployment. apply wp_from_bind; [calls; apply Hr; by intros []|].
  intros t1 [sc|e] He; [|wflow; apply justified_nil].
  apply (exec_call_inv legal (CGet Manager KServiceClass req)) in He as [-> Hk]. simpl in Hk.
  apply wp_from_bind; [calls; apply Hr; by intros []|]. intros t2 [controller|e] _; [|wflow; apply justified_nil].
  unfold setOwnerReference.
  assert (Hko := key_SetControllerReference (ko := KDeployment) (k := KServiceClass) controller sc).
  destruct (SetControllerReference _ _) as [sc1 [e|]]; cbn [fst] in Hko; [wflow; apply justified_nil|].
  apply wp_from_bind; [calls; apply class_write; congruence|].
  intros t3 [sc2|e] He; [|wflow; apply justified_nil]. 
  apply (exec_call_inv legal (CUpdate Manager KServiceClass sc1)) in He as [-> Hk2]. simpl in Hk2.
  assert (Hk2' : ObjectKeyFromObject (k := KServiceClass) sc2 = req) by congruence. clear Hk2.
  apply wp_from_bind.
  { unfold SetWatchersForResources, RunInformer. calls; apply Hr; by intros []. }
  intros t4 [running' [e|]] _; [wflow; apply justified_nil|].
  unfold GetResources. wassoc. apply wp_from_bind; [calls; apply Hr; by intros []|].
  intros t5 [e|] _; [wret; wflow; apply justified_nil|].
  apply wp_from_bind; [calls; apply Hr; by intros []|].
  intros t6 [items|e] He; [|wflow; apply justified_nil]. 
  apply (exec_call_inv legal (CListUnstructured _ _ _ _)) in He as [-> _].
  apply (wp_reconcile_services _ _ _ (service_gvk sc2)); [done|].
  assert (om_Namespace (scl_meta sc2) = nn_Namespace req) as -> by by rewrite <- Hk2'. set_solver.
Qed.
End Writes.
