(* ===== verification/Watches.v ===== *)
(** * What the controllers watch

    The SetupWithManager functions of src/controllers and src/controllers/agents say which
    objects a controller watches and which requests a change to one of them adds to its
    queue.  This file models these functions as data, and the part of controller-runtime
    that reads the data (vendored: pkg/builder, pkg/handler, pkg/predicate): the events of
    an object, the predicates that filter them and the handlers that turn them into
    requests.  The theorems put the watches together with the reconcilers of the other
    files.  The generation of an object, which only a predicate reads, is part of an
    event.  Generic events are left out, since no controller has a source of them, and so is
    the look-up of the owner's scope, all the owners being namespaced. *)

From S2P Require Import Prelude Prog GoErr GoStr Types Kube WorkerCluster Namespaces AppNamespaces.
From S2P Require Import ServiceClaimCtrl RegisteredServiceCtrl Informers ClusterEnvCtrl Workload ServiceBindingCtrl.
From S2P Require Import AppAgent SvcAgent ClaimRace.

#[local] Open Scope string_scope.
#[local] Open Scope list_scope.
#[local] Open Scope primaza_scope.

(** ** Events, predicates and handlers *)

(** event.CreateEvent, event.UpdateEvent (with both generations) and event.DeleteEvent. *)
Inductive Event (k : Kind) :=
| CreateEvent (object : kobj k)
| UpdateEvent (objectOld objectNew : kobj k) (generationOld generationNew : Z)
| DeleteEvent (object : kobj k).
Arguments CreateEvent {k} object.
Arguments UpdateEvent {k} objectOld objectNew generationOld generationNew.
Arguments DeleteEvent {k} object.

(** predicate.Predicate *)
Definition Predicate : Type := ∀ k, Event k → bool.

Definition NewPredicateFuncs (filter : ∀ k, kobj k → bool) : Predicate := λ k e,
  match e with
  | CreateEvent o | DeleteEvent o => filter k o
  | UpdateEvent _ new _ _ => filter k new
  end.

Definition GenerationChangedPredicate : Predicate := λ k e,
  match e with
  | UpdateEvent _ _ old new => ⟪ new ≠ old ⟫
  | _ => true
  end.

(** handler.EventHandler: for the object itself, for its controller of a kind, and by a
    function. *)
Inductive Handler (k : Kind) :=
| EnqueueRequestForObject
| EnqueueRequestForOwner (ownerType : Kind)
| EnqueueRequestsFromMapFunc (fn : kobj k → M (list NamespacedName)).
Arguments EnqueueRequestForObject {k}.
Arguments EnqueueRequestForOwner {k} ownerType.
Arguments EnqueueRequestsFromMapFunc {k} fn.

(** [getOwnerReconcileRequest] of the only reference that [getOwnersReferences] gives with
    [OnlyControllerOwner], the controller's. *)
Definition getOwnerReconcileRequest {k} (ownerType : Kind) (object : kobj k) : list NamespacedName :=
  match GetControllerOf (obj_meta object) with
  | None => []
  | Some ref =>
      match group_of (or_APIVersion ref), group_of (gvk_APIVersion ownerType) with
      | Some refGroup, Some group =>
          if ⟪ or_Kind ref = gvk_Kind ownerType ⟫ && ⟪ refGroup = group ⟫ then
            [ {| nn_Namespace := obj_Namespace object; nn_Name := or_Name ref |} ]
          else []
      | _, _ => []
      end
  end.

(** Requests added to those already there, each once. *)
Definition enqueue (reqs q : list NamespacedName) : list NamespacedName :=
  foldl (λ q req, if ⟪ req ∈ q ⟫ then q else q ++ [req]) q reqs.

(** The methods [Create], [Update] and [Delete] of the handlers.  The requests of an owner
    are collected in a Go map, whose order is left aside: at most two, of an update. *)
Definition handle {k} (h : Handler k) (e : Event k) : M (list NamespacedName) :=
  match h with
  | EnqueueRequestForObject =>
      mret [match e with
            | CreateEvent o | DeleteEvent o | UpdateEvent _ o _ _ => ObjectKeyFromObject o
            end]
  | EnqueueRequestForOwner ownerType =>
      let toRequests := getOwnerReconcileRequest ownerType in
      mret match e with
           | CreateEvent o | DeleteEvent o => enqueue (toRequests o) []
           | UpdateEvent old new _ _ => enqueue (toRequests new) (enqueue (toRequests old) [])
           end
  | EnqueueRequestsFromMapFunc toRequests =>
      match e with
      | CreateEvent o | DeleteEvent o => reqs ← toRequests o; mret (enqueue reqs [])
      | UpdateEvent old new _ _ =>
          reqs ← toRequests old;
          reqs' ← toRequests new;
          mret (enqueue reqs' (enqueue reqs []))
      end
  end.

(** ** Builders *)

Definition Watch : Type := { k : Kind & Handler k }.
Definition watch (k : Kind) (h : Handler k) : Watch := existT k h.

(** builder.Builder: the arguments of For, Owns, Watches and WithEventFilter. *)
Record Builder := {
  b_For : Kind; b_Owns : list Kind; b_Watches : list Watch; b_WithEventFilter : list Predicate }.

Definition doWatch (b : Builder) : list Watch :=
  watch (b_For b) EnqueueRequestForObject
  :: ((λ k, watch k (EnqueueRequestForOwner (b_For b))) <$> b_Owns b)
  ++ b_Watches b.

(** The kinds of which a controller's manager keeps a cache. *)
Definition watched_kinds (b : Builder) : list Kind := projT1 <$> doWatch b.

(** What an event adds to the queue through the watches of its object's kind. *)
Fixpoint dispatch (ws : list Watch) {k} (e : Event k) : M (list NamespacedName) :=
  match ws with
  | [] => mret []
  | existT k' h :: ws =>
      match decide (k' = k) with
      | left H =>
          reqs ← handle (eq_rect k' Handler h k H) e;
          reqs' ← dispatch ws e;
          mret (reqs ++ reqs')
      | right _ => dispatch ws e
      end
  end.

(** Every watch has the predicates of the builder. *)
Definition requests (b : Builder) {k} (e : Event k) : M (list NamespacedName) :=
  if forallb (λ p : Predicate, p k e) (b_WithEventFilter b) then dispatch (doWatch b) e
  else mret [].

(** ** SetupWithManager *)

Definition controls (k : Kind) (owned : list Kind) : Builder :=
  {| b_For := k; b_Owns := owned; b_Watches := []; b_WithEventFilter := [] |}.

(** Of the deployments, an agent is interested in its own. *)
Definition own_deployment_only (deployment : string) : Builder :=
  {| b_For := KDeployment; b_Owns := []; b_Watches := [];
     b_WithEventFilter := [NewPredicateFuncs (λ _ o, ⟪ obj_Name o = deployment ⟫)] |}.

Module ControlPlane.

Definition ClusterEnvironmentSetup : Builder := controls KClusterEnvironment [KSecret].
Definition ServiceClaimSetup : Builder :=
  {| b_For := KServiceClaim; b_Owns := [];
     b_Watches := [watch KRegisteredService
                     (EnqueueRequestsFromMapFunc (k := KRegisteredService)
                        ServiceClaimCtrl.reconcileOnRegisteredServiceUpdate)];
     b_WithEventFilter := [GenerationChangedPredicate] |}.
Definition ServiceClassSetup : Builder := controls KServiceClass [].
Definition RegisteredServiceSetup : Builder := controls KRegisteredService [KCronJob].
Definition ServiceCatalogSetup : Builder := controls KServiceCatalog [].

(** The controllers that main of cmd/primaza adds to its manager. *)
Definition controllers : list Builder :=
  [ClusterEnvironmentSetup; ServiceClaimSetup; ServiceClassSetup; RegisteredServiceSetup;
   ServiceCatalogSetup].
End ControlPlane.

Module App.

Definition ServiceBindingSetup : Builder := controls KServiceBinding [KSecret].
Definition ServiceClaimSetup : Builder := controls KServiceClaim [].
Definition ServiceCatalogSetup : Builder := controls KServiceCatalog [].
Definition AgentSetup : Builder := own_deployment_only ApplicationAgentDeploymentName.

(** Those of cmd/agents/app. *)
Definition controllers (strategy : string) : list Builder :=
  [ServiceBindingSetup]
  ++ (if ⟪ strategy = SynchronizationStrategyPush ⟫ then [ServiceClaimSetup] else [])
  ++ [ServiceCatalogSetup; AgentSetup].
End App.

Module Svc.

Definition ServiceClassSetup : Builder := controls KServiceClass [].
Definition AgentSetup : Builder := own_deployment_only ServiceAgentDeploymentName.

(** Those of cmd/agents/svc. *)
Definition controllers : list Builder := [ServiceClassSetup; AgentSetup].
End Svc.

(** ** Owners are told: properties *)

(** A reference put in place of one to the same object is the first of those that
    satisfy a test, if it satisfies it itself and the first one referred to the same
    object. *)
Lemma find_first_upsert (p : OwnerReference → bool) ref owners :
  p ref = true → (∀ r, find_first p owners = Some r → referSameObject r ref = true) →
  find_first p (upsertOwnerRef ref owners) = Some ref.
Proof.
  intros Hp. induction owners as [|r owners IH]; simpl; [by rewrite Hp|]. intros Hsame.
  destruct (referSameObject r ref) eqn:Hr; simpl; [by rewrite Hp|].
  destruct (p r) eqn:Hpr; [|by apply IH]. specialize (Hsame r eq_refl). congruence.
Qed.

Lemma obj_key_parts {k k'} (a : kobj k) (b : kobj k') :
  ObjectKeyFromObject a = ObjectKeyFromObject b →
  obj_Name a = obj_Name b ∧ obj_Namespace a = obj_Namespace b.
Proof. by intros [= ? ?]. Qed.

(** The round trip of an owner reference: an event of an object requests the owner that
    was made its controller. *)
Lemma controller_is_requested {ko k} (owner : kobj ko) (o o' : kobj k) :
  SetControllerReference owner o = (o', None) → obj_Namespace o = obj_Namespace owner →
  getOwnerReconcileRequest ko o' = [ObjectKeyFromObject owner].
Proof.
  unfold SetControllerReference. destruct (validateOwner owner o); [done|].
  set (ref := {| or_APIVersion := _ |}).
  assert (Hreq : (∀ r, GetControllerOf (obj_meta o) = Some r → referSameObject r ref = true) →
    obj_Namespace o = obj_Namespace owner →
    getOwnerReconcileRequest ko (with_owner o ref) = [ObjectKeyFromObject owner]).
  { intros Hsame Hns. unfold getOwnerReconcileRequest, with_owner, obj_Namespace.
    rewrite !obj_meta_set_meta. unfold GetControllerOf. cbn [om_OwnerReferences om_set_OwnerReferences].
    rewrite (find_first_upsert _ ref); [|done|exact Hsame]. cbn [om_Namespace om_set_OwnerReferences].
    unfold obj_Namespace in Hns. rewrite Hns. by destruct ko. }
  destruct (GetControllerOf (obj_meta o)) as [existing|] eqn:Hc.
  - destruct (referSameObject existing ref) eqn:Hs; [|done]. intros [= <-]. apply Hreq. by intros r [= <-].
  - intros [= <-]. by apply Hreq.
Qed.

(** An object that a controller of [ko] writes through its manager requests, if it is of
    the kind [k], the object being reconciled. *)
Definition requests_owner (ko k : Kind) (req : NamespacedName) (c : Call) : Prop :=
  match c with
  | CCreate Manager k' o | CUpdate Manager k' o => k' = k → getOwnerReconcileRequest ko o = [req]
  | _ => True
  end.

Lemma requests_owner_read ko k req c : ¬ is_write c → requests_owner ko k req c.
Proof. by destruct c. Qed.

(** *** Registered services and their cron jobs *)

Lemma requests_registerHealthcheck rs :
  only_calls legal (requests_owner KRegisteredService KCronJob (ObjectKeyFromObject (k := KRegisteredService) rs))
    (registerHealthcheck rs).
Proof.
  unfold registerHealthcheck. apply only_calls_bind; [|intros [? ?]; apply only_calls_ret].
  apply (only_calls_CreateOrUpdate_post _ Manager KCronJob _ _
    (λ o', getOwnerReconcileRequest KRegisteredService (k := KCronJob) o' =
           [ObjectKeyFromObject (k := KRegisteredService) rs])).
  - done.
  - intros o' _ Ho'. split; intros _; exact Ho'.
  - intros x [_ Hns]%obj_key_parts. unfold mutate_cronjob, deref.
    destruct (rss_HealthCheck (rs_Spec rs)); wflow; (split; [constructor|]); [|done].
    intros o' [= Ho']. by apply (controller_is_requested (ko := KRegisteredService) (k := KCronJob) _ _ _ Ho').
Qed.

Lemma requests_service_Reconcile req :
  only_calls legal (requests_owner KRegisteredService KCronJob req) (RegisteredServiceCtrl.Reconcile req).
Proof.
  unfold RegisteredServiceCtrl.Reconcile. apply only_calls_read; [done|]. intros [rs|e] Hrs.
  2: { unfold removeServiceFromCatalogs, getServiceCatalogs, removeServiceFromCatalog. by calls. }
  assert (Hreg : ∀ st, only_calls legal (requests_owner KRegisteredService KCronJob req)
                         (registerHealthcheck (set_state rs st))).
  { intros st. rewrite <- Hrs. apply (requests_registerHealthcheck (set_state rs st)). }
  unfold observe_state, handleHealthcheck, cleanupHealthchecks, reconcileCatalogs, getServiceCatalogs,
    removeServiceFromCatalogs, removeServiceFromCatalog, addServiceToCatalog.
  calls; try done; try apply Hreg.
  - rewrite <- Hrs. apply requests_registerHealthcheck.
  - unfold getServiceCatalogs. by calls.
Qed.

(** *** Service bindings and their secrets *)

Section Bindings.
Context `{ContainerLib}.

(** Injecting the binding changes the status of the binding object, not what it is. *)
Lemma key_PrepareBinding sb psSecret apps :
  kwp (PrepareBinding sb psSecret apps) (λ _ o, ∀ p, o = Done p →
    ObjectKeyFromObject (k := KServiceBinding) p.1 = ObjectKeyFromObject (k := KServiceBinding) sb).
Proof.
  unfold PrepareBinding, bindApplications.
  eapply (wp_bind_spec legal); [apply wp_bind_loop| |by intros].
  intros t [sb1 el] [_ Hsb]. destruct (Hsb sb1 el eq_refl) as (Hm & _).
  assert (Hup : ∀ c st, c_Type c = ServiceBindingBoundCondition →
    kwp (updateServiceBindingStatus sb1 c st) (λ _ o, ∀ p, o = Done p →
      ObjectKeyFromObject (k := KServiceBinding) p.1 = ObjectKeyFromObject (k := KServiceBinding) sb)).
  { intros c st Hc. unfold updateServiceBindingStatus.
    eapply (wp_bind_spec legal (λ _ _, True)); [done| |by intros]. intros t' cs _. wcall r Hr.
    destruct r; wflow; intros p [= <-]; [etrans; [exact Hr|]|];
      unfold ObjectKeyFromObject, obj_Name, obj_Namespace; simpl; by rewrite Hm. }
  unfold updateServiceBindingStatusWithBindingResult.
  eapply (wp_bind_spec legal (λ _ o, ∀ p, o = Done p →
    ObjectKeyFromObject (k := KServiceBinding) p.1 = ObjectKeyFromObject (k := KServiceBinding) sb)).
  - wcall now Hnow. cbv beta. by destruct el; apply Hup.
  - intros t' [sb2 [e|]] Hp; wflow; intros p [= <-]; by apply (Hp _ eq_refl).
  - by intros.
Qed.

(** The secret is read in the namespace of the binding. *)
Lemma namespace_GetSecret sb apps :
  kwp (GetSecret sb apps) (λ _ o, ∀ s, o = Done (Ok s) →
    obj_Namespace (k := KSecret) s = obj_Namespace (k := KServiceBinding) sb).
Proof.
  unfold GetSecret. wcall got Hgot. destruct got as [s|e]; wflow.
  { intros ? [= <-]. by apply (f_equal nn_Namespace) in Hgot. }
  wcall now Hnow. cbv beta.
  eapply (wp_bind_spec legal (λ _ _, True)); [done| |done]. intros t [sb1 [err|]] _; wflow; [done|].
  by eapply (wp_bind_spec legal (λ _ _, True)); [done| |done]; intros ? [?|] _; wflow.
Qed.

Lemma requests_bind_found sb :
  only_calls legal (requests_owner KServiceBinding KSecret (ObjectKeyFromObject (k := KServiceBinding) sb))
    (bind_found sb).
Proof.
  unfold bind_found. apply only_calls_bind; [unfold getApplication, lookupWorkload; by calls|].
  intros [apps|err]; [|unfold updateServiceBindingStatus; by calls].
  apply (only_calls_bind_post _ _ _ (λ r, ∀ s, r = Ok s →
    obj_Namespace (k := KSecret) s = obj_Namespace (k := KServiceBinding) sb)).
  { unfold GetSecret, updateServiceBindingStatus. calls; try done.
    eapply only_calls_mono; [apply wp_unbindApplications_calls|by intros []]. }
  { eapply wp_mono; [apply namespace_GetSecret|]. intros t o Ho a -> s ->. by apply Ho. }
  intros [psSecret|e] Hns; [|apply only_calls_ret]. specialize (Hns psSecret eq_refl).
  apply (only_calls_bind_post _ _ _ (λ p,
    ObjectKeyFromObject (k := KServiceBinding) p.1 = ObjectKeyFromObject (k := KServiceBinding) sb)).
  { by apply only_calls_PrepareBinding; [intros []|..]. }
  { apply key_PrepareBinding. }
  intros [sb1 [e|]] Hk; [apply only_calls_ret|]. simpl in Hk.
  destruct (SetControllerReference _ _) as [s' [e|]] eqn:Hs; [apply only_calls_ret|].
  apply only_calls_bind; [|intros ?; apply only_calls_ret].
  refine (only_calls_call legal _ (CUpdate Manager KSecret s') _). intros _.
  rewrite <- Hk. apply (controller_is_requested (ko := KServiceBinding) (k := KSecret) _ _ _ Hs).
  rewrite Hns. by destruct (obj_key_parts (k := KServiceBinding) (k' := KServiceBinding) _ _ Hk).
Qed.

Lemma requests_binding_Reconcile running req :
  only_calls legal (requests_owner KServiceBinding KSecret req) (ServiceBindingCtrl.Reconcile running req).
Proof.
  unfold ServiceBindingCtrl.Reconcile. apply only_calls_read; [done|].
  intros [sb|e] Hsb; [|apply only_calls_ret].
  assert (Hb : only_calls legal (requests_owner KServiceBinding KSecret req)
    (bind_found (AddFinalizer (k := KServiceBinding) sb ServiceBindingFinalizer).1)).
  { replace req with (ObjectKeyFromObject (k := KServiceBinding)
      (AddFinalizer (k := KServiceBinding) sb ServiceBindingFinalizer).1); [apply requests_bind_found|].
    rewrite key_AddFinalizer. exact Hsb. }
  unfold ensureInformerIsRunningForServiceBinding, ensureInformerIsRunningForResource.
  calls; try done; try exact Hb.
  by apply only_calls_finalizeServiceBinding; [intros []|..].
Qed.
End Bindings.

(** *** Cluster environments and their secrets *)

Section Environments.
Context `{KubeconfigLib} `{ManifestLib} `{LabelLib} `{ConverterLib}.

Lemma requests_retrieve ce :
  only_calls legal
    (requests_owner KClusterEnvironment KSecret (ObjectKeyFromObject (k := KClusterEnvironment) ce))
    (retrieveClusterContextSecret ce).
Proof.
  unfold retrieveClusterContextSecret.
  apply (only_calls_bind_post _ _ _ (λ p, ∀ s, p.2 = Ok s →
    p.1 = ce ∧ obj_Namespace (k := KSecret) s = obj_Namespace (k := KClusterEnvironment) ce)).
  { unfold getClusterContextSecret, ClusterContext.GetClusterContextSecret, ClusterContext.getSecret,
      publish_offline, updateClusterEnvironmentStatus, set_condition, update_status. by calls. }
  { unfold getClusterContextSecret, ClusterContext.GetClusterContextSecret, ClusterContext.getSecret.
    wcall got Hgot. cbv beta. destruct got as [s|e]; wflow.
    1: { intros p [= <-] s' [= <-]. split; [done|]. by apply (f_equal nn_Namespace) in Hgot. }
    all: eapply (wp_bind_spec legal (λ _ _, True)); [done| |done]; intros t [ce' uerr] _; wflow; by intros p [= <-]. }
  intros [ce' [s|e]] Hs; [|apply only_calls_ret]. destruct (Hs s eq_refl) as [Hce Hns].
  cbn [fst] in Hce. subst ce'. cbv beta iota.
  apply only_calls_bind.
  - unfold ensureOwnershipOfClusterContextSecret.
    destruct (SetControllerReference _ _) as [s' [e|]] eqn:Hset; [apply only_calls_ret|].
    apply only_calls_bind; [|intros ?; apply only_calls_ret].
    refine (only_calls_call legal _ (CUpdate Manager KSecret s') _). intros _.
    by apply (controller_is_requested (ko := KClusterEnvironment) (k := KSecret) _ _ _ Hset).
  - intros s2. unfold extractClusterContextRESTConfig, publish_offline, updateClusterEnvironmentStatus,
      set_condition, update_status. by calls.
Qed.

Lemma env_call_requests c req :
  env_call (λ _, True) c → requests_owner KClusterEnvironment KSecret req c.
Proof. destruct c; try done; simpl; destruct cl; try done; intros [= ->]; done. Qed.

Lemma requests_environment_Reconcile r req :
  only_calls legal (requests_owner KClusterEnvironment KSecret req) (ClusterEnvCtrl.Reconcile r req).
Proof.
  unfold ClusterEnvCtrl.Reconcile. apply only_calls_read; [done|].
  intros [ce|e] Hce; [|by calls].
  assert (Hlive : ∀ ce', ObjectKeyFromObject (k := KClusterEnvironment) ce' = req →
    only_calls legal (requests_owner KClusterEnvironment KSecret req) (reconcile_live r ce')).
  { intros ce' <-. apply environment_calls_live; [intros c; apply env_call_requests|done|apply requests_retrieve]. }
  assert (Hfin : only_calls legal (requests_owner KClusterEnvironment KSecret req) (finalizeClusterEnvironment r ce)).
  { replace req with (ObjectKeyFromObject (k := KClusterEnvironment) ce) by exact Hce.
    apply environment_calls_finalize; [intros c; apply env_call_requests|apply requests_retrieve]. }
  destruct (HasDeletionTimestamp (ce_meta ce)); [calls; try done; exact Hfin|].
  destruct (AddFinalizer _ _) as [ce1 added] eqn:Hadd.
  assert (Hk : ObjectKeyFromObject (k := KClusterEnvironment) ce1 = req).
  { assert (Hk := key_AddFinalizer (k := KClusterEnvironment) ce clusterEnvironmentFinalizer).
    rewrite Hadd in Hk. etrans; [exact Hk|exact Hce]. }
  destruct added.
  - apply only_calls_read; [by intros|]. intros [ce2|e] Hu; [|apply only_calls_ret].
    apply Hlive. by etrans; [exact Hu|].
  - exact (Hlive ce1 Hk).
Qed.
End Environments.

(** ** What a registered service tells the claims: properties *)

Definition event_objects {k} (e : Event k) : list (kobj k) :=
  match e with
  | CreateEvent o | DeleteEvent o => [o]
  | UpdateEvent old new _ _ => [old; new]
  end.

Lemma elem_of_enqueue r reqs q : r ∈ enqueue reqs q ↔ r ∈ q ∨ r ∈ reqs.
Proof.
  unfold enqueue. revert q. induction reqs as [|x reqs IH]; intros q; simpl; [set_solver|].
  rewrite IH. case_bool_decide; set_solver.
Qed.

(** Through Owns, an event requests the owners of its objects. *)
Lemma elem_of_owner_requests {k} ko (h : Handler k) (e : Event k) r o :
  h = EnqueueRequestForOwner ko → o ∈ event_objects e → r ∈ getOwnerReconcileRequest ko o →
  ∃ reqs, handle h e = mret reqs ∧ r ∈ reqs.
Proof.
  intros -> Ho Hr. eexists. split; [reflexivity|]. destruct e; cbn [event_objects] in Ho;
    rewrite ?elem_of_enqueue; set_solver.
Qed.

Lemma owned_event ko k (e : Event k) r o :
  ko ≠ k → o ∈ event_objects e → r ∈ getOwnerReconcileRequest ko o →
  ∃ reqs, requests (controls ko [k]) e = mret reqs ∧ r ∈ reqs.
Proof.
  intros Hne Ho Hr. unfold requests, controls, doWatch. cbn [b_WithEventFilter b_For b_Owns b_Watches forallb
    fmap list_fmap app dispatch watch].
  destruct (decide (ko = k)); [done|]. destruct (decide (k = k)) as [E|]; [|done].
  rewrite (proof_irrel E eq_refl). cbn [eq_rect].
  destruct (elem_of_owner_requests ko _ e r o eq_refl Ho Hr) as (reqs & -> & Hin).
  exists (reqs ++ []). split; [reflexivity|]. by rewrite app_nil_r.
Qed.

(** The objects of a kind that a run wrote through the manager's client. *)
Definition written_here (k : Kind) (o : kobj k) (t : list kevent) : Prop :=
  ∃ r, KEv (CCreate Manager k o) r ∈ t ∨ KEv (CUpdate Manager k o) r ∈ t.

Lemma requests_owner_written ko k req o t :
  Forall (λ ev : kevent, requests_owner ko k req (projT1 ev)) t → written_here k o t →
  req ∈ getOwnerReconcileRequest ko o.
Proof.
  intros Ht (r & [Hin|Hin]); rewrite Forall_forall in Ht; specialize (Ht _ Hin eq_refl); rewrite Ht; by left.
Qed.

(** An event of any object of a kind that a run wrote requests the object it reconciled. *)
Definition requeued (b : Builder) (k : Kind) (req : NamespacedName) (t : list kevent) : Prop :=
  ∀ o (e : Event k), written_here k o t → o ∈ event_objects e →
  ∃ reqs, requests b e = mret reqs ∧ req ∈ reqs.

Lemma wp_requeued ko k req {A} (p : M A) :
  ko ≠ k → only_calls legal (requests_owner ko k req) p →
  kwp p (λ t _, requeued (controls ko [k]) k req t).
Proof.
  intros Hne Hp. eapply wp_mono; [exact Hp|]. intros t out Ht o e Ho He.
  by apply (owned_event ko k e req o Hne He), (requests_owner_written ko k req o t).
Qed.

Section Owners.
Context `{KubeconfigLib} `{ManifestLib} `{LabelLib} `{ConverterLib} `{ContainerLib}.

(** C17: the controllers that watch what they own are told of it: a later change or
    deletion of the secret that a service binding or a cluster environment stored, or of
    the cron job that a registered service stored, requests the very object that the run
    reconciled. *)
Theorem owned_objects_requeue req :
  (∀ running, kwp (ServiceBindingCtrl.Reconcile running req) (λ t _,
     requeued App.ServiceBindingSetup KSecret req t)) ∧
  (∀ r, kwp (ClusterEnvCtrl.Reconcile r req) (λ t _,
     requeued ControlPlane.ClusterEnvironmentSetup KSecret req t)) ∧
  kwp (RegisteredServiceCtrl.Reconcile req) (λ t _,
     requeued ControlPlane.RegisteredServiceSetup KCronJob req t).
Proof.
  split_and!; intros; apply wp_requeued; try done.
  - apply requests_binding_Reconcile.
  - apply requests_environment_Reconcile.
  - apply requests_service_Reconcile.
Qed.
End Owners.

(** ** Claims *)

(** What the controller of claims does with an event of a claim: an update that leaves the
    generation alone, such as that of its own status, is ignored. *)
Theorem claim_event_requests (e : Event KServiceClaim) :
  requests ControlPlane.ServiceClaimSetup e =
  mret match e with
       | CreateEvent sc | DeleteEvent sc => [ObjectKeyFromObject (k := KServiceClaim) sc]
       | UpdateEvent _ sc old new =>
           if ⟪ new ≠ old ⟫ then [ObjectKeyFromObject (k := KServiceClaim) sc] else []
       end.
Proof.
  destruct e as [o|o o' old new|o]; [reflexivity| |reflexivity].
  unfold requests, ControlPlane.ServiceClaimSetup. simpl. by case_bool_decide.
Qed.

(** An agent is told of its own deployment only. *)
Theorem agent_event_requests deployment (e : Event KDeployment) r :
  (∃ reqs, requests (own_deployment_only deployment) e = mret reqs ∧ r ∈ reqs) ↔
  nn_Name r = deployment ∧
  ∃ d, r = ObjectKeyFromObject (k := KDeployment) d ∧
    match e with CreateEvent o | DeleteEvent o | UpdateEvent _ o _ _ => d = o end.
Proof.
  assert (Heq : requests (own_deployment_only deployment) e =
    mret (let d := match e with CreateEvent o | DeleteEvent o | UpdateEvent _ o _ _ => o end in
          if ⟪ obj_Name (k := KDeployment) d = deployment ⟫
          then [ObjectKeyFromObject (k := KDeployment) d] else [])).
  { unfold requests, own_deployment_only. destruct e; simpl; by case_bool_decide. }
  rewrite Heq. simpl. split.
  - intros (reqs & [= <-] & Hr). case_bool_decide as Hd; [|by apply elem_of_nil in Hr].
    apply list_elem_of_singleton in Hr as ->. split; [exact Hd|]. eexists. split; [reflexivity|by destruct e].
  - intros [Hn (d & -> & Hd)]. eexists. split; [reflexivity|]. simpl in Hn.
    destruct e; subst d; rewrite (bool_decide_true _ Hn); by left.
Qed.

(** The claims looked for in what was listed. *)
Definition listed_claims (items : list ServiceClaim) (t : list kevent) : Prop :=
  KEv (CList Manager KServiceClaim (InNamespace "")) (Ok items) ∈ t.

(** A claim is resolved with a service. *)
Definition resolved_with (rs : RegisteredService) (sc : ServiceClaim) : Prop :=
  scst_State (sc_Status sc) = ServiceClaimStateResolved ∧
  ∃ ref, scst_RegisteredService (sc_Status sc) = Some ref ∧ ref_UID ref = om_UID (rs_meta rs).

Lemma claims_service_spec rs sc : claims_service rs sc = true ↔ resolved_with rs sc.
Proof.
  unfold claims_service, resolved_with. rewrite andb_true_iff, bool_decide_eq_true.
  destruct (scst_RegisteredService _) as [ref|]; [rewrite bool_decide_eq_true|]; naive_solver.
Qed.

(** A claim found to be resolved with a claimed service. *)
Definition holder_listed (rs : RegisteredService) (r : NamespacedName) (t : list kevent) : Prop :=
  rsst_State (rs_Status rs) = RegisteredServiceStateClaimed ∧
  ∃ items sc, listed_claims items t ∧ sc ∈ items ∧ resolved_with rs sc ∧
    r = ObjectKeyFromObject (k := KServiceClaim) sc.

(** The only claim resolved with a service is among the requests. *)
Definition holder_requested (rs : RegisteredService) (reqs : list NamespacedName) (t : list kevent) : Prop :=
  rsst_State (rs_Status rs) = RegisteredServiceStateClaimed →
  (∃ err, KEv (CList Manager KServiceClaim (InNamespace "")) (Err err) ∈ t) ∨
  ∃ items, listed_claims items t ∧ ∀ sc, sc ∈ items → resolved_with rs sc →
    (∀ sc', sc' ∈ items → resolved_with rs sc' → sc' = sc) →
    ObjectKeyFromObject (k := KServiceClaim) sc ∈ reqs.

Lemma wp_on_service rs :
  kwp (reconcileOnRegisteredServiceUpdate rs) (λ t out, ∃ reqs, out = Done reqs ∧
    (∀ r, r ∈ reqs → holder_listed rs r t) ∧ holder_requested rs reqs t).
Proof.
  unfold reconcileOnRegisteredServiceUpdate. case_bool_decide as Hst.
  { apply wp_ret. exists []. split; [done|]. split; [set_solver|]. by intros Hc%Hst. }
  assert (Hclaimed : rsst_State (rs_Status rs) = RegisteredServiceStateClaimed) by exact Hst.
  wcall items Hitems. cbv beta. destruct items as [items|err].
  2: { apply wp_ret. exists []. split; [done|]. split; [set_solver|]. intros _. left. exists err. by left. }
  destruct (find_first (claims_service rs) items) as [a|] eqn:Hf; apply wp_ret.
  - exists [ObjectKeyFromObject (k := KServiceClaim) a]. split; [done|].
    apply find_first_Some in Hf as (l1 & l2 & -> & Ha%claims_service_spec & _). split.
    + intros r ->%list_elem_of_singleton. split; [done|]. exists (l1 ++ a :: l2), a.
      split_and!; [by left|set_solver|done|done].
    + intros _. right. exists (l1 ++ a :: l2). split; [by left|]. intros sc Hin Hsc Honly.
      rewrite <- (Honly a); [by left|set_solver|done].
  - exists []. split; [done|]. split; [set_solver|]. intros _. right. exists items. split; [by left|].
    intros sc Hin Hsc. apply find_first_None in Hf. rewrite Forall_forall in Hf.
    apply claims_service_spec in Hsc. specialize (Hf sc Hin). congruence.
Qed.

Lemma holder_listed_app rs r t t' u : holder_listed rs r t → holder_listed rs r (u ++ t ++ t').
Proof.
  intros (Hst & items & sc & Hl & ?). split; [done|]. exists items, sc. split; [|done].
  unfold listed_claims in *. set_solver.
Qed.
Lemma holder_requested_app rs reqs reqs' t t' u :
  reqs ⊆ reqs' → holder_requested rs reqs t → holder_requested rs reqs' (u ++ t ++ t').
Proof.
  intros Hsub Hh Hst. destruct (Hh Hst) as [[err He]|(items & Hl & Hi)]; [left|right].
  - exists err. set_solver.
  - exists items. split; [unfold listed_claims in *; set_solver|]. intros sc Hin Hsc Ho.
    by apply Hsub, (Hi sc).
Qed.

(** What an event of a registered service does to the queue of claims. *)
Lemma wp_handle_service (e : Event KRegisteredService) :
  kwp (handle (EnqueueRequestsFromMapFunc (k := KRegisteredService) reconcileOnRegisteredServiceUpdate) e)
    (λ t out, ∃ reqs, out = Done reqs ∧
      (∀ r, r ∈ reqs → ∃ rs, rs ∈ event_objects e ∧ holder_listed rs r t) ∧
      ∀ rs, rs ∈ event_objects e → holder_requested rs reqs t).
Proof.
  assert (Hone : ∀ rs : RegisteredService,
    kwp (reqs ← reconcileOnRegisteredServiceUpdate rs; mret (enqueue reqs [])) (λ t out, ∃ reqs, out = Done reqs ∧
      (∀ r, r ∈ reqs → ∃ rs', rs' ∈ [rs] ∧ holder_listed rs' r t) ∧
      ∀ rs', rs' ∈ [rs] → holder_requested rs' reqs t)).
  { intros rs. eapply (wp_bind_spec legal); [apply wp_on_service| |by intros t h (reqs & [=] & _)].
    intros t reqs (reqs' & [= <-] & Hr & Hh). apply wp_ret. rewrite app_nil_r. eexists. split; [done|]. split.
    - intros r Hin%elem_of_enqueue. exists rs. split; [set_solver|]. apply Hr. set_solver.
    - intros rs' ->%list_elem_of_singleton. rewrite <- (app_nil_r t). apply (holder_requested_app _ reqs _ t [] []); [|done].
      intros x Hx. apply elem_of_enqueue. by right. }
  destruct e as [o|old new g1 g2|o]; cbn [handle event_objects]; [apply Hone| |apply Hone].
  eapply (wp_bind_spec legal); [apply wp_on_service| |by intros t h (reqs & [=] & _)].
  intros t reqs (reqs' & [= <-] & Hr & Hh).
  eapply (wp_bind_spec legal); [apply wp_on_service| |by intros t' h (? & [=] & _)].
  intros t' reqs2 (reqs2' & [= <-] & Hr2 & Hh2). apply wp_ret. rewrite app_nil_r. eexists. split; [done|]. split.
  - intros r [[Hin%elem_of_nil|Hin]%elem_of_enqueue|Hin]%elem_of_enqueue; [done|..].
    + exists old. split; [set_solver|]. apply (holder_listed_app _ _ t t' []). by apply Hr.
    + exists new. split; [set_solver|]. rewrite <- (app_nil_r t'). apply (holder_listed_app _ _ t' [] t). by apply Hr2.
  - assert (Hsub : reqs ⊆ enqueue reqs2 (enqueue reqs []) ∧ reqs2 ⊆ enqueue reqs2 (enqueue reqs [])).
    { split; intros x Hx; rewrite !elem_of_enqueue; auto. }
    intros rs [-> | ->%list_elem_of_singleton]%elem_of_cons.
    + apply (holder_requested_app _ reqs _ t t' []); [apply Hsub|exact Hh].
    + rewrite <- (app_nil_r t'). apply (holder_requested_app _ reqs2 _ t' [] t); [apply Hsub|exact Hh2].
Qed.

(** *** The run that such a request starts *)

Definition no_service_read (c : Call) : Prop :=
  match c with CGet _ KRegisteredService _ => False | _ => True end.

(** The error of a read of a registered service. *)
Definition service_error (ev : kevent) : option gerr :=
  match projT1 ev as c return Answer c → option gerr with
  | CGet _ KRegisteredService _ => λ r : result RegisteredService,
      match r with Ok _ => None | Err err => Some err end
  | _ => λ _, None
  end (projT2 ev).

(** A registered service that cannot be read ends the run, with that error. *)
Definition stops_at_missing_service (t : list kevent) (out : outcome (option gerr)) : Prop :=
  ∀ t1 key err t2, t = t1 ++ KEv (CGet Manager KRegisteredService key) (Err err) :: t2 →
  t2 = [] ∧ out = Done (Some err).

Lemma stops_without_read t out :
  Forall (λ ev : kevent, no_service_read (projT1 ev)) t → stops_at_missing_service t out.
Proof. intros Ht t1 key err t2 ->. apply Forall_app in Ht as [_ [[] _]%Forall_cons]. Qed.

Lemma wp_stops_bind {A} (p : M A) (f : A → M (option gerr)) :
  only_calls legal no_service_read p → (∀ a, kwp (f a) stops_at_missing_service) →
  kwp (p ≫= f) stops_at_missing_service.
Proof.
  intros Hp Hf. eapply (wp_bind_spec legal); [exact Hp| |by intros t h; apply stops_without_read].
  intros t a Ht. eapply wp_mono; [apply Hf|]. intros t' out Hs t1 key err t2 Heq.
  destruct (decide (length t1 < length t)%nat) as [Hlt|Hge].
  - assert (Hin : KEv (CGet Manager KRegisteredService key) (Err err) ∈ t).
    { apply list_elem_of_lookup. exists (length t1). apply (f_equal (.!! length t1)) in Heq.
      by rewrite lookup_app_l, list_lookup_middle in Heq. }
    rewrite Forall_forall in Ht. by apply Ht in Hin.
  - apply (f_equal (drop (length t))) in Heq. rewrite drop_app_length, drop_app_le in Heq by lia.
    by eapply Hs.
Qed.

Section Claims.
Context `{KubeconfigLib}.

Ltac no_read :=
  repeat first [calls_step; cbv beta
    |progress unfold updateServiceClaimStatus, updateRemoteServiceClaimStatusIfNeeded, target,
      getEnvironmentFromClusterEnvironment, ClusterContext.GetClusterRESTConfig, ClusterContext.getSecret,
      ClusterContext.CreateClient, pushToClusterEnvironments, PushServiceBinding, pushServiceBindingToNamespace,
      mutate_binding, changeServiceState, getServiceEndpointDefinition, extractServiceEndpointDefinition,
      processClaim, processServiceClaim, claim_environment, leave_pending, processClaimMarkedForDeletion,
      DeleteServiceBindingsAndSecret, DeleteServiceBindingAndSecretFromNamespaces,
      ensureServiceClaimIsInitialized]; try done.

Lemma no_read_push_environments sclaim tag ces secret errs :
  only_calls legal no_service_read (push_environments sclaim tag ces secret errs).
Proof.
  revert secret errs. induction ces as [|ce ces IH]; intros secret errs; cbn [push_environments]; no_read; apply IH.
Qed.
Lemma no_read_delete_environments sclaim tag ces errs :
  only_calls legal no_service_read (delete_environments sclaim tag ces errs).
Proof. revert errs. induction ces as [|ce ces IH]; intros errs; cbn [delete_environments]; no_read; apply IH. Qed.
Lemma no_read_find_service_to_free sclaim rsl :
  only_calls legal no_service_read (find_service_to_free sclaim rsl).
Proof. induction rsl as [|rs rsl IH]; cbn [find_service_to_free]; no_read; apply IH. Qed.

Ltac no_read_all :=
  no_read; first [apply no_read_push_environments|apply no_read_delete_environments
                 |apply no_read_find_service_to_free].

Lemma wp_stops_calls (p : M (option gerr)) :
  only_calls legal no_service_read p → kwp p stops_at_missing_service.
Proof. intros Hp. eapply wp_mono; [exact Hp|]. intros t out. apply stops_without_read. Qed.

Lemma stops_processResolved sclaim : kwp (processResolvedServiceClaim sclaim) stops_at_missing_service.
Proof.
  unfold processResolvedServiceClaim. destruct (scst_RegisteredService _) as [ref|];
    [|by apply wp_stops_calls, only_calls_ret].
  wcall got Hgot. cbv beta. destruct got as [rs|e]; wflow.
  - eapply wp_mono; [apply (wp_stops_calls)|].
    + no_read_all.
    + intros t out Hs [|ev t1] key err t2 Heq.
      * by apply (f_equal (λ l, head l ≫= service_error)) in Heq.
      * apply (f_equal tail) in Heq. by apply (Hs t1 key).
  - intros [|ev t1] key err t2 Heq; [|by destruct t1].
    assert (Herr := f_equal (λ l, head l ≫= service_error) Heq). apply (f_equal tail) in Heq.
    by injection Herr as ->.
Qed.

Lemma stops_Reconcile req : kwp (ServiceClaimCtrl.Reconcile req) stops_at_missing_service.
Proof.
  unfold ServiceClaimCtrl.Reconcile. apply wp_stops_bind;
    [by refine (only_calls_call legal _ (CGet Manager KServiceClaim req) _)|].
  intros [sclaim|e]; [|apply wp_stops_calls, only_calls_ret].
  destruct (HasDeletionTimestamp _); [apply wp_stops_calls; no_read_all|].
  destruct (AddFinalizer _ _) as [sc1 added]. apply wp_stops_bind; [no_read|].
  intros [sc2|e]; [|apply wp_stops_calls, only_calls_ret].
  apply wp_stops_bind; [no_read|]. intros [sc3 [e|]]; [apply wp_stops_calls, only_calls_ret|].
  case_bool_decide; [apply stops_processResolved|apply wp_stops_calls; no_read_all].
Qed.

(** C18: what a change of a registered service does to the claims: a creation, a deletion
    or a change of its specification requests claims that were listed as resolved with
    it, when it is claimed, and the one such claim always, unless the claims cannot be
    listed; anything else requests no claim.  When the service itself is gone, the run
    that follows ends at the read of it, with the error: the claim stays as it is. *)
Theorem service_events_reach_claims (e : Event KRegisteredService) :
  (GenerationChangedPredicate _ e = false → requests ControlPlane.ServiceClaimSetup e = mret []) ∧
  (GenerationChangedPredicate _ e = true →
   kwp (requests ControlPlane.ServiceClaimSetup e) (λ t out, ∃ reqs, out = Done reqs ∧
     (∀ r, r ∈ reqs → ∃ rs, rs ∈ event_objects e ∧ holder_listed rs r t) ∧
     ∀ rs, rs ∈ event_objects e → holder_requested rs reqs t)) ∧
  ∀ req, kwp (ServiceClaimCtrl.Reconcile req) stops_at_missing_service.
Proof.
  unfold requests, ControlPlane.ServiceClaimSetup. cbn [b_WithEventFilter forallb].
  split_and!; [by intros ->| |apply stops_Reconcile]. intros ->. cbn [andb].
  eapply (wp_bind_spec legal); [apply wp_handle_service| |by intros t h (? & [=] & _)].
  intros t reqs (reqs' & [= <-] & Hr & Hh). apply wp_ret. rewrite !app_nil_r. by exists reqs.
Qed.
End Claims.

Module Example.
Import ClaimRace.Example.
#[local] Existing Instance ClaimRace.Example.kubeconfig.

(** The claim that holds the service. *)
Definition resolved : ServiceClaim :=
  {| sc_meta := om_set_Finalizers (sc_meta claim) [ServiceClaimFinalizer]; sc_Spec := sc_Spec claim;
     sc_Status := {| scst_State := ServiceClaimStateResolved; scst_ClaimID := "1";
                     scst_RegisteredService := Some {| ref_Name := "db"; ref_UID := "" |};
                     scst_Conditions := [] |} |}.

(** The service is gone. *)
Definition not_there : gerr := EStatus "NotFound" 404 "not found".
Definition answer (c : Call) : Answer c :=
  match c return Answer c with
  | CList Manager KServiceClaim _ => Ok [resolved]
  | CGet Manager KServiceClaim _ => Ok resolved
  | other => Kube.failing not_there other
  end.
Definition answers (c : Call) (w : unit) : Answer c * unit := (answer c, w).

(** Deleting a claimed service requests the claim that holds it, and the run that follows
    neither publishes nor writes anything. *)
Example deletion_requests :
  run_outcome answers (requests ControlPlane.ServiceClaimSetup (DeleteEvent (k := KRegisteredService) (taken "2"))) tt
  = Done [ {| nn_Namespace := tenant; nn_Name := "orders" |} ].
Proof. reflexivity. Qed.
Example deletion_leaves_claim :
  run_trace answers (ServiceClaimCtrl.Reconcile {| nn_Namespace := tenant; nn_Name := "orders" |}) tt
  = [KEv (CGet Manager KServiceClaim {| nn_Namespace := tenant; nn_Name := "orders" |}) (Ok resolved);
     KEv (CGet Manager KRegisteredService {| nn_Namespace := tenant; nn_Name := "db" |}) (Err not_there)].
Proof. reflexivity. Qed.

(** A change of the status alone, such as the one that frees a service, requests none. *)
Example status_requests_none :
  requests ControlPlane.ServiceClaimSetup
    (UpdateEvent (k := KRegisteredService) (taken "2") (available "3") 1 1) = mret [].
Proof. reflexivity. Qed.

(** The secret that a service binding has made its own requests the binding. *)
Example secret_requests_binding :
  let sb : ServiceBinding :=
    {| sb_meta := named "orders" "applications";
       sb_Spec := {| sbs_ServiceEndpointDefinitionSecret := "orders"; sbs_Application := scs_Application (sc_Spec claim);
                     sbs_Envs := [] |};
       sb_Status := {| sbst_Conditions := []; sbst_State := ""; sbst_Connections := [] |} |} in
  let secret : Secret := {| sec_meta := named "orders" "applications"; sec_Data := ∅; sec_StringData := ∅ |} in
  let owned := (SetControllerReference (ko := KServiceBinding) (k := KSecret) sb secret).1 in
  requests App.ServiceBindingSetup (DeleteEvent (k := KSecret) owned)
  = mret [ {| nn_Namespace := "applications"; nn_Name := "orders" |} ] ∧
  requests App.ServiceBindingSetup (DeleteEvent (k := KSecret) secret) = mret [].
Proof. split; reflexivity. Qed.
End Example.
