(* ===== verification/Access.v ===== *)
(** * What the roles grant

    The control plane runs under a role generated from the markers of its controllers,
    each agent under the roles of config/agents, which [PermissionList.v] shows to be the
    permission lists of pkg/authz, and with a kubeconfig of the control plane for which
    there is a role in config/rbac.  This file states which access to the API server each
    call needs and proves that the roles grant it.  Left aside are the resources an
    administrator grants access to (the workloads of a binding, the resources of a service
    class), what the control plane does in a worker cluster, with the kubeconfig in the
    cluster context secret, and the namespace of an access. *)

From S2P Require Import Prelude Prog GoErr GoStr Json Types Kube EnvTag Authz WorkerCluster Namespaces.
From S2P Require Import AppNamespaces ServiceClaimCtrl RegisteredServiceCtrl ServiceClassCtrl.
From S2P Require Import ServiceCatalogCtrl Informers ClusterEnvCtrl Workload ServiceBindingCtrl.
From S2P Require Import Sed AppAgent SvcAgent Webhook Watches.

#[local] Open Scope string_scope.
#[local] Open Scope list_scope.
#[local] Open Scope primaza_scope.

(** ** Accesses *)

Record access := { ac_Group : string; ac_Resource : string; ac_Name : string; ac_Verb : string }.

(** A rule of a role allows an access (no rule of the lists has a wildcard); without
    resource names it is for all. *)
Definition rule_allows (p : Permission) (a : access) : bool :=
  ⟪ ac_Group a ∈ p_APIGroups p ⟫ && ⟪ ac_Resource a ∈ p_Resources p ⟫ && ⟪ ac_Verb a ∈ p_Verbs p ⟫
  && (⟪ p_ResourceNames p = [] ⟫ || ⟪ ac_Name a ∈ p_ResourceNames p ⟫).
Definition allowed (pl : list Permission) (a : access) : bool := existsb (λ p, rule_allows p a) pl.

Definition api_group_of (k : Kind) : string :=
  match k with
  | KSecret | KConfigMap => ""
  | KRoleBinding => "rbac.authorization.k8s.io"
  | KCronJob | KJob => "batch"
  | KDeployment => "apps"
  | _ => "primaza.io"
  end.
Definition resource_of (k : Kind) : string :=
  match k with
  | KServiceClaim => "serviceclaims" | KRegisteredService => "registeredservices"
  | KServiceClass => "serviceclasses" | KServiceCatalog => "servicecatalogs"
  | KServiceBinding => "servicebindings" | KClusterEnvironment => "clusterenvironments"
  | KSecret => "secrets" | KRoleBinding => "rolebindings" | KCronJob => "cronjobs" | KJob => "jobs"
  | KDeployment => "deployments" | KConfigMap => "configmaps"
  end.

Definition access_to (k : Kind) (name verb : string) : access :=
  {| ac_Group := api_group_of k; ac_Resource := resource_of k; ac_Name := name; ac_Verb := verb |}.
Definition status_access (k : Kind) (name : string) : access :=
  {| ac_Group := api_group_of k; ac_Resource := resource_of k +++ "/status"; ac_Name := name;
     ac_Verb := "update" |}.

(** The manager's client reads from a cache, which lists and watches all objects. *)
Definition read_accesses (cl : Client) (k : Kind) (name verb : string) : list access :=
  match cl with
  | Manager => [access_to k name verb; access_to k "" "list"; access_to k "" "watch"]
  | ForConfig _ => [access_to k name verb]
  end.

Definition accesses (c : Call) : list access :=
  match c with
  | CGet cl k key => read_accesses cl k (nn_Name key) "get"
  | CList cl k _ => read_accesses cl k "" "list"
  | CCreate _ k _ => [access_to k "" "create"]
  | CUpdate _ k o => [access_to k (obj_Name o) "update"]
  | CStatusUpdate _ k o => [status_access k (obj_Name o)]
  | CDelete _ k key => [access_to k (nn_Name key) "delete"]
  | CDeleteAllOf _ k _ => [access_to k "" "deletecollection"]
  | _ => []
  end.

Definition client_of (c : Call) : option Client :=
  match c with
  | CGet cl _ _ | CList cl _ _ | CCreate cl _ _ | CUpdate cl _ _ | CStatusUpdate cl _ _
  | CDelete cl _ _ | CDeleteAllOf cl _ _ => Some cl
  | _ => None
  end.
Definition kind_of (c : Call) : option Kind :=
  match c with
  | CGet _ k _ | CList _ k _ | CCreate _ k _ | CUpdate _ k _ | CStatusUpdate _ k _
  | CDelete _ k _ | CDeleteAllOf _ k _ => Some k
  | _ => None
  end.
Definition is_remote (c : Call) : bool :=
  match client_of c with Some (ForConfig _) => true | _ => false end.

(** ** Roles *)

Definition granted (pl : list Permission) (c : Call) : Prop :=
  Forall (λ a, allowed pl a = true) (accesses c).

Definition marker (group : string) (resources verbs : list string) : Permission :=
  {| p_APIGroups := [group]; p_Resources := resources; p_ResourceNames := []; p_Namespace := "system";
     p_Name := "manager-role"; p_Verbs := verbs |}.
Definition all_verbs : list string := ["get"; "list"; "watch"; "create"; "update"; "patch"; "delete"].
Definition status_verbs : list string := ["get"; "update"; "patch"].

(** The [kubebuilder:rbac] markers of the controllers, from which config/rbac/role.yaml is
    generated. *)
Definition clusterenvironment_markers : list Permission :=
  [marker "" ["secrets"] ["create"; "update"; "delete"; "get"; "list"; "watch"];
   marker "rbac.authorization.k8s.io" ["rolebindings"] all_verbs;
   marker "primaza.io" ["clusterenvironments"] all_verbs;
   marker "primaza.io" ["clusterenvironments/status"] status_verbs;
   marker "primaza.io" ["clusterenvironments/finalizers"] ["update"]].
Definition serviceclaim_markers : list Permission :=
  [marker "primaza.io" ["serviceclaims"] all_verbs;
   marker "primaza.io" ["serviceclaims/status"] status_verbs;
   marker "primaza.io" ["serviceclaims/finalizers"] ["update"]].
Definition serviceclass_markers : list Permission :=
  [marker "primaza.io" ["serviceclasses"] all_verbs;
   marker "primaza.io" ["serviceclasses/status"] status_verbs;
   marker "primaza.io" ["serviceclasses/finalizers"] ["update"]].
Definition servicecatalog_markers : list Permission :=
  [marker "primaza.io" ["servicecatalogs"] all_verbs;
   marker "primaza.io" ["servicecatalogs/status"] status_verbs;
   marker "primaza.io" ["servicecatalogs/finalizers"] ["update"]].
Definition registeredservice_markers : list Permission :=
  [marker "primaza.io" ["registeredservices"] all_verbs;
   marker "primaza.io" ["registeredservices/status"] status_verbs;
   marker "primaza.io" ["registeredservices/finalizers"] ["update"]]
  ++ servicecatalog_markers ++
  [marker "batch" ["cronjobs"] all_verbs; marker "batch" ["cronjobs/status"] status_verbs;
   marker "batch" ["jobs"] all_verbs; marker "batch" ["jobs/status"] status_verbs].
Definition ManagerRole : list Permission :=
  clusterenvironment_markers ++ serviceclaim_markers ++ serviceclass_markers
  ++ servicecatalog_markers ++ registeredservice_markers.

(** config/rbac/claimer_role.yaml and reporter_role.yaml: what the kubeconfigs that the
    agents have of the control plane allow. *)
Definition ClaimerRole : list Permission :=
  [marker "primaza.io" ["serviceclaims"] ["get"; "list"; "create"; "delete"; "patch"; "update"]].
Definition ReporterRole : list Permission :=
  [marker "primaza.io" ["registeredservices"] ["get"; "create"; "delete"; "patch"; "update"];
   marker "primaza.io" ["registeredservices/status"] ["get"; "update"];
   marker "" ["secrets"] ["create"; "delete"; "get"; "update"]].

(** The claims that the application agent keeps with a client made from a configuration are
    those in the control plane; all else is in its own cluster. *)
Definition app_granted (c : Call) : Prop :=
  if is_remote c && ⟪ kind_of c = Some KServiceClaim ⟫ then granted ClaimerRole c
  else granted AppPermissionList c.
(** With such a client the service agent writes to the control plane or, when services are
    pulled, to its own cluster. *)
Definition svc_granted (c : Call) : Prop :=
  granted SvcPermissionList c ∧ (is_remote c = true → granted ReporterRole c).
(** What the control plane does in its own cluster: with the manager's client, and with
    role bindings, for which it makes a client from the configuration of its pod. *)
Definition manager_granted (c : Call) : Prop :=
  is_remote c = false ∨ kind_of c = Some KRoleBinding → granted ManagerRole c.

(** ** The rules that matter *)

Lemma allowed_in pl p a : p ∈ pl → rule_allows p a = true → allowed pl a = true.
Proof. intros Hp Ha. apply existsb_exists. exists p. by rewrite <- list_elem_of_In. Qed.

(** A rule without resource names allows every name. *)
Lemma rule_allows_any p g r v n :
  p_ResourceNames p = [] → g ∈ p_APIGroups p → r ∈ p_Resources p → v ∈ p_Verbs p →
  rule_allows p {| ac_Group := g; ac_Resource := r; ac_Name := n; ac_Verb := v |} = true.
Proof. intros Hn Hg Hr Hv. unfold rule_allows. simpl.
  by rewrite Hn, (bool_decide_true _ Hg), (bool_decide_true _ Hr), (bool_decide_true _ Hv).
Qed.

(** Whether some rule without resource names grants a verb on a resource. *)
Definition any_name (pl : list Permission) (g r v : string) : bool :=
  existsb (λ p, ⟪ p_ResourceNames p = [] ⟫ && ⟪ g ∈ p_APIGroups p ⟫ && ⟪ r ∈ p_Resources p ⟫
                && ⟪ v ∈ p_Verbs p ⟫) pl.

Lemma any_name_allowed pl g r v n :
  any_name pl g r v = true →
  allowed pl {| ac_Group := g; ac_Resource := r; ac_Name := n; ac_Verb := v |} = true.
Proof.
  intros (p & Hin%list_elem_of_In & Hp)%existsb_exists.
  repeat (apply andb_true_iff in Hp as [Hp ?]). bools.
  eapply allowed_in; [exact Hin|]. by apply rule_allows_any.
Qed.

(** Grants by a rule without resource names, decided by computation. *)
Ltac grants := repeat constructor; apply any_name_allowed; vm_compute; reflexivity.

(** The same for a read with an unknown client. *)
Ltac grants_any_client :=
  unfold granted, accesses;
  lazymatch goal with |- context [read_accesses ?cl _ _ _] => destruct cl end; grants.

(** The calls of a program, [solver] for those it does not solve. *)
Ltac granted_calls_with solver := calls; try done; try solver.

(** ** The application agent *)

(** An agent reads its deployment under its own name. *)
Lemma own_deployment_name name ns :
  kwp (own_deployment name ns) (λ _ o, ∀ r, o = Done r →
    ∀ d, r = Ok d → obj_Name (k := KDeployment) d = name).
Proof.
  unfold own_deployment. wcall r Hr. wflow; intros ? [= <-] d [= <-]. simpl in Hr. by injection Hr.
Qed.

Section App.

Ltac granted_calls := granted_calls_with grants.

Lemma granted_own_deployment ns : only_calls legal app_granted (own_deployment ApplicationAgentDeploymentName ns).
Proof. unfold own_deployment. granted_calls. Qed.

Lemma granted_GetPrimazaKubeconfig : only_calls legal app_granted GetPrimazaKubeconfig.
Proof. unfold GetPrimazaKubeconfig. granted_calls. Qed.

Lemma granted_claim_Reconcile req : only_calls legal app_granted (AppAgent.ServiceClaims.Reconcile req).
Proof.
  unfold AppAgent.ServiceClaims.Reconcile, ServiceClaims.under_deletion, ServiceClaims.push_copy,
    ServiceClaims.deleteExternalResources.
  granted_calls; [apply granted_GetPrimazaKubeconfig|apply granted_own_deployment].
Qed.

Lemma granted_catalog_Reconcile req : only_calls legal app_granted (AppAgent.Catalogs.Reconcile req).
Proof. unfold AppAgent.Catalogs.Reconcile, Catalogs.setOwnerReference. granted_calls. Qed.

Lemma granted_app_agent_Reconcile req : only_calls legal app_granted (AppAgent.Agent.Reconcile req).
Proof.
  unfold AppAgent.Agent.Reconcile, AppAgent.Agent.removePrimazaResources,
    AppAgent.Agent.removeServiceCatalog, AppAgent.Agent.removeServiceBinding, AppAgent.Agent.remove_all.
  granted_calls. apply granted_own_deployment.
Qed.

Context `{ContainerLib}.

Lemma granted_updateServiceBindingStatus sb c state :
  only_calls legal app_granted (updateServiceBindingStatus sb c state).
Proof. unfold updateServiceBindingStatus. granted_calls. Qed.

Lemma granted_workload_update c : workload_update c → app_granted c.
Proof. destruct c; try done. constructor. Qed.

Lemma granted_unbindApplications sb apps : only_calls legal app_granted (unbindApplications sb apps).
Proof.
  eapply only_calls_mono; [apply wp_unbindApplications_calls|apply granted_workload_update].
Qed.

Lemma granted_GetSecret sb apps : only_calls legal app_granted (GetSecret sb apps).
Proof.
  unfold GetSecret. granted_calls; [apply granted_updateServiceBindingStatus|apply granted_unbindApplications].
Qed.

Lemma granted_PrepareBinding sb psSecret apps : only_calls legal app_granted (PrepareBinding sb psSecret apps).
Proof.
  apply only_calls_PrepareBinding; [apply granted_workload_update|constructor|]. intros sb'. grants.
Qed.

Lemma granted_bind_found sb : only_calls legal app_granted (bind_found sb).
Proof.
  unfold bind_found, getApplication, lookupWorkload. granted_calls;
    [apply granted_GetSecret|apply granted_PrepareBinding|apply granted_updateServiceBindingStatus].
Qed.

Lemma granted_binding_Reconcile running req :
  only_calls legal app_granted (ServiceBindingCtrl.Reconcile running req).
Proof.
  unfold ServiceBindingCtrl.Reconcile. granted_calls.
  - apply only_calls_finalizeServiceBinding; [apply granted_workload_update|..]; constructor.
  - unfold ensureInformerIsRunningForServiceBinding, ensureInformerIsRunningForResource. granted_calls.
  - apply granted_bind_found.
Qed.

Lemma granted_prepareAddFunc synced sb obj : only_calls legal app_granted (prepareAddFunc synced sb obj).
Proof.
  unfold prepareAddFunc. granted_calls; [apply granted_GetSecret|apply granted_PrepareBinding].
Qed.

Lemma granted_prepareDeleteFunc synced sb obj : only_calls legal app_granted (prepareDeleteFunc synced sb obj).
Proof. unfold prepareDeleteFunc. granted_calls. apply granted_updateServiceBindingStatus. Qed.
End App.

(** ** The service agent *)

Section Svc.
Context `{JsonPathLib}.

Ltac grants_both :=
  idtac; lazymatch goal with
  | |- _ ∧ _ => split; grants_both
  | |- svc_granted _ => split; [grants|let Hr := fresh in intros Hr; first [discriminate Hr|grants]]
  end.
Ltac granted_calls := granted_calls_with grants_both.

Lemma granted_getTargetClient strategy ns : only_calls legal svc_granted (getTargetClient strategy ns).
Proof. unfold getTargetClient, GetPrimazaKubeconfig. granted_calls. Qed.

Lemma granted_read_secret key : svc_granted (CGet Manager KSecret key).
Proof. split; [grants|done]. Qed.

Lemma granted_updateRegisteredService cl rs secret :
  only_calls legal svc_granted (updateRegisteredService cl rs secret).
Proof.
  unfold updateRegisteredService, write_descriptor. granted_calls; destruct cl; grants_both.
Qed.

Lemma granted_deleteRegisteredService cl rs secret :
  only_calls legal svc_granted (deleteRegisteredService cl rs secret).
Proof. unfold deleteRegisteredService. granted_calls; destruct cl; grants_both. Qed.

Lemma granted_Prepare obj sc ms data ns :
  ServiceEndpointDefinitionMapping Manager obj sc = Ok ms →
  only_calls legal svc_granted (PrepareRegisteredService sc ms data ns).
Proof.
  intros Hms. apply calls_Prepare; [grants_both|]. eapply calls_ReadKey; [|exact Hms]. apply granted_read_secret.
Qed.

Lemma granted_HandleRegisteredServices strategy sc services h :
  (∀ cl rs secret, only_calls legal svc_granted (h cl rs secret)) →
  only_calls legal svc_granted (HandleRegisteredServices strategy sc services h).
Proof.
  intros Hh. unfold HandleRegisteredServices, TestConnection. granted_calls; [apply granted_getTargetClient|].
  apply only_calls_handle_services; [grants_both|apply granted_read_secret|]. intros data _ rs secret _ _. apply Hh.
Qed.

Lemma granted_class_Reconcile strategy running req :
  only_calls legal svc_granted (SvcAgent.Reconcile strategy running req).
Proof.
  unfold SvcAgent.Reconcile, setOwnerReference, own_deployment, SetWatchersForResources, RunInformer,
    GetResources, reconcile_services, write_status. granted_calls.
  1: apply granted_HandleRegisteredServices; intros; apply granted_updateRegisteredService.
  apply granted_HandleRegisteredServices; intros; apply granted_deleteRegisteredService.
Qed.

Lemma granted_handle_AddFunc synced strategy sc obj :
  only_calls legal svc_granted (handle_AddFunc synced strategy sc obj).
Proof.
  unfold handle_AddFunc, CreateOrUpdateRegisteredService. granted_calls;
    [apply granted_getTargetClient|by eapply granted_Prepare|apply granted_updateRegisteredService].
Qed.

Lemma granted_handle_DeleteFunc synced strategy sc obj :
  only_calls legal svc_granted (handle_DeleteFunc synced strategy sc obj).
Proof. unfold handle_DeleteFunc, DeleteRegisteredService. granted_calls. apply granted_getTargetClient. Qed.

(** Its own deployment is the only one it may update. *)
Lemma granted_svc_agent_Reconcile req : only_calls legal svc_granted (SvcAgent.Agent.Reconcile req).
Proof.
  unfold SvcAgent.Agent.Reconcile, SvcAgent.Agent.removeServiceClasses.
  eapply only_calls_bind_post; [|apply own_deployment_name|].
  { unfold own_deployment. granted_calls. }
  intros [d|e] Hd; [|granted_calls]. specialize (Hd d eq_refl).
  assert (Hup : ∀ d : Deployment, obj_Name (k := KDeployment) d = ServiceAgentDeploymentName →
    svc_granted (CUpdate Manager KDeployment d)).
  { intros d' Hd'. split; [|done]. repeat constructor. unfold access_to. rewrite Hd'. reflexivity. }
  granted_calls; apply Hup; rewrite <- Hd.
  - assert (Hk := key_RemoveFinalizer (k := KDeployment) d Agent.agentsvcfinalizer).
    rewrite Heqp in Hk. by injection Hk.
  - assert (Hk := key_AddFinalizer (k := KDeployment) d Agent.agentsvcfinalizer). by injection Hk.
Qed.
End Svc.

(** ** The control plane *)

Section ControlPlane.
Context `{KubeconfigLib} `{ManifestLib} `{LabelLib} `{ConverterLib}.

(** Only the client of the manager is asked about. *)
Ltac grants_manager :=
  idtac; lazymatch goal with
  | |- _ ∧ _ => split; grants_manager
  | |- manager_granted _ => let Hr := fresh in intros Hr; first [by destruct Hr|grants|grants_any_client]
  end.

(** A client of an environment is not the manager's. *)
Lemma granted_with_client {A} ce (f : result Client → M A) :
  (∀ e, only_calls legal manager_granted (f (Err e))) →
  (∀ cfg, only_calls legal manager_granted (f (Ok (ForConfig cfg)))) →
  only_calls legal manager_granted (ClusterContext.CreateClient Manager ce ≫= f).
Proof.
  intros He Hc. apply (only_calls_bind_post _ _ _ (λ r, match r with Ok cl => ∃ cfg, cl = ForConfig cfg | Err _ => True end)).
  - unfold ClusterContext.CreateClient, ClusterContext.GetClusterRESTConfig, ClusterContext.getSecret.
    granted_calls_with grants_manager.
  - unfold ClusterContext.CreateClient.
    eapply (wp_bind_spec legal (λ _ _, True)); [done| |done]. intros t [cfg|e] _; wflow; [|by intros ? [= <-]].
    wcall err Herr. wflow; intros ? [= <-]; eauto.
  - intros [cl|e] Hr; [|apply He]. destruct Hr as [cfg ->]. apply Hc.
Qed.

(** Helpers are unfolded as they are met; a recursive one has a lemma. *)
Create HintDb control_plane.
#[local] Hint Unfold
  PushServiceBinding pushServiceBindingToNamespace mutate_binding
  updateServiceClaimStatus updateRemoteServiceClaimStatusIfNeeded target
  getEnvironmentFromClusterEnvironment pushToClusterEnvironments extractServiceEndpointDefinition
  changeServiceState leave_pending processServiceClaim claim_environment processResolvedServiceClaim
  getServiceEndpointDefinition DeleteServiceBindingsAndSecret
  DeleteServiceBindingAndSecretFromNamespaces processClaimMarkedForDeletion
  ensureServiceClaimIsInitialized processClaim ClusterContext.GetClusterRESTConfig ClusterContext.getSecret
  getServiceCatalogs removeServiceFromCatalog addServiceToCatalog removeServiceFromCatalogs
  reconcileCatalogs mutate_cronjob registerHealthcheck handleHealthcheck cleanupHealthchecks observe_state
  ServiceClassCtrl.getRelatedClusterEnvironments push_to_environment reconcileEnvironments
  removeFromEnvironments finalize PushServiceCatalog PushServiceCatalogToApplicationNamespaces
  set_condition updateClusterEnvironmentStatus update_status publish_offline getClusterContextSecret
  ensureOwnershipOfClusterContextSecret extractClusterContextRESTConfig retrieveClusterContextSecret
  ClusterContext.GetClusterContextSecret testConnection TestConnection check_excess
  checkExcessPermissions testTypedNamespacesPermissions testNamespacesPermissions TestPermissions
  TestResourcePermissions checkPermissions checkPermissionsInNamespace checkAccess push_class
  reconcileServiceNamespaces claims_of_environment push_binding Subtract
  reconcileServiceBindingApplicationNamespaces CreateServiceCatalog
  reconcileServiceCatalogApplicationNamespaces reconcileApplicationNamespaces runInformers run_informer
  RunSvcInformer RunAppInformer stop_informers run_informers RunSvcInformers RunAppInformers bakeClient
  createUpdate getInClusterClient ClusterEnvCtrl.getRelatedClusterEnvironments
  removeServiceCatalogOnDeletedClusterEnvironment
  : control_plane.
Ltac granted_step :=
  lazymatch goal with
  | |- only_calls _ _ (ClusterContext.CreateClient Manager _ ≫= _) =>
      apply granted_with_client; [intros ?|intros ?]; cbv beta iota
  | |- only_calls _ _ _ => first [calls_step; cbv beta|progress autounfold with control_plane]
  end.
Ltac granted_calls := repeat granted_step; try done; try grants_manager.

Lemma granted_push_environments sclaim tag ces secret errs :
  only_calls legal manager_granted (push_environments sclaim tag ces secret errs).
Proof.
  revert secret errs. induction ces as [|ce ces IH]; intros secret errs; cbn [push_environments]; granted_calls; apply IH.
Qed.

Lemma granted_delete_environments sclaim tag ces errs :
  only_calls legal manager_granted (delete_environments sclaim tag ces errs).
Proof.
  revert errs. induction ces as [|ce ces IH]; intros errs; cbn [delete_environments]; granted_calls; apply IH.
Qed.

Lemma granted_find_service_to_free sclaim rsl :
  only_calls legal manager_granted (find_service_to_free sclaim rsl).
Proof. induction rsl as [|rs rsl IH]; cbn [find_service_to_free]; granted_calls; apply IH. Qed.

Lemma granted_claim_Reconcile_cp req : only_calls legal manager_granted (ServiceClaimCtrl.Reconcile req).
Proof.
  unfold ServiceClaimCtrl.Reconcile. granted_calls;
    first [apply granted_push_environments|apply granted_delete_environments|apply granted_find_service_to_free].
Qed.
Lemma granted_service_Reconcile req : only_calls legal manager_granted (RegisteredServiceCtrl.Reconcile req).
Proof. unfold RegisteredServiceCtrl.Reconcile. granted_calls. Qed.

Lemma granted_PushServiceClass cfg sc nss :
  only_calls legal manager_granted (PushServiceClassToNamespaces (ForConfig cfg) sc nss).
Proof. induction nss as [|ns nss IH]; cbn [PushServiceClassToNamespaces]; granted_calls; apply IH. Qed.

Lemma granted_DeleteServiceClass cfg sc nss :
  only_calls legal manager_granted (DeleteServiceClassFromNamespaces (ForConfig cfg) sc nss).
Proof. induction nss as [|ns nss IH]; cbn [DeleteServiceClassFromNamespaces]; granted_calls; apply IH. Qed.

Lemma granted_remove_from_each sc ff errs :
  only_calls legal manager_granted (remove_from_each sc ff errs).
Proof.
  revert errs. induction ff as [|ce ff IH]; intros errs; cbn [remove_from_each]; granted_calls; first [apply IH|apply granted_DeleteServiceClass].
Qed.

Lemma granted_class_Reconcile_cp req : only_calls legal manager_granted (ServiceClassCtrl.Reconcile req).
Proof.
  unfold ServiceClassCtrl.Reconcile. granted_calls;
    first [apply granted_PushServiceClass|apply granted_remove_from_each].
Qed.

Lemma granted_catalog_Reconcile_cp req : only_calls legal manager_granted (ServiceCatalogCtrl.Reconcile req).
Proof. unfold ServiceCatalogCtrl.Reconcile. granted_calls. Qed.

(** *** Cluster environments *)

Lemma granted_AccessList cfg nss pl us : only_calls legal manager_granted (AccessList_loop cfg nss pl us).
Proof.
  revert us. induction nss as [|ns nss IH]; intros us; cbn [AccessList_loop];
    unfold createUnwantedPermissionsList; granted_calls; apply IH.
Qed.

Lemma granted_CheckExcessPermission pc nss : only_calls legal manager_granted (CheckExcessPermission pc nss).
Proof. apply granted_AccessList. Qed.

(** The agents are pushed to the worker cluster; only the role bindings are the control
    plane's own. *)
Definition remote (cl : Client) : Prop := ∃ cfg, cl = ForConfig cfg.

Lemma granted_BindNamespaces b ceName ceNamespace nss :
  remote (nb_wcli b) → only_calls legal manager_granted (BindNamespaces b ceName ceNamespace nss).
Proof.
  intros [cfg Hcfg]. unfold BindNamespaces, collect_failing, bindNamespace, createRoleBindings,
    createRoleBinding, PushAgent, createAgentDeployment, createAgentConfigMap. rewrite Hcfg. granted_calls.
Qed.

Lemma granted_UnbindNamespaces u ceName ceNamespace nss :
  remote (nu_wcli u) → only_calls legal manager_granted (UnbindNamespaces u ceName ceNamespace nss).
Proof.
  intros [cfg Hcfg]. unfold UnbindNamespaces, collect_failing, unbindNamespace, deleteRoleBinding,
    ignoring_not_found, DeleteAgent. rewrite Hcfg. granted_calls.
Qed.

Definition remote_reconciler (nr : namespacesReconciler) : Prop :=
  remote (nb_wcli (nr_appBinder nr)) ∧ remote (nb_wcli (nr_svcBinder nr)) ∧
  remote (nu_wcli (nr_appUnbinder nr)) ∧ remote (nu_wcli (nr_svcUnbinder nr)).

Lemma granted_ReconcileNamespaces nr :
  remote_reconciler nr → only_calls legal manager_granted (ReconcileNamespaces nr).
Proof.
  intros (? & ? & ? & ?). unfold ReconcileNamespaces, Namespaces.bindNamespaces, unbindOrphanNamespaces,
    unbindOrphanNamespacesForType, getOrphanNamespaces, getAuthorizedNamespaces,
    getRoleBindingsLabelSelectorOrDie.
  granted_calls; first [by apply granted_BindNamespaces|by apply granted_UnbindNamespaces].
Qed.

Lemma granted_with_reconciler {A} e (f : result namespacesReconciler → M A) :
  (∀ err, only_calls legal manager_granted (f (Err err))) →
  (∀ nr, remote_reconciler nr → only_calls legal manager_granted (f (Ok nr))) →
  only_calls legal manager_granted (NewNamespaceReconciler e ≫= f).
Proof.
  intros He Hc. apply (only_calls_bind_post _ _ _ (λ r, match r with Ok nr => remote_reconciler nr | Err _ => True end)).
  - unfold NewNamespaceReconciler. granted_calls.
  - unfold NewNamespaceReconciler.
    eapply (wp_bind_spec legal (λ _ _, True)); [done| |done]. intros t [cli|err] _; wflow; [|by intros ? [= <-]].
    wcall err Herr. wflow; intros ? [= <-]; [done|]. repeat split; by eexists.
  - intros [nr|err] Hr; [by apply Hc|apply He].
Qed.

Ltac with_reconciler :=
  lazymatch goal with
  | |- only_calls _ _ (NewNamespaceReconciler _ ≫= _) =>
      apply granted_with_reconciler; [intros ?|intros ? ?]; cbv beta iota
  end.

Ltac environment_calls :=
  repeat first [with_reconciler|granted_step]; try done; try grants_manager;
  try by apply granted_ReconcileNamespaces.

Lemma granted_reconcile_all r cfg ce fann fsnn :
  only_calls legal manager_granted (reconcile_all r cfg ce fann fsnn).
Proof.
  unfold reconcile_all, reconcileNamespaces. environment_calls. apply granted_PushServiceClass.
Qed.

Lemma granted_environment_Reconcile r req :
  only_calls legal manager_granted (ClusterEnvCtrl.Reconcile r req).
Proof.
  unfold ClusterEnvCtrl.Reconcile, finalizeClusterEnvironment, finalizeClusterEnvironmentInNamespaces,
    reconcile_live, reconcile_connected.
  environment_calls; first [apply granted_CheckExcessPermission|apply granted_reconcile_all].
Qed.

Lemma granted_MonitorHealth_turn ns : only_calls legal manager_granted (MonitorHealth_turn ns).
Proof.
  unfold MonitorHealth_turn, monitor_environment, monitor_connected.
  environment_calls; apply granted_CheckExcessPermission.
Qed.

(** The handlers of the informers. *)
Lemma granted_svc_AddFunc synced ceName ns obj :
  only_calls legal manager_granted (svc_AddFunc synced ceName ns obj).
Proof. unfold svc_AddFunc. granted_calls. Qed.
Lemma granted_svc_DeleteFunc synced ns obj : only_calls legal manager_granted (svc_DeleteFunc synced ns obj).
Proof. unfold svc_DeleteFunc. granted_calls. Qed.
Lemma granted_app_AddFunc synced ce ns obj :
  only_calls legal manager_granted (app_AddFunc synced ce ns obj).
Proof. unfold app_AddFunc. granted_calls. Qed.
Lemma granted_app_DeleteFunc synced ce obj : only_calls legal manager_granted (app_DeleteFunc synced ce obj).
Proof. unfold app_DeleteFunc. granted_calls. Qed.

(** The webhook. *)
Context `{JsonPathLib}.

Lemma granted_ValidateCreate o : only_calls legal manager_granted (ValidateCreate o).
Proof. unfold ValidateCreate, IsDuplicateClass. granted_calls. Qed.
Lemma granted_ValidateUpdate old new : only_calls legal manager_granted (ValidateUpdate old new).
Proof. unfold ValidateUpdate, IsDuplicateClass. granted_calls. Qed.
End ControlPlane.

(** ** All programs *)

Section Programs.
Context `{KubeconfigLib} `{ManifestLib} `{LabelLib} `{ConverterLib} `{ContainerLib} `{JsonPathLib}.

(** What the three deployments run, and what the roles of each grant. *)
Inductive runs_under : (Call → Prop) → ∀ A, M A → Prop :=
(* the control plane *)
| run_claim req : runs_under manager_granted _ (ServiceClaimCtrl.Reconcile req)
| run_service req : runs_under manager_granted _ (RegisteredServiceCtrl.Reconcile req)
| run_class req : runs_under manager_granted _ (ServiceClassCtrl.Reconcile req)
| run_catalog req : runs_under manager_granted _ (ServiceCatalogCtrl.Reconcile req)
| run_environment r req : runs_under manager_granted _ (ClusterEnvCtrl.Reconcile r req)
| run_monitor ns : runs_under manager_granted _ (MonitorHealth_turn ns)
| run_svc_add synced ceName ns obj : runs_under manager_granted _ (svc_AddFunc synced ceName ns obj)
| run_svc_update synced ceName ns past future :
    runs_under manager_granted _ (svc_UpdateFunc synced ceName ns past future)
| run_svc_delete synced ns obj : runs_under manager_granted _ (svc_DeleteFunc synced ns obj)
| run_app_add synced ce ns obj : runs_under manager_granted _ (app_AddFunc synced ce ns obj)
| run_app_delete synced ce obj : runs_under manager_granted _ (app_DeleteFunc synced ce obj)
| run_create o : runs_under manager_granted _ (ValidateCreate o)
| run_update old new : runs_under manager_granted _ (ValidateUpdate old new)
(* the application agent *)
| run_agent_claim req : runs_under app_granted _ (AppAgent.ServiceClaims.Reconcile req)
| run_agent_catalog req : runs_under app_granted _ (AppAgent.Catalogs.Reconcile req)
| run_app_agent req : runs_under app_granted _ (AppAgent.Agent.Reconcile req)
| run_binding running req : runs_under app_granted _ (ServiceBindingCtrl.Reconcile running req)
| run_binding_add synced sb obj : runs_under app_granted _ (prepareAddFunc synced sb obj)
| run_binding_update synced sb past future :
    runs_under app_granted _ (prepareUpdateFunc synced sb past future)
| run_binding_delete synced sb obj : runs_under app_granted _ (prepareDeleteFunc synced sb obj)
(* the service agent *)
| run_agent_class strategy running req :
    runs_under svc_granted _ (SvcAgent.Reconcile strategy running req)
| run_class_add synced strategy sc obj :
    runs_under svc_granted _ (handle_AddFunc synced strategy sc obj)
| run_class_update synced strategy sc past future :
    runs_under svc_granted _ (handle_UpdateFunc synced strategy sc past future)
| run_class_delete synced strategy sc obj :
    runs_under svc_granted _ (handle_DeleteFunc synced strategy sc obj)
| run_svc_agent req : runs_under svc_granted _ (SvcAgent.Agent.Reconcile req).

(** C10: the roles suffice.  Whatever they are answered, every access that the control
    plane and the agents make to an object of a modelled kind in their own cluster is
    granted by the role they run under: reads through the manager with the list and watch
    that its cache needs, status updates on the subresource, the control plane's role
    bindings, the service agent's update of a deployment only under its own name.  What the
    agents do in the control plane is granted by the roles of the kubeconfigs they are
    given there. *)
Theorem roles_suffice P A (p : M A) : runs_under P A p → only_calls legal P p.
Proof.
  destruct 1.
  - apply granted_claim_Reconcile_cp.
  - apply granted_service_Reconcile.
  - apply granted_class_Reconcile_cp.
  - apply granted_catalog_Reconcile_cp.
  - apply granted_environment_Reconcile.
  - apply granted_MonitorHealth_turn.
  - apply granted_svc_AddFunc.
  - apply granted_svc_AddFunc.
  - apply granted_svc_DeleteFunc.
  - apply granted_app_AddFunc.
  - apply granted_app_DeleteFunc.
  - apply granted_ValidateCreate.
  - apply granted_ValidateUpdate.
  - apply granted_claim_Reconcile.
  - apply granted_catalog_Reconcile.
  - apply granted_app_agent_Reconcile.
  - apply granted_binding_Reconcile.
  - apply granted_prepareAddFunc.
  - apply granted_prepareAddFunc.
  - apply granted_prepareDeleteFunc.
  - apply granted_class_Reconcile.
  - apply granted_handle_AddFunc.
  - apply granted_handle_AddFunc.
  - apply granted_handle_DeleteFunc.
  - apply granted_svc_agent_Reconcile.
Qed.
End Programs.

(** ** Watches *)

(** The cache that a watch needs lists and watches the objects of its kind. *)
Definition watch_accesses (k : Kind) : list access := [access_to k "" "list"; access_to k "" "watch"].
Definition watches_granted (pl : list Permission) (controllers : list Builder) : Prop :=
  Forall (λ b, Forall (λ k, Forall (λ a, allowed pl a = true) (watch_accesses k)) (watched_kinds b)) controllers.

(** The role of each program grants it what its controllers watch, whatever the strategy. *)
Theorem watches_are_granted :
  watches_granted ManagerRole ControlPlane.controllers ∧
  (∀ strategy, watches_granted AppPermissionList (App.controllers strategy)) ∧
  watches_granted SvcPermissionList Svc.controllers.
Proof.
  unfold watches_granted, App.controllers. split_and!; [|intros strategy; case_bool_decide|];
    repeat constructor; vm_compute; reflexivity.
Qed.

Module Example.

(** The roles do not grant everything. *)
Example other_deployment_denied (d : Deployment) :
  obj_Name (k := KDeployment) d = "other" → ¬ svc_granted (CUpdate Manager KDeployment d).
Proof.
  intros Hd [Hg _]. assert (Ha := Forall_inv Hg). unfold access_to in Ha. rewrite Hd in Ha. vm_compute in Ha. done.
Qed.
Example create_secret_denied (s : Secret) : ¬ app_granted (CCreate Manager KSecret s).
Proof. intros Hg. assert (Ha := Forall_inv Hg). vm_compute in Ha. done. Qed.

(** The control plane may not read deployments in its own cluster. *)
Example get_deployment_denied key : ¬ manager_granted (CGet Manager KDeployment key).
Proof.
  intros Hg. assert (Ha := Forall_inv (Hg (or_introl eq_refl))). vm_compute in Ha. done.
Qed.

#[local] Instance no_kubeconfig : KubeconfigLib :=
  {| RESTConfigFromKubeConfig := λ data, Ok {| cfg_Host := data; cfg_Rest := "" |} |}.
#[local] Instance no_manifests : ManifestLib :=
  {| yaml_Deployment := λ _, Err (ENew "not a deployment");
     yaml_ConfigMap := λ _, Err (ENew "not a config map") |}.
#[local] Instance any_labels : LabelLib := {| NewRequirement_err := λ _ _, None |}.
#[local] Instance no_converter : ConverterLib :=
  {| FromUnstructured_RegisteredService := λ _, Err (ENew "not a registered service");
     FromUnstructured_ServiceClaim := λ _, Err (ENew "not a service claim") |}.
#[local] Instance no_paths : JsonPathLib :=
  {| JSONPath := (); jsonpath_Parse := λ _, Ok tt; FindResults := λ _ _, Ok [] |}.
#[local] Existing Instance Workload.Example.example_lib.

Lemma roles_suffice_witness :
  only_calls legal svc_granted (SvcAgent.Agent.Reconcile {| nn_Namespace := "services"; nn_Name := "" |}) ∧
  only_calls legal manager_granted (ServiceClaimCtrl.Reconcile {| nn_Namespace := "primaza"; nn_Name := "db" |}).
Proof. split; apply roles_suffice; [apply run_svc_agent|apply run_claim]. Defined.
End Example.
