(* ===== verification/CrdTyping.v ===== *)
(** * The controllers are well typed

    What the entry points of the operator send satisfies the schemas of the custom
    resources ([Crd.v]), as long as what the API server answers does: the states written
    are values of the enumerations, the conditions have legal types and reasons, required
    arrays are not null, the update of a claim keeps its immutable fields, a copied
    specification stays valid under its new target.  There are three exceptions.  The
    copy of a claim may meet a claim of the same name with other immutable fields; a
    service that is registered for a class without mappings has a null definition; and
    the reason of a failed binding is not a legal one, so the API server refuses the
    status that reports the failure. *)

From S2P Require Import Prelude Prog GoErr GoStr Json Types Kube EnvTag Authz WorkerCluster Namespaces.
From S2P Require Import AppNamespaces ServiceClaimCtrl RegisteredServiceCtrl ServiceClassCtrl.
From S2P Require Import ServiceCatalogCtrl Informers ClusterEnvCtrl Workload ServiceBindingCtrl.
From S2P Require Import Sed AppAgent SvcAgent Regex Crd.

#[local] Open Scope string_scope.
#[local] Open Scope list_scope.
#[local] Open Scope primaza_scope.

(** A helper that is typed in its own lemma. *)
Ltac typed_by lem :=
  lazymatch goal with
  | |- typed ?V (_ ≫= _) _ => eapply (typed_bind V); [apply lem|]
  | |- typed _ _ _ => eapply typed_mono; [apply lem|]
  end.

(** The same, for a helper whose calls are valid, [HV] being the reason why these are sent. *)
Ltac typed_lift HV lem :=
  lazymatch goal with
  | |- typed ?V (_ ≫= _) _ => eapply (typed_bind V); [eapply typed_weaken; [exact HV|apply lem]|]
  | |- typed _ _ _ => eapply typed_mono; [eapply typed_weaken; [exact HV|apply lem]|]
  end.

(** All that is sent is valid. *)
Definition sent `{KnownClaims} : ∀ c, valid_call c → valid_call c := λ c Hc, Hc.

(** A condition whose type, status and reason are constants. *)
Ltac constant_condition := split; apply (bool_decide_unpack _); vm_compute; exact I.

(** ** The control plane: claims, services, classes, catalogs *)

Section ControlPlane.
Context `{KubeconfigLib} {K : KnownClaims}.

Lemma typed_GetClusterRESTConfig cli ns name :
  typed valid_call (ClusterContext.GetClusterRESTConfig cli ns name) (λ _, True).
Proof. unfold ClusterContext.GetClusterRESTConfig, ClusterContext.getSecret. by typed_walk. Qed.

Lemma typed_CreateClient ce : typed valid_call (ClusterContext.CreateClient Manager ce) (λ _, True).
Proof.
  unfold ClusterContext.CreateClient. typed_by typed_GetClusterRESTConfig. intros ? _. by typed_walk.
Qed.

Lemma typed_PushServiceBinding sc secret nspace nss cfg :
  valid_spec (k := KServiceClaim) sc →
  typed valid_call (PushServiceBinding sc secret nspace nss cfg) (λ _, True).
Proof.
  intros (_ & _ & Happ & _). unfold PushServiceBinding. typed_walk; try done.
  unfold pushServiceBindingToNamespace, mutate_binding. typed_walk.
  typed_create sent; [intros sb _; by typed_walk|]. typed_walk; try done.
  typed_create sent; [done|]. by typed_walk.
Qed.

(** *** Claims *)

Lemma typed_updateRemoteServiceClaimStatusIfNeeded sclaim :
  valid_status (k := KServiceClaim) sclaim →
  typed valid_call (updateRemoteServiceClaimStatusIfNeeded sclaim) (λ _, True).
Proof.
  intros [Hst Hcs]. unfold updateRemoteServiceClaimStatusIfNeeded, target,
    getEnvironmentFromClusterEnvironment. typed_walk; try done.
  typed_by typed_GetClusterRESTConfig. intros ? _. by typed_walk.
Qed.

Lemma typed_updateServiceClaimStatus sclaim :
  valid_object (k := KServiceClaim) sclaim → valid_status (k := KServiceClaim) sclaim →
  typed valid_call (updateServiceClaimStatus sclaim) (λ p, valid_object (k := KServiceClaim) p.1).
Proof.
  intros Ho Hst. unfold updateServiceClaimStatus. typed_walk; try done.
  destruct Hans. typed_by typed_updateRemoteServiceClaimStatusIfNeeded; [done|].
  intros ? _. by typed_walk.
Qed.

Lemma valid_set_status sc st :
  valid_object (k := KServiceClaim) sc → Forall valid_condition (scst_Conditions st) →
  scst_State st ∈ [ServiceClaimStatePending; ServiceClaimStateResolved; ServiceClaimStateInvalid] →
  valid_object (k := KServiceClaim) (sc_set_Status sc st) ∧
  valid_status (k := KServiceClaim) (sc_set_Status sc st).
Proof. intros [Hs _] Hc Hst. by split; split. Qed.

Lemma typed_push_environments sclaim tag ces secret errs :
  valid_spec (k := KServiceClaim) sclaim →
  typed valid_call (push_environments sclaim tag ces secret errs) (λ _, True).
Proof.
  intros Hs. revert secret errs.
  induction ces as [|ce ces IH]; intros secret errs; cbn [push_environments]; [by apply typed_ret|].
  typed_by typed_GetClusterRESTConfig. intros ? _. typed_walk; [apply IH| |done].
  typed_by typed_PushServiceBinding; [done|]. intros ? _. typed_walk; apply IH.
Qed.

Lemma typed_pushToClusterEnvironments sclaim secret :
  valid_spec (k := KServiceClaim) sclaim →
  typed valid_call (pushToClusterEnvironments sclaim secret) (λ _, True).
Proof.
  intros Hs. unfold pushToClusterEnvironments, target, getEnvironmentFromClusterEnvironment.
  typed_walk; try done; [|by apply typed_push_environments].
  typed_by typed_GetClusterRESTConfig. intros ? _. typed_walk; [|done].
  typed_by typed_PushServiceBinding; [done|]. intros ? _. by typed_walk.
Qed.

Lemma typed_extract ns rs keys secret :
  typed valid_call (extractServiceEndpointDefinition ns rs keys secret) (λ _, True).
Proof. unfold extractServiceEndpointDefinition. by typed_walk. Qed.

Lemma typed_changeServiceState rs state :
  state ∈ [RegisteredServiceStateAvailable; RegisteredServiceStateClaimed] →
  typed valid_call (changeServiceState rs state) (λ _, True).
Proof.
  intros Hst. unfold changeServiceState. typed_walk; [|done].
  cbn. unfold valid_RegisteredServiceStatus. cbn. set_solver.
Qed.

Lemma sound_pending_condition now message : sound_condition (pending_condition now message).
Proof. constant_condition. Qed.

Lemma typed_leave_pending sclaim message :
  valid_object (k := KServiceClaim) sclaim →
  typed valid_call (leave_pending sclaim message) (λ _, True).
Proof.
  intros Ho. unfold leave_pending. typed_walk; [done|].
  typed_by (typed_SetStatusCondition valid_call sent);
    [by destruct Ho|apply sound_pending_condition|intros cs [Hcs _]].
  destruct (valid_set_status sclaim {| scst_State := ServiceClaimStatePending;
    scst_ClaimID := scst_ClaimID (sc_Status sclaim);
    scst_RegisteredService := scst_RegisteredService (sc_Status sclaim);
    scst_Conditions := cs |}) as [Ho' Hst']; [done|done|set_solver|].
  typed_by typed_updateServiceClaimStatus; [exact Ho'|exact Hst'|]. intros ? _. by typed_walk.
Qed.

(** The state of a valid claim is set. *)
Lemma valid_set_State sc state rs :
  valid_object (k := KServiceClaim) sc →
  state ∈ [ServiceClaimStatePending; ServiceClaimStateResolved] →
  valid_object (k := KServiceClaim) (sc_set_RegisteredService (sc_set_State sc state) rs) ∧
  valid_status (k := KServiceClaim) (sc_set_RegisteredService (sc_set_State sc state) rs).
Proof. intros Ho Hst. apply valid_set_status; [by destruct Ho|by destruct Ho|cbn; set_solver]. Qed.

(** Publishing a claim with the service it was given, and resolving it. *)
Lemma typed_publish sclaim rs secret (f : option gerr → M (option gerr)) :
  valid_object (k := KServiceClaim) sclaim →
  (∀ err, typed valid_call (f err) (λ _, True)) →
  typed valid_call
    ('(sclaim, err) ← updateServiceClaimStatus
       (sc_set_RegisteredService (sc_set_State sclaim ServiceClaimStatePending) rs);
     match err with
     | Some err => mret (Some err)
     | None =>
         do! changeServiceState rs RegisteredServiceStateClaimed ;;
         let sclaim := sc_set_RegisteredService (sc_set_State sclaim ServiceClaimStateResolved) rs in
         err ← pushToClusterEnvironments sclaim secret;
         match err with
         | Some err =>
             _ ← changeServiceState rs RegisteredServiceStateAvailable;
             f (Some err)
         | None => '(_, err) ← updateServiceClaimStatus sclaim; mret err
         end
     end) (λ _, True).
Proof.
  intros Ho Hf. destruct (valid_set_State sclaim ServiceClaimStatePending rs Ho) as [Hp Hps]; [set_solver|].
  typed_by typed_updateServiceClaimStatus; [exact Hp|exact Hps|]. intros [sc err] Hsc. typed_walk; [done|].
  typed_by typed_changeServiceState; [set_solver|]. intros ? _. typed_walk; [done|].
  destruct (valid_set_State sc ServiceClaimStateResolved rs Hsc) as [Hr Hrs]; [set_solver|].
  typed_by typed_pushToClusterEnvironments; [by destruct Hr|]. intros ? _. typed_walk.
  - typed_by typed_changeServiceState; [set_solver|]. intros ? _. apply Hf.
  - typed_by typed_updateServiceClaimStatus; [exact Hr|exact Hrs|]. intros ? _. by typed_walk.
Qed.

Lemma typed_processServiceClaim rsl sclaim :
  valid_object (k := KServiceClaim) sclaim →
  typed valid_call (processServiceClaim rsl sclaim) (λ _, True).
Proof.
  intros Ho. unfold processServiceClaim.
  apply (typed_bind _ _ _ (λ _, True)).
  { unfold claim_environment, target, getEnvironmentFromClusterEnvironment. by typed_walk. }
  intros ? _. typed_walk; [|by apply typed_leave_pending|done].
  typed_by typed_extract. intros ? _. typed_walk; [by apply typed_leave_pending|].
  apply (typed_publish _ _ _ (λ err, mret (IgnoreNotFound err))); [done|].
  intros. by apply typed_ret.
Qed.

Lemma typed_processResolvedServiceClaim sclaim :
  valid_object (k := KServiceClaim) sclaim →
  typed valid_call (processResolvedServiceClaim sclaim) (λ _, True).
Proof.
  intros Ho. unfold processResolvedServiceClaim, getServiceEndpointDefinition. typed_walk; try done.
  typed_by typed_extract. intros ? _. typed_walk.
  apply (typed_publish _ _ _ (λ err, mret err)); [done|]. intros. by apply typed_ret.
Qed.

Lemma typed_DeleteServiceBindingsAndSecret sclaim :
  typed valid_call (DeleteServiceBindingsAndSecret sclaim) (λ _, True).
Proof.
  assert (Hdel : ∀ cli sc nss, typed valid_call (DeleteServiceBindingAndSecretFromNamespaces cli sc nss) (λ _, True)).
  { intros. unfold DeleteServiceBindingAndSecretFromNamespaces. by typed_walk. }
  unfold DeleteServiceBindingsAndSecret, target, getEnvironmentFromClusterEnvironment.
  typed_walk; try done.
  - typed_by typed_CreateClient. intros ? _. typed_walk; [|done]. typed_by Hdel. intros ? _. by typed_walk.
  - clear Hans Hkn Heqa. generalize (@nil (option gerr)) as errs.
    induction a as [|ce ces IH]; intros errs; cbn [delete_environments]; [by apply typed_ret|].
    typed_by typed_CreateClient. intros ? _. typed_walk; [apply IH| |done].
    typed_by Hdel. intros ? _. apply IH.
Qed.

Lemma typed_processClaimMarkedForDeletion req sclaim :
  typed valid_call (processClaimMarkedForDeletion req sclaim) (λ _, True).
Proof.
  unfold processClaimMarkedForDeletion. typed_step; [done|].
  apply (typed_bind _ _ _ (λ _, True)).
  { match goal with |- typed _ (find_service_to_free _ ?l) _ => generalize l as rsl end.
    intros rsl. induction rsl as [|rs rsl IH]; cbn [find_service_to_free]; unfold target; by typed_walk. }
  intros found _. typed_by typed_DeleteServiceBindingsAndSecret. intros ? _. typed_walk.
  - typed_by typed_changeServiceState; [set_solver|]. intros ? _. by typed_walk.
  - done.
Qed.

Lemma typed_ensureServiceClaimIsInitialized sc :
  valid_object (k := KServiceClaim) sc →
  typed valid_call (ensureServiceClaimIsInitialized sc) (λ p, valid_object (k := KServiceClaim) p.1).
Proof.
  intros Ho. unfold ensureServiceClaimIsInitialized. typed_walk; try done.
  - split; [cbn; set_solver|by destruct Ho].
  - destruct r0; [by destruct Hans0|exact Ho].
Qed.

Lemma typed_claim_Reconcile req : typed valid_call (ServiceClaimCtrl.Reconcile req) (λ _, True).
Proof.
  assert (Hlive : ∀ sc, valid_object (k := KServiceClaim) sc → typed valid_call
    ('(sclaim, err) ← ensureServiceClaimIsInitialized sc;
     match err with
     | Some err => mret (Some err)
     | None => if ⟪ scst_State (sc_Status sclaim) = ServiceClaimStateResolved ⟫
               then processResolvedServiceClaim sclaim else processClaim req sclaim
     end) (λ _, True)).
  { intros sc Ho. typed_by typed_ensureServiceClaimIsInitialized; [done|].
    intros [sc' err] Ho'. unfold processClaim.
    typed_walk; try done; [by apply typed_processResolvedServiceClaim|by apply typed_processServiceClaim]. }
  unfold ServiceClaimCtrl.Reconcile. typed_walk; try done; eauto with primaza.
  - typed_by typed_processClaimMarkedForDeletion. intros ? _. typed_walk; eauto with primaza.
Qed.

(** *** Registered services *)

Lemma valid_catalog_without sc si s sel :
  scats_Services (scat_Spec sc) !! si = Some s → valid_spec (k := KServiceCatalog) sc →
  valid_spec (k := KServiceCatalog) (catalog_without sc si s sel).
Proof.
  intros Hs [Hsv Hcl]. split; cbn.
  - apply Forall_app. split; [by apply Forall_take|by apply Forall_drop].
  - destruct sel as [l|]; [|done]. apply Forall_app. split; [done|]. rewrite Forall_singleton.
    split; [|by eexists]. by eapply Forall_lookup_1.
Qed.

Lemma valid_service_entry rs : valid_spec (k := KRegisteredService) rs → valid_CatalogService (service_entry rs).
Proof. by intros (_ & Hid & _). Qed.

Lemma valid_catalog_with sc s :
  valid_spec (k := KServiceCatalog) sc → valid_CatalogService s →
  valid_spec (k := KServiceCatalog) (catalog_with sc s).
Proof. intros [Hsv Hcl] Hs. split; cbn; [|done]. apply Forall_app. by rewrite Forall_singleton. Qed.

Lemma typed_removeServiceFromCatalog sc ns name :
  valid_spec (k := KServiceCatalog) sc →
  typed valid_call (removeServiceFromCatalog sc ns name) (λ _, True).
Proof.
  intros Hs. unfold removeServiceFromCatalog. typed_walk; try done.
  split; [by apply valid_catalog_without|done].
Qed.

Lemma typed_removeServiceFromCatalogs ns name :
  typed valid_call (removeServiceFromCatalogs ns name) (λ _, True).
Proof.
  unfold removeServiceFromCatalogs, getServiceCatalogs. typed_walk; try done.
  rewrite Forall_forall in Hans.
  typed_by typed_removeServiceFromCatalog; [apply valid_object_spec; auto|]. intros ? _. by typed_walk.
Qed.

Lemma typed_reconcileCatalogs rs :
  valid_spec (k := KRegisteredService) rs → typed valid_call (reconcileCatalogs rs) (λ _, True).
Proof.
  intros Hs. unfold reconcileCatalogs, getServiceCatalogs. typed_walk; try done.
  all: rewrite Forall_forall in Hans.
  - unfold addServiceToCatalog. typed_walk; try done.
    split; [|done]. apply valid_catalog_with; [apply valid_object_spec; auto|by apply valid_service_entry].
  - typed_by typed_removeServiceFromCatalog; [apply valid_object_spec; auto|]. intros ? _. by typed_walk.
Qed.

Lemma typed_registerHealthcheck rs : typed valid_call (registerHealthcheck rs) (λ _, True).
Proof.
  unfold registerHealthcheck. typed_create sent; [|by typed_walk].
  intros x _. unfold mutate_cronjob. by typed_walk.
Qed.

(** The state observed is one of the enumeration. *)
Lemma typed_observe_state rs :
  valid_spec (k := KRegisteredService) rs →
  typed valid_call (observe_state rs) (λ p, p.2 = None →
    valid_spec (k := KRegisteredService) p.1 ∧ valid_status (k := KRegisteredService) p.1).
Proof.
  intros Hspec.
  assert (Hst : ∀ state, state ∈ [RegisteredServiceStateAvailable; RegisteredServiceStateClaimed;
    RegisteredServiceStateUnknown; RegisteredServiceStateUnreachable] →
    valid_spec (k := KRegisteredService) (set_state rs state) ∧
    valid_status (k := KRegisteredService) (set_state rs state)).
  { intros state Hs. split; [done|]. cbn. unfold valid_RegisteredServiceStatus. cbn. set_solver. }
  assert (Hclaim : let rs' := if ⟪ rsst_State (rs_Status rs) ≠ RegisteredServiceStateClaimed ⟫
     then set_state rs RegisteredServiceStateAvailable else rs in
    valid_spec (k := KRegisteredService) rs' ∧ valid_status (k := KRegisteredService) rs').
  { cbv zeta. case_bool_decide as Hc; [apply Hst; set_solver|]. split; [done|].
    cbn. unfold valid_RegisteredServiceStatus. rewrite Hc. set_solver. }
  unfold observe_state, handleHealthcheck, cleanupHealthchecks. typed_walk; try done.
  - typed_by typed_registerHealthcheck. intros ? _. typed_walk. intros _. apply Hst.
    unfold state_after_jobs. destruct b; [case_bool_decide as Hc; [|rewrite Hc]|destruct b0]; set_solver.
  - typed_by typed_registerHealthcheck. intros ? _. typed_walk. intros _. apply Hst. set_solver.
Qed.

Lemma typed_service_Reconcile req : typed valid_call (RegisteredServiceCtrl.Reconcile req) (λ _, True).
Proof.
  unfold RegisteredServiceCtrl.Reconcile. typed_walk; try done; [|apply typed_removeServiceFromCatalogs].
  typed_by typed_observe_state; [by apply valid_object_spec|]. intros [rs err] Hrs.
  typed_walk; [done|..]; destruct (Hrs eq_refl) as [Hs Hst].
  - typed_by typed_reconcileCatalogs; [done|]. intros ? _. by typed_walk.
  - typed_by typed_removeServiceFromCatalogs. intros ? _. by typed_walk.
Qed.

(** *** Service classes and catalogs *)

Lemma typed_PushServiceClassToNamespaces cli sc nss :
  valid_spec (k := KServiceClass) sc →
  typed valid_call (PushServiceClassToNamespaces cli sc nss) (λ _, True).
Proof.
  intros Hs. induction nss as [|ns nss IH]; cbn [PushServiceClassToNamespaces]; [by apply typed_ret|].
  typed_create sent; [done|]. typed_walk; [apply IH|done].
Qed.

Lemma typed_class_Reconcile req : typed valid_call (ServiceClassCtrl.Reconcile req) (λ _, True).
Proof.
  assert (Hrec : ∀ sc, valid_object (k := KServiceClass) sc →
    typed valid_call (do! reconcileEnvironments sc ;; mret None) (λ _, True)).
  { intros sc [Hs _]. unfold reconcileEnvironments, push_to_environment. typed_walk; try done.
    typed_by typed_CreateClient. intros ? _. typed_walk; [|done].
    typed_by typed_PushServiceClassToNamespaces; [done|]. intros ? _. by typed_walk. }
  assert (Hdel : ∀ cli sc nss, typed valid_call (DeleteServiceClassFromNamespaces cli sc nss) (λ _, True)).
  { intros cli sc nss. induction nss; cbn [DeleteServiceClassFromNamespaces]; by typed_walk. }
  assert (Hfin : ∀ sc, typed valid_call (finalize sc) (λ _, True)).
  { intros sc. unfold finalize, removeFromEnvironments,
      ServiceClassCtrl.getRelatedClusterEnvironments. typed_walk; try done.
    match goal with |- typed _ (remove_from_each _ ?l ?e) _ => generalize e as errs, l as ff end.
    intros errs ff. revert errs. induction ff as [|ce ff IH]; intros errs; cbn [remove_from_each]; [by apply typed_ret|].
    typed_by typed_CreateClient. intros ? _. typed_walk; [|done]. typed_by Hdel. intros ? _. apply IH. }
  unfold ServiceClassCtrl.Reconcile. typed_walk; try done; eauto with primaza.
  typed_by Hfin. intros ? _. typed_walk; try done. apply valid_call_update; [by apply valid_set_meta|done].
Qed.

Lemma typed_PushServiceCatalogToApplicationNamespaces sc nss cfg :
  valid_spec (k := KServiceCatalog) sc →
  typed valid_call (PushServiceCatalogToApplicationNamespaces sc nss cfg) (λ _, True).
Proof.
  intros Hs. unfold PushServiceCatalogToApplicationNamespaces. typed_walk; try done.
  typed_create sent; [done|]. by typed_walk.
Qed.

Lemma typed_catalog_Reconcile req : typed valid_call (ServiceCatalogCtrl.Reconcile req) (λ _, True).
Proof.
  unfold ServiceCatalogCtrl.Reconcile, PushServiceCatalog. typed_walk; try done.
  typed_by typed_GetClusterRESTConfig. intros ? _. typed_walk; [|done].
  typed_by typed_PushServiceCatalogToApplicationNamespaces; [by apply valid_object_spec|].
  intros ? _. by typed_walk.
Qed.
End ControlPlane.

(** ** The control plane: cluster environments *)

Section Environments.
Context `{KubeconfigLib} `{ManifestLib} `{LabelLib} `{ConverterLib} {K : KnownClaims}.

(** A program whose calls are plainly no custom resource's. *)
Ltac plainly := apply (typed_plain valid_call sent); calls; done.

Lemma typed_ReconcileNamespaces nr : typed valid_call (ReconcileNamespaces nr) (λ _, True).
Proof.
  apply (typed_plain valid_call sent).
  unfold ReconcileNamespaces, Namespaces.bindNamespaces, unbindOrphanNamespaces, BindNamespaces,
    collect_failing, bindNamespace, createRoleBindings, createRoleBinding, PushAgent,
    createAgentDeployment, createAgentConfigMap, unbindOrphanNamespacesForType, getOrphanNamespaces,
    getAuthorizedNamespaces, getRoleBindingsLabelSelectorOrDie, Subtract, UnbindNamespaces,
    collect_failing, unbindNamespace, deleteRoleBinding, ignoring_not_found, DeleteAgent.
  calls; done.
Qed.

(** An environment whose status may be sent. *)
Definition sendable (ce : ClusterEnvironment) : Prop :=
  valid_spec (k := KClusterEnvironment) ce ∧ valid_status (k := KClusterEnvironment) ce.

Lemma sendable_valid ce : sendable ce → valid_object (k := KClusterEnvironment) ce.
Proof. by intros [Hs (_ & _ & Hc)]. Qed.

Definition environment_states : list string :=
  [ClusterEnvironmentStateOnline; ClusterEnvironmentStateOffline; ClusterEnvironmentStatePartial].

Lemma sendable_intro ce :
  valid_object (k := KClusterEnvironment) ce → cest_State (ce_Status ce) ∈ environment_states →
  cest_Conditions (ce_Status ce) ≠ [] → sendable ce.
Proof. by intros [Hs Hc] Hst Hne. Qed.

Lemma typed_set_condition ce c :
  valid_object (k := KClusterEnvironment) ce → sound_condition c →
  cest_State (ce_Status ce) ∈ environment_states →
  typed valid_call (set_condition ce c) sendable.
Proof.
  intros [Hs Hcs] Hc Hst. unfold set_condition.
  typed_by (typed_SetStatusCondition valid_call sent); [done..|]. intros cs [Hcs' Hne].
  apply typed_ret. by apply sendable_intro.
Qed.

(** A condition of a legal reason. *)
Lemma sound_connection_condition cs :
  valid_reason (cs_Reason cs) → sound_condition (ConnectionStatus_Condition cs).
Proof.
  intros Hr. split; [by apply (bool_decide_unpack _)| |done|done].
  cbn. case_bool_decide; set_solver.
Qed.

Lemma typed_updateClusterEnvironmentStatus ce cs :
  valid_object (k := KClusterEnvironment) ce → cs_State cs ∈ environment_states →
  valid_reason (cs_Reason cs) →
  typed valid_call (updateClusterEnvironmentStatus ce cs) sendable.
Proof.
  intros Ho Hst Hr. apply typed_set_condition; [done|by apply sound_connection_condition|done].
Qed.

Lemma typed_update_status ce :
  sendable ce → typed valid_call (update_status ce) (λ p, sendable p.1).
Proof.
  intros Hs. unfold update_status. typed_walk; [by destruct Hs|].
  destruct r; [by destruct Hans as [[]]|done].
Qed.

(** The reasons the controller gives. *)
Definition given_reasons : list string :=
  [ClientCreationErrorReason; ErrorDuringHealthCheckReason; HealthCheckFailedReason;
   ConnectionSuccessful; ConnectionError; ClientCreationError].
Lemma given_reasons_valid reason : reason ∈ given_reasons → valid_reason reason.
Proof.
  assert (Forall valid_reason given_reasons) as Hall by (by apply (bool_decide_unpack _); vm_compute).
  rewrite Forall_forall in Hall. apply Hall.
Qed.

Lemma typed_publish_offline ce reason message :
  valid_object (k := KClusterEnvironment) ce → reason ∈ given_reasons →
  typed valid_call (publish_offline ce reason message) (λ p, sendable p.1).
Proof.
  intros Ho Hr. unfold publish_offline.
  typed_by typed_updateClusterEnvironmentStatus; [done|cbn; set_solver|by apply given_reasons_valid|].
  intros ce' Hce'. by apply typed_update_status.
Qed.

Lemma typed_TestConnection cfg :
  typed valid_call (TestConnection cfg) (λ cs, cs_State cs ∈ environment_states ∧ cs_Reason cs ∈ given_reasons).
Proof. unfold TestConnection. typed_walk; try done; split; cbn; set_solver. Qed.

Lemma typed_retrieveClusterContextSecret ce :
  valid_object (k := KClusterEnvironment) ce →
  typed valid_call (retrieveClusterContextSecret ce) (λ p, valid_object (k := KClusterEnvironment) p.1).
Proof.
  intros Ho. unfold retrieveClusterContextSecret, getClusterContextSecret,
    ensureOwnershipOfClusterContextSecret, extractClusterContextRESTConfig,
    ClusterContext.GetClusterContextSecret, ClusterContext.getSecret.
  assert (Hpub : ∀ message (f : ClusterEnvironment * option gerr → M (ClusterEnvironment * result RestConfig)),
    (∀ p, sendable p.1 → typed valid_call (f p) (λ p, valid_object (k := KClusterEnvironment) p.1)) →
    typed valid_call (publish_offline ce ClientCreationErrorReason message ≫= f)
      (λ p, valid_object (k := KClusterEnvironment) p.1)).
  { intros message f Hf. typed_by typed_publish_offline; [done|set_solver|]. exact Hf. }
  typed_walk; try done; apply Hpub; intros [ce' uerr] Hce'; typed_walk; by apply sendable_valid.
Qed.

Lemma typed_testConnection cfg ce :
  valid_object (k := KClusterEnvironment) ce →
  typed valid_call (testConnection cfg ce) (λ p, sendable p.1).
Proof.
  intros Ho. unfold testConnection. typed_by typed_TestConnection. intros cs [Hst Hr].
  typed_by typed_updateClusterEnvironmentStatus; [done..|by apply given_reasons_valid|].
  intros ce' Hce'. by typed_walk.
Qed.

(** Reads of a cluster that leave nothing to check. *)
Lemma typed_CheckExcessPermission pc nss : typed valid_call (CheckExcessPermission pc nss) (λ _, True).
Proof.
  unfold CheckExcessPermission, AccessList. generalize (@nil string) as us.
  induction nss as [|ns nss IH]; intros us; cbn [AccessList_loop]; [by apply typed_ret|].
  unfold createUnwantedPermissionsList. typed_walk; try done.
Qed.

Lemma typed_TestPermissions pc nss : typed valid_call (TestPermissions pc nss) (λ _, True).
Proof.
  unfold TestPermissions, TestResourcePermissions, checkPermissions, checkPermissionsInNamespace,
    checkAccess. by plainly.
Qed.

Lemma typed_check_excess ce pc nss c :
  sendable ce → sound_condition c →
  typed valid_call (check_excess ce pc nss c) (λ p, sendable p.1).
Proof.
  intros Hce Hc. unfold check_excess. typed_by typed_CheckExcessPermission. intros ? _. typed_walk; try done.
  typed_by typed_set_condition; [by apply sendable_valid|done|by destruct Hce as [_ [? _]]|].
  intros ce' Hce'. by typed_walk.
Qed.

Lemma typed_checkExcessPermissions cfg ce :
  sendable ce → typed valid_call (checkExcessPermissions cfg ce) (λ p, sendable p.1).
Proof.
  intros Hce. unfold checkExcessPermissions.
  typed_by typed_check_excess; [done|constant_condition|]. intros [ce1 err1] Hce1.
  typed_by typed_check_excess; [done|constant_condition|]. intros [ce2 err2] Hce2. by typed_walk.
Qed.

Lemma typed_testTyped ce ty pc nss :
  sendable ce → ty ∈ [applicationNamespaceType; serviceNamespaceType] →
  typed valid_call (testTypedNamespacesPermissions ce ty pc nss) (λ p, sendable p.1).
Proof.
  intros Hce Hty. unfold testTypedNamespacesPermissions. typed_by typed_TestPermissions.
  intros ? _. typed_walk; [done| |done].
  typed_by typed_set_condition; [by apply sendable_valid| |by destruct Hce as [_ [? _]]|].
  - unfold buildPermissionCondition.
    apply elem_of_cons in Hty as [->| ->%list_elem_of_singleton]; case_bool_decide; constant_condition.
  - intros ce' Hce'. by typed_walk.
Qed.

Lemma sendable_set_State ce state :
  sendable ce → state ∈ environment_states → sendable (ce_set_State ce state).
Proof. by intros [Hs (_ & Hne & Hc)] Hst. Qed.

Lemma typed_testNamespacesPermissions cfg ce :
  sendable ce → typed valid_call (testNamespacesPermissions cfg ce) (λ p, sendable p.1).
Proof.
  intros Hce. unfold testNamespacesPermissions.
  typed_by typed_testTyped; [done|set_solver|]. intros [ce1 r1] Hce1. typed_walk; [|done].
  typed_by typed_testTyped; [done|set_solver|]. intros [ce2 r2] Hce2. typed_walk; [|done].
  cbn [fst]. destruct (_ || _); [|done]. apply sendable_set_State; [done|set_solver].
Qed.

(** *** The namespaces of an environment *)

Lemma typed_reconcileNamespaces r cfg ce fann fsnn :
  typed valid_call (reconcileNamespaces r cfg ce fann fsnn) (λ _, True).
Proof.
  unfold reconcileNamespaces, Subtract, NewNamespaceReconciler, getInClusterClient. typed_walk; try done.
  typed_by typed_ReconcileNamespaces. intros ? _. by typed_walk.
Qed.

Lemma typed_reconcileServiceNamespaces ce fsnn :
  typed valid_call (reconcileServiceNamespaces ce fsnn) (λ _, True).
Proof.
  unfold reconcileServiceNamespaces, Subtract, push_class. typed_step; [done|]. typed_walk; try done.
  typed_by typed_CreateClient. intros ? _. typed_walk; [|done].
  typed_by typed_PushServiceClassToNamespaces; [|intros ? _; by typed_walk].
  rewrite Forall_forall in Hans. apply Hans.
  match goal with H : _ ∈ filter _ _ |- _ => by apply list_elem_of_filter in H as [_ H] end.
Qed.

Lemma valid_environment_catalog ce items :
  Forall (valid_object (k := KRegisteredService)) items →
  valid_spec (k := KServiceCatalog) (environment_catalog ce items).
Proof.
  intros Hitems. split; [|constructor]. cbn. apply Forall_fmap, Forall_forall.
  intros rs [_ Hin]%list_elem_of_filter. rewrite Forall_forall in Hitems.
  by apply valid_service_entry, valid_object_spec, Hitems.
Qed.

Lemma typed_reconcileApplicationNamespaces cfg ce fann :
  typed valid_call (reconcileApplicationNamespaces cfg ce fann) (λ _, True).
Proof.
  assert (Hfl : ∀ items : list ServiceClaim, Forall (valid_object (k := KServiceClaim)) items →
    typed valid_call (claims_of_environment ce items) (Forall (valid_object (k := KServiceClaim)))).
  { intros items Hitems. unfold claims_of_environment. apply typed_for_each; [done|].
    intros sc fl Hin Hfl. typed_walk. case_bool_decide; [|done].
    apply Forall_app; split; [done|]. rewrite Forall_singleton. rewrite Forall_forall in Hitems. auto. }
  unfold reconcileApplicationNamespaces, Subtract. typed_walk; [done|].
  apply (typed_bind _ _ _ (λ _, True)); [|intros ? _; apply (typed_bind _ _ _ (λ _, True))].
  - unfold reconcileServiceBindingApplicationNamespaces. typed_walk; try done.
    typed_by Hfl; [done|]. intros fl Hvalid. unfold push_binding. typed_walk; try done.
    all: typed_by typed_PushServiceBinding; [|intros ? _; by typed_walk].
    all: rewrite Forall_forall in Hvalid; by apply Hvalid.
  - unfold reconcileServiceCatalogApplicationNamespaces, CreateServiceCatalog. typed_walk; try done.
    1: by apply valid_environment_catalog.
    all: typed_by typed_PushServiceCatalogToApplicationNamespaces; [by apply valid_object_spec|].
    all: intros ? _; by typed_walk.
  - intros ? _. by typed_walk.
Qed.

Lemma typed_reconcile_all r cfg ce fann fsnn :
  typed valid_call (reconcile_all r cfg ce fann fsnn) (λ _, True).
Proof.
  unfold reconcile_all. typed_by typed_reconcileNamespaces. intros ? _.
  typed_by typed_reconcileServiceNamespaces. intros ? _.
  typed_by typed_reconcileApplicationNamespaces. intros ? _. by typed_walk.
Qed.

(** *** Reconciliation and the health monitor *)

Lemma typed_runInformers r cfg ce fsnn fann :
  typed valid_call (runInformers r cfg ce fsnn fann) (λ _, True).
Proof.
  apply (typed_plain valid_call sent). unfold runInformers, RunSvcInformers, RunAppInformers, run_informers,
    stop_informers, RunSvcInformer, RunAppInformer, run_informer. calls; done.
Qed.

Lemma typed_reconcile_connected r cfg ce :
  sendable ce → typed valid_call (reconcile_connected r cfg ce) (λ _, True).
Proof.
  intros Hce. unfold reconcile_connected.
  typed_by typed_testNamespacesPermissions; [done|]. intros [ce1 failed] Hce1. typed_walk; [|done].
  typed_by typed_update_status; [done|]. intros [ce2 err2] Hce2. typed_walk; [done|].
  typed_by typed_reconcile_all. intros ? _. typed_walk; [done|].
  typed_by typed_update_status; [done|]. intros [ce3 err3] Hce3. typed_walk; [done| |].
  - typed_by typed_runInformers. intros ? _. typed_walk; [done|].
    typed_by typed_update_status; [done|]. intros ? _. by typed_walk.
  - typed_by typed_update_status; [done|]. intros ? _. by typed_walk.
Qed.

Lemma typed_environment_Reconcile r req : typed valid_call (ClusterEnvCtrl.Reconcile r req) (λ _, True).
Proof.
  assert (Hlive : ∀ ce, valid_object (k := KClusterEnvironment) ce →
    typed valid_call (reconcile_live r ce) (λ _, True)).
  { intros ce Ho. unfold reconcile_live.
    typed_by typed_retrieveClusterContextSecret; [done|]. intros [ce1 c1] Ho1. typed_walk; [|done].
    typed_by typed_testConnection; [done|]. intros [ce2 err2] Hce2. typed_walk; [done|].
    typed_by typed_checkExcessPermissions; [done|]. intros [ce3 err3] Hce3.
    by apply typed_reconcile_connected. }
  unfold ClusterEnvCtrl.Reconcile, finalizeClusterEnvironment, finalizeClusterEnvironmentInNamespaces.
  typed_walk; try done; eauto with primaza.
  typed_by typed_retrieveClusterContextSecret; [done|]. intros [ce1 c1] Ho1.
  assert (Hcat : ∀ (ce' : ClusterEnvironment) err, valid_object (k := KClusterEnvironment) ce' → typed valid_call
    (errcatalog ← removeServiceCatalogOnDeletedClusterEnvironment ce';
     (λ '(ce, err), if negb (is_nil (IgnoreNotFound err)) then mret (r, err)
       else u ← api (CUpdate Manager KClusterEnvironment
              (RemoveFinalizer (k := KClusterEnvironment) ce clusterEnvironmentFinalizer).1);
            mret (r, result_err u)) (ce', errors_join [err; errcatalog])) (λ _, True)).
  { intros ce' err Ho'. unfold removeServiceCatalogOnDeletedClusterEnvironment, getRelatedClusterEnvironments.
    typed_walk; try done; (apply valid_call_update; [by apply valid_set_meta|done]). }
  unfold NewNamespaceReconciler, getInClusterClient. typed_walk; try done; try by apply Hcat.
  typed_by typed_ReconcileNamespaces. intros ? _. typed_walk. by apply Hcat.
Qed.

Lemma typed_monitor_connected cfg ce :
  sendable ce → typed valid_call (monitor_connected cfg ce) (λ _, True).
Proof.
  intros Hce. unfold monitor_connected.
  typed_by typed_testNamespacesPermissions; [done|]. intros [ce1 failed] Hce1.
  apply (typed_bind _ _ _ (λ p, sendable p.1)).
  - typed_walk; [done|]. apply typed_publish_offline; [by apply sendable_valid|set_solver].
  - intros [ce2 skip] Hce2. typed_walk; [done|].
    typed_by typed_checkExcessPermissions; [done|]. intros [ce3 err3] Hce3.
    typed_by typed_update_status; [done|]. intros ? _. by typed_walk.
Qed.

Lemma typed_MonitorHealth_turn ns : typed valid_call (MonitorHealth_turn ns) (λ _, True).
Proof.
  unfold MonitorHealth_turn. typed_step; [done|]. apply typed_for_each; [done|]. intros ce _ Hin _.
  assert (Ho : valid_object (k := KClusterEnvironment) ce).
  { destruct r as [items|e]; [|by apply elem_of_nil in Hin]. rewrite Forall_forall in Hans. auto. }
  clear Hans Hin. unfold monitor_environment.
  typed_by typed_retrieveClusterContextSecret; [done|]. intros [ce1 c1] Ho1. simpl in Ho1. typed_walk.
  - typed_by typed_testConnection; [done|]. intros [ce2 err2] Hce2. simpl in Hce2. typed_walk.
    + typed_by typed_publish_offline; [by apply sendable_valid|set_solver|].
      intros [ce3 skip] Hce3. typed_walk; [done|]. by apply typed_monitor_connected.
    + by apply typed_monitor_connected.
  - typed_by typed_publish_offline; [done|set_solver|]. intros [ce2 err2] Hce2. typed_walk.
    typed_by typed_publish_offline; [by apply sendable_valid|set_solver|]. intros ? _. by typed_walk.
  - typed_by typed_publish_offline; [done|set_solver|]. intros ? _. by typed_walk.
Qed.

(** *** The handlers of the informers, given valid objects *)

(** A valid call, or an update of a claim by a copy: its specification is valid, but its
    immutable fields may differ from those of the claim that it overwrites. *)
Definition overwriting_call (to : Client → Prop) (c : Call) : Prop :=
  valid_call c ∨
  match c with CUpdate cl k o => to cl ∧ at_kind KServiceClaim (valid_spec (k := KServiceClaim)) k o | _ => False end.

Definition overwriting_sent to : ∀ c, valid_call c → overwriting_call to c := λ c Hc, or_introl Hc.

Lemma overwriting_copy (to : Client → Prop) cl (o : ServiceClaim) :
  to cl → valid_spec (k := KServiceClaim) o →
  overwriting_call to (CCreate cl KServiceClaim o) ∧ overwriting_call to (CUpdate cl KServiceClaim o).
Proof. intros Hto Ho. split; [by left|right]. split; [done|by apply at_kind_same]. Qed.

Lemma copy_claim_valid ceName ns sc x :
  valid_spec (k := KServiceClaim) sc → valid_spec (k := KServiceClaim) (copy_claim ceName ns sc x).
Proof. intros (Hid & Hkeys & Happ & _). split_and!; try done. right. split; [done|by eexists]. Qed.

Lemma typed_svc_AddFunc synced ceName ns obj :
  (∀ rs, parseRegisteredService obj = Ok rs → valid_object (k := KRegisteredService) rs) →
  typed valid_call (svc_AddFunc synced ceName ns obj) (λ _, True).
Proof.
  intros Hobj. unfold svc_AddFunc, createUpdate, bakeClient. typed_walk; try done.
  destruct (Hobj a eq_refl) as [Hs _].
  typed_create sent; [done|]. typed_walk; try done.
  typed_by typed_CreateClient. intros ? _. typed_walk; try done.
  typed_create sent; [done|]. by typed_walk.
Qed.

Lemma typed_svc_DeleteFunc synced ns obj : typed valid_call (svc_DeleteFunc synced ns obj) (λ _, True).
Proof. unfold svc_DeleteFunc. by typed_walk. Qed.

Lemma typed_app_AddFunc synced ce ns obj :
  (∀ sc, parseServiceClaim obj = Ok sc → valid_object (k := KServiceClaim) sc) →
  typed (overwriting_call (λ cl, cl = Manager)) (app_AddFunc synced ce ns obj) (λ _, True).
Proof.
  intros Hobj. unfold app_AddFunc. typed_walk; try done.
  destruct (Hobj a eq_refl) as [Hs _].
  typed_create (overwriting_sent (λ cl, cl = Manager)); [|by typed_walk]. intros x _.
  apply overwriting_copy; [done|apply copy_claim_valid, Hs].
Qed.

Lemma typed_app_DeleteFunc synced ce obj : typed valid_call (app_DeleteFunc synced ce obj) (λ _, True).
Proof. unfold app_DeleteFunc. by typed_walk. Qed.
End Environments.

(** ** The agents *)

Section Agents.
Context `{JsonPathLib} {K : KnownClaims}.

Lemma typed_own_deployment name ns : typed valid_call (own_deployment name ns) (λ _, True).
Proof. unfold own_deployment. by typed_walk. Qed.

Lemma typed_GetPrimazaKubeconfig : typed valid_call GetPrimazaKubeconfig (λ _, True).
Proof. unfold GetPrimazaKubeconfig. by typed_walk. Qed.

Lemma typed_push_copy (to : Client → Prop) sc cl dep ns :
  to cl → valid_object (k := KServiceClaim) sc →
  typed (overwriting_call to) (ServiceClaims.push_copy sc cl dep ns) (λ _, True).
Proof.
  intros Hto [(Hid & Hkeys & Happ & _) Hcs]. unfold ServiceClaims.push_copy. typed_walk.
  typed_create (overwriting_sent to).
  - intros x _. apply overwriting_copy; [done|]. split_and!; try done. right. split; [done|by eexists].
  - typed_walk; try done; [by left|].
    typed_by (typed_SetStatusCondition _ (overwriting_sent to)); [done|constant_condition|].
    intros cs [Hcs' _]. typed_walk; [|done]. left. split; [cbn; set_solver|done].
Qed.

Lemma typed_agent_claim_Reconcile req :
  typed (overwriting_call (λ cl, cl ≠ Manager)) (AppAgent.ServiceClaims.Reconcile req) (λ _, True).
Proof.
  unfold AppAgent.ServiceClaims.Reconcile. set (to := λ cl, cl ≠ Manager).
  typed_walk; try done; try by left.
  typed_lift (overwriting_sent to) typed_GetPrimazaKubeconfig. intros ? _. typed_walk; try done; [by left|].
  typed_lift (overwriting_sent to) typed_own_deployment. intros ? _.
  typed_walk; try done; try by apply typed_push_copy.
  - left. apply valid_call_update; [by apply (valid_AddFinalizer a _ _ _ (surjective_pairing _))|].
    by apply (known_AddFinalizer _ a _ _ _ (surjective_pairing _)).
  - unfold ServiceClaims.under_deletion, ServiceClaims.deleteExternalResources. typed_walk; try done; try by left.
    left. apply valid_call_update; [by apply valid_set_meta|by apply known_set_meta].
Qed.

Lemma typed_agent_catalog_Reconcile req : typed valid_call (AppAgent.Catalogs.Reconcile req) (λ _, True).
Proof.
  unfold AppAgent.Catalogs.Reconcile, Catalogs.setOwnerReference.
  typed_walk; try done; apply valid_call_update; eauto with primaza.
Qed.

Lemma typed_app_agent_Reconcile req : typed valid_call (AppAgent.Agent.Reconcile req) (λ _, True).
Proof.
  unfold AppAgent.Agent.Reconcile, AppAgent.Agent.removePrimazaResources,
    AppAgent.Agent.removeServiceCatalog, AppAgent.Agent.removeServiceBinding, AppAgent.Agent.remove_all.
  typed_by typed_own_deployment. intros ? _. by typed_walk.
Qed.

Lemma typed_svc_agent_Reconcile req : typed valid_call (SvcAgent.Agent.Reconcile req) (λ _, True).
Proof.
  unfold SvcAgent.Agent.Reconcile, SvcAgent.Agent.removeServiceClasses.
  typed_by typed_own_deployment. intros ? _. by typed_walk.
Qed.

(** *** The service agent *)

(** A program that only reads sends nothing. *)
Lemma typed_reads {A} (p : M A) : reads_only p → typed valid_call p (λ _, True).
Proof.
  intros Hp. apply (typed_plain valid_call sent). eapply only_calls_mono; [exact Hp|].
  intros c Hc. destruct c; try done; by destruct Hc.
Qed.

(** The specification is valid, but if [P] the definition may be the nil slice. *)
Definition registrable (P : Prop) (rs : RegisteredService) : Prop :=
  valid_optional valid_HealthCheck (rss_HealthCheck (rs_Spec rs)) ∧
  non_nil (rss_ServiceClassIdentity (rs_Spec rs)) ∧
  (non_nil (rss_ServiceEndpointDefinition (rs_Spec rs)) ∨ P).

(** A valid call, or one that writes such a registered service. *)
Definition registering_call (P : Prop) (c : Call) : Prop :=
  valid_call c ∨
  match c with
  | CCreate _ k o | CUpdate _ k o => at_kind KRegisteredService (registrable P) k o
  | _ => False
  end.

Definition registering_sent P : ∀ c, valid_call c → registering_call P c := λ c Hc, or_introl Hc.

Lemma mapless_mapping cli obj sc :
  ServiceEndpointDefinitionMapping cli obj sc = Ok [] → mapless sc.
Proof.
  unfold ServiceEndpointDefinitionMapping, mapless.
  destruct (sedm_ResourceFields _) as [|f fs]; simpl.
  - destruct (sedm_SecretRefFields _) as [|g gs]; simpl; [done|].
    by destruct (secret_mappings _ _ _ _).
  - destruct (NewSEDResourceMapping obj f); [|done]. destruct (resource_mappings obj fs); [|done].
    by destruct (secret_mappings _ _ _ _).
Qed.

Lemma non_nil_appended {A} (l : list A) : l ≠ [] → non_nil (appended l).
Proof. by destruct l. Qed.

(** The definition of a service is not nil when there is some mapping. *)
Lemma wp_looked_up_non_nil ms data :
  kwp (LookupServiceEndpointDescriptor ms data) (λ _ out, ∀ p, out = Done (Ok p) →
    non_nil p.1 ∨ ms = []).
Proof.
  unfold LookupServiceEndpointDescriptor.
  eapply (wp_bind_spec legal); [apply wp_lookup| |done].
  intros t s Hs. destruct (Hs s eq_refl) as [Hok _]. destruct (lk_errors s) eqn:He; wflow; [|done].
  intros p [= <-]. destruct (Hok eq_refl) as (vs & Hvs & -> & _). simpl.
  destruct ms; [by right|left]. inversion Hvs; subst. by apply non_nil_appended.
Qed.

Lemma typed_PrepareRegisteredService (P : Prop) cli obj sc ms data ns :
  (mapless sc → P) →
  valid_spec (k := KServiceClass) sc → ServiceEndpointDefinitionMapping cli obj sc = Ok ms →
  typed (registering_call P) (PrepareRegisteredService sc ms data ns)
    (λ r, ∀ p, r = Ok p → registrable P p.1).
Proof.
  intros HP (Hhc & Hid & _) Hms. unfold PrepareRegisteredService.
  apply (typed_bind _ _ _ (λ r, ∀ p, r = Ok p → non_nil p.1 ∨ ms = [])).
  - apply typed_and.
    + apply (typed_weaken _ valid_call); [apply registering_sent|]. apply typed_reads.
      apply reads_ReadKey in Hms. unfold reads_only, LookupServiceEndpointDescriptor, lookup_mapping. calls.
      rewrite Forall_forall in Hms. by apply Hms.
    + eapply wp_mono; [apply wp_looked_up_non_nil|]. intros t out Hout r -> p ->. by apply Hout.
  - intros r Hr. typed_walk; try done; [by left|]. intros p [= <-].
    split_and!; [done|done|]. destruct (Hr _ eq_refl) as [?| ->]; [by left|right].
    by eapply HP, mapless_mapping.
Qed.

Lemma typed_updateRegisteredService (P : Prop) cl rs secret :
  registrable P rs → typed (registering_call P) (updateRegisteredService cl rs secret) (λ _, True).
Proof.
  intros Hrs. unfold updateRegisteredService, write_descriptor. typed_walk.
  typed_create (registering_sent P).
  { intros x _. split; right; by apply at_kind_same. }
  typed_walk; [|done].
  typed_create (registering_sent P); [intros x _; typed_walk; split; by left|]. by typed_walk.
Qed.

Lemma typed_deleteRegisteredService cl rs secret :
  typed valid_call (deleteRegisteredService cl rs secret) (λ _, True).
Proof. unfold deleteRegisteredService. by typed_walk. Qed.

Lemma typed_getTargetClient strategy ns : typed valid_call (getTargetClient strategy ns) (λ _, True).
Proof. unfold getTargetClient, GetPrimazaKubeconfig. by typed_walk. Qed.

Section Registering.
Context (P : Prop).

Section Handled.
Context (h : Client → RegisteredService → option Secret → M (list (option gerr))).
Context (Hh : ∀ cl rs secret, registrable P rs → typed (registering_call P) (h cl rs secret) (λ _, True)).

Lemma typed_handle_services sc cl tns items errs :
  (mapless sc → P) → valid_spec (k := KServiceClass) sc →
  typed (registering_call P) (handle_services sc cl tns h items errs) (λ _, True).
Proof.
  intros HP Hs. revert errs. induction items as [|data items IH]; intros errs; cbn [handle_services]; [by apply typed_ret|].
  destruct (ServiceEndpointDefinitionMapping _ _ _) as [ms|e] eqn:Hms; [|by apply typed_ret].
  typed_by (typed_PrepareRegisteredService P Manager data); [done..|]. intros [[rs secret]|e] Hrs; [|apply IH].
  typed_by Hh; [by apply (Hrs _ eq_refl)|]. intros ? _. apply IH.
Qed.

(** The class it returns carries the condition of the connection. *)
Lemma typed_HandleRegisteredServices strategy sc services :
  (mapless sc → P) → valid_object (k := KServiceClass) sc →
  typed (registering_call P) (HandleRegisteredServices strategy sc services h)
    (λ p, valid_object (k := KServiceClass) p.1).
Proof.
  intros HP [Hs Hcs]. unfold HandleRegisteredServices.
  typed_lift (registering_sent P) typed_getTargetClient. intros ? _. typed_walk; [|done].
  typed_lift (registering_sent P) typed_TestConnection. intros status [Hst Hr].
  typed_by (typed_SetStatusCondition _ (registering_sent P)); [done| |].
  { split; [by apply (bool_decide_unpack _)| |done|by apply given_reasons_valid].
    cbn. repeat case_bool_decide; set_solver. }
  intros cs [Hcs' _]. typed_walk; try done; [by left|].
  typed_by typed_handle_services; [done..|]. intros ? _. by typed_walk.
Qed.
End Handled.
End Registering.

Lemma mapless_AddFinalizer (sc sc' : ServiceClass) f b :
  AddFinalizer (k := KServiceClass) sc f = (sc', b) → mapless sc' → mapless sc.
Proof. unfold AddFinalizer. by case_bool_decide; intros [= <- <-]. Qed.

Lemma typed_reconcile_services strategy running sc controller services :
  (mapless sc → unmapped) → valid_object (k := KServiceClass) sc →
  typed (registering_call unmapped) (reconcile_services strategy running sc controller services) (λ _, True).
Proof.
  assert (Hw : ∀ sc errs (running : gset string), valid_object (k := KServiceClass) sc →
    typed (registering_call unmapped) (err ← write_status sc errs; mret (running, err)) (λ _, True)).
  { intros sc' errs ? [_ Hcs]. unfold write_status. typed_walk; try done; by left. }
  assert (Hup : ∀ sc, (mapless sc → unmapped) → valid_object (k := KServiceClass) sc →
    typed (registering_call unmapped)
    ('(sc, err) ← HandleRegisteredServices strategy sc services updateRegisteredService;
     err ← write_status sc [err]; mret (running, err)) (λ _, True)).
  { intros sc' Hm' Ho'.
    typed_by typed_HandleRegisteredServices; [exact (typed_updateRegisteredService _)|done..|].
    intros [sc2 err2] Ho2. by apply Hw. }
  intros Hm Ho. unfold reconcile_services. typed_walk; try done; eauto with primaza.
  1: left; apply valid_call_update; [eauto with primaza|done].
  { apply Hup; [|eauto with primaza]. intros. eapply Hm, mapless_AddFinalizer; eauto. }
  1: by left.
  all: typed_by typed_HandleRegisteredServices;
    [intros; eapply typed_weaken; [exact (registering_sent _)|apply typed_deleteRegisteredService]|done..|].
  all: intros [sc2 err2] Ho2; simpl in Ho2; typed_walk; eauto with primaza; try done.
  all: left; apply valid_call_update; [eauto with primaza|done].
Qed.

Lemma typed_svc_Reconcile strategy running req :
  typed (registering_call unmapped) (SvcAgent.Reconcile strategy running req) (λ _, True).
Proof.
  unfold SvcAgent.Reconcile, setOwnerReference. typed_walk; try done; [by left|].
  typed_lift (registering_sent unmapped) typed_own_deployment. intros ? _. typed_walk; try done.
  { left. apply valid_call_update; [eauto with primaza|done]. }
  all: unfold SetWatchersForResources, RunInformer; apply (typed_bind _ _ _ (λ _, True));
    [typed_walk; try done; by left|].
  all: intros ? _; unfold GetResources; typed_walk; try done; try by left.
  all: by apply typed_reconcile_services.
Qed.

(** The handlers of the service agent's informers. *)
Lemma typed_handle_AddFunc synced strategy sc obj :
  valid_object (k := KServiceClass) sc →
  typed (registering_call (mapless sc)) (handle_AddFunc synced strategy sc obj) (λ _, True).
Proof.
  intros [Hs _]. unfold handle_AddFunc, CreateOrUpdateRegisteredService. typed_walk; try done.
  typed_lift (registering_sent (mapless sc)) typed_getTargetClient. intros ? _. typed_walk; try done; [by left|].
  typed_by (typed_PrepareRegisteredService (mapless sc) Manager u); [done..|]. intros prepared Hrs. typed_walk; try done.
  typed_by typed_updateRegisteredService; [by apply (Hrs _ eq_refl)|]. intros ? _. by typed_walk.
Qed.
Lemma typed_handle_DeleteFunc synced strategy sc obj :
  typed valid_call (handle_DeleteFunc synced strategy sc obj) (λ _, True).
Proof.
  unfold handle_DeleteFunc, DeleteRegisteredService. typed_walk; try done.
  typed_by typed_getTargetClient. intros ? _. by typed_walk.
Qed.
End Agents.

(** ** Service bindings *)

Section Bindings.
Context `{ContainerLib} {K : KnownClaims}.

(** The binding reports that binding failed. *)
Definition reports_failure (sb : ServiceBinding) : Prop :=
  ∃ c, FindStatusCondition (sbst_Conditions (sb_Status sb)) ServiceBindingBoundCondition = Some c ∧
       c_Reason c = conditionBindingFailure.

(** The space in the reason is not in the pattern of a reason. *)
Lemma failure_reason_invalid : ¬ valid_reason conditionBindingFailure.
Proof. apply (bool_decide_unpack _). vm_compute. exact I. Qed.

Lemma reports_failure_invalid (sb : ServiceBinding) :
  reports_failure sb → ¬ valid_status (k := KServiceBinding) sb.
Proof.
  intros (c & [Hin _]%find_first_elem & Hr) [_ Hall]. rewrite Forall_forall in Hall.
  apply failure_reason_invalid. rewrite <- Hr. apply Hall, Hin.
Qed.

(** A valid call, or the status update that reports a failed binding. *)
Definition binding_call (c : Call) : Prop :=
  valid_call c ∨
  match c with CStatusUpdate cl k o => cl = Manager ∧ at_kind KServiceBinding reports_failure k o | _ => False end.

Definition bsent : ∀ c, valid_call c → binding_call c := λ c Hc, or_introl Hc.
Ltac bplainly := apply (typed_plain binding_call bsent); calls; done.

Lemma typed_updateServiceBindingStatus sb c state :
  valid_object (k := KServiceBinding) sb → sound_condition c →
  state ∈ [ServiceBindingStateReady; ServiceBindingStateMalformed] →
  typed binding_call (updateServiceBindingStatus sb c state) (λ _, True).
Proof.
  intros [_ Hcs] Hc Hst. unfold updateServiceBindingStatus.
  typed_by (typed_SetStatusCondition binding_call bsent); [done..|]. intros cs [Hcs' _].
  typed_walk; [|done]. left. split; [cbn; set_solver|done].
Qed.

(** The failure is reported, with whatever conditions there were. *)
Lemma typed_report_failure sb now message state :
  typed binding_call (updateServiceBindingStatus sb
    (bound_condition now ConditionFalse conditionBindingFailure message) state) (λ _, True).
Proof.
  unfold updateServiceBindingStatus.
  eapply (typed_bind _ _ _ (λ cs, ∃ c, FindStatusCondition cs ServiceBindingBoundCondition = Some c ∧
    c_Reason c = conditionBindingFailure)).
  - eapply wp_mono; [apply wp_SetStatusCondition|]. intros t out (Ht & cs & -> & Hcs). split.
    + apply justified_all. eapply Forall_impl; [exact Ht|]. intros ev Hev t1 _. rewrite Hev. by left.
    + intros ? [= <-] _. destruct Hcs as [(c & Hf & _ & Hr & _) _ _ _]. eauto.
  - intros cs Hcs. typed_walk; [|done]. right. split; [done|]. by apply at_kind_same.
Qed.

Lemma typed_unbindApplications sb apps : typed binding_call (unbindApplications sb apps) (λ _, True).
Proof.
  apply (typed_plain binding_call bsent). eapply only_calls_mono; [apply wp_unbindApplications_calls|].
  by intros [].
Qed.

Lemma typed_GetSecret sb apps :
  valid_object (k := KServiceBinding) sb → typed binding_call (GetSecret sb apps) (λ _, True).
Proof.
  intros Ho. unfold GetSecret. typed_walk; try done; try by left.
  typed_by typed_updateServiceBindingStatus; [done|constant_condition|set_solver|]. intros [sb' err] _.
  typed_walk; [done|]. typed_by typed_unbindApplications. intros ? _. by typed_walk.
Qed.

Lemma typed_PrepareBinding sb psSecret apps :
  valid_object (k := KServiceBinding) sb →
  typed binding_call (PrepareBinding sb psSecret apps) (λ _, True).
Proof.
  intros [Hs Hcs]. unfold PrepareBinding, bindApplications. cbv zeta.
  apply (typed_bind _ _ _ (λ p, valid_object (k := KServiceBinding) p.1)).
  - apply typed_for_each; [done|]. intros app [sb' el] _ [Hs' Hcs']. unfold bind_workload.
    apply (typed_bind _ _ _ (λ _, True)); [|intros; by typed_walk].
    eapply wp_mono; [apply wp_prepareContainerWithMounts|]. intros t out Ht. split; [|done].
    destruct Ht as [[-> _]|(o' & r & -> & _)]; [apply justified_nil|apply justified_one]. intros _. by left.
  - intros [sb' el] Ho'. unfold updateServiceBindingStatusWithBindingResult. typed_walk; [by left|..].
    + typed_by typed_updateServiceBindingStatus; [done|constant_condition|set_solver|].
      intros ? _. by typed_walk.
    + typed_by typed_report_failure. intros ? _. by typed_walk.
Qed.

Lemma typed_binding_Reconcile running req :
  typed binding_call (ServiceBindingCtrl.Reconcile running req) (λ _, True).
Proof.
  unfold ServiceBindingCtrl.Reconcile. typed_walk; try done; try by left.
  - apply (typed_bind _ _ _ (λ _, True)).
    { unfold finalizeServiceBinding, getBoundApplications, lookupWorkload. typed_walk; try done; try by left.
      all: typed_by typed_unbindApplications; intros ? _; by typed_walk. }
    intros ? _. typed_walk; try done. left. eauto with primaza.
  - apply (typed_bind _ _ _ (λ _, True)).
    { unfold ensureInformerIsRunningForServiceBinding, ensureInformerIsRunningForResource. bplainly. }
    intros ? _. typed_walk; [done|].
    assert (Ho : valid_object (k := KServiceBinding)
      (AddFinalizer (k := KServiceBinding) a ServiceBindingFinalizer).1).
    { eapply valid_AddFinalizer; [apply surjective_pairing|done]. }
    apply (typed_bind _ _ _ (λ _, True)); [|intros ? _; by typed_walk]. unfold bind_found.
    apply (typed_bind _ _ _ (λ _, True)).
    { unfold getApplication, lookupWorkload. typed_walk; try done; by left. }
    intros ? _. typed_walk; [|by left|].
    + typed_by typed_GetSecret; [done|]. intros ? _. typed_walk; [|done].
      typed_by typed_PrepareBinding; [done|]. intros [sb' err] _. typed_walk; try done. by left.
    + typed_by typed_updateServiceBindingStatus; [done|constant_condition|set_solver|].
      intros ? _. by typed_walk.
Qed.

(** The handlers of the agent's informers, on the binding they were made for. *)
Lemma typed_prepareAddFunc synced sb obj :
  valid_object (k := KServiceBinding) sb →
  typed binding_call (prepareAddFunc synced sb obj) (λ _, True).
Proof.
  intros Ho. unfold prepareAddFunc. typed_walk; try done.
  typed_by typed_GetSecret; [done|]. intros ? _. typed_walk; try done; [by left|].
  typed_by typed_PrepareBinding; [done|]. intros ? _. by typed_walk.
Qed.

Lemma typed_prepareDeleteFunc synced sb obj :
  typed binding_call (prepareDeleteFunc synced sb obj) (λ _, True).
Proof.
  unfold prepareDeleteFunc. typed_walk; try done; try by left.
  typed_by typed_updateServiceBindingStatus; [done|constant_condition|set_solver|].
  intros ? _. by typed_walk.
Qed.
End Bindings.

(** ** Every entry point *)

(** A claim is copied: as accepted, but for an update at a client [to] of a claim whose
    immutable fields are others than those copied. *)
Definition overwriting (to : Client → Prop) (t : list kevent) (c : Call) : Prop :=
  overwriting_call (K := told t) to c.

(** A service is registered: as accepted, but for a definition that is nil when [P] holds. *)
Definition registering (P : list kevent → Prop) (t : list kevent) (c : Call) : Prop :=
  registering_call (K := told t) (P t) c.

(** Some class that was answered maps nothing. *)
Definition told_mapless (t : list kevent) : Prop := unmapped (KnownClaims := told t).

Section EntryPoints.
Context `{KubeconfigLib} `{ManifestLib} `{LabelLib} `{ConverterLib} `{JsonPathLib} `{ContainerLib}.

(** What the programs run on their own, but for the binding controller: the reconcilers,
    the health monitor and the handlers of informers, the latter on objects the API
    server stored; and what each of them is to satisfy. *)
Inductive entry_point : ∀ A, M A → (list kevent → Call → Prop) → Prop :=
| ep_claim req : entry_point _ (ServiceClaimCtrl.Reconcile req) accepts
| ep_service req : entry_point _ (RegisteredServiceCtrl.Reconcile req) accepts
| ep_class req : entry_point _ (ServiceClassCtrl.Reconcile req) accepts
| ep_catalog req : entry_point _ (ServiceCatalogCtrl.Reconcile req) accepts
| ep_environment r req : entry_point _ (ClusterEnvCtrl.Reconcile r req) accepts
| ep_monitor ns : entry_point _ (MonitorHealth_turn ns) accepts
| ep_svc_add synced ceName ns obj :
    (∀ rs, parseRegisteredService obj = Ok rs → valid_object (k := KRegisteredService) rs) →
    entry_point _ (svc_AddFunc synced ceName ns obj) accepts
| ep_svc_delete synced ns obj : entry_point _ (svc_DeleteFunc synced ns obj) accepts
| ep_app_add synced ce ns obj :
    (∀ sc, parseServiceClaim obj = Ok sc → valid_object (k := KServiceClaim) sc) →
    entry_point _ (app_AddFunc synced ce ns obj) (overwriting (λ cl, cl = Manager))
| ep_app_delete synced ce obj : entry_point _ (app_DeleteFunc synced ce obj) accepts
| ep_agent_claim req :
    entry_point _ (AppAgent.ServiceClaims.Reconcile req) (overwriting (λ cl, cl ≠ Manager))
| ep_agent_catalog req : entry_point _ (AppAgent.Catalogs.Reconcile req) accepts
| ep_app_agent req : entry_point _ (AppAgent.Agent.Reconcile req) accepts
| ep_agent_class strategy running req :
    entry_point _ (SvcAgent.Reconcile strategy running req) (registering told_mapless)
| ep_agent_class_add synced strategy sc obj :
    valid_object (k := KServiceClass) sc →
    entry_point _ (handle_AddFunc synced strategy sc obj) (registering (λ _, mapless sc))
| ep_agent_class_delete synced strategy sc obj :
    entry_point _ (handle_DeleteFunc synced strategy sc obj) accepts
| ep_svc_agent req : entry_point _ (SvcAgent.Agent.Reconcile req) accepts.

(** The entry points of the binding controller. *)
Inductive binding_entry_point : ∀ A, M A → Prop :=
| bep_binding running req : binding_entry_point _ (ServiceBindingCtrl.Reconcile running req)
| bep_add synced sb obj :
    valid_object (k := KServiceBinding) sb → binding_entry_point _ (prepareAddFunc synced sb obj)
| bep_update synced sb past future :
    valid_object (k := KServiceBinding) sb → binding_entry_point _ (prepareUpdateFunc synced sb past future)
| bep_delete synced sb obj : binding_entry_point _ (prepareDeleteFunc synced sb obj).

(** C7: what the API server's validation says to the controllers and agents other than
    the binding controller (whose failed bindings are C9).  As long as the objects that
    the API server answered before satisfy their schemas, every object that is created or
    updated has a specification, and every status written is a status, that the schemas
    accept: states of the enumerations, legal types, statuses, times and reasons of
    conditions, one of name and selector, one kind of target, minutes in range, no null
    for a required array, and for the update of a claim the identity and keys that the
    stored one was answered with.  Two programs are accepted but for one case each: the
    copying of a claim, whose update may meet another claim of the same name with other
    immutable fields, and the registering of services, which have a null definition when
    the class maps nothing. *)
Theorem controllers_well_typed A (p : M A) W : entry_point A p W → well_typed W p.
Proof.
  assert (Hw : ∀ B (q : M B), (∀ K, typed (H := K) (valid_call (H := K)) q (λ _, True)) → well_typed accepts q).
  { intros B q Hq. exact (typed_well_typed (λ K, valid_call (H := K)) q _ Hq). }
  destruct 1.
  - apply Hw. intros K. apply typed_claim_Reconcile.
  - apply Hw. intros K. apply typed_service_Reconcile.
  - apply Hw. intros K. apply typed_class_Reconcile.
  - apply Hw. intros K. apply typed_catalog_Reconcile.
  - apply Hw. intros K. apply typed_environment_Reconcile.
  - apply Hw. intros K. apply typed_MonitorHealth_turn.
  - apply Hw. intros K. by apply typed_svc_AddFunc.
  - apply Hw. intros K. apply typed_svc_DeleteFunc.
  - apply (typed_well_typed (λ K, overwriting_call (K := K) (λ cl, cl = Manager)) _ (λ _, True)).
    intros K. by apply typed_app_AddFunc.
  - apply Hw. intros K. apply typed_app_DeleteFunc.
  - apply (typed_well_typed (λ K, overwriting_call (K := K) (λ cl, cl ≠ Manager)) _ (λ _, True)).
    intros K. apply typed_agent_claim_Reconcile.
  - apply Hw. intros K. apply typed_agent_catalog_Reconcile.
  - apply Hw. intros K. apply typed_app_agent_Reconcile.
  - apply (typed_well_typed (λ K, registering_call (K := K) (unmapped (KnownClaims := K))) _ (λ _, True)).
    intros K. apply typed_svc_Reconcile.
  - apply (typed_well_typed (λ K, registering_call (K := K) (mapless sc)) _ (λ _, True)).
    intros K. by apply typed_handle_AddFunc.
  - apply Hw. intros K. apply typed_handle_DeleteFunc.
  - apply Hw. intros K. apply typed_svc_agent_Reconcile.
Qed.

(** The binding controller is well typed but for one status: the one that reports a
    failed binding, which never satisfies the schema. *)
Lemma binding_controller_typed A (p : M A) :
  binding_entry_point A p →
  well_typed (λ t, binding_call (K := told t)) p ∧
  ∀ sb, reports_failure sb → ¬ valid_status (k := KServiceBinding) sb.
Proof.
  intros Hp. split; [|apply reports_failure_invalid].
  apply (typed_well_typed (λ K, binding_call (K := K)) _ (λ _, True)). intros K. destruct Hp.
  - apply typed_binding_Reconcile.
  - by apply typed_prepareAddFunc.
  - by apply typed_prepareAddFunc.
  - apply typed_prepareDeleteFunc.
Qed.
End EntryPoints.

(** ** An API server that enforces the schemas *)

(** What it accepts satisfies the schema. *)
Definition admitted (ev : kevent) : Prop :=
  match ev with
  | existT c r =>
      match c return Answer c → Prop with
      | CCreate _ k o | CUpdate _ k o => λ r, match r with Ok _ => valid_spec o | Err _ => True end
      | CStatusUpdate _ k o => λ r, match r with Ok _ => valid_status o | Err _ => True end
      | _ => λ _, True
      end r
  end.

(** A status of a service binding that is published. *)
Definition published (ev : kevent) : Prop :=
  on_StatusUpdate KServiceBinding (λ _ _ r, ∃ o, r = Ok o) ev.

Section Admission.
Context `{ContainerLib}.

Lemma unpublished_none (t : list kevent) :
  Forall (λ ev : kevent, unpublished (projT1 ev)) t → Forall (λ ev, ¬ published ev) t.
Proof. intros Ht. eapply Forall_impl; [exact Ht|]. intros [c r] Hc. destruct c; try done; intros []. Qed.

(** The report of a failure, when illegal statuses are refused. *)
Lemma wp_report_refused sb now message state :
  kwp (updateServiceBindingStatus sb
         (bound_condition now ConditionFalse conditionBindingFailure message) state) (λ t out,
    Forall admitted t → Forall (λ ev, ¬ published ev) t ∧
    ∃ sb' e t1, out = Done (sb', Some e) ∧ reports_failure sb' ∧
      t = t1 ++ [KEv (CStatusUpdate Manager KServiceBinding sb') (Err e)]).
Proof.
  unfold updateServiceBindingStatus.
  eapply (wp_bind_spec legal); [apply wp_SetStatusCondition| |by intros t h (_ & ? & [=] & _)].
  intros t cs (Ht & ? & [= <-] & [(c & Hf & _ & Hr & _) _ _ _]). wcall r Hr'. wflow.
  set (sb' := sb_set_Status sb _). assert (Hbad : reports_failure sb') by (by exists c).
  intros [_ [Hadm _]%Forall_cons]%Forall_app. apply now_unpublished, unpublished_none in Ht.
  destruct r as [o|e]; [by destruct (reports_failure_invalid _ Hbad)|]. split.
  - apply Forall_app. split; [done|]. repeat constructor. intros (o & Ho). discriminate Ho.
  - by exists sb', e, t.
Qed.

(** C9: a failed binding is never published.  When some workload of those to bind could
    not be rewritten and updated, the status that the controller then writes has the
    reason "Binding Failure", which is not a legal one: an API server that enforces the
    schemas refuses it, no status is published, and the run returns that refusal instead
    of the errors of the workloads. *)
Theorem failed_binding_unpublished sb psSecret apps :
  kwp (PrepareBinding sb psSecret apps) (λ t out,
    Forall admitted t →
    ¬ (∀ app, app ∈ apps → updated_in sb psSecret app t) →
    Forall (λ ev, ¬ published ev) t ∧
    ∀ sb' err, out = Done (sb', err) →
      ∃ e t1, err = Some e ∧ reports_failure sb' ∧
        t = t1 ++ [KEv (CStatusUpdate Manager KServiceBinding sb') (Err e)]).
Proof.
  unfold PrepareBinding, bindApplications.
  eapply (wp_bind_spec legal); [apply wp_bind_loop| |].
  2: { intros t h [Ht _] _ _. split; [|done]. eapply Forall_impl; [exact Ht|].
       intros [c r] Hc. destruct c; try done; intros []. }
  intros t [sb1 el] [Ht Hloop]. destruct (Hloop sb1 el eq_refl) as (_ & _ & _ & Hall). clear Hloop.
  apply workload_update_unpublished, unpublished_none in Ht.
  unfold updateServiceBindingStatusWithBindingResult. wcall now Hnow. cbv beta.
  destruct el as [|e el].
  { intros t' out _ _ Hnot. destruct Hnot. intros app Hin. apply (updated_in_app _ _ _ _ [] _), Hall; done. }
  clear Hall. eapply (wp_bind_spec legal); [apply wp_report_refused| |].
  - intros t' [sb2 err] Ht'. destruct err as [err|]; wflow; rewrite !app_nil_r;
      intros [_ [_ Hadm]%Forall_cons]%Forall_app _;
      destruct (Ht' Hadm) as (Hnp & sb' & e' & t1 & [=] & Hbad & ->); subst.
    split.
    + apply Forall_app. split; [done|]. by constructor; [intros []|].
    + intros ? ? [= <- <-]. exists e', (t ++ KEv CNow now :: t1). by rewrite <- app_assoc.
  - intros t' h Ht' [_ [_ Hadm]%Forall_cons]%Forall_app _.
    by destruct (Ht' Hadm) as (_ & ? & ? & ? & [=] & _).
Qed.
End Admission.

(** ** Examples *)

Module Example.

#[local] Instance kubeconfig : KubeconfigLib :=
  {| RESTConfigFromKubeConfig := λ data, Ok {| cfg_Host := data; cfg_Rest := "" |} |}.
#[local] Instance manifests : ManifestLib :=
  {| yaml_Deployment := λ _, Err (ENew "not a deployment");
     yaml_ConfigMap := λ _, Err (ENew "not a config map") |}.
#[local] Instance labels : LabelLib := {| NewRequirement_err := λ _ _, None |}.
#[local] Instance converter : ConverterLib :=
  {| FromUnstructured_RegisteredService := λ _, Err (ENew "not a registered service");
     FromUnstructured_ServiceClaim := λ _, Err (ENew "not a service claim") |}.
#[local] Instance jsonpath : JsonPathLib :=
  {| JSONPath := (); jsonpath_Parse := λ _, Ok tt; FindResults := λ _ _, Ok [] |}.

Definition a_class : ServiceClass :=
  {| scl_meta := named "psql" "services";
     scl_Spec := {| scls_Constraints := None;
       scls_HealthCheck := Some {| hc_Container := {| hcc_Image := "client"; hcc_Command := Slice [];
                                                      hcc_Minutes := 5 |} |};
       scls_Resource := {| scr_APIVersion := "v1"; scr_Kind := "Database";
         scr_ServiceEndpointDefinitionMappings :=
           {| sedm_ResourceFields := []; sedm_SecretRefFields := [] |} |};
       scls_ServiceClassIdentity := Slice [] |};
     scl_Status := {| sclst_Conditions := [] |} |}.
Lemma a_class_valid : valid_object (k := KServiceClass) a_class.
Proof. split; [apply (bool_decide_unpack _); vm_compute; exact I|constructor]. Qed.

(** The handler of the service agent, on a resource seen by its informer; the claim
    controller, on a request. *)
Lemma controllers_well_typed_witness :
  well_typed (registering (λ _, mapless a_class)) (handle_AddFunc true "Pull" a_class (Unstructured one_label)) ∧
  well_typed accepts (ServiceClaimCtrl.Reconcile {| nn_Namespace := "primaza"; nn_Name := "db" |}).
Proof.
  split; apply controllers_well_typed; [apply ep_agent_class_add, a_class_valid|apply ep_claim].
Defined.

(** A service agent next to an API server that has no registered service yet. *)
Definition absent : gerr := EStatus "NotFound" 404 "not found".
Definition agent_answer (c : Call) : Answer c :=
  match c return Answer c with
  | CGet _ _ _ => Err absent
  | CInClusterConfig => Ok {| cfg_Host := "https://worker"; cfg_Rest := "" |}
  | c' => ClusterEnvCtrl.Unreachable.answer c'
  end.

(** The registered services that are created. *)
Definition created (t : list kevent) : list RegisteredService :=
  omap (λ ev, match projT1 ev with
              | CCreate _ k o => match k return kobj k → option RegisteredService with
                                 | KRegisteredService => Some | _ => λ _, None end o
              | _ => None
              end) t.

(** The class above maps nothing: the service that is registered for it has a null
    definition, which the schema refuses. *)
Lemma null_definition_sent : ∃ rs,
  created (run_trace (λ c (w : ()), (agent_answer c, w))
    (handle_AddFunc true "Pull" a_class (Unstructured one_label)) ()) = [rs] ∧
  rss_ServiceEndpointDefinition (rs_Spec rs) = NilSlice ∧ ¬ valid_spec (k := KRegisteredService) rs.
Proof. eexists. split; [vm_compute; reflexivity|]. split; [done|]. by intros (_ & _ & []). Qed.

(** A workload whose pod template is not an object cannot be bound; the status that
    says so is refused. *)
Definition refused : gerr := EStatus "Invalid" 422 "status.conditions[0].reason: Invalid value".
Definition broken : json := JObj [("metadata", JObj [("name", JStr "app")]); ("spec", JStr "none")].
Definition binding : ServiceBinding := any_app two_labels.
Definition secret : Secret := {| sec_meta := named "secret" "apps"; sec_Data := ∅; sec_StringData := ∅ |}.

(** An API server that accepts what the schemas allow. *)
Definition answer (c : Call) : Answer c :=
  match c return Answer c with
  | CStatusUpdate cl k o => if decide (valid_status o) then Ok o else Err refused
  | c' => ClusterEnvCtrl.Unreachable.answer c'
  end.

#[local] Existing Instance Workload.Example.example_lib.

Definition failed_run : list kevent * outcome (ServiceBinding * option gerr) * () :=
  run (λ c (w : ()), (answer c, w)) (PrepareBinding binding secret [broken]) ().

(** The run ends with a refused status update and its error. *)
Lemma failed_binding_refused :
  ∃ sb', failed_run.1.2 = Done (sb', Some refused) ∧ sbst_State (sb_Status sb') = ServiceBindingStateMalformed ∧
    last failed_run.1.1 = Some (KEv (CStatusUpdate Manager KServiceBinding sb') (Err refused)).
Proof. eexists. split; [vm_compute; reflexivity|]. split; vm_compute; reflexivity. Qed.
End Example.
