(* ===== verification/Commands.v ===== *)
(** * The commands

    cmd/primaza/main.go, cmd/agents/app/main.go and cmd/agents/svc/main.go: what a
    program takes from its environment, and the order in which it sets up its manager
    and controllers; and the strategies of api/v1alpha1/clusterenvironment_types.go.
    controller-runtime's manager is the surroundings: each use of it is one call
    [CSetup], with the namespace it watches or the interval it is given.  The command
    line flags and the logger are left out. *)

From S2P Require Import Prelude Prog GoErr GoStr Types Kube.

#[local] Open Scope string_scope.
#[local] Open Scope list_scope.
#[local] Open Scope primaza_scope.

(** ** The environment *)

(** [os.Getenv]: [""] when the variable is not set. *)
Definition Getenv (name : string) : M string :=
  v ← api (CGetenv name);
  mret (default "" v).

Definition getRequiredEnv (env : string) : M (result string) :=
  ns ← Getenv env;
  if ⟪ ns = "" ⟫ then mret (Err (ENew ("environment variable " +++ env +++ " not found")))
  else mret (Ok ns).

Definition EnvWatchNamespace : string := "WATCH_NAMESPACE".
Definition EnvSynchronizationStrategy : string := "SYNCHRONIZATION_STRATEGY".

(** The same in the two agents: the text returned with the error is [""]. *)
Definition getWatchNamespaceFromEnv : M (string * option gerr) :=
  ns ← Getenv EnvWatchNamespace;
  if ⟪ ns = "" ⟫ then
    mret ("", Some (ENew ("environment variable " +++ EnvWatchNamespace +++ " not found")))
  else mret (ns, None).

Definition synchronizationStrategies : gmap string string :=
  {[ SynchronizationStrategyPull := SynchronizationStrategyPull;
     SynchronizationStrategyPush := SynchronizationStrategyPush ]}.

Definition ParseSynchronizationStrategy (s : string) : result string :=
  match synchronizationStrategies !! s with
  | Some p => Ok p
  | None => Err (ENew ("cannot parse '" +++ s +++ "' as SynchronizationStrategy"))
  end.

Definition getSynchronizationStrategyFromEnv : M (result string) :=
  s ← api (CGetenv EnvSynchronizationStrategy);
  match s with
  | None =>
      mret (Err (ENew ("synchronization strategy environment variable is not defined: "
                       +++ EnvSynchronizationStrategy)))
  | Some s => mret (ParseSynchronizationStrategy s)
  end.

(** ** Setting up *)

(** [if err := ...; err != nil { setupLog.Error(...); os.Exit(1) }] *)
Definition setup (what key : string) : M () :=
  err ← api (CSetup what key);
  match err with
  | Some _ => Halt (OsExit 1)
  | None => mret ()
  end.

(** [ctrl.GetConfigOrDie()] and [ctrl.NewManager] for a namespace *)
Definition new_manager (ns : string) : M () :=
  _ ← setup "GetConfigOrDie" "";
  setup "NewManager" ns.

(** The health and ready checks, and [mgr.Start], which returns when the program is
    told to stop. *)
Definition add_checks : M () :=
  _ ← setup "AddHealthzCheck" "healthz";
  setup "AddReadyzCheck" "readyz".
Definition start : M () := setup "Start" "".

(** ** The control plane *)

Module ControlPlane.

Definition EnvAppAgentImage : string := "AGENT_APP_IMAGE".
Definition EnvSvcAgentImage : string := "AGENT_SVC_IMAGE".
Definition EnvHealthCheckInterval : string := "HEALTH_CHECK_INTERVAL".
Definition DefaultHealthCheckInterval : Z := 600.
Definition MinimumHealtCheckInterval : Z := 10.
Definition EnvAppAgentManifest : string := "AGENT_APP_MANIFEST".
Definition EnvSvcAgentManifest : string := "AGENT_SVC_MANIFEST".
Definition EnvAppAgentConfigManifest : string := "AGENT_APP_CONFIG_MANIFEST".
Definition EnvSvcAgentConfigManifest : string := "AGENT_SVC_CONFIG_MANIFEST".

Record config := {
  WatchNamespace : string; AppImage : string; SvcImage : string; HealthCheckInterval : Z;
  AppAgentManifest : string; SvcAgentManifest : string;
  AppAgentConfigManifest : string; SvcAgentConfigManifest : string }.

Definition getHealthCheckIntervalFromEnv : M Z :=
  ehci ← Getenv EnvHealthCheckInterval;
  match Atoi ehci with
  | None => mret DefaultHealthCheckInterval
  | Some hci =>
      if ⟪ (hci < MinimumHealtCheckInterval)%Z ⟫ then mret MinimumHealtCheckInterval
      else mret hci
  end.

Definition getConfig : M (result config) :=
  let! ns := getRequiredEnv EnvWatchNamespace ;;
  let! ai := getRequiredEnv EnvAppAgentImage ;;
  let! si := getRequiredEnv EnvSvcAgentImage ;;
  hci ← getHealthCheckIntervalFromEnv;
  let! as_ := getRequiredEnv EnvAppAgentManifest ;;
  let! ss := getRequiredEnv EnvSvcAgentManifest ;;
  let! acm := getRequiredEnv EnvAppAgentConfigManifest ;;
  let! scm := getRequiredEnv EnvSvcAgentConfigManifest ;;
  mret (Ok {| WatchNamespace := ns; AppImage := ai; SvcImage := si; HealthCheckInterval := hci;
              AppAgentManifest := as_; SvcAgentManifest := ss;
              AppAgentConfigManifest := acm; SvcAgentConfigManifest := scm |}).

(** [time.Duration(hci) * time.Second], what [MonitorHealth] sleeps between two turns:
    nanoseconds in an int64. *)
Definition sleep_duration (hci : Z) : Z := to_int64 (hci * 1000000000).

Definition main : M () :=
  cfg ← getConfig;
  match cfg with
  | Err _ => Halt (OsExit 1)
  | Ok cfg =>
      _ ← new_manager (WatchNamespace cfg);
      _ ← setup "Controller" "ClusterEnvironment";
      _ ← setup "Controller" "ServiceClaim";
      _ ← setup "Controller" "ServiceClass";
      _ ← setup "Webhook" "ServiceClass";
      _ ← setup "Controller" "RegisteredService";
      _ ← setup "Controller" "ServiceCatalog";
      _ ← add_checks;
      _ ← setup "MonitorHealth" (sprint_Z (HealthCheckInterval cfg));
      start
  end.
End ControlPlane.

(** ** The agents *)

Module AppAgentCommand.

Definition main : M () :=
  '(ns, _) ← getWatchNamespaceFromEnv;
  s ← getSynchronizationStrategyFromEnv;
  match s with
  | Err _ => Halt (OsExit 1)
  | Ok s =>
      _ ← new_manager ns;
      _ ← setup "Controller" "ServiceBinding";
      _ ← (if ⟪ s = SynchronizationStrategyPush ⟫ then setup "Controller" "ServiceClaim" else mret ());
      _ ← setup "Controller" "ServiceCatalog";
      _ ← setup "Controller" "Agent Service";
      _ ← add_checks;
      start
  end.
End AppAgentCommand.

Module SvcAgentCommand.

Definition main : M () :=
  '(ns, err) ← getWatchNamespaceFromEnv;
  match err with
  | Some _ => Halt (OsExit 1)
  | None =>
      s ← getSynchronizationStrategyFromEnv;
      match s with
      | Err _ => Halt (OsExit 1)
      | Ok s =>
          _ ← new_manager ns;
          _ ← setup "Controller" "ServiceClass";
          _ ← setup "Webhook" "ServiceClass";
          _ ← setup "Controller" "Agent Service";
          _ ← add_checks;
          start
      end
  end.
End SvcAgentCommand.

(** ** Properties *)

(** The namespaces managers are created for, and the controllers set up. *)
Definition manager_of (ev : kevent) : option string :=
  match projT1 ev with
  | CSetup what ns => if ⟪ what = "NewManager" ⟫ then Some ns else None
  | _ => None
  end.
Definition controller_of (ev : kevent) : option string :=
  match projT1 ev with
  | CSetup what name => if ⟪ what = "Controller" ⟫ then Some name else None
  | _ => None
  end.

(** The variable was read and had this value. *)
Definition env_was (name value : string) (t : list kevent) : Prop :=
  KEv (CGetenv name) (Some value) ∈ t.

(** Calls that create no manager, and calls that only read the environment. *)
Definition no_manager (c : Call) : Prop := ∀ r, manager_of (KEv c r) = None.
Definition is_getenv (c : Call) : Prop := match c with CGetenv _ => True | _ => False end.

Lemma no_managers t : Forall (λ ev : kevent, no_manager (projT1 ev)) t → omap manager_of t = [].
Proof.
  induction 1 as [|[c r] t Hev _ IH]; [done|]. cbn [omap list_omap].
  assert (Hn : manager_of (KEv c r) = None) by apply Hev. unfold Ev in Hn. by rewrite Hn.
Qed.

Lemma getenv_no_manager c : is_getenv c → no_manager c.
Proof. by destruct c. Qed.

Lemma only_calls_setup P what key : P (CSetup what key) → only_calls legal P (setup what key).
Proof. intros HP. unfold setup. calls; done. Qed.

Lemma wp_Getenv name : kwp (Getenv name) (λ t out, ∃ v,
  t = [KEv (CGetenv name) v] ∧ out = Done (default "" v)).
Proof. unfold Getenv. wcall v Hv. cbv beta. apply wp_ret. by exists v. Qed.

Lemma wp_getRequiredEnv env : kwp (getRequiredEnv env) (λ t out,
  Forall (λ ev : kevent, is_getenv (projT1 ev)) t ∧
  ∀ ns, out = Done (Ok ns) → ns ≠ "" ∧ env_was env ns t).
Proof.
  unfold getRequiredEnv. eapply (wp_bind_spec legal); [apply wp_Getenv| |by intros t h (v & _ & [=])].
  intros t ns (v & -> & [= ->]). case_bool_decide as Hns; apply wp_ret.
  - split; [by repeat constructor|done].
  - split; [by repeat constructor|]. intros ? [= <-]. split; [done|].
    unfold env_was. destruct v; [|done]. by left.
Qed.

Lemma only_getenv_required env : only_calls legal is_getenv (getRequiredEnv env).
Proof. eapply wp_mono; [apply wp_getRequiredEnv|]. by intros t out [? _]. Qed.

Lemma only_getenv_interval : only_calls legal is_getenv ControlPlane.getHealthCheckIntervalFromEnv.
Proof. unfold ControlPlane.getHealthCheckIntervalFromEnv, Getenv. calls; done. Qed.

(** The configuration names the namespace that was read. *)
Lemma wp_getConfig : kwp ControlPlane.getConfig (λ t out,
  Forall (λ ev : kevent, is_getenv (projT1 ev)) t ∧
  ∀ cfg, out = Done (Ok cfg) → ControlPlane.WatchNamespace cfg ≠ "" ∧
    env_was EnvWatchNamespace (ControlPlane.WatchNamespace cfg) t).
Proof.
  unfold ControlPlane.getConfig.
  eapply (wp_bind_spec legal); [apply wp_getRequiredEnv| |by intros t h [? _]].
  intros t [ns|e] [Ht Hns]; [|by apply wp_ret; rewrite app_nil_r].
  destruct (Hns ns eq_refl) as [Hne Hread].
  match goal with |- wp _ ?p _ =>
    apply (wp_mono legal p (λ t' out, Forall (λ ev : kevent, is_getenv (projT1 ev)) t' ∧
      ∀ cfg, out = Done (Ok cfg) → ControlPlane.WatchNamespace cfg = ns)) end.
  2: { intros t' out [Ht' Hcfg]. split; [by apply Forall_app|]. intros cfg ->%Hcfg.
       split; [done|]. apply elem_of_app. by left. }
  assert (Hstep : ∀ A (p : M A) (f : A → M (result ControlPlane.config)) Q,
    only_calls legal is_getenv p →
    (∀ a, kwp (f a) (λ t out, Forall (λ ev : kevent, is_getenv (projT1 ev)) t ∧ Q out)) →
    (∀ h, Q (Halted h)) →
    kwp (p ≫= f) (λ t out, Forall (λ ev : kevent, is_getenv (projT1 ev)) t ∧ Q out)).
  { intros A p f Q Hp Hf Hh. eapply (wp_bind_spec legal); [exact Hp| |by intros t' h Ht'].
    intros t' a Ht'. eapply wp_mono; [apply Hf|]. intros u out [Hu HQ].
    split; [by apply Forall_app|done]. }
  do 2 (apply Hstep; [apply only_getenv_required| |done]; intros [?|?]; [|by apply wp_ret]).
  apply Hstep; [apply only_getenv_interval| |done]. intros hci.
  do 4 (apply Hstep; [apply only_getenv_required| |done]; intros [?|?]; [|by apply wp_ret]).
  apply wp_ret. split; [constructor|]. by intros cfg [= <-].
Qed.

Lemma wp_managed ns (rest : M ()) :
  only_calls legal no_manager rest →
  kwp (_ ← new_manager ns; rest) (λ t _, omap manager_of t = [] ∨ omap manager_of t = [ns]).
Proof.
  intros Hrest. unfold new_manager, setup. wcall r1 Hr1. cbv beta. destruct r1; wflow; [by left|].
  wcall r2 Hr2. cbv beta. destruct r2; wflow; [by right|].
  eapply wp_mono; [exact Hrest|]. intros t out Ht%no_managers. right.
  cbn [omap list_omap]. by rewrite Ht.
Qed.

(** A manager is created at most once, for a namespace that satisfies [ok]. *)
Definition manages (ok : string → list kevent → Prop) (t : list kevent) : Prop :=
  omap manager_of t = [] ∨ ∃ ns, omap manager_of t = [ns] ∧ ok ns t.

(** The environment is read first, then a manager created from what was read. *)
Lemma wp_reads_then_manages {A} (p : M A) (f : A → M ()) (ok : string → list kevent → Prop)
    (P : A → list kevent → Prop) :
  (∀ ns t t', ok ns t → ok ns (t ++ t')) →
  kwp p (λ t out, Forall (λ ev : kevent, is_getenv (projT1 ev)) t ∧ ∀ a, out = Done a → P a t) →
  (∀ a t, P a t → kwp (f a) (λ t' _,
     omap manager_of t' = [] ∨ ∃ ns, omap manager_of t' = [ns] ∧ ok ns t)) →
  kwp (p ≫= f) (λ t _, manages ok t).
Proof.
  intros Hok Hp Hf.
  assert (Hq : ∀ t, Forall (λ ev : kevent, is_getenv (projT1 ev)) t → omap manager_of t = []).
  { intros t Ht. apply no_managers. eapply Forall_impl; [exact Ht|]. intros ev. apply getenv_no_manager. }
  eapply (wp_bind_spec legal); [exact Hp| |].
  2: { intros t h [Ht _]. left. by apply Hq. }
  intros t a [Ht HP]. eapply wp_mono; [apply (Hf a t); by apply HP|].
  intros t' out. unfold manages. rewrite omap_app, (Hq t Ht).
  intros [Hn|(ns & Hn & Hns)]; [by left|right]. exists ns. split; [done|]. by apply Hok.
Qed.

Lemma env_was_app name v t t' : env_was name v t → env_was name v (t ++ t').
Proof. intros Hin. apply elem_of_app. by left. Qed.

Lemma wp_watch_namespace : kwp getWatchNamespaceFromEnv (λ t out,
  Forall (λ ev : kevent, is_getenv (projT1 ev)) t ∧
  ∀ ns err, out = Done (ns, err) → err = None → ns ≠ "" ∧ env_was EnvWatchNamespace ns t).
Proof.
  unfold getWatchNamespaceFromEnv.
  eapply (wp_bind_spec legal); [apply wp_Getenv| |by intros t h (v & _ & [=])].
  intros t ns (v & -> & [= ->]). case_bool_decide as Hns; apply wp_ret;
    (split; [by repeat constructor|]); intros ? ? [= <- <-]; [done|]. intros _.
  split; [done|]. unfold env_was. destruct v; [|done]. by left.
Qed.

Lemma wp_after_reads {A} (p : M A) (f : A → M ()) (Q : list string → Prop) :
  Q [] → only_calls legal is_getenv p →
  (∀ a, kwp (f a) (λ t _, Q (omap manager_of t))) →
  kwp (p ≫= f) (λ t _, Q (omap manager_of t)).
Proof.
  intros HQ Hp Hf.
  assert (Hm : only_calls legal no_manager p) by (eapply only_calls_mono; [exact Hp|apply getenv_no_manager]).
  eapply (wp_bind_spec legal); [exact Hm| |].
  - intros t a Ht%no_managers. eapply wp_mono; [apply Hf|]. intros t' out.
    by rewrite omap_app, Ht.
  - intros t h Ht%no_managers. by rewrite Ht.
Qed.

Lemma only_getenv_strategy : only_calls legal is_getenv getSynchronizationStrategyFromEnv.
Proof. unfold getSynchronizationStrategyFromEnv. calls; done. Qed.

(** The control plane and the service agent create a manager only when the
    environment names a namespace, and for that namespace; without one they exit. *)
Theorem commands_watch_namespace :
  let watched ns t := ns ≠ "" ∧ env_was EnvWatchNamespace ns t in
  kwp ControlPlane.main (λ t _, manages watched t) ∧
  kwp SvcAgentCommand.main (λ t _, manages watched t).
Proof.
  intros watched.
  assert (Happ : ∀ ns t t', watched ns t → watched ns (t ++ t')).
  { intros ns t t' [? ?]. split; [done|]. by apply env_was_app. }
  assert (Hrest : ∀ ns t (rest : M ()), watched ns t → only_calls legal no_manager rest →
    kwp (_ ← new_manager ns; rest) (λ t' _,
      omap manager_of t' = [] ∨ ∃ ns, omap manager_of t' = [ns] ∧ watched ns t)).
  { intros ns t rest Hw Hrest. eapply wp_mono; [by apply wp_managed|]. intros t' out [?|?]; eauto. }
  split.
  - apply (wp_reads_then_manages _ _ watched
             (λ r t, ∀ cfg, r = Ok cfg → watched (ControlPlane.WatchNamespace cfg) t)); [done|..].
    { eapply wp_mono; [apply wp_getConfig|]. intros t out [Ht Hc].
      split; [done|]. intros a -> cfg ->. by apply Hc. }
    intros [cfg|e] t Hcfg; [|by apply wp_halt; left].
    apply Hrest; [by apply Hcfg|]. unfold add_checks, start. calls; by apply only_calls_setup.
  - apply (wp_reads_then_manages _ _ watched (λ r t, r.2 = None → watched r.1 t)); [done|..].
    { eapply wp_mono; [apply wp_watch_namespace|]. intros t out [Ht Hns]. split; [done|].
      intros [ns err] ->. exact (Hns ns err eq_refl). }
    intros [ns [e|]] t Hns; [by apply wp_halt; left|]. specialize (Hns eq_refl). cbv beta iota.
    apply (wp_after_reads _ _ (λ l, l = [] ∨ ∃ ns, l = [ns] ∧ watched ns t));
      [by left|apply only_getenv_strategy|].
    intros [s|e]; [|by apply wp_halt; left]. apply Hrest; [done|].
    unfold add_checks, start. calls; by apply only_calls_setup.
Qed.

(** The application agent goes on without a namespace: its manager then watches all. *)
Definition no_namespace (c : Call) : Answer c → Prop :=
  match c with
  | CGetenv name => λ v, v = if ⟪ name = EnvSynchronizationStrategy ⟫ then Some "Push" else None
  | CSetup _ _ => λ err, err = None
  | _ => λ _, True
  end.

Lemma app_agent_watches_all :
  wp no_namespace AppAgentCommand.main (λ t out, omap manager_of t = [""] ∧ out = Done ()).
Proof.
  unfold AppAgentCommand.main, getWatchNamespaceFromEnv, getSynchronizationStrategyFromEnv, Getenv,
    new_manager, add_checks, start, setup.
  repeat (apply wp_vis; intros ? ->; cbn). by apply wp_ret.
Qed.

(** C39: the interval of the health checks is an integer of the machine, never below the
    minimum; one written as a decimal number is read back, raised to the minimum, and
    anything else is the default; and up to 9223372036 the monitor sleeps that many
    seconds between two turns. *)
Theorem health_check_interval :
  kwp ControlPlane.getHealthCheckIntervalFromEnv (λ t out, ∃ v hci,
    t = [KEv (CGetenv ControlPlane.EnvHealthCheckInterval) v] ∧ out = Done hci ∧
    (ControlPlane.MinimumHealtCheckInterval ≤ hci < 2 ^ 63)%Z ∧
    (∀ n, v = Some (sprint_Z n) → is_int64 n = true →
       hci = Z.max ControlPlane.MinimumHealtCheckInterval n) ∧
    (Atoi (default "" v) = None → hci = ControlPlane.DefaultHealthCheckInterval) ∧
    (hci ≤ 9223372036 → ControlPlane.sleep_duration hci = hci * 1000000000)%Z).
Proof.
  unfold ControlPlane.getHealthCheckIntervalFromEnv, ControlPlane.MinimumHealtCheckInterval,
    ControlPlane.DefaultHealthCheckInterval, ControlPlane.sleep_duration.
  assert (Hsleep : ∀ hci, (10 ≤ hci)%Z → (hci ≤ 9223372036 → to_int64 (hci * 1000000000) = hci * 1000000000)%Z).
  { intros hci Hmin Hmax. apply to_int64_small, is_int64_spec. lia. }
  eapply (wp_bind_spec legal); [apply wp_Getenv| |by intros t h (v & _ & [=])].
  intros t s (v & -> & [= ->]).
  assert (Hread : ∀ n, v = Some (sprint_Z n) → is_int64 n = true → Atoi (default "" v) = Some n).
  { intros n -> Hn. by apply Atoi_sprint_Z. }
  destruct (Atoi (default "" v)) as [n|] eqn:Hn.
  - assert (Hb := Atoi_int64 _ _ Hn). apply is_int64_spec in Hb.
    assert (Hv : ∀ m, v = Some (sprint_Z m) → is_int64 m = true → m = n).
    { intros m Hm Hi. specialize (Hread m Hm Hi). congruence. }
    case_bool_decide as Hlt; apply wp_ret; exists v; eexists; (do 2 (split; [done|]));
      (split; [lia|]); (split; [intros m Hm Hi; rewrite (Hv m Hm Hi); lia|]);
      (split; [congruence|]); apply Hsleep; lia.
  - apply wp_ret. exists v, 600%Z. do 2 (split; [done|]). split; [lia|].
    split; [intros m Hm Hi; specialize (Hread m Hm Hi); congruence|]. split; [done|]. by apply Hsleep.
Qed.

(** One second more, and the sleep is negative: the monitor does not wait at all. *)
Lemma sleep_overflows : (ControlPlane.sleep_duration 9223372037 < 0)%Z.
Proof. done. Qed.
