(* ===== verification/GoHeap.v ===== *)
(** * Go values in memory

    Elsewhere in this library a Go value is what it contains.  Here it may hold
    references, to the cells of a heap that other values refer to as well: enough to say
    what a deep copy is ([deep_copies]) and to follow the statements that generated copy
    functions are made of.  A map, which only types of other packages contain, is for
    sharing what a slice of its entries is. *)

From S2P Require Import Prelude.

#[local] Open Scope string_scope.
#[local] Open Scope list_scope.

(** ** Types, values, heaps *)

(** Strings, numbers and booleans are [Prim]: they refer to nothing that can change. *)
Inductive ty :=
| Prim
| Struct (fs : list (string * ty))
| Ptr (T : ty)
| Slice (T : ty).

Abbreviation loc := positive.

(** A nil pointer or slice refers to nothing.  A slice is [n] elements of an array from
    an offset on. *)
Inductive val :=
| VPrim (s : string)
| VStruct (fs : gmap string val)
| VPtr (p : option loc)
| VSlice (s : option (loc * nat * nat)).

(** A cell is an array; what [new] makes is an array of one. *)
Abbreviation heap := (gmap loc (list val)).

(** What can be read of a value, all the way down. *)
Inductive tree :=
| Leaf (s : string)
| Node (fs : list (string * tree))
| Nil
| Ref (t : tree)
| Elems (ts : list tree).

Definition elems (h : heap) (l : loc) (o n : nat) : option (list val) :=
  a ← h !! l;
  let vs := take n (drop o a) in
  if decide (length vs = n) then Some vs else None.

(** A value of a type, read from a heap, and the cells it was read from. *)
Fixpoint read (h : heap) (T : ty) (v : val) {struct T} : option (tree * gset loc) :=
  match T, v with
  | Prim, VPrim s => Some (Leaf s, ∅)
  | Struct fs, VStruct vs =>
      rs ← mapM (λ fT : string * ty, match fT with (f, T) =>
        w ← vs !! f; r ← read h T w; Some (f, r) end) fs;
      Some (Node (prod_map id fst <$> rs), ⋃ ((snd ∘ snd) <$> rs))
  | Ptr _, VPtr None => Some (Nil, ∅)
  | Ptr T, VPtr (Some l) =>
      a ← h !! l;
      match a with
      | [w] => r ← read h T w; Some (Ref r.1, {[l]} ∪ r.2)
      | _ => None
      end
  | Slice _, VSlice None => Some (Nil, ∅)
  | Slice T, VSlice (Some (l, o, n)) =>
      vs ← elems h l o n;
      rs ← mapM (read h T) vs;
      Some (Elems (fst <$> rs), {[l]} ∪ ⋃ (snd <$> rs))
  | _, _ => None
  end.

(** Nothing in a value of the type is a reference. *)
Fixpoint flat (T : ty) : bool :=
  match T with
  | Prim => true
  | Struct fs => forallb (λ fT : string * ty, match fT with (_, T) => flat T end) fs
  | Ptr _ | Slice _ => false
  end.

(** ** Statements *)

(** A program that changes the heap; [None] is a panic. *)
Definition H (A : Type) : Type := heap → option (A * heap).
#[export] Instance H_ret : MRet H := λ A a h, Some (a, h).
#[export] Instance H_bind : MBind H := λ A B f p h,
  match p h with Some (a, h') => f a h' | None => None end.

Definition load (l : loc) (i : nat) : H val := λ h,
  a ← h !! l; v ← a !! i; Some (v, h).
Definition store (l : loc) (i : nat) (v : val) : H () := λ h,
  a ← h !! l;
  if decide (i < length a) then Some ((), <[l := <[i := v]> a]> h) else None.

(** A new array; an element is the zero value, which is never read before it is
    written and of which nothing is said. *)
Definition zero : val := VPrim "".
Definition make (n : nat) : H loc := λ h,
  let l := fresh (dom h) in Some (l, <[l := replicate n zero]> h).
Definition new : H loc := make 1.

(** What a copy function computes from the value it is called on. *)
Definition copier : Type := val → H val.

(** The assignment of the value. *)
Definition assigned : copier := λ v, mret v.

(** For a pointer: nil for nil, or else a new value, into which what it points to is
    copied. *)
Definition pointed (C : copier) : copier := λ v,
  match v with
  | VPtr None => mret (VPtr None)
  | VPtr (Some l) =>
      l' ← new;
      w ← load l 0;
      w' ← C w;
      _ ← store l' 0 w';
      mret (VPtr (Some l'))
  | _ => λ _, None
  end.

(** The loop that copies element after element, from the [i]th on. *)
Fixpoint copy_elems (C : copier) (l : loc) (o : nat) (l' : loc) (i k : nat) : H () :=
  match k with
  | O => mret ()
  | S k =>
      w ← load l (o + i);
      w' ← C w;
      _ ← store l' i w';
      copy_elems C l o l' (S i) k
  end.

(** For a slice: nil for nil, or else a new array, into which the elements are copied one
    by one, which for [assigned] is what [copy] does. *)
Definition each (C : copier) : copier := λ v,
  match v with
  | VSlice None => mret (VSlice None)
  | VSlice (Some (l, o, n)) =>
      l' ← make n;
      _ ← copy_elems C l o l' 0 n;
      mret (VSlice (Some (l', 0%nat, n)))
  | _ => λ _, None
  end.

(** A statement on a field; [in] stays as it is. *)
Definition copy_field (vin : gmap string val) (f : string) (C : copier) (out : gmap string val)
    : H (gmap string val) :=
  match vin !! f with
  | Some w => w' ← C w; mret (<[f := w']> out)
  | None => λ _, None
  end.

Fixpoint copy_fields (vin : gmap string val) (ss : list (string * copier)) (out : gmap string val)
    : H (gmap string val) :=
  match ss with
  | [] => mret out
  | (f, C) :: ss => out ← copy_field vin f C out; copy_fields vin ss out
  end.

(** The body of a [DeepCopyInto]: everything is assigned, then the statements follow. *)
Definition copied (ss : list (string * copier)) : copier := λ v,
  match v with
  | VStruct vs => out ← copy_fields vs ss vs; mret (VStruct out)
  | _ => λ _, None
  end.

(** ** What a deep copy is *)

(** Whatever can be read of a value can be read of its copy; no cell of the copy was
    there before, and none that was there has changed. *)
Definition deep_copies (C : copier) (T : ty) : Prop :=
  ∀ h v t D, read h T v = Some (t, D) →
    ∃ v' h' D', C v h = Some (v', h') ∧ h ⊆ h' ∧ read h' T v' = Some (t, D') ∧ D' ## dom h.

(** ** Reading *)

Section TyInd.
Context (P : ty → Prop).
Hypothesis P_prim : P Prim.
Hypothesis P_struct : ∀ fs, Forall (λ fT, P fT.2) fs → P (Struct fs).
Hypothesis P_ptr : ∀ T, P T → P (Ptr T).
Hypothesis P_slice : ∀ T, P T → P (Slice T).

Fixpoint ty_nested_ind (T : ty) : P T :=
  match T with
  | Prim => P_prim
  | Struct fs => P_struct fs
      ((fix go (fs : list (string * ty)) : Forall (λ fT, P fT.2) fs :=
          match fs with
          | [] => Forall_nil_2 _
          | fT :: fs => Forall_cons_2 _ fT fs (ty_nested_ind fT.2) (go fs)
          end) fs)
  | Ptr T => P_ptr T (ty_nested_ind T)
  | Slice T => P_slice T (ty_nested_ind T)
  end.
End TyInd.

(** What is read of a field of a struct. *)
Definition read_field (h : heap) (vs : gmap string val) (fT : string * ty) (r : string * (tree * gset loc)) : Prop :=
  r.1 = fT.1 ∧ ∃ w, vs !! fT.1 = Some w ∧ read h fT.2 w = Some r.2.

Definition fields_tree (rs : list (string * (tree * gset loc))) : tree := Node (prod_map id fst <$> rs).
Definition fields_foot (rs : list (string * (tree * gset loc))) : gset loc := ⋃ ((snd ∘ snd) <$> rs).

Lemma read_struct h fs vs t D :
  read h (Struct fs) (VStruct vs) = Some (t, D) ↔
  ∃ rs, Forall2 (read_field h vs) fs rs ∧ t = fields_tree rs ∧ D = fields_foot rs.
Proof.
  simpl. split.
  - intros (rs & Hrs & [= <- <-])%bind_Some. exists rs. split; [|done].
    apply mapM_Some in Hrs. eapply Forall2_impl; [exact Hrs|].
    intros [f T] r (w & Hw & (x & Hx & [= <-])%bind_Some)%bind_Some. split; [done|]. by exists w.
  - intros (rs & Hrs & -> & ->). apply bind_Some. exists rs. split; [|done]. apply mapM_Some.
    eapply Forall2_impl; [exact Hrs|]. intros [f T] [f' r] [Hf (w & Hw & Hr)]. simpl in *. subst f'.
    apply bind_Some. exists w. split; [done|]. by rewrite Hr.
Qed.

Lemma read_ptr h T l t D :
  read h (Ptr T) (VPtr (Some l)) = Some (t, D) ↔
  ∃ w t' D', h !! l = Some [w] ∧ read h T w = Some (t', D') ∧ t = Ref t' ∧ D = {[l]} ∪ D'.
Proof.
  simpl. split.
  - intros (a & Ha & Hr)%bind_Some. destruct a as [|w [|]]; try done.
    apply bind_Some in Hr as ([t' D'] & Hr & [= <- <-]). by exists w, t', D'.
  - intros (w & t' & D' & -> & Hr & -> & ->). simpl. by rewrite Hr.
Qed.

Lemma read_slice h T l o n t D :
  read h (Slice T) (VSlice (Some (l, o, n))) = Some (t, D) ↔
  ∃ vs rs, elems h l o n = Some vs ∧ Forall2 (λ w r, read h T w = Some r) vs rs ∧
    t = Elems (fst <$> rs) ∧ D = {[l]} ∪ ⋃ (snd <$> rs).
Proof.
  simpl. split.
  - intros (vs & Hvs & (rs & Hrs%mapM_Some & [= <- <-])%bind_Some)%bind_Some. by exists vs, rs.
  - intros (vs & rs & -> & Hrs%mapM_Some & -> & ->). simpl. by rewrite Hrs.
Qed.

Lemma elems_Some h l o n vs :
  elems h l o n = Some vs ↔ ∃ a, h !! l = Some a ∧ vs = take n (drop o a) ∧ length vs = n.
Proof.
  unfold elems. split.
  - intros (a & Ha & Hvs)%bind_Some. case_decide; simplify_eq. by exists a.
  - intros (a & -> & -> & Hn). simpl. by rewrite decide_True.
Qed.

(** The footprint of a field, or of an element, is part of the whole. *)
Lemma foot_field rs r l : r ∈ rs → l ∈ r.2.2 → l ∈ fields_foot rs.
Proof. intros Hr Hl. apply elem_of_union_list. exists r.2.2. split; [|done]. by apply (list_elem_of_fmap_2 (snd ∘ snd)). Qed.
Lemma foot_elem (rs : list (tree * gset loc)) r l : r ∈ rs → l ∈ r.2 → l ∈ ⋃ (snd <$> rs).
Proof. intros Hr Hl. apply elem_of_union_list. exists r.2. split; [|done]. by apply list_elem_of_fmap_2. Qed.

(** What is read depends on the footprint only. *)
Lemma read_frame T h h' v t D :
  read h T v = Some (t, D) → (∀ l, l ∈ D → h' !! l = h !! l) → read h' T v = Some (t, D).
Proof.
  revert v t D. induction T as [|fs IH|T IH|T IH] using ty_nested_ind; intros v t D Hr Hh.
  - by destruct v.
  - destruct v as [|vs| |]; try done. apply read_struct in Hr as (rs & Hrs & -> & ->).
    apply read_struct. exists rs. split; [|done]. apply Forall2_same_length_lookup_2.
    { by eapply Forall2_length. }
    intros i [f T] r Hi Hri. eapply Forall2_lookup_lr in Hrs as [Hf (w & Hw & Hr)]; [|done..].
    split; [done|]. exists w. split; [done|]. rewrite Forall_forall in IH.
    destruct r as [f' [t D]]. eapply (IH (f, T)); [by eapply list_elem_of_lookup_2|done|].
    intros l Hl. apply Hh. eapply foot_field; [by eapply list_elem_of_lookup_2|done].
  - destruct v as [| |[l|]|]; try done. apply read_ptr in Hr as (w & t' & D' & Hl & Hr & -> & ->).
    apply read_ptr. exists w, t', D'. rewrite (Hh l) by set_solver. split; [done|]. split; [|done].
    apply IH; [done|]. intros l' Hl'. apply Hh. set_solver.
  - destruct v as [| | |[[[l o] n]|]]; try done.
    apply read_slice in Hr as (vs & rs & (a & Ha & Hvs)%elems_Some & Hrs & -> & ->).
    apply read_slice. exists vs, rs. split; [apply elems_Some; exists a; by rewrite (Hh l) by set_solver|].
    split; [|done]. apply Forall2_same_length_lookup_2; [by eapply Forall2_length|].
    intros i w [t D] Hi Hri. eapply Forall2_lookup_lr in Hrs as Hr; [|done..].
    apply IH; [exact Hr|]. intros l' Hl'. apply Hh, elem_of_union. right.
    eapply foot_elem; [by eapply list_elem_of_lookup_2|done].
Qed.

Lemma read_dom T h v t D : read h T v = Some (t, D) → D ⊆ dom h.
Proof.
  revert v t D. induction T as [|fs IH|T IH|T IH] using ty_nested_ind; intros v t D Hr.
  - destruct v; try done. injection Hr as <- <-. set_solver.
  - destruct v as [|vs| |]; try done. apply read_struct in Hr as (rs & Hrs & -> & ->).
    intros l (D & (r & -> & Hr)%list_elem_of_fmap & Hl)%elem_of_union_list.
    apply list_elem_of_lookup in Hr as [i Hi]. eapply Forall2_lookup_r in Hrs as ([f T] & HfT & _ & w & Hw & Hr); [|done].
    rewrite Forall_forall in IH. destruct r as [f' [t D]].
    eapply (IH (f, T)); [by eapply list_elem_of_lookup_2|done|done].
  - destruct v as [| |[l|]|]; try done; [|injection Hr as <- <-; set_solver].
    apply read_ptr in Hr as (w & t' & D' & Hl & Hr & -> & ->).
    apply elem_of_dom_2 in Hl. apply IH in Hr. set_solver.
  - destruct v as [| | |[[[l o] n]|]]; try done; [|injection Hr as <- <-; set_solver].
    apply read_slice in Hr as (vs & rs & (a & Ha & Hvs)%elems_Some & Hrs & -> & ->).
    apply elem_of_dom_2 in Ha. intros l' [->%elem_of_singleton|Hl']%elem_of_union; [done|].
    apply elem_of_union_list in Hl' as (D & ([t D'] & -> & Hr)%list_elem_of_fmap & Hl').
    apply list_elem_of_lookup in Hr as [i Hi]. eapply Forall2_lookup_r in Hrs as (w & Hw & Hr); [|done].
    by eapply IH.
Qed.

(** A heap with more cells. *)
Lemma read_more T h h' v t D : h ⊆ h' → read h T v = Some (t, D) → read h' T v = Some (t, D).
Proof.
  intros Hh Hr. eapply read_frame; [exact Hr|]. intros l Hl. apply (read_dom _ _ _ _ _ Hr) in Hl.
  apply elem_of_dom in Hl as [a Ha]. transitivity (Some a); [by eapply lookup_weaken|done].
Qed.

(** A value without references is read from no cell. *)
Lemma read_flat T h v t D : flat T = true → read h T v = Some (t, D) → D = ∅.
Proof.
  revert v t D. induction T as [|fs IH|T IH|T IH] using ty_nested_ind; intros v t D Hf Hr; try done.
  - destruct v; try done. by injection Hr as <- <-.
  - destruct v as [|vs| |]; try done. apply read_struct in Hr as (rs & Hrs & -> & ->).
    apply set_eq. intros l. split; [|set_solver].
    intros (D & (r & -> & Hr)%list_elem_of_fmap & Hl)%elem_of_union_list.
    apply list_elem_of_lookup in Hr as [i Hi]. eapply Forall2_lookup_r in Hrs as ([f T] & HfT & _ & w & Hw & Hr); [|done].
    apply list_elem_of_lookup_2 in HfT. rewrite Forall_forall in IH. destruct r as [f' [t D]].
    simpl in Hf. rewrite forallb_forall in Hf. specialize (Hf (f, T)). simpl in Hf.
    assert (D = ∅) as ->; [|done]. eapply (IH (f, T)); [done| |done]. by apply Hf, list_elem_of_In.
Qed.

(** ** The statements copy deeply *)

Lemma make_new n (h : heap) : ∃ l, make n h = Some (l, <[l := replicate n zero]> h) ∧ h !! l = None.
Proof. exists (fresh (dom h)). split; [done|]. apply not_elem_of_dom, is_fresh. Qed.

Lemma load_Some (h : heap) l i a v : h !! l = Some a → a !! i = Some v → load l i h = Some (v, h).
Proof. intros Ha Hv. unfold load. rewrite Ha. simpl. by rewrite Hv. Qed.

Lemma store_Some (h : heap) l i a v :
  h !! l = Some a → i < length a → store l i v h = Some ((), <[l := <[i := v]> a]> h).
Proof. intros Ha Hi. unfold store. rewrite Ha. simpl. by rewrite decide_True. Qed.

Lemma subseteq_insert_new (h h' : heap) l a : h !! l = None → h ⊆ h' → h ⊆ <[l := a]> h'.
Proof. intros Hl Hh. by apply insert_subseteq_r. Qed.

Lemma read_insert_new T (h : heap) l a v t D : l ∉ D → read h T v = Some (t, D) → read (<[l := a]> h) T v = Some (t, D).
Proof. intros Hl Hr. eapply read_frame; [exact Hr|]. intros l' Hl'. apply lookup_insert_ne. set_solver. Qed.

Lemma dom_mono (h h' : heap) : h ⊆ h' → dom h ⊆ dom h'.
Proof. apply subseteq_dom. Qed.

Lemma assigned_ok T : flat T = true → deep_copies assigned T.
Proof.
  intros Hf h v t D Hr. exists v, h, D. do 2 (split; [done|]). split; [done|].
  rewrite (read_flat T h v t D) by done. set_solver.
Qed.

Lemma pointed_ok C T : deep_copies C T → deep_copies (pointed C) (Ptr T).
Proof.
  intros HC h v t D Hr. destruct v as [| |[l|]|]; try done.
  2: { injection Hr as <- <-. exists (VPtr None), h, ∅. repeat split; [done|set_solver]. }
  apply read_ptr in Hr as (w & t' & D0 & Hl & Hr & -> & ->).
  destruct (make_new 1 h) as (l' & Hnew & Hl').
  set (h1 := <[l' := replicate 1 zero]> h) in *.
  assert (Hh1 : h ⊆ h1) by by apply insert_subseteq.
  destruct (HC h1 w t' D0) as (w' & h2 & D' & HC' & Hh2 & Hr' & HD'); [by eapply read_more|].
  assert (Hl2 : h2 !! l' = Some [zero]) by (eapply lookup_weaken; [apply lookup_insert_eq|done]).
  assert (l' ∉ D') by (intros Hin; by eapply (HD' l' Hin), elem_of_dom_2, lookup_insert_eq).
  exists (VPtr (Some l')), (<[l' := [w']]> h2), ({[l']} ∪ D'). split; [|split; [|split]].
  - unfold pointed, new. unfold mbind, H_bind. rewrite Hnew.
    rewrite (load_Some h1 l 0 [w] w) by (done || by eapply lookup_weaken).
    rewrite HC'. by rewrite (store_Some h2 l' 0 [zero] w') by (done || simpl; lia).
  - apply subseteq_insert_new; [done|by etransitivity].
  - apply read_ptr. exists w', t', D'. split; [apply lookup_insert_eq|]. split; [|done].
    by apply read_insert_new.
  - apply dom_mono in Hh1. apply not_elem_of_dom in Hl'. set_solver.
Qed.

(** The loop over the elements, after the first [i] of them. *)
Lemma copy_elems_ok C T l o l' a h rest rs i hi copies ds :
  deep_copies C T →
  h !! l = Some a → (∀ j w, rest !! j = Some w → a !! (o + (i + j)) = Some w) →
  Forall2 (λ w r, read h T w = Some r) rest rs →
  h ⊆ hi → h !! l' = None → length copies = i → hi !! l' = Some (copies ++ replicate (length rest) zero) →
  Forall2 (λ w d, read hi T w = Some d) copies ds → Forall (λ d, d.2 ## dom h ∪ {[l']}) ds →
  ∃ h' copies' ds', copy_elems C l o l' i (length rest) hi = Some ((), h') ∧ h ⊆ h' ∧
    h' !! l' = Some copies' ∧ length copies' = i + length rest ∧
    Forall2 (λ w d, read h' T w = Some d) copies' ds' ∧ Forall (λ d, d.2 ## dom h ∪ {[l']}) ds' ∧
    ds'.*1 = ds.*1 ++ rs.*1.
Proof.
  intros HC Hl. revert rs i hi copies ds. induction rest as [|w rest IH];
    intros rs i hi copies ds Ha Hrs Hhi Hl' Hlen Hcell Hds HD; simpl.
  { apply Forall2_nil_inv_l in Hrs as ->. exists hi, copies, ds. rewrite app_nil_r in Hcell.
    rewrite !app_nil_r, Nat.add_0_r. done. }
  apply Forall2_cons_inv_l in Hrs as ([t D] & rs' & Hr & Hrs & ->).
  destruct (HC hi w t D) as (w' & h2 & D' & HC' & Hh2 & Hr' & HD'); [by eapply read_more|].
  assert (Hcell2 : h2 !! l' = Some (copies ++ zero :: replicate (length rest) zero)).
  { eapply lookup_weaken; [exact Hcell|done]. }
  assert (Hl2 : l' ∉ D') by (intros Hin; apply (HD' l' Hin), elem_of_dom; by eexists).
  set (h3 := <[l' := <[i := w']> (copies ++ zero :: replicate (length rest) zero)]> h2).
  destruct (IH rs' (S i) h3 (copies ++ [w']) (ds ++ [(t, D')])) as (h' & cs & ds' & Hrun & Hrest).
  - intros j w0 Hj. specialize (Ha (S j) w0 Hj). by rewrite <- Ha; f_equal; lia.
  - done.
  - apply subseteq_insert_new; [done|by etransitivity].
  - done.
  - rewrite length_app, Hlen. simpl. lia.
  - unfold h3. rewrite lookup_insert_eq. f_equal. rewrite <- Hlen.
    rewrite insert_app_r_alt, Nat.sub_diag by lia. simpl. by rewrite <- app_assoc.
  - assert (Hold : ∀ v0 d, d.2 ## dom h ∪ {[l']} → read hi T v0 = Some d → read h3 T v0 = Some d).
    { intros v0 [t0 D0] Hd Hv0. apply read_insert_new; [set_solver|by eapply read_more]. }
    apply Forall2_app; [|by constructor; [apply read_insert_new|]].
    apply Forall2_same_length_lookup_2; [by eapply Forall2_length|]. intros j v0 d Hj Hd.
    apply Hold; [rewrite Forall_lookup in HD; by apply (HD j)|]. by apply (Forall2_lookup_lr _ _ _ _ _ _ Hds Hj Hd).
  - apply Forall_app. split; [done|]. constructor; [|constructor]. simpl.
    apply dom_mono in Hhi. set_solver.
  - exists h', cs, ds'. destruct Hrest as (? & ? & Hl3 & ? & ? & Hds'). split; [|split; [done|split; [done|]]].
    + unfold mbind, H_bind. rewrite (load_Some hi l (o + i) a w);
        [|by eapply lookup_weaken|by rewrite <- (Ha 0 w eq_refl), Nat.add_0_r].
      rewrite HC'. rewrite (store_Some h2 l' i _ w' Hcell2); [exact Hrun|].
      rewrite length_app. simpl. lia.
    + split; [lia|]. split; [done|]. split; [done|]. rewrite Hds', fmap_app, <- app_assoc. done.
Qed.

Lemma each_ok C T : deep_copies C T → deep_copies (each C) (Slice T).
Proof.
  intros HC h v t D Hr. destruct v as [| | |[[[l o] n]|]]; try done.
  2: { injection Hr as <- <-. exists (VSlice None), h, ∅. repeat split; [done|set_solver]. }
  apply read_slice in Hr as (vs & rs & (a & Ha & Hvs & Hn)%elems_Some & Hrs & -> & ->).
  destruct (make_new n h) as (l' & Hnew & Hl').
  destruct (copy_elems_ok C T l o l' a h vs rs 0 (<[l' := replicate n zero]> h) [] [])
    as (h' & cs & ds & Hrun & Hh' & Hcell & Hlen & Hcs & HD & Hts); [done..| | | | | | | | |].
  - intros j w Hj. rewrite Hvs in Hj. apply lookup_take_Some in Hj as [Hj _].
    by rewrite lookup_drop in Hj.
  - done.
  - by apply insert_subseteq.
  - done.
  - done.
  - by rewrite lookup_insert_eq, Hn.
  - constructor.
  - constructor.
  - simpl in Hlen, Hts. exists (VSlice (Some (l', 0%nat, n))), h', ({[l']} ∪ ⋃ ds.*2).
    split; [|split; [done|split]].
    + unfold each, mbind, H_bind. rewrite Hnew. rewrite Hn in Hrun. by rewrite Hrun.
    + apply read_slice. exists cs, ds. split; [|by rewrite Hts].
      apply elems_Some. exists cs. split; [done|]. rewrite drop_0, take_ge by lia. split; [done|lia].
    + apply not_elem_of_dom in Hl'. intros x [->%elem_of_singleton|Hx]%elem_of_union; [done|].
      apply elem_of_union_list in Hx as (D & (d & -> & Hd)%list_elem_of_fmap & Hx).
      rewrite Forall_forall in HD. specialize (HD d Hd). set_solver.
Qed.

(** ** The body of a copy function *)

(** Each statement is for a field, in the order of the fields, and copies its type
    deeply; a field without a statement has no references. *)
Inductive covers : list (string * ty) → list (string * copier) → Prop :=
| covers_nil : covers [] []
| covers_assigned f T fs ss : flat T = true → covers fs ss → covers ((f, T) :: fs) ss
| covers_copied f T C fs ss : deep_copies C T → covers fs ss → covers ((f, T) :: fs) ((f, C) :: ss).

Lemma covers_names fs ss f : covers fs ss → f ∈ ss.*1 → f ∈ fs.*1.
Proof.
  induction 1; rewrite ?fmap_cons; [done|..]; rewrite ?elem_of_cons; naive_solver.
Qed.

(** A value that reads the same and shares no cell with the heap [h]. *)
Definition fresh_copy (h h' : heap) (T : ty) (r : tree * gset loc) (w' : val) : Prop :=
  ∃ D', read h' T w' = Some (r.1, D') ∧ D' ## dom h.

Lemma fresh_copy_more h h1 h2 T r w : h1 ⊆ h2 → fresh_copy h h1 T r w → fresh_copy h h2 T r w.
Proof. intros Hh (D' & Hr & HD). exists D'. split; [by eapply read_more|done]. Qed.

(** After the statements: the fields of the output are fresh copies, and other fields
    are as they were. *)
Lemma copy_fields_ok h vs fs ss rs hi out :
  covers fs ss → NoDup fs.*1 → Forall2 (read_field h vs) fs rs → h ⊆ hi →
  (∀ f, f ∈ fs.*1 → out !! f = vs !! f) →
  ∃ out' h', copy_fields vs ss out hi = Some (out', h') ∧ hi ⊆ h' ∧
    (∀ f, f ∉ fs.*1 → out' !! f = out !! f) ∧
    Forall2 (λ fT r, r.1 = fT.1 ∧ ∃ w', out' !! fT.1 = Some w' ∧ fresh_copy h h' fT.2 r.2 w') fs rs.
Proof.
  intros Hc. revert rs hi out. induction Hc as [|f T fs ss Hf Hc IH|f T C fs ss HC Hc IH];
    intros rs hi out Hnd Hrs Hhi Hout; rewrite ?fmap_cons in *.
  { apply Forall2_nil_inv_l in Hrs as ->. exists out, hi. by repeat split; [..|constructor]. }
  all: apply NoDup_cons in Hnd as [Hfresh Hnd].
  all: apply Forall2_cons_inv_l in Hrs as (r & rs' & [Hrf (w & Hw & Hr)] & Hrs & ->).
  all: destruct r as [f' [t D]]; simpl in Hrf, Hr, Hw; subst f'.
  - destruct (IH rs' hi out Hnd Hrs Hhi) as (out' & h' & Hrun & Hh' & Hkeep & Hall).
    { intros g Hg. apply Hout. by right. }
    exists out', h'. split; [done|]. split; [done|]. split.
    + intros g Hg. apply Hkeep. by intros ?; apply Hg; right.
    + constructor; [|done]. split; [done|]. exists w. split.
      * rewrite Hkeep by done. rewrite Hout by by left. done.
      * exists D. split; [by eapply read_more, Hr; etransitivity|].
        rewrite (read_flat T h w t D) by done. set_solver.
  - destruct (HC hi w t D) as (w' & h2 & D' & HC' & Hh2 & Hr' & HD'); [by eapply read_more|].
    destruct (IH rs' h2 (<[f := w']> out) Hnd Hrs) as (out' & h' & Hrun & Hh' & Hkeep & Hall).
    { by etransitivity. }
    { intros g Hg. rewrite lookup_insert_ne by (intros ->; done). apply Hout. by right. }
    exists out', h'. split; [|split; [by etransitivity|split]].
    + simpl. unfold copy_field, mbind, H_bind. rewrite Hw, HC'. exact Hrun.
    + intros g Hg. rewrite Hkeep by (intros ?; apply Hg; by right).
      apply lookup_insert_ne. intros ->. apply Hg. by left.
    + constructor; [|done]. split; [done|]. exists w'. split; [by rewrite Hkeep, lookup_insert_eq|].
      apply (fresh_copy_more h h2); [done|]. exists D'. split; [done|].
      apply dom_mono in Hhi. set_solver.
Qed.

Lemma copied_ok fs ss : covers fs ss → NoDup fs.*1 → deep_copies (copied ss) (Struct fs).
Proof.
  intros Hc Hnd h v t D Hr. destruct v as [|vs| |]; try done.
  apply read_struct in Hr as (rs & Hrs & -> & ->).
  destruct (copy_fields_ok h vs fs ss rs h vs) as (out & h' & Hrun & Hh' & _ & Hall); [done..|].
  assert (∃ rs', Forall2 (read_field h' out) fs rs' ∧ fields_tree rs' = fields_tree rs ∧
    fields_foot rs' ## dom h) as (rs' & Hrs' & Ht & HD).
  { clear -Hall. induction Hall as [|[f T] [f' [t D]] fs rs [Hf (w' & Hw & D' & Hr & HD)] _ (rs' & Hrs' & Ht & HD')].
    - exists []. split; [constructor|]. split; [done|]. unfold fields_foot. simpl. set_solver.
    - exists ((f', (t, D')) :: rs'). split; [constructor; [|done]; split; [done|by exists w']|].
      unfold fields_tree, fields_foot in *. injection Ht as Ht. split; [by simpl; f_equal; f_equal|]. simpl. set_solver. }
  exists (VStruct out), h', (fields_foot rs'). split.
  - unfold copied, mbind, H_bind. by rewrite Hrun.
  - split; [done|]. split; [|done]. apply read_struct. exists rs'. by rewrite Ht.
Qed.

(** ** Independence *)

(** The value that a pointer points to, and what [DeepCopy] gives for it, have no cell in
    common: what is written in the one is not seen in the other. *)
Lemma pointed_independent C T h p t D :
  deep_copies C T → read h (Ptr T) p = Some (t, D) →
  ∃ p' h' D', pointed C p h = Some (p', h') ∧ D ## D' ∧
    (∀ h2, (∀ l, l ∉ D' → h2 !! l = h' !! l) → read h2 (Ptr T) p = Some (t, D)) ∧
    (∀ h2, (∀ l, l ∉ D → h2 !! l = h' !! l) → read h2 (Ptr T) p' = Some (t, D')).
Proof.
  intros HC Hr. destruct (pointed_ok C T HC h p t D Hr) as (p' & h' & D' & Hrun & Hh' & Hr' & HD').
  assert (HDh : D ⊆ dom h) by by eapply read_dom.
  assert (Hdis : D ## D') by set_solver.
  exists p', h', D'. split; [done|]. split; [done|]. split; intros h2 Hh2.
  - eapply read_frame; [exact (read_more _ _ _ _ _ _ Hh' Hr)|]. intros l Hl. apply Hh2. set_solver.
  - eapply read_frame; [exact Hr'|]. intros l Hl. apply Hh2. set_solver.
Qed.
