(* ===== verification/DeepCopy.v ===== *)
(** * Deep copies of the custom resources

    api/v1alpha1/zz_generated.deepcopy.go, on values that live in a heap ([GoHeap.v]): the
    types of the API group as the source declares them, references included, and for each
    the copy functions that controller-gen wrote.  The types of apimachinery they contain
    are parameters, with their copy functions; that the latter copy deeply is what their
    documentation promises. *)

From S2P Require Import Prelude GoHeap.

#[local] Open Scope string_scope.
#[local] Open Scope list_scope.

(** ** Types of apimachinery *)

Class MetaLib := {
  TypeMeta_type : ty; ListMeta_type : ty; ObjectMeta_type : ty; Condition_type : ty;
  LabelSelector_type : ty; ObjectReference_type : ty;
  ListMeta_DeepCopyInto : copier; ObjectMeta_DeepCopyInto : copier;
  Condition_DeepCopyInto : copier; LabelSelector_DeepCopyInto : copier }.

(** A type meta and an object reference are made of strings; the other types are copied by
    their own functions. *)
Class MetaLibLaws `{MetaLib} := {
  TypeMeta_flat : flat TypeMeta_type = true;
  ObjectReference_flat : flat ObjectReference_type = true;
  ListMeta_copies : deep_copies ListMeta_DeepCopyInto ListMeta_type;
  ObjectMeta_copies : deep_copies ObjectMeta_DeepCopyInto ObjectMeta_type;
  Condition_copies : deep_copies Condition_DeepCopyInto Condition_type;
  LabelSelector_copies : deep_copies LabelSelector_DeepCopyInto LabelSelector_type }.

(** A copy function as the method of the interface [runtime.Object]: the interface is nil
    when the copy is. *)
Definition object_of (C : copier) (p : val) : H (option loc) :=
  c ← C p;
  match c with
  | VPtr (Some l) => mret (Some l)
  | _ => mret None
  end.

Section Generated.
Context `{MetaLib}.

(** ** The types and their copy functions *)

Definition ServiceClassIdentityItem_type : ty := Struct
  [("Name", Prim); ("Value", Prim)].
Definition ServiceClassIdentityItem_DeepCopyInto : copier := copied [].
Definition ServiceClassIdentityItem_DeepCopy : copier := pointed ServiceClassIdentityItem_DeepCopyInto.

Definition ApplicationSelector_type : ty := Struct
  [("APIVersion", Prim); ("Kind", Prim); ("Name", Prim); ("Selector", Ptr LabelSelector_type)].
Definition ApplicationSelector_DeepCopyInto : copier := copied
  [("Selector", pointed LabelSelector_DeepCopyInto)].
Definition ApplicationSelector_DeepCopy : copier := pointed ApplicationSelector_DeepCopyInto.

Definition EnvironmentConstraints_type : ty := Struct
  [("Environments", Slice Prim)].
Definition EnvironmentConstraints_DeepCopyInto : copier := copied [("Environments", each assigned)].
Definition EnvironmentConstraints_DeepCopy : copier := pointed EnvironmentConstraints_DeepCopyInto.

Definition Environment_type : ty := Struct
  [("Name", Prim); ("Key", Prim)].
Definition Environment_DeepCopyInto : copier := copied [].
Definition Environment_DeepCopy : copier := pointed Environment_DeepCopyInto.

Definition HealthCheckContainer_type : ty := Struct
  [("Image", Prim); ("Command", Slice Prim); ("Minutes", Prim)].
Definition HealthCheckContainer_DeepCopyInto : copier := copied [("Command", each assigned)].
Definition HealthCheckContainer_DeepCopy : copier := pointed HealthCheckContainer_DeepCopyInto.

Definition HealthCheck_type : ty := Struct
  [("Container", HealthCheckContainer_type)].
Definition HealthCheck_DeepCopyInto : copier := copied
  [("Container", HealthCheckContainer_DeepCopyInto)].
Definition HealthCheck_DeepCopy : copier := pointed HealthCheck_DeepCopyInto.

Definition ClusterEnvironmentSpec_type : ty := Struct
  [("EnvironmentName", Prim);
   ("ClusterContextSecret", Prim);
   ("Description", Prim);
   ("Labels", Slice Prim);
   ("ApplicationNamespaces", Slice Prim);
   ("ServiceNamespaces", Slice Prim);
   ("ContactInfo", Prim);
   ("SynchronizationStrategy", Prim)].
Definition ClusterEnvironmentSpec_DeepCopyInto : copier := copied
  [("Labels", each assigned);
   ("ApplicationNamespaces", each assigned);
   ("ServiceNamespaces", each assigned)].
Definition ClusterEnvironmentSpec_DeepCopy : copier := pointed ClusterEnvironmentSpec_DeepCopyInto.

Definition ClusterEnvironmentStatus_type : ty := Struct
  [("State", Prim); ("Conditions", Slice Condition_type)].
Definition ClusterEnvironmentStatus_DeepCopyInto : copier := copied
  [("Conditions", each Condition_DeepCopyInto)].
Definition ClusterEnvironmentStatus_DeepCopy : copier := pointed ClusterEnvironmentStatus_DeepCopyInto.

Definition ClusterEnvironment_type : ty := Struct
  [("TypeMeta", TypeMeta_type);
   ("ObjectMeta", ObjectMeta_type);
   ("Spec", ClusterEnvironmentSpec_type);
   ("Status", ClusterEnvironmentStatus_type)].
Definition ClusterEnvironment_DeepCopyInto : copier := copied
  [("TypeMeta", assigned);
   ("ObjectMeta", ObjectMeta_DeepCopyInto);
   ("Spec", ClusterEnvironmentSpec_DeepCopyInto);
   ("Status", ClusterEnvironmentStatus_DeepCopyInto)].
Definition ClusterEnvironment_DeepCopy : copier := pointed ClusterEnvironment_DeepCopyInto.
Definition ClusterEnvironment_DeepCopyObject : val → H (option loc) := object_of ClusterEnvironment_DeepCopy.

Definition ClusterEnvironmentList_type : ty := Struct
  [("TypeMeta", TypeMeta_type);
   ("ListMeta", ListMeta_type);
   ("Items", Slice ClusterEnvironment_type)].
Definition ClusterEnvironmentList_DeepCopyInto : copier := copied
  [("TypeMeta", assigned);
   ("ListMeta", ListMeta_DeepCopyInto);
   ("Items", each ClusterEnvironment_DeepCopyInto)].
Definition ClusterEnvironmentList_DeepCopy : copier := pointed ClusterEnvironmentList_DeepCopyInto.
Definition ClusterEnvironmentList_DeepCopyObject : val → H (option loc) := object_of ClusterEnvironmentList_DeepCopy.

Definition RegisteredServiceConstraints_type : ty := Struct
  [("Environments", Slice Prim)].
Definition RegisteredServiceConstraints_DeepCopyInto : copier := copied
  [("Environments", each assigned)].
Definition RegisteredServiceConstraints_DeepCopy : copier := pointed RegisteredServiceConstraints_DeepCopyInto.

Definition ServiceEndpointDefinitionSecretRef_type : ty := Struct
  [("Name", Prim); ("Key", Prim)].
Definition ServiceEndpointDefinitionSecretRef_DeepCopyInto : copier := copied [].
Definition ServiceEndpointDefinitionSecretRef_DeepCopy : copier := pointed ServiceEndpointDefinitionSecretRef_DeepCopyInto.

Definition ServiceEndpointDefinitionItem_type : ty := Struct
  [("Name", Prim);
   ("Value", Prim);
   ("ValueFromSecret", Ptr ServiceEndpointDefinitionSecretRef_type)].
Definition ServiceEndpointDefinitionItem_DeepCopyInto : copier := copied
  [("ValueFromSecret", pointed assigned)].
Definition ServiceEndpointDefinitionItem_DeepCopy : copier := pointed ServiceEndpointDefinitionItem_DeepCopyInto.

Definition RegisteredServiceSpec_type : ty := Struct
  [("Constraints", Ptr RegisteredServiceConstraints_type);
   ("HealthCheck", Ptr HealthCheck_type);
   ("SLA", Prim);
   ("ServiceClassIdentity", Slice ServiceClassIdentityItem_type);
   ("ServiceEndpointDefinition", Slice ServiceEndpointDefinitionItem_type)].
Definition RegisteredServiceSpec_DeepCopyInto : copier := copied
  [("Constraints", pointed RegisteredServiceConstraints_DeepCopyInto);
   ("HealthCheck", pointed HealthCheck_DeepCopyInto);
   ("ServiceClassIdentity", each assigned);
   ("ServiceEndpointDefinition", each ServiceEndpointDefinitionItem_DeepCopyInto)].
Definition RegisteredServiceSpec_DeepCopy : copier := pointed RegisteredServiceSpec_DeepCopyInto.

Definition RegisteredServiceStatus_type : ty := Struct
  [("State", Prim)].
Definition RegisteredServiceStatus_DeepCopyInto : copier := copied [].
Definition RegisteredServiceStatus_DeepCopy : copier := pointed RegisteredServiceStatus_DeepCopyInto.

Definition RegisteredService_type : ty := Struct
  [("TypeMeta", TypeMeta_type);
   ("ObjectMeta", ObjectMeta_type);
   ("Spec", RegisteredServiceSpec_type);
   ("Status", RegisteredServiceStatus_type)].
Definition RegisteredService_DeepCopyInto : copier := copied
  [("TypeMeta", assigned);
   ("ObjectMeta", ObjectMeta_DeepCopyInto);
   ("Spec", RegisteredServiceSpec_DeepCopyInto);
   ("Status", assigned)].
Definition RegisteredService_DeepCopy : copier := pointed RegisteredService_DeepCopyInto.
Definition RegisteredService_DeepCopyObject : val → H (option loc) := object_of RegisteredService_DeepCopy.

Definition RegisteredServiceList_type : ty := Struct
  [("TypeMeta", TypeMeta_type);
   ("ListMeta", ListMeta_type);
   ("Items", Slice RegisteredService_type)].
Definition RegisteredServiceList_DeepCopyInto : copier := copied
  [("TypeMeta", assigned);
   ("ListMeta", ListMeta_DeepCopyInto);
   ("Items", each RegisteredService_DeepCopyInto)].
Definition RegisteredServiceList_DeepCopy : copier := pointed RegisteredServiceList_DeepCopyInto.
Definition RegisteredServiceList_DeepCopyObject : val → H (option loc) := object_of RegisteredServiceList_DeepCopy.

Definition ServiceBindingSpec_type : ty := Struct
  [("ServiceEndpointDefinitionSecret", Prim);
   ("Application", ApplicationSelector_type);
   ("Envs", Slice Environment_type)].
Definition ServiceBindingSpec_DeepCopyInto : copier := copied
  [("Application", ApplicationSelector_DeepCopyInto); ("Envs", each assigned)].
Definition ServiceBindingSpec_DeepCopy : copier := pointed ServiceBindingSpec_DeepCopyInto.

Definition BoundWorkload_type : ty := Struct
  [("Name", Prim)].
Definition BoundWorkload_DeepCopyInto : copier := copied [].
Definition BoundWorkload_DeepCopy : copier := pointed BoundWorkload_DeepCopyInto.

Definition ServiceBindingStatus_type : ty := Struct
  [("Conditions", Slice Condition_type);
   ("State", Prim);
   ("Connections", Slice BoundWorkload_type)].
Definition ServiceBindingStatus_DeepCopyInto : copier := copied
  [("Conditions", each Condition_DeepCopyInto); ("Connections", each assigned)].
Definition ServiceBindingStatus_DeepCopy : copier := pointed ServiceBindingStatus_DeepCopyInto.

Definition ServiceBinding_type : ty := Struct
  [("TypeMeta", TypeMeta_type);
   ("ObjectMeta", ObjectMeta_type);
   ("Spec", ServiceBindingSpec_type);
   ("Status", ServiceBindingStatus_type)].
Definition ServiceBinding_DeepCopyInto : copier := copied
  [("TypeMeta", assigned);
   ("ObjectMeta", ObjectMeta_DeepCopyInto);
   ("Spec", ServiceBindingSpec_DeepCopyInto);
   ("Status", ServiceBindingStatus_DeepCopyInto)].
Definition ServiceBinding_DeepCopy : copier := pointed ServiceBinding_DeepCopyInto.
Definition ServiceBinding_DeepCopyObject : val → H (option loc) := object_of ServiceBinding_DeepCopy.

Definition ServiceBindingList_type : ty := Struct
  [("TypeMeta", TypeMeta_type); ("ListMeta", ListMeta_type); ("Items", Slice ServiceBinding_type)].
Definition ServiceBindingList_DeepCopyInto : copier := copied
  [("TypeMeta", assigned);
   ("ListMeta", ListMeta_DeepCopyInto);
   ("Items", each ServiceBinding_DeepCopyInto)].
Definition ServiceBindingList_DeepCopy : copier := pointed ServiceBindingList_DeepCopyInto.
Definition ServiceBindingList_DeepCopyObject : val → H (option loc) := object_of ServiceBindingList_DeepCopy.

Definition ServiceCatalogService_type : ty := Struct
  [("Name", Prim);
   ("ServiceClassIdentity", Slice ServiceClassIdentityItem_type);
   ("ServiceEndpointDefinitionKeys", Slice Prim)].
Definition ServiceCatalogService_DeepCopyInto : copier := copied
  [("ServiceClassIdentity", each assigned); ("ServiceEndpointDefinitionKeys", each assigned)].
Definition ServiceCatalogService_DeepCopy : copier := pointed ServiceCatalogService_DeepCopyInto.

Definition ServiceCatalogServiceByLabel_type : ty := Struct
  [("ServiceCatalogService", ServiceCatalogService_type); ("Labels", Ptr LabelSelector_type)].
Definition ServiceCatalogServiceByLabel_DeepCopyInto : copier := copied
  [("ServiceCatalogService", ServiceCatalogService_DeepCopyInto);
   ("Labels", pointed LabelSelector_DeepCopyInto)].
Definition ServiceCatalogServiceByLabel_DeepCopy : copier := pointed ServiceCatalogServiceByLabel_DeepCopyInto.

Definition ServiceCatalogSpec_type : ty := Struct
  [("Services", Slice ServiceCatalogService_type);
   ("ClaimedByLabels", Slice ServiceCatalogServiceByLabel_type)].
Definition ServiceCatalogSpec_DeepCopyInto : copier := copied
  [("Services", each ServiceCatalogService_DeepCopyInto);
   ("ClaimedByLabels", each ServiceCatalogServiceByLabel_DeepCopyInto)].
Definition ServiceCatalogSpec_DeepCopy : copier := pointed ServiceCatalogSpec_DeepCopyInto.

Definition ServiceCatalog_type : ty := Struct
  [("TypeMeta", TypeMeta_type); ("ObjectMeta", ObjectMeta_type); ("Spec", ServiceCatalogSpec_type)].
Definition ServiceCatalog_DeepCopyInto : copier := copied
  [("TypeMeta", assigned);
   ("ObjectMeta", ObjectMeta_DeepCopyInto);
   ("Spec", ServiceCatalogSpec_DeepCopyInto)].
Definition ServiceCatalog_DeepCopy : copier := pointed ServiceCatalog_DeepCopyInto.
Definition ServiceCatalog_DeepCopyObject : val → H (option loc) := object_of ServiceCatalog_DeepCopy.

Definition ServiceCatalogList_type : ty := Struct
  [("TypeMeta", TypeMeta_type); ("ListMeta", ListMeta_type); ("Items", Slice ServiceCatalog_type)].
Definition ServiceCatalogList_DeepCopyInto : copier := copied
  [("TypeMeta", assigned);
   ("ListMeta", ListMeta_DeepCopyInto);
   ("Items", each ServiceCatalog_DeepCopyInto)].
Definition ServiceCatalogList_DeepCopy : copier := pointed ServiceCatalogList_DeepCopyInto.
Definition ServiceCatalogList_DeepCopyObject : val → H (option loc) := object_of ServiceCatalogList_DeepCopy.

Definition ServiceClaimApplicationClusterContext_type : ty := Struct
  [("ClusterEnvironmentName", Prim); ("Namespace", Prim)].
Definition ServiceClaimApplicationClusterContext_DeepCopyInto : copier := copied [].
Definition ServiceClaimApplicationClusterContext_DeepCopy : copier := pointed ServiceClaimApplicationClusterContext_DeepCopyInto.

Definition ServiceClaimTarget_type : ty := Struct
  [("EnvironmentTag", Prim);
   ("ApplicationClusterContext", Ptr ServiceClaimApplicationClusterContext_type)].
Definition ServiceClaimTarget_DeepCopyInto : copier := copied
  [("ApplicationClusterContext", pointed assigned)].
Definition ServiceClaimTarget_DeepCopy : copier := pointed ServiceClaimTarget_DeepCopyInto.

Definition ServiceClaimSpec_type : ty := Struct
  [("ServiceClassIdentity", Slice ServiceClassIdentityItem_type);
   ("ServiceEndpointDefinitionKeys", Slice Prim);
   ("Application", ApplicationSelector_type);
   ("Target", Ptr ServiceClaimTarget_type);
   ("Envs", Slice Environment_type)].
Definition ServiceClaimSpec_DeepCopyInto : copier := copied
  [("ServiceClassIdentity", each assigned);
   ("ServiceEndpointDefinitionKeys", each assigned);
   ("Application", ApplicationSelector_DeepCopyInto);
   ("Target", pointed ServiceClaimTarget_DeepCopyInto);
   ("Envs", each assigned)].
Definition ServiceClaimSpec_DeepCopy : copier := pointed ServiceClaimSpec_DeepCopyInto.

Definition ServiceClaimStatus_type : ty := Struct
  [("State", Prim);
   ("ClaimID", Prim);
   ("RegisteredService", Ptr ObjectReference_type);
   ("Conditions", Slice Condition_type)].
Definition ServiceClaimStatus_DeepCopyInto : copier := copied
  [("RegisteredService", pointed assigned); ("Conditions", each Condition_DeepCopyInto)].
Definition ServiceClaimStatus_DeepCopy : copier := pointed ServiceClaimStatus_DeepCopyInto.

Definition ServiceClaim_type : ty := Struct
  [("TypeMeta", TypeMeta_type);
   ("ObjectMeta", ObjectMeta_type);
   ("Spec", ServiceClaimSpec_type);
   ("Status", ServiceClaimStatus_type)].
Definition ServiceClaim_DeepCopyInto : copier := copied
  [("TypeMeta", assigned);
   ("ObjectMeta", ObjectMeta_DeepCopyInto);
   ("Spec", ServiceClaimSpec_DeepCopyInto);
   ("Status", ServiceClaimStatus_DeepCopyInto)].
Definition ServiceClaim_DeepCopy : copier := pointed ServiceClaim_DeepCopyInto.
Definition ServiceClaim_DeepCopyObject : val → H (option loc) := object_of ServiceClaim_DeepCopy.

Definition ServiceClaimList_type : ty := Struct
  [("TypeMeta", TypeMeta_type); ("ListMeta", ListMeta_type); ("Items", Slice ServiceClaim_type)].
Definition ServiceClaimList_DeepCopyInto : copier := copied
  [("TypeMeta", assigned);
   ("ListMeta", ListMeta_DeepCopyInto);
   ("Items", each ServiceClaim_DeepCopyInto)].
Definition ServiceClaimList_DeepCopy : copier := pointed ServiceClaimList_DeepCopyInto.
Definition ServiceClaimList_DeepCopyObject : val → H (option loc) := object_of ServiceClaimList_DeepCopy.

Definition ServiceClassResourceFieldMapping_type : ty := Struct
  [("Name", Prim); ("JsonPath", Prim); ("Secret", Prim)].
Definition ServiceClassResourceFieldMapping_DeepCopyInto : copier := copied [].
Definition ServiceClassResourceFieldMapping_DeepCopy : copier := pointed ServiceClassResourceFieldMapping_DeepCopyInto.

Definition FieldMapping_type : ty := Struct
  [("Constant", Ptr Prim); ("JsonPathExpr", Ptr Prim)].
Definition FieldMapping_DeepCopyInto : copier := copied
  [("Constant", pointed assigned); ("JsonPathExpr", pointed assigned)].
Definition FieldMapping_DeepCopy : copier := pointed FieldMapping_DeepCopyInto.

Definition ServiceClassSecretRefFieldMapping_type : ty := Struct
  [("Name", Prim); ("SecretName", FieldMapping_type); ("SecretKey", FieldMapping_type)].
Definition ServiceClassSecretRefFieldMapping_DeepCopyInto : copier := copied
  [("SecretName", FieldMapping_DeepCopyInto); ("SecretKey", FieldMapping_DeepCopyInto)].
Definition ServiceClassSecretRefFieldMapping_DeepCopy : copier := pointed ServiceClassSecretRefFieldMapping_DeepCopyInto.

Definition ServiceEndpointDefinitionMappings_type : ty := Struct
  [("ResourceFields", Slice ServiceClassResourceFieldMapping_type);
   ("SecretRefFields", Slice ServiceClassSecretRefFieldMapping_type)].
Definition ServiceEndpointDefinitionMappings_DeepCopyInto : copier := copied
  [("ResourceFields", each assigned);
   ("SecretRefFields", each ServiceClassSecretRefFieldMapping_DeepCopyInto)].
Definition ServiceEndpointDefinitionMappings_DeepCopy : copier := pointed ServiceEndpointDefinitionMappings_DeepCopyInto.

Definition ServiceClassResource_type : ty := Struct
  [("APIVersion", Prim);
   ("Kind", Prim);
   ("ServiceEndpointDefinitionMappings", ServiceEndpointDefinitionMappings_type)].
Definition ServiceClassResource_DeepCopyInto : copier := copied
  [("ServiceEndpointDefinitionMappings", ServiceEndpointDefinitionMappings_DeepCopyInto)].
Definition ServiceClassResource_DeepCopy : copier := pointed ServiceClassResource_DeepCopyInto.

Definition ServiceClassSpec_type : ty := Struct
  [("Constraints", Ptr EnvironmentConstraints_type);
   ("HealthCheck", Ptr HealthCheck_type);
   ("Resource", ServiceClassResource_type);
   ("ServiceClassIdentity", Slice ServiceClassIdentityItem_type)].
Definition ServiceClassSpec_DeepCopyInto : copier := copied
  [("Constraints", pointed EnvironmentConstraints_DeepCopyInto);
   ("HealthCheck", pointed HealthCheck_DeepCopyInto);
   ("Resource", ServiceClassResource_DeepCopyInto);
   ("ServiceClassIdentity", each assigned)].
Definition ServiceClassSpec_DeepCopy : copier := pointed ServiceClassSpec_DeepCopyInto.

Definition ServiceClassStatus_type : ty := Struct
  [("Conditions", Slice Condition_type)].
Definition ServiceClassStatus_DeepCopyInto : copier := copied
  [("Conditions", each Condition_DeepCopyInto)].
Definition ServiceClassStatus_DeepCopy : copier := pointed ServiceClassStatus_DeepCopyInto.

Definition ServiceClass_type : ty := Struct
  [("TypeMeta", TypeMeta_type);
   ("ObjectMeta", ObjectMeta_type);
   ("Spec", ServiceClassSpec_type);
   ("Status", ServiceClassStatus_type)].
Definition ServiceClass_DeepCopyInto : copier := copied
  [("TypeMeta", assigned);
   ("ObjectMeta", ObjectMeta_DeepCopyInto);
   ("Spec", ServiceClassSpec_DeepCopyInto);
   ("Status", ServiceClassStatus_DeepCopyInto)].
Definition ServiceClass_DeepCopy : copier := pointed ServiceClass_DeepCopyInto.
Definition ServiceClass_DeepCopyObject : val → H (option loc) := object_of ServiceClass_DeepCopy.

Definition ServiceClassList_type : ty := Struct
  [("TypeMeta", TypeMeta_type); ("ListMeta", ListMeta_type); ("Items", Slice ServiceClass_type)].
Definition ServiceClassList_DeepCopyInto : copier := copied
  [("TypeMeta", assigned);
   ("ListMeta", ListMeta_DeepCopyInto);
   ("Items", each ServiceClass_DeepCopyInto)].
Definition ServiceClassList_DeepCopy : copier := pointed ServiceClassList_DeepCopyInto.
Definition ServiceClassList_DeepCopyObject : val → H (option loc) := object_of ServiceClassList_DeepCopy.

(** ** Registration *)

Record copyable := { cp_type : ty; cp_DeepCopyInto : copier; cp_DeepCopy : copier }.

(** Everything the file generates. *)
Definition generated : list copyable :=
  [Build_copyable ServiceClassIdentityItem_type ServiceClassIdentityItem_DeepCopyInto ServiceClassIdentityItem_DeepCopy;
   Build_copyable ApplicationSelector_type ApplicationSelector_DeepCopyInto ApplicationSelector_DeepCopy;
   Build_copyable EnvironmentConstraints_type EnvironmentConstraints_DeepCopyInto EnvironmentConstraints_DeepCopy;
   Build_copyable Environment_type Environment_DeepCopyInto Environment_DeepCopy;
   Build_copyable HealthCheckContainer_type HealthCheckContainer_DeepCopyInto HealthCheckContainer_DeepCopy;
   Build_copyable HealthCheck_type HealthCheck_DeepCopyInto HealthCheck_DeepCopy;
   Build_copyable ClusterEnvironmentSpec_type ClusterEnvironmentSpec_DeepCopyInto ClusterEnvironmentSpec_DeepCopy;
   Build_copyable ClusterEnvironmentStatus_type ClusterEnvironmentStatus_DeepCopyInto ClusterEnvironmentStatus_DeepCopy;
   Build_copyable ClusterEnvironment_type ClusterEnvironment_DeepCopyInto ClusterEnvironment_DeepCopy;
   Build_copyable ClusterEnvironmentList_type ClusterEnvironmentList_DeepCopyInto ClusterEnvironmentList_DeepCopy;
   Build_copyable RegisteredServiceConstraints_type RegisteredServiceConstraints_DeepCopyInto RegisteredServiceConstraints_DeepCopy;
   Build_copyable ServiceEndpointDefinitionSecretRef_type ServiceEndpointDefinitionSecretRef_DeepCopyInto ServiceEndpointDefinitionSecretRef_DeepCopy;
   Build_copyable ServiceEndpointDefinitionItem_type ServiceEndpointDefinitionItem_DeepCopyInto ServiceEndpointDefinitionItem_DeepCopy;
   Build_copyable RegisteredServiceSpec_type RegisteredServiceSpec_DeepCopyInto RegisteredServiceSpec_DeepCopy;
   Build_copyable RegisteredServiceStatus_type RegisteredServiceStatus_DeepCopyInto RegisteredServiceStatus_DeepCopy;
   Build_copyable RegisteredService_type RegisteredService_DeepCopyInto RegisteredService_DeepCopy;
   Build_copyable RegisteredServiceList_type RegisteredServiceList_DeepCopyInto RegisteredServiceList_DeepCopy;
   Build_copyable ServiceBindingSpec_type ServiceBindingSpec_DeepCopyInto ServiceBindingSpec_DeepCopy;
   Build_copyable BoundWorkload_type BoundWorkload_DeepCopyInto BoundWorkload_DeepCopy;
   Build_copyable ServiceBindingStatus_type ServiceBindingStatus_DeepCopyInto ServiceBindingStatus_DeepCopy;
   Build_copyable ServiceBinding_type ServiceBinding_DeepCopyInto ServiceBinding_DeepCopy;
   Build_copyable ServiceBindingList_type ServiceBindingList_DeepCopyInto ServiceBindingList_DeepCopy;
   Build_copyable ServiceCatalogService_type ServiceCatalogService_DeepCopyInto ServiceCatalogService_DeepCopy;
   Build_copyable ServiceCatalogServiceByLabel_type ServiceCatalogServiceByLabel_DeepCopyInto ServiceCatalogServiceByLabel_DeepCopy;
   Build_copyable ServiceCatalogSpec_type ServiceCatalogSpec_DeepCopyInto ServiceCatalogSpec_DeepCopy;
   Build_copyable ServiceCatalog_type ServiceCatalog_DeepCopyInto ServiceCatalog_DeepCopy;
   Build_copyable ServiceCatalogList_type ServiceCatalogList_DeepCopyInto ServiceCatalogList_DeepCopy;
   Build_copyable ServiceClaimApplicationClusterContext_type ServiceClaimApplicationClusterContext_DeepCopyInto ServiceClaimApplicationClusterContext_DeepCopy;
   Build_copyable ServiceClaimTarget_type ServiceClaimTarget_DeepCopyInto ServiceClaimTarget_DeepCopy;
   Build_copyable ServiceClaimSpec_type ServiceClaimSpec_DeepCopyInto ServiceClaimSpec_DeepCopy;
   Build_copyable ServiceClaimStatus_type ServiceClaimStatus_DeepCopyInto ServiceClaimStatus_DeepCopy;
   Build_copyable ServiceClaim_type ServiceClaim_DeepCopyInto ServiceClaim_DeepCopy;
   Build_copyable ServiceClaimList_type ServiceClaimList_DeepCopyInto ServiceClaimList_DeepCopy;
   Build_copyable ServiceClassResourceFieldMapping_type ServiceClassResourceFieldMapping_DeepCopyInto ServiceClassResourceFieldMapping_DeepCopy;
   Build_copyable FieldMapping_type FieldMapping_DeepCopyInto FieldMapping_DeepCopy;
   Build_copyable ServiceClassSecretRefFieldMapping_type ServiceClassSecretRefFieldMapping_DeepCopyInto ServiceClassSecretRefFieldMapping_DeepCopy;
   Build_copyable ServiceEndpointDefinitionMappings_type ServiceEndpointDefinitionMappings_DeepCopyInto ServiceEndpointDefinitionMappings_DeepCopy;
   Build_copyable ServiceClassResource_type ServiceClassResource_DeepCopyInto ServiceClassResource_DeepCopy;
   Build_copyable ServiceClassSpec_type ServiceClassSpec_DeepCopyInto ServiceClassSpec_DeepCopy;
   Build_copyable ServiceClassStatus_type ServiceClassStatus_DeepCopyInto ServiceClassStatus_DeepCopy;
   Build_copyable ServiceClass_type ServiceClass_DeepCopyInto ServiceClass_DeepCopy;
   Build_copyable ServiceClassList_type ServiceClassList_DeepCopyInto ServiceClassList_DeepCopy].

(** An object given to the scheme, by its type and method. *)
Record registration := { reg_type : ty; reg_DeepCopyObject : val → H (option loc) }.

Definition ClusterEnvironment_init : list registration :=
  [Build_registration ClusterEnvironment_type ClusterEnvironment_DeepCopyObject;
   Build_registration ClusterEnvironmentList_type ClusterEnvironmentList_DeepCopyObject].
Definition RegisteredService_init : list registration :=
  [Build_registration RegisteredService_type RegisteredService_DeepCopyObject;
   Build_registration RegisteredServiceList_type RegisteredServiceList_DeepCopyObject].
Definition ServiceBinding_init : list registration :=
  [Build_registration ServiceBinding_type ServiceBinding_DeepCopyObject;
   Build_registration ServiceBindingList_type ServiceBindingList_DeepCopyObject].
Definition ServiceCatalog_init : list registration :=
  [Build_registration ServiceCatalog_type ServiceCatalog_DeepCopyObject;
   Build_registration ServiceCatalogList_type ServiceCatalogList_DeepCopyObject].
Definition ServiceClaim_init : list registration :=
  [Build_registration ServiceClaim_type ServiceClaim_DeepCopyObject;
   Build_registration ServiceClaimList_type ServiceClaimList_DeepCopyObject].
Definition ServiceClass_init : list registration :=
  [Build_registration ServiceClass_type ServiceClass_DeepCopyObject;
   Build_registration ServiceClassList_type ServiceClassList_DeepCopyObject].

(** What [AddToScheme] adds: what the files' [init] functions have registered. *)
Definition SchemeBuilder : list registration :=
  ClusterEnvironment_init ++
  RegisteredService_init ++
  ServiceBinding_init ++
  ServiceCatalog_init ++
  ServiceClaim_init ++
  ServiceClass_init.
End Generated.

(** ** They copy deeply *)

Create HintDb deepcopy discriminated.
#[export] Hint Constants Opaque : deepcopy.
#[export] Hint Resolve pointed_ok each_ok ListMeta_copies ObjectMeta_copies Condition_copies
  LabelSelector_copies : deepcopy.
#[export] Hint Resolve assigned_ok | 5 : deepcopy.
#[export] Hint Extern 1 (flat _ = true) => first [reflexivity|apply TypeMeta_flat|apply ObjectReference_flat] : deepcopy.
#[export] Hint Constructors covers : deepcopy.

(** The names of the fields are different, and every statement does what it should. *)
Ltac copies := apply copied_ok; [typeclasses eauto with deepcopy|apply (bool_decide_unpack _); vm_compute; exact I].

Section Copies.
Context `{MetaLibLaws}.

Lemma ServiceClassIdentityItem_copies : deep_copies ServiceClassIdentityItem_DeepCopyInto ServiceClassIdentityItem_type.
Proof. copies. Qed.
#[local] Hint Resolve ServiceClassIdentityItem_copies : deepcopy.
Lemma ApplicationSelector_copies : deep_copies ApplicationSelector_DeepCopyInto ApplicationSelector_type.
Proof. copies. Qed.
#[local] Hint Resolve ApplicationSelector_copies : deepcopy.
Lemma EnvironmentConstraints_copies : deep_copies EnvironmentConstraints_DeepCopyInto EnvironmentConstraints_type.
Proof. copies. Qed.
#[local] Hint Resolve EnvironmentConstraints_copies : deepcopy.
Lemma Environment_copies : deep_copies Environment_DeepCopyInto Environment_type.
Proof. copies. Qed.
#[local] Hint Resolve Environment_copies : deepcopy.
Lemma HealthCheckContainer_copies : deep_copies HealthCheckContainer_DeepCopyInto HealthCheckContainer_type.
Proof. copies. Qed.
#[local] Hint Resolve HealthCheckContainer_copies : deepcopy.
Lemma HealthCheck_copies : deep_copies HealthCheck_DeepCopyInto HealthCheck_type.
Proof. copies. Qed.
#[local] Hint Resolve HealthCheck_copies : deepcopy.
Lemma ClusterEnvironmentSpec_copies : deep_copies ClusterEnvironmentSpec_DeepCopyInto ClusterEnvironmentSpec_type.
Proof. copies. Qed.
#[local] Hint Resolve ClusterEnvironmentSpec_copies : deepcopy.
Lemma ClusterEnvironmentStatus_copies : deep_copies ClusterEnvironmentStatus_DeepCopyInto ClusterEnvironmentStatus_type.
Proof. copies. Qed.
#[local] Hint Resolve ClusterEnvironmentStatus_copies : deepcopy.
Lemma ClusterEnvironment_copies : deep_copies ClusterEnvironment_DeepCopyInto ClusterEnvironment_type.
Proof. copies. Qed.
#[local] Hint Resolve ClusterEnvironment_copies : deepcopy.
Lemma ClusterEnvironmentList_copies : deep_copies ClusterEnvironmentList_DeepCopyInto ClusterEnvironmentList_type.
Proof. copies. Qed.
#[local] Hint Resolve ClusterEnvironmentList_copies : deepcopy.
Lemma RegisteredServiceConstraints_copies : deep_copies RegisteredServiceConstraints_DeepCopyInto RegisteredServiceConstraints_type.
Proof. copies. Qed.
#[local] Hint Resolve RegisteredServiceConstraints_copies : deepcopy.
Lemma ServiceEndpointDefinitionSecretRef_copies : deep_copies ServiceEndpointDefinitionSecretRef_DeepCopyInto ServiceEndpointDefinitionSecretRef_type.
Proof. copies. Qed.
#[local] Hint Resolve ServiceEndpointDefinitionSecretRef_copies : deepcopy.
Lemma ServiceEndpointDefinitionItem_copies : deep_copies ServiceEndpointDefinitionItem_DeepCopyInto ServiceEndpointDefinitionItem_type.
Proof. copies. Qed.
#[local] Hint Resolve ServiceEndpointDefinitionItem_copies : deepcopy.
Lemma RegisteredServiceSpec_copies : deep_copies RegisteredServiceSpec_DeepCopyInto RegisteredServiceSpec_type.
Proof. copies. Qed.
#[local] Hint Resolve RegisteredServiceSpec_copies : deepcopy.
Lemma RegisteredServiceStatus_copies : deep_copies RegisteredServiceStatus_DeepCopyInto RegisteredServiceStatus_type.
Proof. copies. Qed.
#[local] Hint Resolve RegisteredServiceStatus_copies : deepcopy.
Lemma RegisteredService_copies : deep_copies RegisteredService_DeepCopyInto RegisteredService_type.
Proof. copies. Qed.
#[local] Hint Resolve RegisteredService_copies : deepcopy.
Lemma RegisteredServiceList_copies : deep_copies RegisteredServiceList_DeepCopyInto RegisteredServiceList_type.
Proof. copies. Qed.
#[local] Hint Resolve RegisteredServiceList_copies : deepcopy.
Lemma ServiceBindingSpec_copies : deep_copies ServiceBindingSpec_DeepCopyInto ServiceBindingSpec_type.
Proof. copies. Qed.
#[local] Hint Resolve ServiceBindingSpec_copies : deepcopy.
Lemma BoundWorkload_copies : deep_copies BoundWorkload_DeepCopyInto BoundWorkload_type.
Proof. copies. Qed.
#[local] Hint Resolve BoundWorkload_copies : deepcopy.
Lemma ServiceBindingStatus_copies : deep_copies ServiceBindingStatus_DeepCopyInto ServiceBindingStatus_type.
Proof. copies. Qed.
#[local] Hint Resolve ServiceBindingStatus_copies : deepcopy.
Lemma ServiceBinding_copies : deep_copies ServiceBinding_DeepCopyInto ServiceBinding_type.
Proof. copies. Qed.
#[local] Hint Resolve ServiceBinding_copies : deepcopy.
Lemma ServiceBindingList_copies : deep_copies ServiceBindingList_DeepCopyInto ServiceBindingList_type.
Proof. copies. Qed.
#[local] Hint Resolve ServiceBindingList_copies : deepcopy.
Lemma ServiceCatalogService_copies : deep_copies ServiceCatalogService_DeepCopyInto ServiceCatalogService_type.
Proof. copies. Qed.
#[local] Hint Resolve ServiceCatalogService_copies : deepcopy.
Lemma ServiceCatalogServiceByLabel_copies : deep_copies ServiceCatalogServiceByLabel_DeepCopyInto ServiceCatalogServiceByLabel_type.
Proof. copies. Qed.
#[local] Hint Resolve ServiceCatalogServiceByLabel_copies : deepcopy.
Lemma ServiceCatalogSpec_copies : deep_copies ServiceCatalogSpec_DeepCopyInto ServiceCatalogSpec_type.
Proof. copies. Qed.
#[local] Hint Resolve ServiceCatalogSpec_copies : deepcopy.
Lemma ServiceCatalog_copies : deep_copies ServiceCatalog_DeepCopyInto ServiceCatalog_type.
Proof. copies. Qed.
#[local] Hint Resolve ServiceCatalog_copies : deepcopy.
Lemma ServiceCatalogList_copies : deep_copies ServiceCatalogList_DeepCopyInto ServiceCatalogList_type.
Proof. copies. Qed.
#[local] Hint Resolve ServiceCatalogList_copies : deepcopy.
Lemma ServiceClaimApplicationClusterContext_copies : deep_copies ServiceClaimApplicationClusterContext_DeepCopyInto ServiceClaimApplicationClusterContext_type.
Proof. copies. Qed.
#[local] Hint Resolve ServiceClaimApplicationClusterContext_copies : deepcopy.
Lemma ServiceClaimTarget_copies : deep_copies ServiceClaimTarget_DeepCopyInto ServiceClaimTarget_type.
Proof. copies. Qed.
#[local] Hint Resolve ServiceClaimTarget_copies : deepcopy.
Lemma ServiceClaimSpec_copies : deep_copies ServiceClaimSpec_DeepCopyInto ServiceClaimSpec_type.
Proof. copies. Qed.
#[local] Hint Resolve ServiceClaimSpec_copies : deepcopy.
Lemma ServiceClaimStatus_copies : deep_copies ServiceClaimStatus_DeepCopyInto ServiceClaimStatus_type.
Proof. copies. Qed.
#[local] Hint Resolve ServiceClaimStatus_copies : deepcopy.
Lemma ServiceClaim_copies : deep_copies ServiceClaim_DeepCopyInto ServiceClaim_type.
Proof. copies. Qed.
#[local] Hint Resolve ServiceClaim_copies : deepcopy.
Lemma ServiceClaimList_copies : deep_copies ServiceClaimList_DeepCopyInto ServiceClaimList_type.
Proof. copies. Qed.
#[local] Hint Resolve ServiceClaimList_copies : deepcopy.
Lemma ServiceClassResourceFieldMapping_copies : deep_copies ServiceClassResourceFieldMapping_DeepCopyInto ServiceClassResourceFieldMapping_type.
Proof. copies. Qed.
#[local] Hint Resolve ServiceClassResourceFieldMapping_copies : deepcopy.
Lemma FieldMapping_copies : deep_copies FieldMapping_DeepCopyInto FieldMapping_type.
Proof. copies. Qed.
#[local] Hint Resolve FieldMapping_copies : deepcopy.
Lemma ServiceClassSecretRefFieldMapping_copies : deep_copies ServiceClassSecretRefFieldMapping_DeepCopyInto ServiceClassSecretRefFieldMapping_type.
Proof. copies. Qed.
#[local] Hint Resolve ServiceClassSecretRefFieldMapping_copies : deepcopy.
Lemma ServiceEndpointDefinitionMappings_copies : deep_copies ServiceEndpointDefinitionMappings_DeepCopyInto ServiceEndpointDefinitionMappings_type.
Proof. copies. Qed.
#[local] Hint Resolve ServiceEndpointDefinitionMappings_copies : deepcopy.
Lemma ServiceClassResource_copies : deep_copies ServiceClassResource_DeepCopyInto ServiceClassResource_type.
Proof. copies. Qed.
#[local] Hint Resolve ServiceClassResource_copies : deepcopy.
Lemma ServiceClassSpec_copies : deep_copies ServiceClassSpec_DeepCopyInto ServiceClassSpec_type.
Proof. copies. Qed.
#[local] Hint Resolve ServiceClassSpec_copies : deepcopy.
Lemma ServiceClassStatus_copies : deep_copies ServiceClassStatus_DeepCopyInto ServiceClassStatus_type.
Proof. copies. Qed.
#[local] Hint Resolve ServiceClassStatus_copies : deepcopy.
Lemma ServiceClass_copies : deep_copies ServiceClass_DeepCopyInto ServiceClass_type.
Proof. copies. Qed.
#[local] Hint Resolve ServiceClass_copies : deepcopy.
Lemma ServiceClassList_copies : deep_copies ServiceClassList_DeepCopyInto ServiceClassList_type.
Proof. copies. Qed.
#[local] Hint Resolve ServiceClassList_copies : deepcopy.

Lemma generated_copies : Forall (λ x, deep_copies (cp_DeepCopyInto x) (cp_type x) ∧
  cp_DeepCopy x = pointed (cp_DeepCopyInto x)) generated.
Proof.
  unfold generated. repeat (apply Forall_cons; split; [split; [cbn [cp_DeepCopyInto cp_type]; typeclasses eauto with deepcopy|reflexivity]|]). constructor.
Qed.

(** C20: deep copies share nothing.  For each type of the API group: whatever can be read of
    the object that a pointer refers to, [DeepCopy] returns without a panic a pointer to an
    object of which the same can be read, and the two have no cell in common: writing to
    any cells but those of the original (to the copy, say) leaves what is read of the
    original as it is, and writing to any but those of the copy leaves the copy. *)
Theorem deep_copies_are_independent x h p t D :
  x ∈ generated → read h (Ptr (cp_type x)) p = Some (t, D) →
  ∃ p' h' D', cp_DeepCopy x p h = Some (p', h') ∧ D ## D' ∧
    (∀ h2, (∀ l, l ∉ D' → h2 !! l = h' !! l) → read h2 (Ptr (cp_type x)) p = Some (t, D)) ∧
    (∀ h2, (∀ l, l ∉ D → h2 !! l = h' !! l) → read h2 (Ptr (cp_type x)) p' = Some (t, D')).
Proof.
  intros Hx Hr. assert (Hg := generated_copies). rewrite Forall_forall in Hg.
  destruct (Hg x Hx) as [Hc ->]. by apply pointed_independent.
Qed.

Lemma SchemeBuilder_copies : Forall (λ r, ∃ C, deep_copies C (reg_type r) ∧
  reg_DeepCopyObject r = object_of (pointed C)) SchemeBuilder.
Proof.
  unfold SchemeBuilder. repeat apply Forall_app_2.
  all: repeat (apply Forall_cons; split; [eexists; split; [|reflexivity]; cbn [reg_type]; typeclasses eauto with deepcopy|]).
  all: constructor.
Qed.

(** The objects of the scheme: the copy of a nil pointer is a nil interface, and not an
    interface that holds a nil pointer; that of another one is a new object. *)
Theorem registered_objects_are_copied r h p t D :
  r ∈ SchemeBuilder → read h (Ptr (reg_type r)) p = Some (t, D) →
  (p = VPtr None ∧ reg_DeepCopyObject r p h = Some (None, h)) ∨
  ∃ l h' D', reg_DeepCopyObject r p h = Some (Some l, h') ∧ h ⊆ h' ∧
    read h' (Ptr (reg_type r)) (VPtr (Some l)) = Some (t, D') ∧ D' ## dom h.
Proof.
  intros Hin Hr. assert (Hall := SchemeBuilder_copies). rewrite Forall_forall in Hall.
  destruct (Hall r Hin) as (C & HC & ->).
  destruct p as [| |[l|]|]; try done; [right|by left].
  destruct (pointed_ok _ _ HC _ _ _ _ Hr) as (p' & h' & D' & Hrun & Hh & Hr' & HD).
  destruct p' as [| |[l'|]|]; try done.
  - exists l', h', D'. unfold object_of, mbind, H_bind. by rewrite Hrun.
  - injection Hr' as <- <-. apply read_ptr in Hr as (? & ? & ? & _ & _ & [=] & _).
Qed.
End Copies.

(** ** A target in a heap *)

Module Example.

Abbreviation entries := (Slice (Struct [("Key", Prim); ("Value", Prim)])).

(** The types of apimachinery, as far as they matter here. *)
#[local] Instance meta : MetaLib := {|
  TypeMeta_type := Struct [("Kind", Prim); ("APIVersion", Prim)];
  ListMeta_type := Struct [("ResourceVersion", Prim); ("RemainingItemCount", Ptr Prim)];
  ObjectMeta_type := Struct [("Name", Prim); ("DeletionTimestamp", Ptr Prim); ("Labels", entries);
    ("OwnerReferences", Slice (Struct [("Name", Prim); ("Controller", Ptr Prim)])); ("Finalizers", Slice Prim)];
  Condition_type := Struct [("Type", Prim); ("Status", Prim); ("Reason", Prim)];
  LabelSelector_type := Struct [("MatchLabels", entries);
    ("MatchExpressions", Slice (Struct [("Key", Prim); ("Operator", Prim); ("Values", Slice Prim)]))];
  ObjectReference_type := Struct [("Name", Prim); ("UID", Prim)];
  ListMeta_DeepCopyInto := copied [("RemainingItemCount", pointed assigned)];
  ObjectMeta_DeepCopyInto := copied [("DeletionTimestamp", pointed assigned); ("Labels", each assigned);
    ("OwnerReferences", each (copied [("Controller", pointed assigned)])); ("Finalizers", each assigned)];
  Condition_DeepCopyInto := assigned;
  LabelSelector_DeepCopyInto := copied [("MatchLabels", each assigned);
    ("MatchExpressions", each (copied [("Values", each assigned)]))] |}.

#[local] Hint Extern 2 (deep_copies (copied _) (Struct _)) => copies : deepcopy.
#[local] Instance meta_laws : MetaLibLaws.
Proof.
  split; try reflexivity; cbn -[deep_copies].
  - copies.
  - copies.
  - by apply assigned_ok.
  - copies.
Qed.

(** A claim's target at 1; it refers to its context at 2. *)
Definition context : val := VStruct {["ClusterEnvironmentName" := VPrim "worker"; "Namespace" := VPrim "applications"]}.
Definition memory : heap :=
  {[1%positive := [VStruct {["EnvironmentTag" := VPrim ""; "ApplicationClusterContext" := VPtr (Some 2%positive)]}];
    2%positive := [context]]}.
Definition target : val := VPtr (Some 1%positive).
Definition contents : tree :=
  Ref (Node [("EnvironmentTag", Leaf "");
             ("ApplicationClusterContext",
                Ref (Node [("ClusterEnvironmentName", Leaf "worker"); ("Namespace", Leaf "applications")]))]).

(** Changing the namespace in the original's context is not seen in the copy. *)
Lemma deep_copies_are_independent_witness :
  ∃ p' h' D', ServiceClaimTarget_DeepCopy target memory = Some (p', h') ∧
    read (<[2%positive := [VStruct {["ClusterEnvironmentName" := VPrim "worker"; "Namespace" := VPrim ""]}]]> h')
      (Ptr ServiceClaimTarget_type) p' = Some (contents, D').
Proof.
  destruct (deep_copies_are_independent
    (Build_copyable ServiceClaimTarget_type ServiceClaimTarget_DeepCopyInto ServiceClaimTarget_DeepCopy)
    memory target contents {[1%positive; 2%positive]}) as (p' & h' & D' & Hrun & _ & _ & Hr).
  - unfold generated. do 28 apply list_elem_of_further. apply list_elem_of_here.
  - vm_compute. reflexivity.
  - exists p', h', D'. split; [exact Hrun|]. apply Hr. intros l Hl. apply lookup_insert_ne. set_solver.
Defined.
End Example.
